(** * Bullview: parsers, combiner and periodic-boundary renderer state

    A shallow embedding of the topology and configuration parsers, of
    [DataCombiner.combine] (parsers.js) and of the position bookkeeping of
    [DNARenderer] (renderer.js): [loadData], [shiftParticles],
    [updateParticlePositions].
    The second part adds the selection of [InteractionManager]
    (interactions.js), the file handling and the selection panel of the
    application controller, and the colour, vector and level-of-detail
    helpers of utils.js.

    Conventions of the embedding.
    - A JavaScript string is the list of its UTF-16 code units.
    - A JavaScript number is a rational, an infinity or NaN, without a
      negative zero. The sums of the renderer ([wrap], the box offset) are
      rounded, by a rounding that the renderer takes as a parameter;
      [Binary64] is the rounding of IEEE doubles, to nearest with ties to
      even, and the numbers the parsers read are rounded by it. The
      remainder [%] of two doubles is a double, so that it is not rounded.
      The helpers of utils.js are kept over exact rationals. Results of
      [parseInt] are integers or NaN.
    - [BABYLON.Vector3] objects live in a store and are named by their
      address, so that two references to one object are told apart from two
      copies. Plain object literals that the code never mutates are values.
    - A thrown exception is a result of its own. The engine throws
      RangeError when an array would grow beyond [2 ^ 32 - 1] elements and
      when a call spreads more arguments than it accepts, a number that
      depends on the engine and is a parameter here. Memory is not bounded
      otherwise. A file that cannot be read rejects the promise of
      [handleFiles]. Nothing else can fail.
    - Meshes, materials and console output are left out: they do not feed
      back into the data modelled here. The camera step of [loadData] is
      computed, since it can throw, and its result is not kept. *)

From Stdlib Require Import ZArith QArith Qround Qabs Qpower Lia Lqa String Ascii.
From stdpp Require Import base option list gmap sorting.

Local Open Scope Z_scope.

(** ** JavaScript values *)

Module JS.

(** *** Exceptions and results *)

Inductive exn : Type :=
| TypeError
| RangeError
| Error (message : string).

Inductive result (A : Type) : Type :=
| Ok (a : A)
| Throw (e : exn).
Arguments Ok {A} a.
Arguments Throw {A} e.

Definition bind {A B} (c : result A) (k : A -> result B) : result B :=
  match c with
  | Ok a => k a
  | Throw e => Throw e
  end.

(** Reading a property of [undefined] throws a [TypeError]. *)
Definition defined {A} (o : option A) : result A :=
  match o with
  | Some a => Ok a
  | None => Throw TypeError
  end.

(** *** Strings *)

Definition jsstring : Type := list N.

Definition js (s : string) : jsstring :=
  List.map N_of_ascii (list_ascii_of_string s).

(** WhiteSpace and LineTerminator code points: what [trim] strips and what
    the regular expression class [\s] matches. *)
Definition is_space (c : N) : bool :=
  (((9 <=? c) && (c <=? 13)) || (c =? 32) || (c =? 160) || (c =? 5760)
   || ((8192 <=? c) && (c <=? 8202)) || (c =? 8232) || (c =? 8233)
   || (c =? 8239) || (c =? 8287) || (c =? 12288) || (c =? 65279))%N.

Fixpoint drop_spaces (s : jsstring) : jsstring :=
  match s with
  | [] => []
  | c :: s' => if is_space c then drop_spaces s' else s
  end.

Definition trim (s : jsstring) : jsstring :=
  rev (drop_spaces (rev (drop_spaces s))).

(** [s.split(sep)] for a one-character separator. *)
Fixpoint split_on (sep : N) (s : jsstring) : list jsstring :=
  match s with
  | [] => [[]]
  | c :: s' =>
      if (c =? sep)%N then [] :: split_on sep s'
      else match split_on sep s' with
           | [] => [[c]]
           | t :: ts => (c :: t) :: ts
           end
  end.

(** [s.split(/\s+/)]: [cur] is the token being read, in reverse, and
    [in_sep] tells that the previous character belonged to a separator. *)
Fixpoint split_spaces_from (in_sep : bool) (cur s : jsstring) : list jsstring :=
  match s with
  | [] => [rev cur]
  | c :: s' =>
      if is_space c then
        if in_sep then split_spaces_from true cur s'
        else rev cur :: split_spaces_from true [] s'
      else split_spaces_from false (c :: cur) s'
  end.

Definition split_spaces (s : jsstring) : list jsstring :=
  split_spaces_from false [] s.

Fixpoint startsWith (s pre : jsstring) : bool :=
  match pre, s with
  | [], _ => true
  | p :: pre', c :: s' => (c =? p)%N && startsWith s' pre'
  | _ :: _, [] => false
  end.

(** A string is truthy when it is not empty. *)
Definition truthy_string (s : jsstring) : bool :=
  match s with
  | [] => false
  | _ :: _ => true
  end.

Definition string_eqb (s t : jsstring) : bool :=
  bool_decide (s = t).

(** *** Numbers *)

Inductive number : Type :=
| Fin (q : Q)
| PInf
| NInf
| NaN.

(** Results of [parseInt]: an integer or NaN. The infinities, which
    [parseInt] returns for a token of more than 308 digits, are the
    integers [2 ^ 1024] and [- 2 ^ 1024], beyond every finite double: the
    program compares these results and uses them as keys and as a loop
    bound, and there an integer beyond every finite double behaves as the
    infinity does. *)
Inductive jsint : Type :=
| Int (z : Z)
| IntNaN.

#[export] Instance jsint_eq_dec : EqDecision jsint.
Proof. solve_decision. Defined.

(** The exact sum of [a] and [b]. *)
Definition add (a b : number) : number :=
  match a, b with
  | NaN, _ | _, NaN => NaN
  | PInf, NInf | NInf, PInf => NaN
  | PInf, _ | _, PInf => PInf
  | NInf, _ | _, NInf => NInf
  | Fin p, Fin q => Fin (p + q)
  end.

(** The remainder of the truncated division of two rationals: it has the
    sign of the dividend. *)
Definition Qrem (a b : Q) : Q :=
  Z.rem (Qnum a * QDen b) (Qnum b * QDen a) # (Qden a * Qden b).

(** [a % b] *)
Definition rem (a b : number) : number :=
  match a, b with
  | Fin p, Fin q => if Qeq_bool q 0 then NaN else Fin (Qrem p q)
  | Fin p, (PInf | NInf) => Fin p
  | _, _ => NaN
  end.

(** [a < b] *)
Definition lt (a b : number) : bool :=
  match a, b with
  | NaN, _ | _, NaN => false
  | Fin p, Fin q => if Qlt_le_dec p q then true else false
  | NInf, (Fin _ | PInf) => true
  | Fin _, PInf => true
  | _, _ => false
  end.

(** [a === b] on results of [parseInt]: NaN equals nothing. *)
Definition int_eqb (a b : jsint) : bool :=
  match a, b with
  | Int x, Int y => x =? y
  | _, _ => false
  end.

(** [a < n] for [n] an array length. *)
Definition int_ltb (a : jsint) (n : nat) : bool :=
  match a with
  | Int x => x <? Z.of_nat n
  | IntNaN => false
  end.

(** Two numbers that denote the same value. *)
Definition same_value (a b : number) : Prop :=
  match a, b with
  | Fin p, Fin q => p == q
  | PInf, PInf | NInf, NInf | NaN, NaN => True
  | _, _ => False
  end.

(** *** Rounding

    The machine keeps doubles: the result of an addition is the exact sum,
    rounded. The position bookkeeping of the renderer is parametric in the
    rounding function; [Binary64.round] below is the one of IEEE 754. The
    remainder [a % b] of two doubles is a double and is not rounded. *)

Class Rounding : Type := { round : Q -> number }.

Definition rounded {R : Rounding} (a : number) : number :=
  match a with
  | Fin q => round q
  | _ => a
  end.

(** [a + b] *)
Definition fadd {R : Rounding} (a b : number) : number := rounded (add a b).

End JS.

Import JS.

#[export] Instance result_ret : MRet result := @Ok.
#[export] Instance result_bind : MBind result := fun A B k c => bind c k.

(** ** Doubles

    Rounding to the nearest double, ties to the even one, of a rational
    number: a double is [m * 2 ^ e] for integers [|m| < 2 ^ 53] and
    [-1074 <= e <= 971], and a result of magnitude [2 ^ 1024] or more is an
    infinity. *)

Module Binary64.

(** The integer nearest to [q]; of two that are equally near, the even
    one. *)
Definition nearest_even (q : Q) : Z :=
  let f := Qfloor q in
  match (q - inject_Z f ?= 1 # 2)%Q with
  | Lt => f
  | Gt => f + 1
  | Eq => if Z.even f then f else f + 1
  end.

(** The integer [k] with [2 ^ k <= q < 2 ^ (k + 1)], for [q > 0]. *)
Definition log2_floor (q : Q) : Z :=
  let k := Z.log2 (Qnum q) - Z.log2 (Zpos (Qden q)) in
  if Qle_bool (2 ^ k) q then k else k - 1.

(** The exponent of the last place of the doubles around [q]. *)
Definition exponent (q : Q) : Z :=
  Z.max (log2_floor (Qabs q) - 52) (-1074).

Definition round (q : Q) : number :=
  if Qeq_bool q 0 then Fin 0
  else
    let e := exponent q in
    let r := (inject_Z (nearest_even (q / 2 ^ e)) * 2 ^ e)%Q in
    if Qle_bool (2 ^ 1024) (Qabs r)
    then if Qle_bool 0 q then PInf else NInf
    else Fin (Qred r).

#[export] Instance rounding : Rounding := {| JS.round := round |}.

End Binary64.

(** ** Built-in conversions

    [parseInt], [parseFloat] and [Number] belong to the language, not to the
    program: the development is parametric in them. Each is total on
    strings. Applied to [undefined] (an array read past the end) [parseInt]
    and [parseFloat] give NaN. *)

Class Builtins : Type := {
  parseInt : jsstring -> jsint;
  parseFloat : jsstring -> number;
  Number : jsstring -> number
}.

(** ** Limits of the engine

    A call takes a bounded number of arguments: [f(...array)] throws a
    RangeError when the array is longer. The bound depends on the engine
    and on its stack, and the development is parametric in it. An array
    holds at most [2 ^ 32 - 1] elements, and the [push] that would make it
    longer throws a RangeError. *)

Class Engine : Type := { max_arguments : N }.

Definition max_array_length : Z := 2 ^ 32 - 1.

(** [f(...args)] *)
Definition spread {E : Engine} {A B} (f : list A -> B) (args : list A) : result B :=
  if (N.of_nat (length args) <=? max_arguments)%N then Ok (f args)
  else Throw RangeError.

Module V3.
Record t : Type := mk { x : number; y : number; z : number }.
End V3.

(** ** Documents (parsers.js) *)

Record Header : Type := {
  numParticles : option number;
  numStrands : option number;
  maxSpringsPerParticle : option number;
  repeatedPatchesPerParticle : option number
}.

Record PatchTemplate : Type := {
  patch_id : jsint;
  patch_color : jsint;
  patch_strength : number;
  patch_position : V3.t
}.

Record SpringTemplate : Type := {
  spring_id : jsint;
  spring_stiffness : number;
  spring_restLength : number;
  spring_position : V3.t
}.

Record Connection : Type := {
  particleIndex : jsint;
  springIndex : jsint
}.

Record ParticleRecord : Type := {
  rec_index : nat;
  rec_type : jsint;
  rec_strand : jsint;
  rec_radius : number;
  rec_mass : number;
  rec_patches : list jsint;
  rec_connections : list Connection
}.

Record TopologyDocument : Type := {
  topo_header : Header;
  topo_patches : list PatchTemplate;
  topo_springs : list SpringTemplate;
  topo_particles : list ParticleRecord
}.

Record NucleotideState : Type := {
  nuc_index : nat;
  nuc_position : V3.t;
  nuc_baseVector : V3.t;
  nuc_normalVector : V3.t;
  nuc_velocity : V3.t;
  nuc_angularVelocity : V3.t
}.

Record Energy : Type := {
  total : number;
  potential : number;
  kinetic : number
}.

Record ConfigurationDocument : Type := {
  conf_timestep : jsint;
  conf_box : V3.t;
  conf_energy : Energy;
  conf_nucleotides : list NucleotideState
}.

(** A line the parsers read: not empty and not a comment
    ([line && !line.startsWith('#')]). *)
Definition significant (line : jsstring) : bool :=
  truthy_string line && negb (startsWith line (js "#")).

(** [content.split('\n').map(line => line.trim())] *)
Definition lines_of (content : jsstring) : list jsstring :=
  List.map trim (split_on 10 content).

(** ** TopologyParser *)

Module TopologyParser.
Section WithBuiltins.
Context {B : Builtins}.

Definition parseInt_at (parts : list jsstring) (k : nat) : jsint :=
  match parts !! k with
  | Some s => parseInt s
  | None => IntNaN
  end.

Definition parseFloat_at (parts : list jsstring) (k : nat) : number :=
  match parts !! k with
  | Some s => parseFloat s
  | None => NaN
  end.

Definition parse_header (line : jsstring) : Header :=
  let parts := List.map Number (split_spaces line) in
  {| numParticles := parts !! 0%nat;
     numStrands := parts !! 1%nat;
     maxSpringsPerParticle := parts !! 2%nat;
     repeatedPatchesPerParticle := parts !! 3%nat |}.

(** The first loop: skip to the first significant line, read it as the
    header and stop after it. [None] when the lines run out. *)
Fixpoint find_header (lines : list jsstring) : option (Header * list jsstring) :=
  match lines with
  | [] => None
  | line :: rest =>
      if significant line then Some (parse_header line, rest)
      else find_header rest
  end.

(** The loop over the tokens left after the patch ids: pairs are read as
    long as two tokens remain. *)
Fixpoint read_connections (rest : list jsstring) : list Connection :=
  match rest with
  | a :: b :: rest' =>
      {| particleIndex := parseInt a; springIndex := parseInt b |}
        :: read_connections rest'
  | _ => []
  end.

(** The loop over the patch ids: [numPatches] turns, each of which pushes
    [parseInt(parts[idx++])], [idx] starting at 5. The loop has no test on
    [parts.length]: with [numPatches] beyond the length of an array the
    push that would make [particlePatches] too long throws. *)
Definition read_patches (parts : list jsstring) (numPatches : jsint)
  : result (list jsint) :=
  match numPatches with
  | Int n =>
      if n <=? max_array_length
      then Ok (List.map (fun i => parseInt_at parts (5 + i)) (seq 0 (Z.to_nat n)))
      else Throw RangeError
  | IntNaN => Ok []
  end.

Definition parse_particle (index : nat) (parts : list jsstring)
  : result ParticleRecord :=
  let numPatches := parseInt_at parts 4 in
  particlePatches ← read_patches parts numPatches;
  let idx := (5 + length particlePatches)%nat in
  mret {| rec_index := index;
          rec_type := parseInt_at parts 0;
          rec_strand := parseInt_at parts 1;
          rec_radius := parseFloat_at parts 2;
          rec_mass := parseFloat_at parts 3;
          rec_patches := particlePatches;
          rec_connections := read_connections (drop idx parts) |}.

Definition tag_is (parts : list jsstring) (tag : string) : bool :=
  match parts !! 0%nat with
  | Some t => string_eqb t (js tag)
  | None => false
  end.

(** One turn of the second loop. *)
Definition parse_line (topology : TopologyDocument) (line : jsstring)
  : result TopologyDocument :=
  if significant line then
    let parts := split_spaces line in
    if tag_is parts "iP" then
      mret
      {| topo_header := topo_header topology;
         topo_patches := topo_patches topology ++
           [{| patch_id := parseInt_at parts 1;
               patch_color := parseInt_at parts 2;
               patch_strength := parseFloat_at parts 3;
               patch_position := V3.mk (parseFloat_at parts 4) (parseFloat_at parts 5)
                                       (parseFloat_at parts 6) |}];
         topo_springs := topo_springs topology;
         topo_particles := topo_particles topology |}
    else if tag_is parts "iS" then
      mret
      {| topo_header := topo_header topology;
         topo_patches := topo_patches topology;
         topo_springs := topo_springs topology ++
           [{| spring_id := parseInt_at parts 1;
               spring_stiffness := parseFloat_at parts 2;
               spring_restLength := parseFloat_at parts 3;
               spring_position := V3.mk (parseFloat_at parts 4) (parseFloat_at parts 5)
                                        (parseFloat_at parts 6) |}];
         topo_particles := topo_particles topology |}
    else
      particle ← parse_particle (length (topo_particles topology)) parts;
      mret
      {| topo_header := topo_header topology;
         topo_patches := topo_patches topology;
         topo_springs := topo_springs topology;
         topo_particles := topo_particles topology ++ [particle] |}
  else mret topology.

(** The second loop, over the lines after the header. *)
Fixpoint parse_lines (lines : list jsstring) (topology : TopologyDocument)
  : result TopologyDocument :=
  match lines with
  | [] => mret topology
  | line :: rest =>
      topology ← parse_line topology line;
      parse_lines rest topology
  end.

Definition no_header : exn := Error "Invalid topology file: no header found".

Definition parse (content : jsstring) : result TopologyDocument :=
  match find_header (lines_of content) with
  | None => Throw no_header
  | Some (header, rest) =>
      parse_lines rest
        {| topo_header := header; topo_patches := [];
           topo_springs := []; topo_particles := [] |}
  end.

End WithBuiltins.
End TopologyParser.

(** ** ConfigurationParser *)

Module ConfigurationParser.
Section WithBuiltins.
Context {B : Builtins}.

(** [line.split('=')[1].trim()] *)
Definition after_equals (line : jsstring) : result jsstring :=
  part ← defined (split_on 61 line !! 1%nat);
  mret (trim part).

(** [line.split('=')[1].trim().split(/\s+/).map(parseFloat)] *)
Definition floats_after_equals (line : jsstring) : result (list number) :=
  s ← after_equals line;
  mret (List.map parseFloat (split_spaces s)).

(** An entry of an array of numbers where the program stores it in a field
    it later computes with: a missing entry is [undefined], which
    arithmetic reads as NaN. *)
Definition entry (parts : list number) (k : nat) : number :=
  default NaN (parts !! k).

Definition triple (parts : list number) (k : nat) : V3.t :=
  V3.mk (entry parts k) (entry parts (k + 1)) (entry parts (k + 2)).

(** One turn of the loop over the data lines. *)
Definition parse_line (nucleotides : list NucleotideState) (line : jsstring)
  : list NucleotideState :=
  if significant line then
    let parts := List.map parseFloat (split_spaces line) in
    if (15 <=? length parts)%nat then
      nucleotides ++
        [{| nuc_index := length nucleotides;
            nuc_position := triple parts 0;
            nuc_baseVector := triple parts 3;
            nuc_normalVector := triple parts 6;
            nuc_velocity := triple parts 9;
            nuc_angularVelocity := triple parts 12 |}]
    else nucleotides
  else nucleotides.

Definition parse (content : jsstring) : result ConfigurationDocument :=
  let lines := lines_of content in
  let currentLine := 0%nat in
  line ← defined (lines !! currentLine);
  '(timestep, currentLine) ←
    (if startsWith line (js "t =") then
       s ← after_equals line; mret (parseInt s, S currentLine)
     else mret (Int 0, currentLine));
  line ← defined (lines !! currentLine);
  '(box, currentLine) ←
    (if startsWith line (js "b =") then
       boxParts ← floats_after_equals line;
       mret (triple boxParts 0, S currentLine)
     else mret (V3.mk (Fin 0) (Fin 0) (Fin 0), currentLine));
  line ← defined (lines !! currentLine);
  '(energy, currentLine) ←
    (if startsWith line (js "E =") then
       energyParts ← floats_after_equals line;
       mret ({| total := entry energyParts 0; potential := entry energyParts 1;
                kinetic := entry energyParts 2 |}, S currentLine)
     else mret ({| total := Fin 0; potential := Fin 0; kinetic := Fin 0 |},
                currentLine));
  mret {| conf_timestep := timestep;
          conf_box := box;
          conf_energy := energy;
          conf_nucleotides := fold_left parse_line (drop currentLine lines) [] |}.

End WithBuiltins.
End ConfigurationParser.

(** ** The store of [BABYLON.Vector3] objects

    An address is the rank of the object in allocation order. A
    computation reads and extends the store and may throw. *)

Abbreviation loc := nat (only parsing).
Abbreviation heap := (list V3.t) (only parsing).
Definition M (A : Type) : Type := heap -> result (A * heap).

#[export] Instance M_ret : MRet M := fun A a h => Ok (a, h).
#[export] Instance M_bind : MBind M := fun A B k c h =>
  match c h with
  | Ok (a, h') => k a h'
  | Throw e => Throw e
  end.

Definition lift {A} (c : result A) : M A := fun h =>
  match c with
  | Ok a => Ok (a, h)
  | Throw e => Throw e
  end.

(** [new BABYLON.Vector3(x, y, z)] *)
Definition new_Vector3 (v : V3.t) : M loc := fun h => Ok (length h, h ++ [v]).

(** Reading the coordinates of the object at [l]. *)
Definition read (l : loc) : M V3.t := fun h =>
  match h !! l with
  | Some v => Ok (v, h)
  | None => Throw TypeError
  end.

(** Assigning the three coordinates of the object at [l]. *)
Definition write (l : loc) (v : V3.t) : M unit := fun h => Ok (tt, <[l := v]> h).

(** [v.clone()] *)
Definition clone (l : loc) : M loc :=
  v ← read l; new_Vector3 v.

(** ** The structure graph *)

Record Particle : Type := {
  index : nat;
  type : jsint;
  strand : jsint;
  radius : number;
  mass : number;
  patches : list PatchTemplate;
  connections : list Connection;
  position : loc;
  baseVector : loc;
  normalVector : loc;
  velocity : loc;
  angularVelocity : loc
}.

Record Bond : Type := {
  from : nat;
  to : jsint;
  spring : option SpringTemplate
}.

Record Metadata : Type := {
  md_timestep : jsint;
  md_box : option V3.t;
  md_energy : Energy;
  md_numStrands : option number
}.

Record StructureGraph : Type := {
  particles : list Particle;
  bonds : list Bond;
  metadata : Metadata
}.

(** An array index as a number. *)
Definition idx (n : nat) : jsint := Int (Z.of_nat n).

(** ** DataCombiner *)

Module DataCombiner.

(** [topology.patches.find(p => p.id === patchId)] *)
Definition find_patch (topology : TopologyDocument) (patchId : jsint)
  : option PatchTemplate :=
  List.find (fun p => int_eqb (patch_id p) patchId) (topo_patches topology).

(** [topology.springs.find(s => s.id === connection.springIndex)] *)
Definition find_spring (topology : TopologyDocument) (springIndex : jsint)
  : option SpringTemplate :=
  List.find (fun s => int_eqb (spring_id s) springIndex) (topo_springs topology).

(** The body of the first loop, for the index [i]. *)
Definition merge (topology : TopologyDocument) (configuration : ConfigurationDocument)
    (i : nat) : M Particle :=
  topoParticle ← lift (defined (topo_particles topology !! i));
  configNucleotide ← lift (defined (conf_nucleotides configuration !! i));
  let patchesData := omap (find_patch topology) (rec_patches topoParticle) in
  position ← new_Vector3 (nuc_position configNucleotide);
  baseVector ← new_Vector3 (nuc_baseVector configNucleotide);
  normalVector ← new_Vector3 (nuc_normalVector configNucleotide);
  velocity ← new_Vector3 (nuc_velocity configNucleotide);
  angularVelocity ← new_Vector3 (nuc_angularVelocity configNucleotide);
  mret {| index := i;
          type := rec_type topoParticle;
          strand := rec_strand topoParticle;
          radius := rec_radius topoParticle;
          mass := rec_mass topoParticle;
          patches := patchesData;
          connections := rec_connections topoParticle;
          position := position;
          baseVector := baseVector;
          normalVector := normalVector;
          velocity := velocity;
          angularVelocity := angularVelocity |}.

(** The test of [bonds.find]: the bond joins [index] and [peer], in either
    direction. *)
Definition joins (index : nat) (peer : jsint) (b : Bond) : bool :=
  (int_eqb (idx (from b)) (idx index) && int_eqb (to b) peer)
  || (int_eqb (idx (from b)) peer && int_eqb (to b) (idx index)).

(** The body of the inner loop of the bond derivation; [n] is
    [particles.length]. *)
Definition add_connection (topology : TopologyDocument) (n : nat) (particle : Particle)
    (bonds : list Bond) (connection : Connection) : list Bond :=
  let existingBond := List.find (joins (index particle) (particleIndex connection)) bonds in
  if negb (bool_decide (is_Some existingBond)) && int_ltb (particleIndex connection) n then
    bonds ++ [{| from := index particle;
                 to := particleIndex connection;
                 spring := find_spring topology (springIndex connection) |}]
  else bonds.

Definition derive_bonds (topology : TopologyDocument) (particles : list Particle)
  : list Bond :=
  fold_left
    (fun bonds particle =>
       fold_left (add_connection topology (length particles) particle)
                 (connections particle) bonds)
    particles [].

Definition combine (topology : TopologyDocument) (configuration : ConfigurationDocument)
  : M StructureGraph :=
  let count := Nat.min (length (topo_particles topology))
                       (length (conf_nucleotides configuration)) in
  particles ← mapM (merge topology configuration) (seq 0 count);
  let bonds := derive_bonds topology particles in
  mret {| particles := particles;
          bonds := bonds;
          metadata := {| md_timestep := conf_timestep configuration;
                         md_box := Some (conf_box configuration);
                         md_energy := conf_energy configuration;
                         md_numStrands := numStrands (topo_header topology) |} |}.

End DataCombiner.

(** ** utils.js: numbers and vectors

    The helpers of utils.js are kept over exact rationals: their sums,
    products and quotients are not rounded. *)

(** [a * b] *)
Definition mul (a b : number) : number :=
  match a, b with
  | NaN, _ | _, NaN => NaN
  | Fin p, Fin q => Fin (p * q)
  | PInf, Fin q | Fin q, PInf =>
      if Qeq_bool q 0 then NaN else if Qlt_le_dec 0 q then PInf else NInf
  | NInf, Fin q | Fin q, NInf =>
      if Qeq_bool q 0 then NaN else if Qlt_le_dec 0 q then NInf else PInf
  | PInf, PInf | NInf, NInf => PInf
  | PInf, NInf | NInf, PInf => NInf
  end.

(** [a / b]; a zero divisor is the positive zero. *)
Definition div (a b : number) : number :=
  match a, b with
  | NaN, _ | _, NaN => NaN
  | Fin p, Fin q =>
      if Qeq_bool q 0
      then if Qeq_bool p 0 then NaN else if Qlt_le_dec 0 p then PInf else NInf
      else Fin (p / q)
  | Fin _, (PInf | NInf) => Fin 0
  | PInf, Fin q => if Qlt_le_dec q 0 then NInf else PInf
  | NInf, Fin q => if Qlt_le_dec q 0 then PInf else NInf
  | _, _ => NaN
  end.

(** An array length as a number. *)
Definition of_length (n : nat) : number := Fin (inject_Z (Z.of_nat n)).

(** [Math.min(...values)] and [Math.max(...values)]: NaN as soon as one
    value is NaN, and the infinities for no value at all. *)
Definition min2 (a b : number) : number :=
  match a, b with
  | NaN, _ | _, NaN => NaN
  | _, _ => if lt b a then b else a
  end.

Definition max2 (a b : number) : number :=
  match a, b with
  | NaN, _ | _, NaN => NaN
  | _, _ => if lt a b then b else a
  end.

Definition Math_min (values : list number) : number := fold_left min2 values PInf.
Definition Math_max (values : list number) : number := fold_left max2 values NInf.

(** [BABYLON.Vector3]: [a.add(b)], [v.scale(s)] and [a.subtract(b)] make a
    new vector; the functions of [VectorUtils] read their arguments and
    return new vectors, so they are functions of the coordinates. *)
Definition Vector3_add (a b : V3.t) : V3.t :=
  V3.mk (add (V3.x a) (V3.x b)) (add (V3.y a) (V3.y b)) (add (V3.z a) (V3.z b)).

Definition Vector3_scale (v : V3.t) (s : number) : V3.t :=
  V3.mk (mul (V3.x v) s) (mul (V3.y v) s) (mul (V3.z v) s).

Module VectorUtils.

Definition calculateCenterOfMass (positions : list V3.t) : V3.t :=
  if (length positions =? 0)%nat then V3.mk (Fin 0) (Fin 0) (Fin 0)
  else
    let sum := fold_left Vector3_add positions (V3.mk (Fin 0) (Fin 0) (Fin 0)) in
    Vector3_scale sum (div (Fin 1) (of_length (length positions))).

Record BoundingBox : Type := { min : V3.t; max : V3.t }.

(** Each coordinate is [Math.min(...positions.map(p => p.x))] or the like:
    a call with as many arguments as there are positions. *)
Definition calculateBoundingBox {E : Engine} (positions : list V3.t)
  : result BoundingBox :=
  if (length positions =? 0)%nat
  then mret {| min := V3.mk (Fin 0) (Fin 0) (Fin 0);
               max := V3.mk (Fin 0) (Fin 0) (Fin 0) |}
  else
    minX ← spread Math_min (List.map V3.x positions);
    minY ← spread Math_min (List.map V3.y positions);
    minZ ← spread Math_min (List.map V3.z positions);
    maxX ← spread Math_max (List.map V3.x positions);
    maxY ← spread Math_max (List.map V3.y positions);
    maxZ ← spread Math_max (List.map V3.z positions);
    mret {| min := V3.mk minX minY minZ; max := V3.mk maxX maxY maxZ |}.

End VectorUtils.

(** The target that the reset-camera button of the application computes
    from the positions of the combined data. *)
Definition resetCamera_target (positions : list V3.t) : V3.t :=
  Vector3_scale (fold_left Vector3_add positions (V3.mk (Fin 0) (Fin 0) (Fin 0)))
                (div (Fin 1) (of_length (length positions))).

(** [-a], [a - b] and [a === b] *)
Definition neg (a : number) : number :=
  match a with
  | Fin p => Fin (- p)
  | PInf => NInf
  | NInf => PInf
  | NaN => NaN
  end.

Definition sub (a b : number) : number := add a (neg b).

(** [a.subtract(b)] *)
Definition Vector3_subtract (a b : V3.t) : V3.t :=
  V3.mk (sub (V3.x a) (V3.x b)) (sub (V3.y a) (V3.y b)) (sub (V3.z a) (V3.z b)).

Definition strict_eq (a b : number) : bool :=
  match a, b with
  | Fin p, Fin q => Qeq_bool p q
  | PInf, PInf | NInf, NInf => true
  | _, _ => false
  end.

(** A colour code as a number. *)
Definition of_int (z : Z) : number := Fin (inject_Z z).

(** ** DNARenderer: the position bookkeeping

    Of a mesh only its [position] vector is kept. A line system copies the
    coordinates of its points when it is created. *)

Record Instance : Type := {
  inst_position : loc;      (* instance.position *)
  inst_particle : Particle  (* instance.metadata.particle *)
}.

Definition LineSystem : Type := list (V3.t * V3.t).

Record DNARenderer : Type := {
  data : option StructureGraph;
  nucleotideInstances : list Instance;
  bondMeshes : list LineSystem;
  selectionMeshes : gmap nat loc;   (* particle index to highlight mesh position *)
  boxOffset : loc;
  originalParticlePositions : list loc
}.

Module Renderer.

(** [new DNARenderer(canvas)] *)
Definition constructor : M DNARenderer :=
  boxOffset ← new_Vector3 (V3.mk (Fin 0) (Fin 0) (Fin 0));
  mret {| data := None; nucleotideInstances := []; bondMeshes := [];
          selectionMeshes := ∅; boxOffset := boxOffset;
          originalParticlePositions := [] |}.

(** *** renderNucleotides *)

(** [strandGroups[particle.strand].push(particle)], creating the group when
    it is missing. The key is the strand printed as a string: two strands
    give one key exactly when they are the same integer or both NaN. The
    groups are kept in creation order. *)
Fixpoint group_push (groups : list (jsint * list Particle)) (p : Particle)
  : list (jsint * list Particle) :=
  match groups with
  | [] => [(strand p, [p])]
  | (k, ps) :: rest =>
      if bool_decide (k = strand p) then (k, ps ++ [p]) :: rest
      else (k, ps) :: group_push rest p
  end.

Definition strandGroups (particles : list Particle) : list (jsint * list Particle) :=
  fold_left group_push particles [].

(** A key that is an array index: [Object.keys] lists these first, in
    ascending order, and then the other keys in creation order. *)
Definition is_array_index (k : jsint) : bool :=
  match k with
  | Int z => (0 <=? z) && (z <? 2 ^ 32 - 1)
  | IntNaN => false
  end.

Definition key_value (g : jsint * list Particle) : Z :=
  match g.1 with
  | Int z => z
  | IntNaN => 0
  end.

Definition key_le (g1 g2 : jsint * list Particle) : Prop :=
  key_value g1 <= key_value g2.

#[export] Instance key_le_dec g1 g2 : Decision (key_le g1 g2) :=
  Z_le_dec (key_value g1) (key_value g2).

Definition ordered_groups (groups : list (jsint * list Particle))
  : list (jsint * list Particle) :=
  merge_sort key_le (List.filter (fun g => is_array_index g.1) groups)
  ++ List.filter (fun g => negb (is_array_index g.1)) groups.

(** [baseSphere.createInstance(...)] with its position set to a copy of the
    particle's. *)
Definition createInstance (particle : Particle) : M Instance :=
  position ← clone (position particle);
  mret {| inst_position := position; inst_particle := particle |}.

(** The instances are created group after group, and inside a group in the
    order of the particles. *)
Definition renderNucleotides (particles : list Particle) : M (list Instance) :=
  if (length particles =? 0)%nat then mret []
  else mapM createInstance (concat (List.map snd (ordered_groups (strandGroups particles)))).

(** *** renderBonds *)

(** [array[i]] for [i] a number. *)
Definition at_int {A} (l : list A) (i : jsint) : option A :=
  match i with
  | Int z => if 0 <=? z then l !! Z.to_nat z else None
  | IntNaN => None
  end.

(** [BABYLON.MeshBuilder.CreateLineSystem('bonds', { lines: points })] *)
Definition CreateLineSystem (points : list (loc * loc)) : M LineSystem :=
  mapM (fun p => a ← read p.1; b ← read p.2; mret (a, b)) points.

Definition bond_points (particles : list Particle) (bond : Bond) : option (loc * loc) :=
  match particles !! from bond, at_int particles (to bond) with
  | Some fromParticle, Some toParticle =>
      Some (position fromParticle, position toParticle)
  | _, _ => None
  end.

(** The line system is created twice: the block stands twice in the
    source. *)
Definition renderBonds (bonds : list Bond) (particles : list Particle)
  : M (list LineSystem) :=
  if (length bonds =? 0)%nat then mret []
  else
    let points := omap (bond_points particles) bonds in
    if (0 <? length points)%nat then
      lineSystem1 ← CreateLineSystem points;
      lineSystem2 ← CreateLineSystem points;
      mret [lineSystem1; lineSystem2]
    else mret [].

(** *** loadData *)

(** [clearScene] empties the lists of meshes. *)
Definition clearScene (this : DNARenderer) : DNARenderer :=
  {| data := data this;
     nucleotideInstances := [];
     bondMeshes := [];
     selectionMeshes := ∅;
     boxOffset := boxOffset this;
     originalParticlePositions := originalParticlePositions this |}.

(** The renderer when [loadData] has set [data], cleared the scene and
    made the new offset [boxOffset]. *)
Definition cleared (combinedData : StructureGraph) (this : DNARenderer) (boxOffset : loc)
  : DNARenderer :=
  let this := clearScene this in
  {| data := Some combinedData;
     nucleotideInstances := nucleotideInstances this;
     bondMeshes := bondMeshes this;
     selectionMeshes := selectionMeshes this;
     boxOffset := boxOffset;
     originalParticlePositions := originalParticlePositions this |}.

(** What [loadData] does before it turns to the camera: the offset is a
    new zero vector and the original positions are new copies. *)
Definition begin_load (combinedData : StructureGraph) (this : DNARenderer)
  : M DNARenderer :=
  boxOffset ← new_Vector3 (V3.mk (Fin 0) (Fin 0) (Fin 0));
  let this := cleared combinedData this boxOffset in
  originals ← mapM (fun p => clone (position p)) (particles combinedData);
  mret {| data := data this;
          nucleotideInstances := nucleotideInstances this;
          bondMeshes := bondMeshes this;
          selectionMeshes := selectionMeshes this;
          boxOffset := boxOffset;
          originalParticlePositions := originals |}.

(** The target and the radius that [loadData] computes for the camera. The
    vectors this makes are not put in the store: the camera is left out,
    and nothing else refers to them. *)
Definition camera_of {E : Engine} (positions : list V3.t) : result (V3.t * number) :=
  let center := VectorUtils.calculateCenterOfMass positions in
  bbox ← VectorUtils.calculateBoundingBox positions;
  let size := Vector3_subtract (VectorUtils.max bbox) (VectorUtils.min bbox) in
  let maxDim := Math_max [V3.x size; V3.y size; V3.z size] in
  mret (center, mul maxDim (Fin 2)).

Definition loadData {E : Engine} (combinedData : StructureGraph) (this : DNARenderer)
  : M DNARenderer :=
  this ← begin_load combinedData this;
  positions ← mapM (fun p => read (position p)) (particles combinedData);
  _ ← lift (camera_of positions);
  instances ← renderNucleotides (particles combinedData);
  bondMeshes ← renderBonds (bonds combinedData) (particles combinedData);
  mret {| data := data this;
          nucleotideInstances := instances;
          bondMeshes := bondMeshes;
          selectionMeshes := selectionMeshes this;
          boxOffset := boxOffset this;
          originalParticlePositions := originalParticlePositions this |}.

(** *** highlightNucleotide *)

Definition set_selectionMeshes (this : DNARenderer) (s : gmap nat loc) : DNARenderer :=
  {| data := data this;
     nucleotideInstances := nucleotideInstances this;
     bondMeshes := bondMeshes this;
     selectionMeshes := s;
     boxOffset := boxOffset this;
     originalParticlePositions := originalParticlePositions this |}.

Definition highlightNucleotide (particleIndex : nat) (highlight : bool)
    (this : DNARenderer) : M DNARenderer :=
  if negb highlight then
    mret (set_selectionMeshes this (delete particleIndex (selectionMeshes this)))
  else if bool_decide (is_Some (selectionMeshes this !! particleIndex)) then mret this
  else
    match List.find (fun inst => int_eqb (idx (index (inst_particle inst))) (idx particleIndex))
                    (nucleotideInstances this) with
    | Some instance =>
        position ← clone (inst_position instance);
        mret (set_selectionMeshes this (<[particleIndex := position]> (selectionMeshes this)))
    | None => mret this
    end.

(** *** updateParticlePositions *)

(** The helper [wrap] of [updateParticlePositions]. *)
Definition wrap {R : Rounding} (val max : number) : number :=
  let res := rem val max in
  if lt res (Fin 0) then fadd res max else res.

(** The body of [this.nucleotideInstances.forEach((instance, i) => ...)]. *)
Definition update_instance {R : Rounding} (this : DNARenderer) (box : V3.t) (i : nat)
    (instance : Instance) : M unit :=
  l ← lift (defined (originalParticlePositions this !! i));
  originalPos ← read l;
  offset ← read (boxOffset this);
  let newX := wrap (fadd (V3.x originalPos) (V3.x offset)) (V3.x box) in
  let newY := wrap (fadd (V3.y originalPos) (V3.y offset)) (V3.y box) in
  let newZ := wrap (fadd (V3.z originalPos) (V3.z offset)) (V3.z box) in
  write (inst_position instance) (V3.mk newX newY newZ);;
  match selectionMeshes this !! index (inst_particle instance) with
  | Some selMesh =>
      p ← read (inst_position instance);
      write selMesh p
  | None => mret tt
  end.

Fixpoint forEach_from {A} (f : nat -> A -> M unit) (i : nat) (l : list A) : M unit :=
  match l with
  | [] => mret tt
  | a :: l' => f i a;; forEach_from f (S i) l'
  end.

(** [this.nucleotideInstances.find(inst => inst.metadata.particle.index === i)] *)
Definition find_instance (this : DNARenderer) (i : jsint) : option Instance :=
  List.find (fun inst => int_eqb (idx (index (inst_particle inst))) i)
            (nucleotideInstances this).

Definition instance_points (this : DNARenderer) (bond : Bond) : option (loc * loc) :=
  match find_instance this (idx (from bond)), find_instance this (to bond) with
  | Some fromParticle, Some toParticle =>
      Some (inst_position fromParticle, inst_position toParticle)
  | _, _ => None
  end.

Definition set_bondMeshes (this : DNARenderer) (m : list LineSystem) : DNARenderer :=
  {| data := data this;
     nucleotideInstances := nucleotideInstances this;
     bondMeshes := m;
     selectionMeshes := selectionMeshes this;
     boxOffset := boxOffset this;
     originalParticlePositions := originalParticlePositions this |}.

Definition updateParticlePositions {R : Rounding} (this : DNARenderer) : M DNARenderer :=
  match data this with
  | None => mret this
  | Some d =>
      match md_box (metadata d) with
      | None => mret this
      | Some box =>
          forEach_from (update_instance this box) 0 (nucleotideInstances this);;
          if (0 <? length (bondMeshes this))%nat then
            let points := omap (instance_points this) (bonds d) in
            if (0 <? length points)%nat then
              lineSystem ← CreateLineSystem points;
              mret (set_bondMeshes this [lineSystem])
            else mret (set_bondMeshes this [])
          else mret this
      end
  end.

(** *** shiftParticles *)

Definition shift_offset {R : Rounding} (axis : jsstring) (amount : number)
    (offset : V3.t) : V3.t :=
  V3.mk (if string_eqb axis (js "x") then fadd (V3.x offset) amount else V3.x offset)
        (if string_eqb axis (js "y") then fadd (V3.y offset) amount else V3.y offset)
        (if string_eqb axis (js "z") then fadd (V3.z offset) amount else V3.z offset).

Definition shiftParticles {R : Rounding} (axis : jsstring) (amount : number)
    (this : DNARenderer) : M DNARenderer :=
  match data this with
  | None => mret this
  | Some d =>
      match md_box (metadata d) with
      | None => mret this
      | Some _ =>
          offset ← read (boxOffset this);
          write (boxOffset this) (shift_offset axis amount offset);;
          updateParticlePositions this
      end
  end.

(** A sequence of shifts, the first one first. *)
Fixpoint shifts {R : Rounding} (ops : list (jsstring * number)) (this : DNARenderer)
  : M DNARenderer :=
  match ops with
  | [] => mret this
  | (axis, amount) :: ops' =>
      this' ← shiftParticles axis amount this;
      shifts ops' this'
  end.

End Renderer.

(** ** interactions.js: the selection

    [selectedParticles] is a [Set] of particle indices: a list without
    duplicates in insertion order. The two callbacks are whatever the
    application installs; they run in the store and may throw. The particle
    under the pointer, which [renderer.pickParticle] reads off the scene, is
    given with the event. *)

Record InteractionManager : Type := {
  selectedParticles : list nat;
  hoveredParticle : option nat;
  multiSelectEnabled : bool;
  onSelectionChanged : option (list nat -> M unit);
  onHoverChanged : option (option Particle -> M unit)
}.

Module Interaction.

(** [new InteractionManager(renderer)] *)
Definition constructor : InteractionManager :=
  {| selectedParticles := []; hoveredParticle := None; multiSelectEnabled := false;
     onSelectionChanged := None; onHoverChanged := None |}.

Definition set_selectedParticles (this : InteractionManager) (s : list nat)
  : InteractionManager :=
  {| selectedParticles := s;
     hoveredParticle := hoveredParticle this;
     multiSelectEnabled := multiSelectEnabled this;
     onSelectionChanged := onSelectionChanged this;
     onHoverChanged := onHoverChanged this |}.

Definition set_hoveredParticle (this : InteractionManager) (p : option nat)
  : InteractionManager :=
  {| selectedParticles := selectedParticles this;
     hoveredParticle := p;
     multiSelectEnabled := multiSelectEnabled this;
     onSelectionChanged := onSelectionChanged this;
     onHoverChanged := onHoverChanged this |}.

Definition set_multiSelectEnabled (this : InteractionManager) (b : bool)
  : InteractionManager :=
  {| selectedParticles := selectedParticles this;
     hoveredParticle := hoveredParticle this;
     multiSelectEnabled := b;
     onSelectionChanged := onSelectionChanged this;
     onHoverChanged := onHoverChanged this |}.

(** [set.add(i)] and [set.delete(i)] *)
Definition Set_add (i : nat) (s : list nat) : list nat :=
  if bool_decide (i ∈ s) then s else s ++ [i].

Definition Set_delete (i : nat) (s : list nat) : list nat :=
  List.filter (fun j => negb (j =? i)%nat) s.

(** [if (this.onSelectionChanged) this.onSelectionChanged(indices)] *)
Definition selection_changed (this : InteractionManager) (indices : list nat) : M unit :=
  match onSelectionChanged this with
  | Some callback => callback indices
  | None => mret tt
  end.

Definition hover_changed (this : InteractionManager) (particle : option Particle) : M unit :=
  match onHoverChanged this with
  | Some callback => callback particle
  | None => mret tt
  end.

(** The manager and the renderer it holds. *)
Definition state : Type := InteractionManager * DNARenderer.

Definition selectParticle (particleIndex : nat) (st : state) : M state :=
  let this := set_selectedParticles st.1 (Set_add particleIndex (selectedParticles st.1)) in
  renderer ← Renderer.highlightNucleotide particleIndex true st.2;
  selection_changed this (selectedParticles this);;
  mret (this, renderer).

Definition deselectParticle (particleIndex : nat) (st : state) : M state :=
  let this := set_selectedParticles st.1 (Set_delete particleIndex (selectedParticles st.1)) in
  renderer ← Renderer.highlightNucleotide particleIndex false st.2;
  selection_changed this (selectedParticles this);;
  mret (this, renderer).

Fixpoint forEach {A S} (f : A -> S -> M S) (l : list A) (s : S) : M S :=
  match l with
  | [] => mret s
  | a :: l' => s' ← f a s; forEach f l' s'
  end.

Definition clearSelection (st : state) : M state :=
  renderer ← forEach (fun index => Renderer.highlightNucleotide index false)
                     (selectedParticles st.1) st.2;
  let this := set_selectedParticles st.1 [] in
  selection_changed this [];;
  mret (this, renderer).

(** [handleClick(event)], [picked] being the result of [pickParticle]. *)
Definition handleClick (picked : option Particle) (st : state) : M state :=
  match picked with
  | Some particle =>
      if multiSelectEnabled st.1 then
        if bool_decide (index particle ∈ selectedParticles st.1)
        then deselectParticle (index particle) st
        else selectParticle (index particle) st
      else
        st' ← clearSelection st;
        selectParticle (index particle) st'
  | None =>
      if negb (multiSelectEnabled st.1) then clearSelection st else mret st
  end.

(** [handleMouseMove(event)] *)
Definition handleMouseMove (picked : option Particle) (st : state) : M state :=
  match picked with
  | Some particle =>
      if bool_decide (hoveredParticle st.1 = Some (index particle)) then mret st
      else
        let this := set_hoveredParticle st.1 (Some (index particle)) in
        hover_changed this (Some particle);;
        mret (this, st.2)
  | None =>
      match hoveredParticle st.1 with
      | Some _ =>
          let this := set_hoveredParticle st.1 None in
          hover_changed this None;;
          mret (this, st.2)
      | None => mret st
      end
  end.

(** [selectByStrand(strandId)] *)
Definition selectByStrand (strandId : jsint) (st : state) : M state :=
  match data st.2 with
  | None => mret st
  | Some d =>
      st' ← clearSelection st;
      forEach (fun particle st =>
                 if int_eqb (strand particle) strandId
                 then selectParticle (index particle) st
                 else mret st)
              (particles d) st'
  end.

(** The listeners of [setupEventListeners]. *)
Inductive event : Type :=
| Click (picked : option Particle)
| MouseMove (picked : option Particle)
| KeyDown (ctrlKey metaKey : bool) (key : jsstring)
| KeyUp (ctrlKey metaKey : bool).

Definition dispatch (e : event) (st : state) : M state :=
  match e with
  | Click picked => handleClick picked st
  | MouseMove picked => handleMouseMove picked st
  | KeyDown ctrlKey metaKey key =>
      let st := if ctrlKey || metaKey
                then (set_multiSelectEnabled st.1 true, st.2) else st in
      if string_eqb key (js "Escape") then clearSelection st else mret st
  | KeyUp ctrlKey metaKey =>
      mret (if negb ctrlKey && negb metaKey
            then (set_multiSelectEnabled st.1 false, st.2) else st)
  end.

End Interaction.

(** ** The application controller: what the callbacks show

    The selection panel is given by its content: the count of the heading,
    the index, strand, type and position of each particle shown, and the
    count of the line that tells how many more there are. The number
    formats and the cursor style are left out. *)

Module App.

Inductive SelectionPanel : Type :=
| NoSelection
| Selected (count : nat) (shown : list (nat * jsint * jsint * V3.t)) (more : option nat).

(** What the panel shows of one particle; [particle] is [undefined] when
    the index names no particle. *)
Definition show_particle (particle : option Particle) : M (nat * jsint * jsint * V3.t) :=
  p ← lift (defined particle);
  v ← read (position p);
  mret (index p, strand p, type p, v).

(** [updateSelectionInfo(selectedIndices)], [combinedData] being the field
    of the application. *)
Definition updateSelectionInfo (combinedData : option StructureGraph)
    (selectedIndices : list nat) : M SelectionPanel :=
  if (length selectedIndices =? 0)%nat then mret NoSelection
  else
    d ← lift (defined combinedData);
    let particles := List.map (fun idx => particles d !! idx) selectedIndices in
    shown ← mapM show_particle (take 5 particles);
    mret (Selected (length selectedIndices) shown
            (if (5 <? length particles)%nat then Some (length particles - 5)%nat else None)).

(** The callbacks that [init] installs on the interaction manager. *)
Definition selection_listener (combinedData : option StructureGraph)
  : list nat -> M unit :=
  fun selectedIndices => updateSelectionInfo combinedData selectedIndices;; mret tt.

(** [updateHoverInfo(particle)] *)
Definition hover_listener : option Particle -> M unit :=
  fun particle => mret tt.

(** The interaction manager of the application. *)
Definition interactionManager (combinedData : option StructureGraph)
  : InteractionManager :=
  {| selectedParticles := []; hoveredParticle := None; multiSelectEnabled := false;
     onSelectionChanged := Some (selection_listener combinedData);
     onHoverChanged := Some hover_listener |}.

End App.

(** ** The application controller: files

    A file is given by its name and its text, the text being what
    [FileUtils.readAsText] resolves to; a file without text is one whose
    reading fails. The messages shown to the user and the panels are left
    out. *)

Record File : Type := {
  file_name : jsstring;
  file_text : option jsstring
}.

Record DNAVisualizerApp : Type := {
  topologyData : option TopologyDocument;
  configurationData : option ConfigurationDocument;
  combinedData : option StructureGraph;
  renderer : DNARenderer
}.

(** The promise of an asynchronous method is resolved or rejected. *)
Inductive outcome : Type := Resolved | Rejected.

Module Controller.
Section WithBuiltins.
Context {B : Builtins} {E : Engine}.

(** [s.toLowerCase()]; the program compares the result with [psp] and
    [dat] only. *)
Variable toLowerCase : jsstring -> jsstring.

(** [file.name.split('.').pop().toLowerCase()] *)
Definition extension (name : jsstring) : jsstring :=
  toLowerCase (List.last (split_on 46 name) []).

(** The [try] block of the loop of [handleFiles], for a file that has been
    read: a parser that throws leaves the document that was there. *)
Definition handleFile (this : DNAVisualizerApp) (name content : jsstring)
  : DNAVisualizerApp :=
  let ext := extension name in
  if string_eqb ext (js "psp") then
    match TopologyParser.parse content with
    | Ok document =>
        {| topologyData := Some document;
           configurationData := configurationData this;
           combinedData := combinedData this;
           renderer := renderer this |}
    | Throw _ => this
    end
  else if string_eqb ext (js "dat") then
    match ConfigurationParser.parse content with
    | Ok document =>
        {| topologyData := topologyData this;
           configurationData := Some document;
           combinedData := combinedData this;
           renderer := renderer this |}
    | Throw _ => this
    end
  else this.

(** The loop of [handleFiles]: the [await] of the reading stands before the
    [try], so that a reading that fails ends the loop and rejects. *)
Fixpoint read_files (files : list File) (this : DNAVisualizerApp)
  : DNAVisualizerApp * outcome :=
  match files with
  | [] => (this, Resolved)
  | file :: rest =>
      match file_text file with
      | Some content => read_files rest (handleFile this (file_name file) content)
      | None => (this, Rejected)
      end
  end.

Definition set_combinedData (this : DNAVisualizerApp) (combinedData : StructureGraph)
  : DNAVisualizerApp :=
  {| topologyData := topologyData this;
     configurationData := configurationData this;
     combinedData := Some combinedData;
     renderer := renderer this |}.

Definition set_renderer (this : DNAVisualizerApp) (renderer : DNARenderer)
  : DNAVisualizerApp :=
  {| topologyData := topologyData this;
     configurationData := configurationData this;
     combinedData := combinedData this;
     renderer := renderer |}.

(** [visualize()]: an exception is caught and reported. What was assigned
    before it was thrown stays: [combinedData] once [combine] has
    returned, and in the renderer what [loadData] did before it threw.
    After the first part of [loadData] only the camera can throw. *)
Definition visualize (this : DNAVisualizerApp) : M DNAVisualizerApp := fun h =>
  match topologyData this, configurationData this with
  | Some topology, Some configuration =>
      match DataCombiner.combine topology configuration h with
      | Throw _ => Ok (this, h)
      | Ok (combinedData, h) =>
          let this := set_combinedData this combinedData in
          match Renderer.loadData combinedData (renderer this) h with
          | Ok (renderer, h) => Ok (set_renderer this renderer, h)
          | Throw _ =>
              match Renderer.begin_load combinedData (renderer this) h with
              | Ok (renderer, h) => Ok (set_renderer this renderer, h)
              | Throw _ =>
                  Ok (set_renderer this
                        (Renderer.cleared combinedData (renderer this) (length h)),
                      h ++ [V3.mk (Fin 0) (Fin 0) (Fin 0)])
              end
          end
      end
  | _, _ => Ok (this, h)
  end.

(** [handleFiles(files)] *)
Definition handleFiles (files : list File) (this : DNAVisualizerApp)
  : M (DNAVisualizerApp * outcome) :=
  match read_files files this with
  | (this, Rejected) => mret (this, Rejected)
  | (this, Resolved) =>
      match topologyData this, configurationData this with
      | Some _, Some _ => this ← visualize this; mret (this, Resolved)
      | _, _ => mret (this, Resolved)
      end
  end.

End WithBuiltins.
End Controller.

(** ** utils.js: colours and levels of detail *)

Module ColorMapper.

Record Color : Type := { r : number; g : number; b : number }.

(** The helper [hue2rgb] of [hslToRgb]. *)
Definition hue2rgb (p q t : number) : number :=
  let t := if lt t (Fin 0) then add t (Fin 1) else t in
  let t := if lt (Fin 1) t then sub t (Fin 1) else t in
  if lt t (div (Fin 1) (Fin 6)) then add p (mul (mul (sub q p) (Fin 6)) t)
  else if lt t (div (Fin 1) (Fin 2)) then q
  else if lt t (div (Fin 2) (Fin 3))
       then add p (mul (mul (sub q p) (sub (div (Fin 2) (Fin 3)) t)) (Fin 6))
  else p.

Definition hslToRgb (h s l : number) : Color :=
  if strict_eq s (Fin 0) then {| r := l; g := l; b := l |}
  else
    let q := if lt l (Fin (1 # 2)) then mul l (add (Fin 1) s)
             else sub (add l s) (mul l s) in
    let p := sub (mul (Fin 2) l) q in
    {| r := hue2rgb p q (add h (div (Fin 1) (Fin 3)));
       g := hue2rgb p q h;
       b := hue2rgb p q (sub h (div (Fin 1) (Fin 3))) |}.

(** The palette is an object whose keys are the decimal strings of
    integers; a key is given by the integer it denotes. *)
Definition fixed_palette : gmap Z Color :=
  <[(-21)%Z := {| r := Fin (2 # 10); g := Fin (6 # 10); b := Fin 1 |}]>
    (<[21%Z := {| r := Fin 1; g := Fin (3 # 10); b := Fin (3 # 10) |}]>
       (<[100%Z := {| r := Fin (7 # 10); g := Fin (7 # 10); b := Fin (7 # 10) |}]> ∅)).

(** The colour that [generateGradient] gives to the value [i]. *)
Definition gradient (i : Z) : Color :=
  let normalized := div (add (of_int i) (Fin 100)) (Fin 200) in
  hslToRgb (mul normalized (Fin (8 # 10))) (Fin (7 # 10)) (Fin (6 # 10)).

Definition generateGradient (colorPalette : gmap Z Color) : gmap Z Color :=
  fold_left (fun palette i =>
               match palette !! i with
               | Some _ => palette
               | None => <[i := gradient i]> palette
               end)
            (seqZ (-100) 201) colorPalette.

(** [new ColorMapper()] *)
Definition colorPalette : gmap Z Color := generateGradient fixed_palette.

(** [getColor(colorCode)] for the result of a [parseInt]: the key of NaN is
    no key of the palette. The result is [undefined] when the palette has
    no colour for 100 either. *)
Definition getColor (colorPalette : gmap Z Color) (colorCode : jsint) : option Color :=
  let found := match colorCode with
               | Int z => colorPalette !! z
               | IntNaN => None
               end in
  match found with
  | Some color => Some color
  | None => colorPalette !! 100%Z
  end.

End ColorMapper.

Module LODCalculator.

Record Thresholds : Type := { high : number; medium : number; low : number }.

(** [new LODCalculator()] *)
Definition default_thresholds : Thresholds :=
  {| high := Fin 20; medium := Fin 50; low := Fin 100 |}.

Definition getLODLevel (thresholds : Thresholds) (distance : number) : jsstring :=
  if lt distance (high thresholds) then js "high"
  else if lt distance (medium thresholds) then js "medium"
  else if lt distance (low thresholds) then js "low"
  else js "hidden".

Definition getSubdivisions (lodLevel : jsstring) : Z :=
  if string_eqb lodLevel (js "high") then 16
  else if string_eqb lodLevel (js "medium") then 8
  else if string_eqb lodLevel (js "low") then 4
  else 2.

End LODCalculator.

(** ** Built-ins for the examples

    Decimal notation only: an optional sign, digits and an optional
    fraction, read as the nearest double, integers included. Exponents,
    hexadecimal prefixes and [Infinity] are not read. The theorems do not
    depend on this instance. *)

Module Decimal.

Definition digit (c : N) : option Z :=
  if ((48 <=? c) && (c <=? 57))%N then Some (Z.of_N c - 48) else None.

Fixpoint digits (acc : Z) (count : nat) (s : jsstring) : Z * nat * jsstring :=
  match s with
  | c :: s' =>
      match digit c with
      | Some d => digits (10 * acc + d) (S count) s'
      | None => (acc, count, s)
      end
  | [] => (acc, count, s)
  end.

Definition signed (s : jsstring) : bool * jsstring :=
  match s with
  | 45%N :: s' => (true, s')
  | 43%N :: s' => (false, s')
  | _ => (false, s)
  end.

(** The value of the longest decimal prefix and what follows it. *)
Definition decimal_prefix (s : jsstring) : option (Q * jsstring) :=
  let '(neg, s1) := signed s in
  let '(i, ni, s2) := digits 0 0 s1 in
  let '(f, nf, s3) :=
    match s2 with
    | 46%N :: s2' => digits 0 0 s2'
    | _ => (0, 0%nat, s2)
    end in
  if (ni + nf =? 0)%nat then None
  else
    let q := (i * 10 ^ Z.of_nat nf + f) # Z.to_pos (10 ^ Z.of_nat nf) in
    Some (if neg then Qopp q else q, s3).

(** The double nearest to an integer, as a result of [parseInt]. *)
Definition nearest_integer (z : Z) : jsint :=
  match Binary64.round (inject_Z z) with
  | Fin q => Int (Qfloor q)
  | PInf => Int (2 ^ 1024)
  | NInf => Int (- 2 ^ 1024)
  | NaN => IntNaN
  end.

Definition integer_prefix (s : jsstring) : jsint :=
  let '(neg, s1) := signed s in
  let '(i, ni, _) := digits 0 0 s1 in
  if (ni =? 0)%nat then IntNaN else nearest_integer (if neg then - i else i).

#[export] Instance builtins : Builtins := {
  parseInt s := integer_prefix (drop_spaces s);
  parseFloat s :=
    match decimal_prefix (drop_spaces s) with
    | Some (q, _) => Binary64.round q
    | None => NaN
    end;
  Number s :=
    match trim s with
    | [] => Fin 0
    | t => match decimal_prefix t with
           | Some (q, []) => Binary64.round q
           | _ => NaN
           end
    end
}.

End Decimal.

(** ** Vocabulary of the statements *)

(** What [combine] copies into the merged particle of index [i]: the fields
    of the [i]-th record of each document, the vectors as objects of the
    store [h]. *)
Definition merged_from (topology : TopologyDocument)
    (configuration : ConfigurationDocument) (h : heap) (i : nat) (p : Particle) : Prop :=
  index p = i
  /\ exists tp nu,
      topo_particles topology !! i = Some tp
      /\ conf_nucleotides configuration !! i = Some nu
      /\ type p = rec_type tp /\ strand p = rec_strand tp
      /\ radius p = rec_radius tp /\ mass p = rec_mass tp
      /\ patches p = omap (DataCombiner.find_patch topology) (rec_patches tp)
      /\ connections p = rec_connections tp
      /\ h !! position p = Some (nuc_position nu)
      /\ h !! baseVector p = Some (nuc_baseVector nu)
      /\ h !! normalVector p = Some (nuc_normalVector nu)
      /\ h !! velocity p = Some (nuc_velocity nu)
      /\ h !! angularVelocity p = Some (nuc_angularVelocity nu).

(** The connections with the index of the particle that declares them:
    particles in index order, connections in declaration order. *)
Definition declared (particles : list Particle) : list (nat * Connection) :=
  flat_map (fun p => List.map (pair (index p)) (connections p)) particles.

(** The peer is below the particle count. *)
Definition in_range (count : nat) (c : nat * Connection) : bool :=
  int_ltb (particleIndex c.2) count.

(** Two declared connections join the same unordered pair of indices. *)
Definition same_pair (c d : nat * Connection) : bool :=
  (int_eqb (idx c.1) (idx d.1) && int_eqb (particleIndex c.2) (particleIndex d.2))
  || (int_eqb (idx c.1) (particleIndex d.2) && int_eqb (particleIndex c.2) (idx d.1)).

(** The first connection of each unordered pair, in the order of the list. *)
Fixpoint first_discoveries (cs : list (nat * Connection)) : list (nat * Connection) :=
  match cs with
  | [] => []
  | c :: rest => c :: List.filter (fun d => negb (same_pair c d)) (first_discoveries rest)
  end.

(** The bond a declared connection stands for. *)
Definition bond_of (topology : TopologyDocument) (c : nat * Connection) : Bond :=
  {| from := c.1;
     to := particleIndex c.2;
     spring := DataCombiner.find_spring topology (springIndex c.2) |}.

(** What a reference [k] resolves to among the templates [l], whose ids are
    read by [id]: the first template whose id is the integer [k], or nothing
    when [k] is NaN or no template has it. *)
Definition resolves_to {A} (id : A -> jsint) (l : list A) (k : jsint) (o : option A)
  : Prop :=
  match o with
  | Some t =>
      exists z before after,
        k = Int z /\ l = before ++ t :: after /\ id t = Int z
        /\ Forall (fun u => id u <> Int z) before
  | None => forall z, k = Int z -> Forall (fun u => id u <> Int z) l
  end.

(** Two bonds with the same unordered pair of end points. *)
Definition same_ends (b1 b2 : Bond) : Prop :=
  (idx (from b1) = idx (from b2) /\ to b1 = to b2)
  \/ (idx (from b1) = to b2 /\ to b1 = idx (from b2)).

(** [bonds.find] finds a bond that joins the end points of [d]. *)
Definition joined (bonds : list Bond) (d : nat * Connection) : bool :=
  bool_decide (is_Some (List.find (DataCombiner.joins d.1 (particleIndex d.2)) bonds)).

(** One turn of the bond derivation, for a connection paired with the
    index of the particle that declares it. *)
Definition add_declared (topology : TopologyDocument) (n : nat) (bonds : list Bond)
    (d : nat * Connection) : list Bond :=
  if negb (joined bonds d) && in_range n d
  then bonds ++ [bond_of topology d]
  else bonds.

(** The lines stop right after the [t =] line or right after the [b =]
    line of a configuration. *)
Definition ends_in_header (lines : list jsstring) : bool :=
  match lines with
  | [l] => startsWith l (js "t =") || startsWith l (js "b =")
  | [l1; l2] => startsWith l1 (js "t =") && startsWith l2 (js "b =")
  | _ => false
  end.

(** The vectors of a particle. *)
Definition vectors_of (p : Particle) : list loc :=
  [position p; baseVector p; normalVector p; velocity p; angularVelocity p].

(** Every vector of the graph is an object of the store. *)
Definition graph_in_store (g : StructureGraph) (h : heap) : bool :=
  forallb (fun p => forallb (fun l => l <? length h)%nat (vectors_of p)) (particles g).

(** The position [updateParticlePositions] gives to an instance: the
    original position plus the offset, wrapped axis by axis. *)
Definition wrapped {R : Rounding} (box offset original : V3.t) : V3.t :=
  V3.mk (Renderer.wrap (fadd (V3.x original) (V3.x offset)) (V3.x box))
        (Renderer.wrap (fadd (V3.y original) (V3.y offset)) (V3.y box))
        (Renderer.wrap (fadd (V3.z original) (V3.z offset)) (V3.z box)).

Definition same_vector (v w : V3.t) : Prop :=
  same_value (V3.x v) (V3.x w) /\ same_value (V3.y v) (V3.y w)
  /\ same_value (V3.z v) (V3.z w).

Inductive axis : Type := AxisX | AxisY | AxisZ.

Definition axis_name (a : axis) : jsstring :=
  match a with
  | AxisX => js "x"
  | AxisY => js "y"
  | AxisZ => js "z"
  end.

Definition side (a : axis) (box : V3.t) : number :=
  match a with
  | AxisX => V3.x box
  | AxisY => V3.y box
  | AxisZ => V3.z box
  end.

Definition zero_vector : V3.t := V3.mk (Fin 0) (Fin 0) (Fin 0).

(** The renderer after [loadData g] in a store that had [n0] objects, and
    after any number of shifts: the offset is the object [n0], then come
    the copies of the original positions and then the positions of the
    instances. *)
Definition loaded (g : StructureGraph) (n0 : nat) (r : DNARenderer) (h : heap) : Prop :=
  data r = Some g
  /\ boxOffset r = n0
  /\ originalParticlePositions r = seq (S n0) (length (particles g))
  /\ List.map inst_position (nucleotideInstances r)
     = seq (S n0 + length (particles g)) (length (particles g))
  /\ selectionMeshes r = ∅
  /\ length h = (S n0 + length (particles g) + length (particles g))%nat.

(** *** Rows of the files *)

(** A significant line of a topology whose first token is [tag]. *)
Definition tagged (tag : string) (line : jsstring) : bool :=
  significant line && TopologyParser.tag_is (split_spaces line) tag.

(** A significant line of a topology that is neither a patch nor a spring:
    it is read as a particle. *)
Definition particle_row (line : jsstring) : bool :=
  significant line
  && negb (TopologyParser.tag_is (split_spaces line) "iP")
  && negb (TopologyParser.tag_is (split_spaces line) "iS").

(** A particle row whose fifth token announces more patch ids than an
    array can hold. *)
Definition overlong {B : Builtins} (line : jsstring) : bool :=
  particle_row line
  && match split_spaces line !! 4%nat with
     | Some token =>
         match parseInt token with
         | Int n => 2 ^ 32 - 1 <? n
         | IntNaN => false
         end
     | None => false
     end.

(** A significant line of a configuration with at least 15 fields. *)
Definition data_row (line : jsstring) : bool :=
  significant line && (15 <=? length (split_spaces line))%nat.

(** No connection of the topology names a negative peer. *)
Definition peers_not_negative (topology : TopologyDocument) : bool :=
  forallb
    (fun p =>
       forallb (fun c => match particleIndex c with
                         | Int z => 0 <=? z
                         | IntNaN => true
                         end)
               (rec_connections p))
    (topo_particles topology).

(** *** Sequences of shifts *)

(** The offset after a sequence of shifts that starts at [offset]. *)
Definition total_offset {R : Rounding} (ops : list (jsstring * number)) (offset : V3.t)
  : V3.t :=
  fold_left (fun off op => Renderer.shift_offset op.1 op.2 off) ops offset.

(** The sum of the amounts shifted along the axis called [name]. *)
Definition axis_sum {R : Rounding} (name : string) (ops : list (jsstring * number))
  : number :=
  fold_left fadd
    (List.map snd (List.filter (fun op => string_eqb op.1 (js name)) ops))
    (Fin 0).

Definition is_finite (n : number) : bool :=
  match n with
  | Fin _ => true
  | _ => false
  end.

Definition finite_vector (v : V3.t) : bool :=
  is_finite (V3.x v) && is_finite (V3.y v) && is_finite (V3.z v).

(** A coordinate in the box, its faces included: a rational in [[0, L]],
    [L] being the side. *)
Definition inside (side coordinate : number) : Prop :=
  match side, coordinate with
  | Fin L, Fin c => (0 <= c)%Q /\ (c <= L)%Q
  | _, _ => False
  end.

(** *** Rounding errors *)

(** Below the magnitude [M] the rounding keeps a number finite and moves
    it by [eps] at most. For doubles, [M = 2 ^ k] goes with
    [eps = 2 ^ (k - 53)]. *)
Definition rounds_within {R : Rounding} (M eps : Q) : Prop :=
  forall q, (Qabs q <= M)%Q -> exists r, round q = Fin r /\ (Qabs (r - q) <= eps)%Q.

(** The rounding keeps the numbers from 0 to [L] there. It does for
    doubles when [L] is a double: the rounding does not change the order
    and leaves 0 and [L] as they are. *)
Definition rounds_inside {R : Rounding} (L : Q) : Prop :=
  forall q, (0 <= q)%Q -> (q <= L)%Q ->
            exists r, round q = Fin r /\ (0 <= r)%Q /\ (r <= L)%Q.

(** The coordinate [w] is the coordinate [v] up to [tolerance]; or [v] is
    within [tolerance] of a face of the box of side [L] and [w] within
    [tolerance] of the opposite face. *)
Definition unchanged_up_to (tolerance L : Q) (v w : number) : Prop :=
  match v, w with
  | Fin x, Fin y =>
      (Qabs (y - x) <= tolerance
       \/ (x <= tolerance /\ L - tolerance <= y)
       \/ (L - tolerance <= x /\ y <= tolerance))%Q
  | _, _ => False
  end.

(** Along the axis [a], the position of every particle of the graph is a
    rational of magnitude [P] at most. *)
Definition positions_within (a : axis) (P : Q) (g : StructureGraph) (h : heap) : Prop :=
  forall p, In p (particles g) ->
            exists o x, h !! position p = Some o /\ side a o = Fin x /\ (Qabs x <= P)%Q.

(** The graph has no more particles than a call takes arguments. *)
Definition fits_a_call {E : Engine} (g : StructureGraph) : Prop :=
  (N.of_nat (length (particles g)) <= max_arguments)%N.

(** *** The order of the instances *)





(** *** The selection and its highlights *)

(** An instance of the renderer shows the particle of index [i]. *)
Definition has_instance (r : DNARenderer) (i : nat) : Prop :=
  exists inst, In inst (nucleotideInstances r) /\ index (inst_particle inst) = i.

Definition instances_in_store (r : DNARenderer) (h : heap) : Prop :=
  forall inst, In inst (nucleotideInstances r) -> (inst_position inst < length h)%nat.

(** The store [h'] extends [h]. *)
Definition extends (h h' : heap) : Prop :=
  exists vs, h' = h ++ vs.

(** A callback that is missing, or returns and leaves the store as it is. *)
Definition quiet {A} (callback : option (A -> M unit)) : Prop :=
  forall f, callback = Some f -> forall a h, f a h = Ok (tt, h).

(** A selection callback that is missing, or returns and leaves the store
    as it is when it is given valid indices, in [h] and in every store that
    extends it. *)
Definition accepts (valid : nat -> Prop) (h : heap)
    (callback : option (list nat -> M unit)) : Prop :=
  forall f, callback = Some f ->
            forall l h', (forall i, i ∈ l -> valid i) -> extends h h' -> f l h' = Ok (tt, h').

(** The highlighted indices are the selected ones that have an instance. *)
Definition highlights_selected (st : Interaction.state) : Prop :=
  forall i,
    is_Some (selectionMeshes st.2 !! i)
    <-> (i ∈ selectedParticles st.1 /\ has_instance st.2 i).

(** A state in which the listeners can run: [valid] tells the indices that
    the selection callback accepts. *)
Definition ready (valid : nat -> Prop) (st : Interaction.state) (h : heap) : Prop :=
  accepts valid h (onSelectionChanged st.1)
  /\ quiet (onHoverChanged st.1)
  /\ instances_in_store st.2 h
  /\ NoDup (selectedParticles st.1)
  /\ (forall i, i ∈ selectedParticles st.1 -> valid i)
  /\ highlights_selected st.

(** The renderer but for its highlights, and the callbacks, stay. *)
Definition same_scene (st st' : Interaction.state) : Prop :=
  data st'.2 = data st.2
  /\ nucleotideInstances st'.2 = nucleotideInstances st.2
  /\ bondMeshes st'.2 = bondMeshes st.2
  /\ boxOffset st'.2 = boxOffset st.2
  /\ originalParticlePositions st'.2 = originalParticlePositions st.2
  /\ onSelectionChanged st'.1 = onSelectionChanged st.1
  /\ onHoverChanged st'.1 = onHoverChanged st.1.

(** The particle under the pointer at an event. *)
Definition picked_of (e : Interaction.event) : option Particle :=
  match e with
  | Interaction.Click picked | Interaction.MouseMove picked => picked
  | _ => None
  end.

(** The particle under the pointer is shown by an instance of [r]:
    [pickParticle] picks among the instances. *)
Definition picks_instance (r : DNARenderer) (e : Interaction.event) : Prop :=
  forall p, picked_of e = Some p -> has_instance r (index p).

(** The particle that a click picks has a valid index. *)
Definition clicks_valid (valid : nat -> Prop) (e : Interaction.event) : Prop :=
  match e with
  | Interaction.Click (Some p) => valid (index p)
  | _ => True
  end.

(** The highlight meshes are objects of the store from [floor] on, one for
    each highlighted index. *)
Definition meshes_above (floor : nat) (r : DNARenderer) (h : heap) : Prop :=
  (forall i l, selectionMeshes r !! i = Some l -> (floor <= l < length h)%nat)
  /\ (forall i j l, selectionMeshes r !! i = Some l -> selectionMeshes r !! j = Some l ->
                    i = j).

(** The renderer after [loadData g] in a store that had [n0] objects, after
    any number of shifts and selections: as [loaded], but for highlight
    meshes that were made after the load. No two instances show the same
    index. *)
Definition displayed (g : StructureGraph) (n0 : nat) (r : DNARenderer) (h : heap) : Prop :=
  data r = Some g
  /\ boxOffset r = n0
  /\ originalParticlePositions r = seq (S n0) (length (particles g))
  /\ List.map inst_position (nucleotideInstances r)
     = seq (S n0 + length (particles g)) (length (particles g))
  /\ (S n0 + length (particles g) + length (particles g) <= length h)%nat
  /\ meshes_above (S n0 + length (particles g) + length (particles g)) r h
  /\ NoDup (List.map (fun inst => index (inst_particle inst)) (nucleotideInstances r)).

(** The index of every particle of the graph is its rank, as in the graphs
    that [combine] returns. *)
Definition indices_are_ranks (g : StructureGraph) : bool :=
  forallb (fun ip => (index ip.2 =? ip.1)%nat) (imap pair (particles g)).

(** The particle under the pointer is a particle of the graph. *)
Definition picks_particle (g : StructureGraph) (e : Interaction.event) : Prop :=
  forall p, picked_of e = Some p -> In p (particles g).

(** One of the first five indices names no particle of the graph. *)
Definition stale (g : StructureGraph) (selectedIndices : list nat) : bool :=
  existsb (fun i => (length (particles g) <=? i)%nat) (take 5 selectedIndices).

(** *** Bond lines *)

(** The lines that [CreateLineSystem] draws between the objects named by
    [points], as they are in the store [h]. *)
Definition lines_in (h : heap) (points : list (loc * loc)) : list (V3.t * V3.t) :=
  omap (fun p => match h !! p.1, h !! p.2 with
                 | Some a, Some b => Some (a, b)
                 | _, _ => None
                 end) points.

(** The ends of a line are the positions of two instances of [r], and these
    instances show the particles whose own positions are [raw]. *)
Definition joins_instances (r : DNARenderer) (raw line : loc * loc) : Prop :=
  exists fromInstance toInstance,
    In fromInstance (nucleotideInstances r)
    /\ In toInstance (nucleotideInstances r)
    /\ line = (inst_position fromInstance, inst_position toInstance)
    /\ raw = (position (inst_particle fromInstance), position (inst_particle toInstance)).

(** *** Colours *)

(** A number that is a rational of [[0, 1]]. *)
Definition unit_interval (n : number) : Prop :=
  match n with
  | Fin q => (0 <= q)%Q /\ (q <= 1)%Q
  | _ => False
  end.

(** A colour whose three channels are in [[0, 1]]. *)
Definition displayable (c : ColorMapper.Color) : Prop :=
  unit_interval (ColorMapper.r c) /\ unit_interval (ColorMapper.g c)
  /\ unit_interval (ColorMapper.b c).

(** *** Numbers in order *)

(** [lo <= v <= hi] for three rationals. *)
Definition between (lo hi v : number) : Prop :=
  match lo, hi, v with
  | Fin a, Fin b, Fin c => (a <= c)%Q /\ (c <= b)%Q
  | _, _, _ => False
  end.

(** The vector [v] lies in the box, axis by axis. *)
Definition in_bounding_box (b : VectorUtils.BoundingBox) (v : V3.t) : Prop :=
  between (V3.x (VectorUtils.min b)) (V3.x (VectorUtils.max b)) (V3.x v)
  /\ between (V3.y (VectorUtils.min b)) (V3.y (VectorUtils.max b)) (V3.y v)
  /\ between (V3.z (VectorUtils.min b)) (V3.z (VectorUtils.max b)) (V3.z v).

Definition all_finite (positions : list V3.t) : bool :=
  forallb finite_vector positions.

(** [a <= b] for numbers that are not NaN. *)
Definition not_above (a b : number) : bool :=
  match a, b with
  | NaN, _ | _, NaN => false
  | _, _ => negb (lt b a)
  end.

(** ** Example files *)

Module Examples.

(** An engine that takes about as many arguments as V8 does with its
    default stack. *)
#[export] Instance engine : Engine := {| max_arguments := 120000 |}.

#[local] Existing Instance Binary64.rounding.

(** The lines of a file, each closed by a line feed. *)
Definition file (lines : list string) : jsstring :=
  concat (List.map (fun l => js l ++ [10%N]) lines).

Local Open Scope string_scope.

(** One particle whose neighbour is the blank index -1. *)
Definition blank_neighbour_topology : jsstring :=
  file ["1 1 1 1"; "-5 0 5 1 0 -1 0"].

(** One particle without neighbours. *)
Definition one_particle_topology : jsstring :=
  file ["1 1 0 0"; "-5 0 5 1 0"].

(** One particle whose row announces [2 ^ 32] patch ids. *)
Definition overlong_topology : jsstring :=
  file ["1 1 0 0"; "-5 0 5 1 4294967296"].

(** One particle at [x = 12] in a box of side 10. *)
Definition one_row_configuration : jsstring :=
  file ["t = 0"; "b = 10 10 10"; "E = 0 0 0";
        "12 0 0 1 0 0 0 0 1 0 0 0 0 0 0"].

(** One particle just below [x = 0] in a box of side 1. *)
Definition tiny_negative_configuration : jsstring :=
  file ["t = 0"; "b = 1 1 1"; "E = 0 0 0";
        "-0.00000000000000000001 0 0 1 0 0 0 0 1 0 0 0 0 0 0"].

(** One particle at [x = 0.5] in a box of side 1. *)
Definition unit_box_configuration : jsstring :=
  file ["t = 0"; "b = 1 1 1"; "E = 0 0 0";
        "0.5 0 0 1 0 0 0 0 1 0 0 0 0 0 0"].

(** The topology of the README. *)
Definition readme_topology : jsstring :=
  file ["4 2 1 1";
        "# Header = Number of particles, strands, max number of springs per particle";
        "";
        "iP 0 -21 100 0 5 0";
        "iP 1 21 100 0 -5 0";
        "";
        "iS 0 100 1 5 0 0";
        "iS 1 100 1 -5 0 0";
        "";
        "# Body = particleType, strand,radius,mass,NumPatches iP ...... ,iS";
        "-5 0 5 1 1 0 1 0";
        "-5 0 5 1 1 0 0 1 2 0";
        "-5 0 5 1 1 0 1 1";
        "-5 1 5 1 1 1"].

(** Four rows for it, and one row of 12 fields among them. *)
Definition four_row_configuration : jsstring :=
  file ["t = 100"; "b = 10 10 10"; "E = 0 0 0";
        "1 0 0 1 0 0 0 0 1 0 0 0 0 0 0";
        "2 0 0 1 0 0 0 0 1 0 0 0";
        "2 0 0 1 0 0 0 0 1 0 0 0 0 0 0";
        "3 0 0 1 0 0 0 0 1 0 0 0 0 0 0";
        "4 0 0 1 0 0 0 0 1 0 0 0 0 0 0"].

(** Two particles, the first on strand 1 and the second on strand 0. *)
Definition two_strand_topology : jsstring :=
  file ["2 2 0 0"; "-5 1 5 1 0"; "-5 0 5 1 0"].

(** The first particle at [x = 1], the second at [x = 2]. *)
Definition two_row_configuration : jsstring :=
  file ["t = 0"; "b = 10 10 10"; "E = 0 0 0";
        "1 0 0 1 0 0 0 0 1 0 0 0 0 0 0";
        "2 0 0 1 0 0 0 0 1 0 0 0 0 0 0"].

(** No box line: the box keeps its default, with sides 0. *)
Definition no_box_configuration : jsstring :=
  file ["t = 0"; "12 0 0 1 0 0 0 0 1 0 0 0 0 0 0"].

(** What the application controller does with a pair of files
    ([loadExampleFiles] and [visualize]), with the decimal built-ins: parse
    both, combine, and load the graph into a new renderer. *)
Definition visualize (topologyContent configContent : jsstring)
  : M (StructureGraph * DNARenderer) :=
  topologyData ← lift (TopologyParser.parse (B := Decimal.builtins) topologyContent);
  configurationData ←
    lift (ConfigurationParser.parse (B := Decimal.builtins) configContent);
  combinedData ← DataCombiner.combine topologyData configurationData;
  renderer ← Renderer.constructor;
  renderer ← Renderer.loadData combinedData renderer;
  mret (combinedData, renderer).

(** The graph of the one-particle example and the store it lives in. *)
Definition one_particle_graph : StructureGraph :=
  {| particles :=
       [{| index := 0; type := Int (-5); strand := Int 0; radius := Fin 5; mass := Fin 1;
           patches := []; connections := [];
           position := 0; baseVector := 1; normalVector := 2; velocity := 3;
           angularVelocity := 4 |}];
     bonds := [];
     metadata := {| md_timestep := Int 0;
                    md_box := Some (V3.mk (Fin 10) (Fin 10) (Fin 10));
                    md_energy := {| total := Fin 0; potential := Fin 0; kinetic := Fin 0 |};
                    md_numStrands := Some (Fin 1) |} |}.

Definition one_particle_store : heap :=
  [V3.mk (Fin 12) (Fin 0) (Fin 0); V3.mk (Fin 1) (Fin 0) (Fin 0);
   V3.mk (Fin 0) (Fin 0) (Fin 1); zero_vector; zero_vector; zero_vector].

(** A renderer that has loaded nothing yet; its offset is the last object
    of [one_particle_store]. *)
Definition new_renderer : DNARenderer :=
  {| data := None; nucleotideInstances := []; bondMeshes := [];
     selectionMeshes := ∅; boxOffset := 5; originalParticlePositions := [] |}.

(** The renderer and the store after the one-particle graph is loaded. *)
Definition one_particle_scene : DNARenderer * list V3.t :=
  Eval vm_compute in
    match Renderer.loadData one_particle_graph new_renderer one_particle_store with
    | Ok scene => scene
    | Throw _ => (new_renderer, [])
    end.

(** The particle of the one-particle graph. *)
Definition the_particle : Particle :=
  Eval vm_compute in
    match particles one_particle_graph with
    | p :: _ => p
    | [] => {| index := 0; type := IntNaN; strand := IntNaN; radius := NaN; mass := NaN;
               patches := []; connections := [];
               position := 0; baseVector := 0; normalVector := 0; velocity := 0;
               angularVelocity := 0 |}
    end.

(** The documents the decimal built-ins read from the README files. *)
Definition readme_document : TopologyDocument :=
  Eval vm_compute in
    match TopologyParser.parse (B := Decimal.builtins) readme_topology with
    | Ok doc => doc
    | Throw _ =>
        {| topo_header := {| numParticles := None; numStrands := None;
                             maxSpringsPerParticle := None;
                             repeatedPatchesPerParticle := None |};
           topo_patches := []; topo_springs := []; topo_particles := [] |}
    end.

Definition four_row_document : ConfigurationDocument :=
  Eval vm_compute in
    match ConfigurationParser.parse (B := Decimal.builtins) four_row_configuration with
    | Ok doc => doc
    | Throw _ =>
        {| conf_timestep := IntNaN; conf_box := zero_vector;
           conf_energy := {| total := NaN; potential := NaN; kinetic := NaN |};
           conf_nucleotides := [] |}
    end.

End Examples.

(** * Properties *)

(** ** Arithmetic of [wrap] *)

Section WrapFacts.
Context {R : Rounding}.
Import Renderer.
Local Open Scope Q_scope.

Lemma Zrem_pos_divisor (n d : Z) :
  (0 < d)%Z -> n = (d * Z.quot n d + Z.rem n d)%Z /\ (- d < Z.rem n d < d)%Z.
Proof.
  intros Hd. split.
  - apply Z.quot_rem'.
  - pose proof (Z.rem_bound_abs n d ltac:(lia)). lia.
Qed.

Lemma Qrem_decompose (a L : Q) :
  0 < L ->
  exists k : Z, a == Qrem a L + inject_Z k * L /\ - L < Qrem a L /\ Qrem a L < L.
Proof.
  destruct a as [p q], L as [r s]. unfold Qlt, Qrem. simpl. intros HL.
  assert (Hr : (0 < r)%Z) by lia.
  set (d := (r * Z.pos q)%Z). set (n := (p * Z.pos s)%Z).
  assert (Hd : (0 < d)%Z) by (unfold d; lia).
  destruct (Zrem_pos_divisor n d Hd) as [Hqr [Hlo Hhi]].
  exists (Z.quot n d).
  unfold Qeq, Qlt, Qplus, Qmult, Qopp, inject_Z. simpl.
  rewrite !Pos2Z.inj_mul.
  fold d n. revert Hqr Hlo Hhi.
  generalize (Z.rem n d) (Z.quot n d). intros m k Hqr Hlo Hhi.
  unfold d, n in *. clear d n Hd.
  assert (0 < Z.pos q)%Z by lia. assert (0 < Z.pos s)%Z by lia.
  revert H H0 Hqr Hlo Hhi. generalize (Z.pos q) (Z.pos s). intros Q S HQ HS Hqr Hlo Hhi.
  repeat split; nia.
Qed.

Lemma Qeq_bool_pos (L : Q) : 0 < L -> Qeq_bool L 0 = false.
Proof.
  intros HL. destruct (Qeq_bool L 0) eqn:E; [|reflexivity].
  apply Qeq_bool_eq in E. lra.
Qed.

(** For a positive box side [wrap] is the remainder of the truncated
    division when that is not negative, and otherwise the rounded sum of
    that remainder and the side. *)
Lemma wrap_cases (a L : Q) :
  0 < L ->
  (Qrem a L < 0 /\ wrap (Fin a) (Fin L) = round (Qrem a L + L))
  \/ (0 <= Qrem a L /\ wrap (Fin a) (Fin L) = Fin (Qrem a L)).
Proof.
  intros HL. unfold wrap, rem. rewrite (Qeq_bool_pos L HL). unfold lt.
  destruct (Qlt_le_dec (Qrem a L) 0) as [Hneg | Hpos].
  - left. split; [exact Hneg | reflexivity].
  - right. split; [exact Hpos | reflexivity].
Qed.

(** The remainder has the sign of the dividend. *)
Lemma Qrem_nonneg (a L : Q) : 0 <= a -> 0 < L -> 0 <= Qrem a L.
Proof.
  destruct a as [p q], L as [r s]. unfold Qle, Qlt, Qrem. simpl. intros Ha HL.
  rewrite Z.mul_1_r in *.
  assert (H : (0 <= Z.rem (p * Z.pos s) (r * Z.pos q))%Z)
    by (apply Z.rem_nonneg; nia).
  exact H.
Qed.

(** With a rounding that keeps the numbers from 0 to [L] there, [wrap]
    ends in the box, faces included. *)
Lemma wrap_inside (y L : Q) :
  0 < L -> rounds_inside L -> inside (Fin L) (wrap (Fin y) (Fin L)).
Proof.
  intros HL HR. destruct (Qrem_decompose y L HL) as [k [_ [Hlo Hhi]]].
  destruct (wrap_cases y L HL) as [[Hneg ->] | [Hpos ->]].
  - destruct (HR (Qrem y L + L) ltac:(lra) ltac:(lra)) as (r & -> & H0 & H1).
    simpl. split; assumption.
  - simpl. split; lra.
Qed.

(** When the sum is a double, and so is not rounded, the result is in
    [[0, L)]. *)
Lemma wrap_range_when_exact (v L : Q) :
  0 < L ->
  round (Qrem v L + L) = Fin (Qrem v L + L) ->
  exists r : Q, wrap (Fin v) (Fin L) = Fin r /\ 0 <= r /\ r < L.
Proof.
  intros HL Hexact. destruct (Qrem_decompose v L HL) as [k [_ [Hlo Hhi]]].
  destruct (wrap_cases v L HL) as [[Hneg ->] | [Hpos ->]].
  - rewrite Hexact. eexists. split; [reflexivity |]. lra.
  - eexists. split; [reflexivity |]. lra.
Qed.

Lemma rounds_within_nonneg (M eps : Q) : rounds_within M eps -> 0 <= M -> 0 <= eps.
Proof.
  intros Hr HM. destruct (Hr 0) as [r [_ Hr0]].
  - rewrite Qabs_pos; lra.
  - pose proof (Qabs_nonneg (r - 0)). lra.
Qed.

Lemma fadd_near (M eps x y : Q) :
  rounds_within M eps -> Qabs (x + y) <= M ->
  exists r, fadd (Fin x) (Fin y) = Fin r /\ Qabs (r - (x + y)) <= eps.
Proof. intros Hr Hxy. exact (Hr (x + y) Hxy). Qed.

(** The result of [wrap] is within one rounding error of the
    representative in [[0, L)] of the class of [a] modulo [L]. *)
Lemma wrap_near (M eps a L : Q) :
  rounds_within M eps -> 0 < L -> L <= M ->
  exists (w : Q) (k : Z),
    wrap (Fin a) (Fin L) = Fin w
    /\ 0 <= a - inject_Z k * L /\ a - inject_Z k * L < L
    /\ Qabs (w - (a - inject_Z k * L)) <= eps.
Proof.
  intros Hr HL HM.
  pose proof (rounds_within_nonneg M eps Hr ltac:(lra)) as Heps.
  destruct (Qrem_decompose a L HL) as [k [Hk [Hlo Hhi]]].
  destruct (wrap_cases a L HL) as [[Hneg ->] | [Hpos ->]].
  - destruct (Hr (Qrem a L + L)) as [w [-> Hw]].
    { apply Qabs_Qle_condition. lra. }
    exists w, (k - 1)%Z. split; [reflexivity |].
    assert (E : a - inject_Z (k - 1) * L == Qrem a L + L).
    { unfold Z.sub. rewrite inject_Z_plus, inject_Z_opp. change (inject_Z 1) with 1.
      nra. }
    rewrite E. repeat split; try lra.
  - exists (Qrem a L), k. split; [reflexivity |].
    assert (E : a - inject_Z k * L == Qrem a L) by lra.
    rewrite E. repeat split; try lra.
    assert (E0 : Qrem a L - Qrem a L == 0) by ring.
    rewrite E0. change (Qabs 0) with 0. exact Heps.
Qed.

(** A sum of an original coordinate [x] and an offset [s], wrapped, and the
    same with the offset moved by one box side: the two results are the
    same up to five rounding errors, or they are at opposite faces of the
    box up to that. *)
Lemma wrap_offset_add_side (M eps x s L : Q) :
  rounds_within M eps -> 0 < L -> 0 <= eps -> 3 * eps < L ->
  Qabs x + Qabs s + L + eps <= M ->
  unchanged_up_to (5 * eps) L
    (wrap (fadd (Fin x) (Fin s)) (Fin L))
    (wrap (fadd (Fin x) (fadd (Fin s) (Fin L))) (Fin L)).
Proof.
  intros Hr HL Heps Hsmall HM.
  pose proof (Qabs_nonneg x) as Hx0. pose proof (Qabs_nonneg s) as Hs0.
  pose proof (Qabs_triangle x s) as Txs.
  destruct (fadd_near M eps x s Hr ltac:(lra)) as [a [Ea Ha]].
  pose proof (Qabs_triangle s L) as TsL. rewrite (Qabs_pos L) in TsL by lra.
  destruct (fadd_near M eps s L Hr ltac:(lra)) as [o' [Eo Ho]].
  assert (Ho' : Qabs o' <= Qabs s + L + eps).
  { assert (E : o' == (s + L) + (o' - (s + L))) by ring.
    rewrite E. eapply Qle_trans; [apply Qabs_triangle |]. lra. }
  pose proof (Qabs_triangle x o') as Txo.
  destruct (fadd_near M eps x o' Hr ltac:(lra)) as [b [Eb Hb]].
  rewrite Ea, Eo, Eb.
  destruct (wrap_near M eps a L Hr HL ltac:(lra)) as (wa & ka & -> & Ha0 & HaL & Hwa).
  destruct (wrap_near M eps b L Hr HL ltac:(lra)) as (wb & kb & -> & Hb0 & HbL & Hwb).
  apply Qabs_Qle_condition in Ha, Ho, Hb, Hwa, Hwb.
  set (m := (ka + 1 - kb)%Z).
  assert (Em : inject_Z m == inject_Z ka + 1 - inject_Z kb).
  { unfold m, Z.sub. rewrite !inject_Z_plus, inject_Z_opp. reflexivity. }
  assert (Hm : m = (-1)%Z \/ m = 0%Z \/ m = 1%Z).
  { assert (Hlo : -2 < inject_Z m) by nra.
    assert (Hhi : inject_Z m < 2) by nra.
    change (-2) with (inject_Z (-2)) in Hlo. change 2 with (inject_Z 2) in Hhi.
    rewrite <- Zlt_Qlt in Hlo, Hhi. lia. }
  unfold unchanged_up_to. revert Em.
  destruct Hm as [-> | [-> | ->]].
  - change (inject_Z (-1)) with (-1). intros Em.
    right. right. split; nra.
  - change (inject_Z 0) with 0. intros Em.
    left. apply Qabs_Qle_condition. split; nra.
  - change (inject_Z 1) with 1. intros Em.
    right. left. split; nra.
Qed.

End WrapFacts.

Section Binary64Facts.
Import Binary64.
Local Open Scope Q_scope.

Lemma two_power_pos (k : Z) : 0 < 2 ^ k.
Proof. apply Qpower_0_lt. reflexivity. Qed.

Lemma two_power_succ (k : Z) : 2 ^ (k + 1) == 2 * 2 ^ k.
Proof. rewrite Qpower_plus by discriminate. change (2 ^ 1) with 2. ring. Qed.

Lemma nearest_even_near (q : Q) : Qabs (inject_Z (nearest_even q) - q) <= 1 # 2.
Proof.
  unfold nearest_even.
  pose proof (Qfloor_le q) as Hlo. pose proof (Qlt_floor q) as Hhi.
  rewrite inject_Z_plus in Hhi. change (inject_Z 1) with 1 in Hhi.
  apply Qabs_Qle_condition.
  destruct (Qcompare_spec (q - inject_Z (Qfloor q)) (1 # 2)) as [E | E | E].
  - destruct (Z.even (Qfloor q)).
    + lra.
    + rewrite inject_Z_plus. change (inject_Z 1) with 1. lra.
  - lra.
  - rewrite inject_Z_plus. change (inject_Z 1) with 1. lra.
Qed.

(** [2 ^ log2_floor q <= q < 2 ^ (log2_floor q + 1)] for a positive [q]. *)
Lemma log2_floor_spec (q : Q) :
  0 < q -> 2 ^ log2_floor q <= q /\ q < 2 ^ (log2_floor q + 1).
Proof.
  intros Hq. destruct q as [n d]. unfold log2_floor. cbn [Qnum Qden].
  assert (Hn : (0 < n)%Z) by (unfold Qlt in Hq; simpl in Hq; lia).
  destruct (Z.log2_spec n Hn) as [Ha1 Ha2].
  destruct (Z.log2_spec (Z.pos d) ltac:(lia)) as [Hb1 Hb2].
  set (a := Z.log2 n) in *. set (b := Z.log2 (Z.pos d)) in *.
  assert (Ha : (0 <= a)%Z) by apply Z.log2_nonneg.
  assert (Hb : (0 <= b)%Z) by apply Z.log2_nonneg.
  assert (Hlow : 2 ^ (a - b - 1) <= n # d).
  { replace (a - b - 1)%Z with (a - (b + 1))%Z by lia.
    rewrite Qpower_minus by discriminate.
    change 2 with (inject_Z 2). rewrite <- !Zpower_Qpower by lia.
    apply Qle_shift_div_r.
    - change 0 with (inject_Z 0). rewrite <- Zlt_Qlt. lia.
    - unfold Qle, Qmult, inject_Z. simpl.
      unfold Z.succ in Hb2. nia. }
  assert (Hhigh : n # d < 2 ^ (a - b + 1)).
  { replace (a - b + 1)%Z with (a + 1 - b)%Z by lia.
    rewrite Qpower_minus by discriminate.
    change 2 with (inject_Z 2). rewrite <- !Zpower_Qpower by lia.
    apply Qlt_shift_div_l.
    - change 0 with (inject_Z 0). rewrite <- Zlt_Qlt. lia.
    - unfold Qlt, Qmult, inject_Z. simpl.
      unfold Z.succ in Ha2. nia. }
  destruct (Qle_bool (2 ^ (a - b)) (n # d)) eqn:E.
  - apply Qle_bool_iff in E. split; [exact E | exact Hhigh].
  - split; [exact Hlow |].
    replace (a - b - 1 + 1)%Z with (a - b)%Z by lia.
    apply Qnot_le_lt. intros H. apply Qle_bool_iff in H. congruence.
Qed.

Lemma log2_floor_le (q : Q) (k : Z) : 0 < q -> q <= 2 ^ k -> (log2_floor q <= k)%Z.
Proof.
  intros Hq Hk. destruct (log2_floor_spec q Hq) as [Hlo _].
  apply (Qpower_le_compat_l_inv 2); [| reflexivity].
  exact (Qle_trans _ _ _ Hlo Hk).
Qed.

(** Below [2 ^ k] a double is at most [2 ^ (k - 53)] away, and the
    rounding does not overflow. *)
Lemma binary64_rounds_within (k : Z) :
  (-1022 <= k <= 1022)%Z ->
  rounds_within (R := Binary64.rounding) (2 ^ k) (2 ^ (k - 53)).
Proof.
  intros Hk q Hq. change (@JS.round Binary64.rounding q) with (Binary64.round q).
  unfold Binary64.round.
  destruct (Qeq_bool q 0) eqn:E0.
  - apply Qeq_bool_eq in E0. exists 0. split; [reflexivity |].
    rewrite E0. change (Qabs (0 - 0)) with 0. apply Qlt_le_weak, two_power_pos.
  - apply Qeq_bool_neq in E0.
    assert (Hpos : 0 < Qabs q).
    { destruct (Qlt_le_dec 0 (Qabs q)) as [H | H]; [exact H |].
      exfalso. apply E0. apply Qabs_Qle_condition in H. lra. }
    set (e := exponent q).
    assert (He : (e <= k - 52)%Z).
    { unfold e, exponent. pose proof (log2_floor_le (Qabs q) k Hpos Hq). lia. }
    set (s := q / 2 ^ e). set (m := nearest_even s).
    pose proof (two_power_pos e) as Hpe.
    assert (Hs : q == s * 2 ^ e).
    { unfold s. field. lra. }
    pose proof (nearest_even_near s) as Hm. fold m in Hm.
    assert (Herr : Qabs (inject_Z m * 2 ^ e - q) <= 2 ^ (k - 53)).
    { assert (E : inject_Z m * 2 ^ e - q == (inject_Z m - s) * 2 ^ e) by (rewrite Hs; ring).
      rewrite E, Qabs_Qmult, (Qabs_pos (2 ^ e)) by lra.
      assert (Hle : 2 ^ e <= 2 ^ (k - 52))
        by (apply Qpower_le_compat_l; [exact He | discriminate]).
      assert (E2 : 2 ^ (k - 52) == 2 * 2 ^ (k - 53)).
      { rewrite <- two_power_succ. replace (k - 53 + 1)%Z with (k - 52)%Z by lia.
        reflexivity. }
      pose proof (two_power_pos (k - 53)). pose proof (Qabs_nonneg (inject_Z m - s)).
      nra. }
    assert (Hfin : Qle_bool (2 ^ 1024) (Qabs (inject_Z m * 2 ^ e)) = false).
    { destruct (Qle_bool (2 ^ 1024) (Qabs (inject_Z m * 2 ^ e))) eqn:E; [| reflexivity].
      exfalso. apply Qle_bool_iff in E.
      assert (Hr : Qabs (inject_Z m * 2 ^ e) <= Qabs q + 2 ^ (k - 53)).
      { assert (E3 : inject_Z m * 2 ^ e == q + (inject_Z m * 2 ^ e - q)) by ring.
        rewrite E3 at 1. eapply Qle_trans; [apply Qabs_triangle |]. lra. }
      assert (H1 : 2 ^ (k - 53) <= 2 ^ k)
        by (apply Qpower_le_compat_l; [lia | discriminate]).
      assert (H2 : 2 ^ (k + 1) <= 2 ^ 1023)
        by (apply Qpower_le_compat_l; [lia | discriminate]).
      assert (H3 : 2 ^ 1023 < 2 ^ 1024) by (apply Qpower_lt_compat_l; [lia | reflexivity]).
      rewrite two_power_succ in H2. set (B := 2 ^ 1024) in *. set (C := 2 ^ 1023) in *.
      lra. }
    fold e s m. rewrite Hfin.
    exists (Qred (inject_Z m * 2 ^ e)). split; [reflexivity |].
    rewrite Qred_correct. exact Herr.
Qed.

Lemma Qabs_of_pos (q : Q) : 0 < q -> Qabs q = q.
Proof.
  destruct q as [n d]. unfold Qlt, Qabs. simpl. intros H.
  rewrite Z.abs_eq by lia. reflexivity.
Qed.

Lemma log2_floor_lt (q : Q) (k : Z) : 0 < q -> q < 2 ^ k -> (log2_floor q < k)%Z.
Proof.
  intros Hq Hk. destruct (log2_floor_spec q Hq) as [Hlo _].
  destruct (Z_lt_le_dec (log2_floor q) k) as [H | H]; [exact H | exfalso].
  assert (Hle : 2 ^ k <= 2 ^ log2_floor q)
    by (apply Qpower_le_compat_l; [exact H | discriminate]).
  lra.
Qed.

Lemma nearest_even_nonneg (q : Q) : 0 <= q -> (0 <= nearest_even q)%Z.
Proof.
  intros Hq. unfold nearest_even.
  assert (Hf : (0 <= Qfloor q)%Z).
  { change 0%Z with (Qfloor 0). apply Qfloor_resp_le. exact Hq. }
  destruct (q - inject_Z (Qfloor q) ?= 1 # 2); [destruct (Z.even (Qfloor q)) | |]; lia.
Qed.

Lemma nearest_even_le (q : Q) (n : Z) : q <= inject_Z n -> (nearest_even q <= n)%Z.
Proof.
  intros Hq. unfold nearest_even.
  pose proof (Qfloor_le q) as Hlo.
  assert (Hf : (Qfloor q <= n)%Z) by (rewrite Zle_Qle; lra).
  assert (Hstrict : inject_Z (Qfloor q) < q -> (Qfloor q + 1 <= n)%Z).
  { intros H. assert (H' : inject_Z (Qfloor q) < inject_Z n) by lra.
    rewrite <- Zlt_Qlt in H'. lia. }
  destruct (Qcompare_spec (q - inject_Z (Qfloor q)) (1 # 2)) as [E | E | E].
  - destruct (Z.even (Qfloor q)); [exact Hf | apply Hstrict; lra].
  - exact Hf.
  - apply Hstrict; lra.
Qed.

(** The rounding of doubles keeps the numbers from 0 to a double [L]
    there. *)
Lemma binary64_rounds_inside (L : Q) :
  0 < L ->
  same_value (Binary64.round L) (Fin L) ->
  rounds_inside (R := Binary64.rounding) L.
Proof.
  intros HL Hdouble q Hq0 HqL.
  change (@JS.round Binary64.rounding q) with (Binary64.round q).
  unfold Binary64.round.
  destruct (Qeq_bool q 0) eqn:E0.
  { exists 0. split; [reflexivity |]. lra. }
  apply Qeq_bool_neq in E0.
  assert (Hq : 0 < q).
  { destruct (Qlt_le_dec 0 q) as [H | H]; [exact H |]. exfalso. apply E0. lra. }
  unfold Binary64.round in Hdouble.
  destruct (Qeq_bool L 0) eqn:EL; [apply Qeq_bool_eq in EL; lra |].
  set (eL := exponent L) in *. set (nL := nearest_even (L / 2 ^ eL)) in *.
  destruct (Qle_bool (2 ^ 1024) (Qabs (inject_Z nL * 2 ^ eL))) eqn:Eov.
  { destruct (Qle_bool 0 L); contradiction. }
  simpl in Hdouble. rewrite Qred_correct in Hdouble.
  assert (HLmax : L < 2 ^ 1024).
  { apply Qnot_le_lt. intros H. rewrite Hdouble, (Qabs_pos L) in Eov by lra.
    apply Qle_bool_iff in H. congruence. }
  set (e := exponent q). set (m := nearest_even (q / 2 ^ e)).
  assert (He : (e <= eL)%Z).
  { unfold e, eL, exponent. rewrite (Qabs_of_pos q Hq), (Qabs_of_pos L HL).
    destruct (log2_floor_spec L HL) as [_ Hhi].
    pose proof (log2_floor_lt q (log2_floor L + 1) Hq ltac:(lra)). lia. }
  pose proof (two_power_pos e) as Hpe.
  set (n := (nL * 2 ^ (eL - e))%Z).
  assert (HLn : L == inject_Z n * 2 ^ e).
  { unfold n. rewrite inject_Z_mult, Zpower_Qpower by lia.
    change (inject_Z 2) with 2.
    rewrite <- Hdouble, <- Qmult_assoc, <- Qpower_plus by discriminate.
    replace (eL - e + e)%Z with eL by lia. reflexivity. }
  assert (Hm0 : (0 <= m)%Z).
  { apply nearest_even_nonneg. apply Qle_shift_div_l; lra. }
  assert (Hmn : (m <= n)%Z).
  { apply nearest_even_le. apply Qle_shift_div_r; [exact Hpe |]. lra. }
  assert (Hr0 : 0 <= inject_Z m * 2 ^ e).
  { apply Qmult_le_0_compat; [| lra]. change 0 with (inject_Z 0). rewrite <- Zle_Qle. exact Hm0. }
  assert (HrL : inject_Z m * 2 ^ e <= L).
  { rewrite HLn. apply Qmult_le_compat_r; [| lra]. rewrite <- Zle_Qle. exact Hmn. }
  assert (Hfin : Qle_bool (2 ^ 1024) (Qabs (inject_Z m * 2 ^ e)) = false).
  { destruct (Qle_bool (2 ^ 1024) (Qabs (inject_Z m * 2 ^ e))) eqn:E; [| reflexivity].
    exfalso. apply Qle_bool_iff in E. rewrite Qabs_pos in E by exact Hr0. lra. }
  fold e m. rewrite Hfin.
  exists (Qred (inject_Z m * 2 ^ e)). split; [reflexivity |].
  rewrite Qred_correct. split; assumption.
Qed.

End Binary64Facts.

(** ** The wrapping function *)

(** C1. With a box side of 0 the helper [wrap] does not pass its argument
    through: [val % 0] is NaN, the test [res < 0] fails on NaN, and NaN is
    returned, whatever the argument. *)
Theorem wrap_zero_side_is_NaN {R : Rounding} (v : number) :
  Renderer.wrap v (Fin 0) = NaN /\ ~ same_value (Renderer.wrap (Fin 7) (Fin 0)) (Fin 7).
Proof.
  split.
  - destruct v; reflexivity.
  - simpl. intros [].
Qed.

(** C7. In doubles [wrap] reaches the box side. For the double [v]
    nearest to [-1e-20] and the side 1 the remainder [v % 1] is [v], which
    is negative, and the sum [v + 1] is rounded to 1: [wrap] returns 1,
    which is not below the side. *)
Theorem wrap_reaches_the_side :
  exists v : Q,
    Binary64.round (- (1 # 100000000000000000000)) = Fin v
    /\ Renderer.wrap (R := Binary64.rounding) (Fin v) (Fin 1) = Fin 1
    /\ ~ exists r : Q,
           Renderer.wrap (R := Binary64.rounding) (Fin v) (Fin 1) = Fin r
           /\ (0 <= r)%Q /\ (r < 1)%Q.
Proof.
  eexists. split; [vm_compute; reflexivity |].
  split; [vm_compute; reflexivity |].
  intros [r [Hr [_ Hlt]]]. vm_compute in Hr. injection Hr as <-.
  vm_compute in Hlt. discriminate.
Qed.

(** ** TopologyParser *)

Section TopologyParserFacts.
Context {B : Builtins}.
Import TopologyParser.

Lemma find_header_None (lines : list jsstring) :
  find_header lines = None <-> Forall (fun line => significant line = false) lines.
Proof.
  induction lines as [| line rest IH]; simpl.
  - split; [constructor | reflexivity].
  - destruct (significant line) eqn:E.
    + split; [discriminate |]. intros H. inversion H; subst. congruence.
    + rewrite IH. split.
      * intros H. constructor; assumption.
      * intros H. inversion H; assumption.
Qed.

Lemma find_header_first (lines : list jsstring) (line : jsstring) :
  List.find significant lines = Some line ->
  exists rest, find_header lines = Some (parse_header line, rest).
Proof.
  induction lines as [| l rest IH]; simpl; [discriminate |].
  destruct (significant l).
  - intros [= ->]. eexists. reflexivity.
  - exact IH.
Qed.

Lemma read_patches_fits (parts : list jsstring) (n : Z) :
  n <= max_array_length ->
  read_patches parts (Int n)
  = Ok (List.map (fun i => parseInt_at parts (5 + i)) (seq 0 (Z.to_nat n))).
Proof.
  intros Hn. unfold read_patches.
  destruct (n <=? max_array_length) eqn:E; [reflexivity |].
  apply Z.leb_gt in E. lia.
Qed.

Lemma read_patches_overlong (parts : list jsstring) (n : Z) :
  max_array_length < n -> read_patches parts (Int n) = Throw RangeError.
Proof.
  intros Hn. unfold read_patches.
  destruct (n <=? max_array_length) eqn:E; [| reflexivity].
  apply Z.leb_le in E. lia.
Qed.

(** A particle row is read unless it is overlong, and then the patch loop
    throws. *)
Lemma parse_particle_cases (index : nat) (line : jsstring) :
  particle_row line = true ->
  if overlong line
  then parse_particle index (split_spaces line) = Throw RangeError
  else exists p, parse_particle index (split_spaces line) = Ok p /\ rec_index p = index.
Proof.
  intros Hrow. unfold overlong, parse_particle, parseInt_at. rewrite Hrow. simpl.
  destruct (split_spaces line !! 4%nat) as [token |]; [| eexists; split; reflexivity].
  destruct (parseInt token) as [n |]; [| eexists; split; reflexivity].
  change (2 ^ 32 - 1) with max_array_length.
  destruct (max_array_length <? n) eqn:E.
  - apply Z.ltb_lt in E. rewrite (read_patches_overlong _ _ E). reflexivity.
  - apply Z.ltb_ge in E. rewrite (read_patches_fits _ _ E).
    eexists. split; reflexivity.
Qed.

Lemma tag_iP_not_iS (parts : list jsstring) :
  tag_is parts "iP" = true -> tag_is parts "iS" = false.
Proof.
  unfold tag_is. destruct (parts !! 0%nat) as [tk |]; [| discriminate].
  unfold string_eqb. intros EP. apply bool_decide_eq_true in EP. subst tk. reflexivity.
Qed.

(** The second loop, from any state. When no row is overlong it returns:
    each significant line has added one record, to the list its first
    token selects, and a particle has got the number of particles read
    before it as its index. When a row is overlong it throws. *)
Lemma parse_lines_rows (rest : list jsstring) :
  forall t : TopologyDocument,
    if existsb overlong rest
    then parse_lines rest t = Throw RangeError
    else
      exists t',
        parse_lines rest t = Ok t'
        /\ topo_header t' = topo_header t
        /\ length (topo_patches t')
           = (length (topo_patches t) + length (List.filter (tagged "iP") rest))%nat
        /\ length (topo_springs t')
           = (length (topo_springs t) + length (List.filter (tagged "iS") rest))%nat
        /\ exists new,
             topo_particles t' = topo_particles t ++ new
             /\ List.map Ok new
                = imap (fun i line =>
                          parse_particle (length (topo_particles t) + i) (split_spaces line))
                    (List.filter particle_row rest).
Proof.
  induction rest as [| line rest IH]; intros t.
  - simpl. exists t. split; [reflexivity |]. split; [reflexivity |].
    split; [lia |]. split; [lia |]. exists []. rewrite app_nil_r. split; reflexivity.
  - cbn [existsb parse_lines List.filter].
    destruct (significant line) eqn:Esig.
    2:{ assert (HP : tagged "iP" line = false) by (unfold tagged; rewrite Esig; reflexivity).
        assert (HS : tagged "iS" line = false) by (unfold tagged; rewrite Esig; reflexivity).
        assert (HR : particle_row line = false)
          by (unfold particle_row; rewrite Esig; reflexivity).
        assert (HO : overlong line = false) by (unfold overlong; rewrite HR; reflexivity).
        assert (Hline : parse_line t line = Ok t)
          by (unfold parse_line; rewrite Esig; reflexivity).
        rewrite HP, HS, HR, HO, Hline.
        cbn [orb mbind result_bind bind]. exact (IH t). }
    destruct (tag_is (split_spaces line) "iP") eqn:EP.
    + pose proof (tag_iP_not_iS _ EP) as ES.
      assert (HP : tagged "iP" line = true) by (unfold tagged; rewrite Esig, EP; reflexivity).
      assert (HS : tagged "iS" line = false) by (unfold tagged; rewrite Esig, ES; reflexivity).
      assert (HR : particle_row line = false)
        by (unfold particle_row; rewrite Esig, EP; reflexivity).
      assert (HO : overlong line = false) by (unfold overlong; rewrite HR; reflexivity).
      rewrite HP, HS, HR, HO. unfold parse_line. rewrite Esig, EP.
      cbn [orb mbind result_bind bind mret result_ret].
      match goal with |- context [parse_lines rest ?t1] => specialize (IH t1) end.
      destruct (existsb overlong rest); [exact IH |].
      destruct IH as (t' & Hrun & Hh & Hp & Hs & new & Hq & Hnew).
      cbn [topo_header topo_patches topo_springs topo_particles] in *.
      exists t'. split; [exact Hrun |]. split; [exact Hh |].
      split; [rewrite Hp, length_app; simpl; lia |]. split; [exact Hs |].
      exists new. split; assumption.
    + destruct (tag_is (split_spaces line) "iS") eqn:ES.
      * assert (HP : tagged "iP" line = false)
          by (unfold tagged; rewrite Esig, EP; reflexivity).
        assert (HS : tagged "iS" line = true)
          by (unfold tagged; rewrite Esig, ES; reflexivity).
        assert (HR : particle_row line = false)
          by (unfold particle_row; rewrite Esig, EP, ES; reflexivity).
        assert (HO : overlong line = false) by (unfold overlong; rewrite HR; reflexivity).
        rewrite HP, HS, HR, HO. unfold parse_line. rewrite Esig, EP, ES.
        cbn [orb mbind result_bind bind mret result_ret].
        match goal with |- context [parse_lines rest ?t1] => specialize (IH t1) end.
        destruct (existsb overlong rest); [exact IH |].
        destruct IH as (t' & Hrun & Hh & Hp & Hs & new & Hq & Hnew).
        cbn [topo_header topo_patches topo_springs topo_particles] in *.
        exists t'. split; [exact Hrun |]. split; [exact Hh |].
        split; [exact Hp |]. split; [rewrite Hs, length_app; simpl; lia |].
        exists new. split; assumption.
      * assert (HP : tagged "iP" line = false)
          by (unfold tagged; rewrite Esig, EP; reflexivity).
        assert (HS : tagged "iS" line = false)
          by (unfold tagged; rewrite Esig, ES; reflexivity).
        assert (HR : particle_row line = true)
          by (unfold particle_row; rewrite Esig, EP, ES; reflexivity).
        pose proof (parse_particle_cases (length (topo_particles t)) line HR) as Hcase.
        rewrite HP, HS, HR. unfold parse_line. rewrite Esig, EP, ES.
        destruct (overlong line).
        -- cbn [orb]. rewrite Hcase. reflexivity.
        -- destruct Hcase as [particle [Hparticle Hindex]].
           cbn [orb]. rewrite Hparticle.
           cbn [mbind result_bind bind mret result_ret].
           match goal with |- context [parse_lines rest ?t1] => specialize (IH t1) end.
           destruct (existsb overlong rest); [exact IH |].
           destruct IH as (t' & Hrun & Hh & Hp & Hs & new & Hq & Hnew).
           cbn [topo_header topo_patches topo_springs topo_particles] in *.
           exists t'. split; [exact Hrun |]. split; [exact Hh |].
           split; [exact Hp |]. split; [exact Hs |].
           exists (particle :: new). split.
           ++ rewrite Hq, <- app_assoc. reflexivity.
           ++ cbn [List.map imap]. rewrite Nat.add_0_r, Hparticle. f_equal.
              rewrite Hnew. apply imap_ext. intros i x _. simpl.
              rewrite length_app. simpl. f_equal. lia.
Qed.

End TopologyParserFacts.

(** C6. A text with a header can make [TopologyParser.parse] throw. The
    loop over the patch ids of a particle row runs [numPatches] times
    without a test on the number of tokens, unlike the loop over the
    connections after it: on a row that announces [2 ^ 32] patch ids the
    push that would make the array longer than an array can be throws a
    RangeError, which [parse] does not catch. The first significant line
    of that text is its header. *)
Theorem topology_parse_throws_on_overlong_row :
  List.find significant (lines_of Examples.overlong_topology) = Some (js "1 1 0 0")
  /\ TopologyParser.parse (B := Decimal.builtins) Examples.overlong_topology
     = Throw RangeError
  /\ TopologyParser.parse (B := Decimal.builtins) Examples.overlong_topology
     <> Throw TopologyParser.no_header.
Proof.
  split; [vm_compute; reflexivity |].
  split; [vm_compute; reflexivity |].
  vm_compute. discriminate.
Qed.

Section TopologyParserCases.
Context {B : Builtins}.
Import TopologyParser.

(** [TopologyParser.parse] throws its own error exactly when no line of
    the text is significant (not blank and not a comment, once trimmed),
    a RangeError exactly when the text has a header and an overlong row
    after it, and otherwise returns a document whose header holds the
    tokens of the first significant line, read by [Number]. *)
Lemma topology_parse_cases (content : jsstring) :
  (parse content = Throw no_header
   <-> Forall (fun line => significant line = false) (lines_of content))
  /\ (forall e, parse content = Throw e -> e = no_header \/ e = RangeError)
  /\ (forall line,
        List.find significant (lines_of content) = Some line ->
        parse content = Throw RangeError
        \/ exists topology,
             parse content = Ok topology
             /\ let numbers := List.map Number (split_spaces line) in
                numParticles (topo_header topology) = numbers !! 0%nat
                /\ numStrands (topo_header topology) = numbers !! 1%nat
                /\ maxSpringsPerParticle (topo_header topology) = numbers !! 2%nat
                /\ repeatedPatchesPerParticle (topo_header topology) = numbers !! 3%nat).
Proof.
  unfold parse. split; [| split].
  - rewrite <- find_header_None.
    destruct (find_header (lines_of content)) as [[header rest] |].
    + split; [| discriminate].
      pose proof (parse_lines_rows rest
                    {| topo_header := header; topo_patches := [];
                       topo_springs := []; topo_particles := [] |}) as H.
      destruct (existsb overlong rest).
      * rewrite H. discriminate.
      * destruct H as (t' & -> & _). discriminate.
    + split; reflexivity.
  - intros e. destruct (find_header (lines_of content)) as [[header rest] |].
    + pose proof (parse_lines_rows rest
                    {| topo_header := header; topo_patches := [];
                       topo_springs := []; topo_particles := [] |}) as H.
      destruct (existsb overlong rest).
      * rewrite H. intros [= <-]. right. reflexivity.
      * destruct H as (t' & -> & _). discriminate.
    + intros [= <-]. left. reflexivity.
  - intros line Hfind.
    destruct (find_header_first _ _ Hfind) as [rest ->].
    pose proof (parse_lines_rows rest
                  {| topo_header := parse_header line; topo_patches := [];
                     topo_springs := []; topo_particles := [] |}) as H.
    destruct (existsb overlong rest).
    + left. exact H.
    + right. destruct H as (t' & -> & Hh & _). exists t'. split; [reflexivity |].
      rewrite Hh. simpl. repeat split; reflexivity.
Qed.

End TopologyParserCases.

(** ** ConfigurationParser *)

Section ConfigurationParserFacts.
Context {B : Builtins}.
Import ConfigurationParser.

Lemma split_on_nonempty (sep : N) (s : jsstring) : split_on sep s <> [].
Proof.
  destruct s as [| c s]; simpl; [discriminate |].
  destruct (c =? sep)%N; [discriminate |].
  destruct (split_on sep s); discriminate.
Qed.

Lemma lines_of_nonempty (content : jsstring) : lines_of content <> [].
Proof.
  unfold lines_of. pose proof (split_on_nonempty 10 content).
  destruct (split_on 10 content); [congruence | discriminate].
Qed.

(** A line that starts with a header tag has a part after its first [=]. *)
Lemma after_equals_returns (a : N) (line : jsstring) :
  a <> 61%N -> startsWith line [a; 32%N; 61%N] = true ->
  exists s, after_equals line = Ok s.
Proof.
  intros Ha H. destruct line as [| c0 [| c1 [| c2 rest]]]; simpl in H;
    try (rewrite ?andb_false_r in H; discriminate).
  rewrite !andb_true_iff, !N.eqb_eq in H. destruct H as (-> & -> & -> & _).
  unfold after_equals. simpl.
  destruct (N.eqb_spec a 61); [contradiction |].
  pose proof (split_on_nonempty 61 rest).
  destruct (split_on 61 rest) as [| t ts]; [congruence |].
  simpl. eauto.
Qed.

Ltac header_test l tag code :=
  destruct (startsWith l (js tag)) eqn:?;
  [ let s := fresh "s" in
    let Hs := fresh "Hs" in
    destruct (after_equals_returns code l ltac:(discriminate) ltac:(eassumption)) as [s Hs];
    unfold floats_after_equals, mbind, result_bind, bind; rewrite Hs; simpl
  | simpl ].

Ltac settle :=
  split;
  [ split; first [reflexivity | discriminate]
  | first [discriminate | intros _; eexists; reflexivity] ].

(** [parse] throws exactly on the texts whose lines stop right after the
    [t =] line or right after the [b =] line, and returns a document on
    every other text. *)
Lemma configuration_parse_throws_iff (content : jsstring) :
  (parse content = Throw TypeError <-> ends_in_header (lines_of content) = true)
  /\ (ends_in_header (lines_of content) = false -> exists doc, parse content = Ok doc).
Proof.
  unfold parse. pose proof (lines_of_nonempty content) as Hne.
  destruct (lines_of content) as [| l0 [| l1 [| l2 rest]]]; [congruence | | |]; simpl.
  - header_test l0 "t ="%string 116%N; [settle |].
    header_test l0 "b ="%string 98%N; [settle |].
    header_test l0 "E ="%string 69%N; settle.
  - header_test l0 "t ="%string 116%N.
    + header_test l1 "b ="%string 98%N; [settle |].
      header_test l1 "E ="%string 69%N; settle.
    + header_test l0 "b ="%string 98%N.
      * header_test l1 "E ="%string 69%N; settle.
      * header_test l0 "E ="%string 69%N; settle.
  - header_test l0 "t ="%string 116%N.
    + header_test l1 "b ="%string 98%N.
      * header_test l2 "E ="%string 69%N; settle.
      * header_test l1 "E ="%string 69%N; settle.
    + header_test l0 "b ="%string 98%N.
      * header_test l1 "E ="%string 69%N; settle.
      * header_test l0 "E ="%string 69%N; settle.
Qed.

(** Without header lines every slot keeps its default and no line is
    consumed: all the lines are read as data. *)
Lemma configuration_parse_without_header (content l0 : jsstring) (rest : list jsstring) :
  lines_of content = l0 :: rest ->
  startsWith l0 (js "t =") = false ->
  startsWith l0 (js "b =") = false ->
  startsWith l0 (js "E =") = false ->
  parse content
  = Ok {| conf_timestep := Int 0;
          conf_box := V3.mk (Fin 0) (Fin 0) (Fin 0);
          conf_energy := {| total := Fin 0; potential := Fin 0; kinetic := Fin 0 |};
          conf_nucleotides := fold_left parse_line (lines_of content) [] |}.
Proof.
  intros Hl Ht Hb He. unfold parse. rewrite Hl. simpl.
  rewrite Ht. simpl. rewrite Hb. simpl. rewrite He. reflexivity.
Qed.

(** A data line with fewer than 15 fields adds no nucleotide. *)
Lemma configuration_short_row_skipped (nucleotides : list NucleotideState)
    (line : jsstring) :
  (length (split_spaces line) < 15)%nat -> parse_line nucleotides line = nucleotides.
Proof.
  intros H. unfold parse_line. destruct (significant line); [| reflexivity].
  rewrite length_map. destruct (Nat.leb_spec 15 (length (split_spaces line))); [lia |].
  reflexivity.
Qed.

(** C3. A text that is the single line [t = 1] makes
    [ConfigurationParser.parse] throw: after the timestep line the cursor
    is 1, [lines[1]] is [undefined], and [startsWith] is called on it. The
    same happens when the text stops right after its [b =] line. *)
Theorem configuration_parse_throws_on_header_only :
  parse (js "t = 1") = Throw TypeError
  /\ parse (js "b = 1 2 3") = Throw TypeError
  /\ parse (js "t = 1" ++ [10%N] ++ js "b = 1 2 3") = Throw TypeError.
Proof. repeat split; reflexivity. Qed.

End ConfigurationParserFacts.

(** ** DataCombiner *)

Section CombinerFacts.
Import DataCombiner.

Lemma bind_returns {A C} (c : M A) (k : A -> M C) (h h1 : heap) (a : A) :
  c h = Ok (a, h1) -> (c ≫= k) h = k a h1.
Proof. intros H. unfold mbind, M_bind. rewrite H. reflexivity. Qed.

Lemma mapM_cons_M {A C} (f : A -> M C) (a : A) (l : list A) (h : heap) :
  mapM f (a :: l) h =
  match f a h with
  | Ok (y, h1) =>
      match mapM f l h1 with
      | Ok (k, h2) => Ok (y :: k, h2)
      | Throw e => Throw e
      end
  | Throw e => Throw e
  end.
Proof.
  simpl. unfold mbind, M_bind. destruct (f a h) as [[y h1] | e]; [| reflexivity].
  destruct (mapM f l h1) as [[k h2] | e]; reflexivity.
Qed.

Lemma merged_from_extend topology configuration h ext i p :
  merged_from topology configuration h i p ->
  merged_from topology configuration (h ++ ext) i p.
Proof.
  intros [Hi [tp [nu H]]]. split; [exact Hi |]. exists tp, nu.
  repeat match goal with H : _ /\ _ |- _ => destruct H end.
  repeat split; try assumption; apply lookup_app_l_Some; assumption.
Qed.

Lemma merge_returns topology configuration i h tp nu :
  topo_particles topology !! i = Some tp ->
  conf_nucleotides configuration !! i = Some nu ->
  exists p,
    merge topology configuration i h
    = Ok (p, h ++ [nuc_position nu; nuc_baseVector nu; nuc_normalVector nu;
                   nuc_velocity nu; nuc_angularVelocity nu])
    /\ merged_from topology configuration
         (h ++ [nuc_position nu; nuc_baseVector nu; nuc_normalVector nu;
                nuc_velocity nu; nuc_angularVelocity nu]) i p.
Proof.
  intros Htp Hnu. unfold merge, mbind, M_bind, lift, defined, new_Vector3, mret, M_ret.
  rewrite Htp, Hnu. simpl. rewrite <- !app_assoc. simpl.
  eexists. split; [reflexivity |].
  split; [reflexivity |]. exists tp, nu. simpl.
  repeat split; try assumption.
  all: rewrite ?length_app; simpl.
  - rewrite lookup_app_r by lia. rewrite Nat.sub_diag. reflexivity.
  - rewrite lookup_app_r by lia.
    replace (length h + 1 - length h)%nat with 1%nat by lia. reflexivity.
  - rewrite lookup_app_r by lia.
    replace (length h + 2 - length h)%nat with 2%nat by lia. reflexivity.
  - rewrite lookup_app_r by lia.
    replace (length h + 3 - length h)%nat with 3%nat by lia. reflexivity.
  - rewrite lookup_app_r by lia.
    replace (length h + 4 - length h)%nat with 4%nat by lia. reflexivity.
Qed.

Lemma merge_loop_returns topology configuration (len : nat) :
  forall (start : nat) (h : heap),
    (start + len <= length (topo_particles topology))%nat ->
    (start + len <= length (conf_nucleotides configuration))%nat ->
    exists ps ext,
      mapM (merge topology configuration) (seq start len) h = Ok (ps, h ++ ext)
      /\ length ps = len
      /\ forall k p, ps !! k = Some p ->
                     merged_from topology configuration (h ++ ext) (start + k) p.
Proof.
  induction len as [| len IH]; intros start h Ht Hc.
  - exists [], []. rewrite app_nil_r. split; [reflexivity |]. split; [reflexivity |].
    intros k p Hk. rewrite lookup_nil in Hk. discriminate.
  - destruct (lookup_lt_is_Some_2 (topo_particles topology) start ltac:(lia)) as [tp Htp].
    destruct (lookup_lt_is_Some_2 (conf_nucleotides configuration) start ltac:(lia))
      as [nu Hnu].
    destruct (merge_returns topology configuration start h tp nu Htp Hnu)
      as [p [Hp Hfrom]].
    set (vs := [nuc_position nu; nuc_baseVector nu; nuc_normalVector nu;
                nuc_velocity nu; nuc_angularVelocity nu]) in *.
    destruct (IH (S start) (h ++ vs) ltac:(lia) ltac:(lia)) as [ps [ext [Hps [Hlen Hall]]]].
    exists (p :: ps), (vs ++ ext).
    change (seq start (S len)) with (start :: seq (S start) len).
    rewrite mapM_cons_M, Hp, Hps, <- app_assoc.
    split; [reflexivity |]. split; [simpl; lia |].
    intros [| k] q Hq; simpl in Hq.
    + injection Hq as <-. rewrite Nat.add_0_r, app_assoc.
      apply merged_from_extend. exact Hfrom.
    + replace (start + S k)%nat with (S start + k)%nat by lia.
      rewrite app_assoc. apply Hall. exact Hq.
Qed.

Lemma combine_returns topology configuration h :
  exists ps ext,
    combine topology configuration h
    = Ok ({| particles := ps;
             bonds := derive_bonds topology ps;
             metadata := {| md_timestep := conf_timestep configuration;
                            md_box := Some (conf_box configuration);
                            md_energy := conf_energy configuration;
                            md_numStrands := numStrands (topo_header topology) |} |},
          h ++ ext)
    /\ length ps = Nat.min (length (topo_particles topology))
                           (length (conf_nucleotides configuration))
    /\ forall i p, ps !! i = Some p -> merged_from topology configuration (h ++ ext) i p.
Proof.
  destruct (merge_loop_returns topology configuration
              (Nat.min (length (topo_particles topology))
                       (length (conf_nucleotides configuration)))
              0%nat h ltac:(lia) ltac:(lia)) as [ps [ext [Hps [Hlen Hall]]]].
  exists ps, ext. unfold combine. cbv zeta. rewrite (bind_returns _ _ _ _ _ Hps).
  split; [reflexivity |]. split; [exact Hlen |]. exact Hall.
Qed.

(** C5. [combine] returns, whatever the two documents: the merged list has
    [min] of the two record counts as its length, its [i]-th particle has
    index [i] and is built from the [i]-th record of each document, and
    with a count of 0 both the particle list and the bond list are
    empty. *)
Theorem combine_particle_count topology configuration (h : heap) :
  exists g h',
    combine topology configuration h = Ok (g, h')
    /\ length (particles g) = Nat.min (length (topo_particles topology))
                                      (length (conf_nucleotides configuration))
    /\ (forall i p, particles g !! i = Some p ->
                    index p = i /\ merged_from topology configuration h' i p)
    /\ (Nat.min (length (topo_particles topology))
                (length (conf_nucleotides configuration)) = 0%nat ->
        particles g = [] /\ bonds g = []).
Proof.
  destruct (combine_returns topology configuration h) as [ps [ext [Hc [Hlen Hall]]]].
  eexists _, _. split; [exact Hc |]. simpl.
  split; [exact Hlen |]. split.
  - intros i p Hp. split; [apply (Hall i p Hp) | apply Hall; exact Hp].
  - intros Hz. rewrite Hz in Hlen. destruct ps; [| discriminate]. split; reflexivity.
Qed.

End CombinerFacts.

(** *** The bond derivation *)

Section BondFacts.
Import DataCombiner.

Lemma int_eqb_true (a b : jsint) :
  int_eqb a b = true <-> exists z, a = Int z /\ b = Int z.
Proof.
  destruct a as [x |], b as [y |]; simpl; split; try discriminate.
  - intros H. apply Z.eqb_eq in H. subst. eauto.
  - intros [z [[= ->] [= ->]]]. apply Z.eqb_refl.
  - intros [z [_ H]]. discriminate.
  - intros [z [H _]]. discriminate.
  - intros [z [H _]]. discriminate.
Qed.

Lemma int_eqb_sym (a b : jsint) : int_eqb a b = int_eqb b a.
Proof. destruct a, b; simpl; try reflexivity. apply Z.eqb_sym. Qed.

Lemma in_range_Int (n : nat) (c : nat * Connection) :
  in_range n c = true -> exists z, particleIndex c.2 = Int z /\ z < Z.of_nat n.
Proof.
  unfold in_range, int_ltb. destruct (particleIndex c.2) as [z |]; [| discriminate].
  intros H. apply Z.ltb_lt in H. eauto.
Qed.

Lemma same_pair_sym (c d : nat * Connection) : same_pair c d = same_pair d c.
Proof.
  unfold same_pair.
  rewrite (int_eqb_sym (idx c.1) (idx d.1)).
  rewrite (int_eqb_sym (particleIndex c.2) (particleIndex d.2)).
  rewrite (int_eqb_sym (idx c.1) (particleIndex d.2)).
  rewrite (int_eqb_sym (particleIndex c.2) (idx d.1)).
  f_equal. apply andb_comm.
Qed.

Lemma same_pair_refl (c : nat * Connection) (z : Z) :
  particleIndex c.2 = Int z -> same_pair c c = true.
Proof.
  intros H. unfold same_pair, idx. rewrite H. simpl. rewrite !Z.eqb_refl. reflexivity.
Qed.

(** The test of [combine] on the bond made from [c] is [same_pair c]. *)
Lemma joins_bond_of topology (c d : nat * Connection) :
  joins d.1 (particleIndex d.2) (bond_of topology c) = same_pair c d.
Proof. reflexivity. Qed.

Lemma joined_existsb (acc : list Bond) (d : nat * Connection) :
  joined acc d = existsb (joins d.1 (particleIndex d.2)) acc.
Proof.
  unfold joined. induction acc as [| b acc IH]; simpl.
  - reflexivity.
  - destruct (joins d.1 (particleIndex d.2) b); simpl; [reflexivity | exact IH].
Qed.

Lemma joined_app (acc : list Bond) (b : Bond) (d : nat * Connection) :
  joined (acc ++ [b]) d = joined acc d || joins d.1 (particleIndex d.2) b.
Proof. rewrite !joined_existsb, existsb_app. simpl. rewrite orb_false_r. reflexivity. Qed.

Lemma joins_same_pair (b : Bond) (c d : nat * Connection) :
  joins c.1 (particleIndex c.2) b = true -> same_pair c d = true ->
  joins d.1 (particleIndex d.2) b = true.
Proof.
  unfold joins, same_pair.
  rewrite !orb_true_iff, !andb_true_iff, !int_eqb_true.
  intros [[[x [Hx1 Hx2]] [y [Hy1 Hy2]]] | [[x [Hx1 Hx2]] [y [Hy1 Hy2]]]]
         [[[u [Hu1 Hu2]] [v [Hv1 Hv2]]] | [[u [Hu1 Hu2]] [v [Hv1 Hv2]]]].
  all: rewrite ?Hx1, ?Hx2, ?Hy1, ?Hy2, ?Hu1, ?Hu2, ?Hv1, ?Hv2 in *.
  all: repeat match goal with H : Int _ = Int _ |- _ => injection H as H end; subst.
  all: eauto 10.
Qed.

Lemma joined_same_pair (acc : list Bond) (c d : nat * Connection) :
  joined acc c = true -> same_pair c d = true -> joined acc d = true.
Proof.
  rewrite !joined_existsb, !existsb_exists.
  intros [b [Hb Hj]] Hs. exists b. split; [exact Hb |].
  apply (joins_same_pair b c d); assumption.
Qed.

Lemma filter_filter_ext {A} (f g k : A -> bool) (l : list A) :
  (forall x, In x l -> f x = g x && k x) ->
  List.filter f l = List.filter g (List.filter k l).
Proof.
  induction l as [| a l IH]; intros H; simpl; [reflexivity |].
  rewrite (H a (or_introl eq_refl)).
  rewrite IH by (intros x Hx; apply H; right; exact Hx).
  destruct (k a); simpl; [| rewrite andb_false_r; reflexivity].
  rewrite andb_true_r. reflexivity.
Qed.

Lemma fold_add_declared topology (n : nat) (cs : list (nat * Connection)) :
  forall acc,
    fold_left (add_declared topology n) cs acc
    = acc ++ List.map (bond_of topology)
               (List.filter (fun d => negb (joined acc d))
                  (first_discoveries (List.filter (in_range n) cs))).
Proof.
  induction cs as [| c rest IH]; intros acc; simpl.
  - rewrite app_nil_r. reflexivity.
  - unfold add_declared at 2.
    destruct (in_range n c) eqn:Hr; simpl.
    + destruct (joined acc c) eqn:Hj; simpl.
      * rewrite IH. f_equal. f_equal.
        apply filter_filter_ext. intros d _.
        destruct (same_pair c d) eqn:Hs; simpl.
        -- rewrite (joined_same_pair acc c d Hj Hs). reflexivity.
        -- rewrite andb_true_r. reflexivity.
      * rewrite IH, <- app_assoc. simpl. f_equal. f_equal. f_equal.
        apply filter_filter_ext. intros d _.
        rewrite joined_app, joins_bond_of, negb_orb. reflexivity.
    + rewrite andb_false_r. apply IH.
Qed.

Lemma fold_connections topology (n : nat) (p : Particle) (cs : list Connection) :
  forall acc,
    fold_left (add_connection topology n p) cs acc
    = fold_left (add_declared topology n) (List.map (pair (index p)) cs) acc.
Proof.
  induction cs as [| c cs IH]; intros acc; simpl; [reflexivity |]. apply IH.
Qed.

Lemma fold_particles topology (n : nat) (ps : list Particle) :
  forall acc,
    fold_left (fun bonds particle =>
                 fold_left (add_connection topology n particle)
                           (connections particle) bonds) ps acc
    = fold_left (add_declared topology n) (declared ps) acc.
Proof.
  induction ps as [| p ps IH]; intros acc; simpl; [reflexivity |].
  unfold declared in *. simpl. rewrite fold_left_app, IH, fold_connections. reflexivity.
Qed.

(** The bonds of [combine] are the first discoveries among the declared
    connections whose peer is below the count. *)
Lemma derive_bonds_first_discoveries topology (ps : list Particle) :
  derive_bonds topology ps
  = List.map (bond_of topology)
      (first_discoveries (List.filter (in_range (length ps)) (declared ps))).
Proof.
  unfold derive_bonds. rewrite fold_particles, fold_add_declared. simpl.
  f_equal. induction (first_discoveries _) as [| d l IH]; simpl; [reflexivity |].
  f_equal. exact IH.
Qed.

End BondFacts.

Section DiscoveryFacts.
Import DataCombiner.

Lemma first_discoveries_incl (cs : list (nat * Connection)) (c : nat * Connection) :
  In c (first_discoveries cs) -> In c cs.
Proof.
  induction cs as [| c0 rest IH]; simpl; [tauto |].
  intros [-> | H]; [left; reflexivity |].
  apply filter_In in H. right. apply IH. tauto.
Qed.

Lemma ForallOrdPairs_filter {A} (R : A -> A -> Prop) (f : A -> bool) (l : list A) :
  ForallOrdPairs R l -> ForallOrdPairs R (List.filter f l).
Proof.
  induction 1 as [| a l Ha Hl IH]; simpl; [constructor |].
  destruct (f a); [| exact IH].
  constructor; [| exact IH].
  rewrite List.Forall_forall in *. intros x Hx. apply Ha.
  apply filter_In in Hx. tauto.
Qed.

Lemma ForallOrdPairs_lookup {A} (R : A -> A -> Prop) (l : list A) :
  ForallOrdPairs R l ->
  forall i j a b, (i < j)%nat -> l !! i = Some a -> l !! j = Some b -> R a b.
Proof.
  induction 1 as [| x l Hx Hl IH]; intros i j a b Hij Hi Hj.
  - rewrite lookup_nil in Hi. discriminate.
  - destruct j as [| j]; [lia |]. simpl in Hj. destruct i as [| i]; simpl in Hi.
    + injection Hi as <-. rewrite List.Forall_forall in Hx. apply Hx.
      apply list_elem_of_In. apply list_elem_of_lookup. eauto.
    + apply (IH i j); [lia | assumption | assumption].
Qed.

Lemma first_discoveries_pairwise (cs : list (nat * Connection)) :
  ForallOrdPairs (fun c d => same_pair c d = false) (first_discoveries cs).
Proof.
  induction cs as [| c0 rest IH]; simpl; constructor.
  - rewrite List.Forall_forall. intros d Hd. apply filter_In in Hd.
    destruct Hd as [_ Hd]. apply negb_true_iff in Hd. exact Hd.
  - apply ForallOrdPairs_filter. exact IH.
Qed.

Lemma first_discoveries_find (cs : list (nat * Connection)) :
  (forall c, In c cs -> exists z, particleIndex c.2 = Int z) ->
  forall c, In c (first_discoveries cs) -> List.find (same_pair c) cs = Some c.
Proof.
  induction cs as [| c0 rest IH]; intros Hint c Hc; simpl in *; [tauto |].
  destruct Hc as [-> | Hc].
  - destruct (Hint c (or_introl eq_refl)) as [z Hz].
    rewrite (same_pair_refl c z Hz). reflexivity.
  - apply filter_In in Hc. destruct Hc as [Hc Hs].
    apply negb_true_iff in Hs. rewrite same_pair_sym, Hs.
    apply IH; [| exact Hc]. intros d Hd. apply Hint. right. exact Hd.
Qed.

Lemma lookup_map {A C} (f : A -> C) (l : list A) (i : nat) (b : C) :
  List.map f l !! i = Some b -> exists a, l !! i = Some a /\ b = f a.
Proof.
  revert i. induction l as [| x l IH]; intros i H; simpl in H.
  - rewrite lookup_nil in H. discriminate.
  - destruct i as [| i]; simpl in *.
    + injection H as <-. eauto.
    + apply IH. exact H.
Qed.

Lemma in_lookup {A} (l : list A) (i : nat) (a : A) : l !! i = Some a -> In a l.
Proof. intros H. apply list_elem_of_In, list_elem_of_lookup. eauto. Qed.

Lemma same_ends_same_pair topology (n : nat) (c d : nat * Connection) :
  in_range n c = true -> in_range n d = true ->
  same_ends (bond_of topology c) (bond_of topology d) -> same_pair c d = true.
Proof.
  intros Hc Hd. destruct (in_range_Int n c Hc) as [x [Hx _]].
  destruct (in_range_Int n d Hd) as [y [Hy _]].
  unfold same_ends, same_pair, idx. simpl. rewrite Hx, Hy. simpl.
  intros [[H1 H2] | [H1 H2]];
    injection H1 as H1; injection H2 as H2; rewrite orb_true_iff, !andb_true_iff, !Z.eqb_eq;
    [left | right]; split; lia.
Qed.

(** C4. [combine] returns a graph in which no two bonds have the same
    unordered pair of end points; each bond is made, orientation and spring
    included, from the first declared connection that joins its end points
    in either direction; and the bond list follows the order of these first
    discoveries, particles in index order and connections in declaration
    order. *)
Theorem combine_bonds_undirected topology configuration (h : heap) :
  exists g h',
    combine topology configuration h = Ok (g, h')
    /\ (forall i j b1 b2,
          (i < j)%nat -> bonds g !! i = Some b1 -> bonds g !! j = Some b2 ->
          ~ same_ends b1 b2)
    /\ (forall b,
          In b (bonds g) ->
          exists c,
            List.find (fun d => joins d.1 (particleIndex d.2) b)
              (List.filter (in_range (length (particles g))) (declared (particles g)))
            = Some c
            /\ bond_of topology c = b)
    /\ bonds g
       = List.map (bond_of topology)
           (first_discoveries
              (List.filter (in_range (length (particles g))) (declared (particles g)))).
Proof.
  destruct (combine_returns topology configuration h) as [ps [ext [Hc _]]].
  eexists _, _. split; [exact Hc |]. simpl.
  rewrite derive_bonds_first_discoveries.
  set (D := List.filter (in_range (length ps)) (declared ps)).
  assert (HD : forall c, In c (first_discoveries D) -> in_range (length ps) c = true).
  { intros c Hin. apply first_discoveries_incl in Hin. apply filter_In in Hin. tauto. }
  split; [| split].
  - intros i j b1 b2 Hij H1 H2 Hsame.
    apply lookup_map in H1. destruct H1 as [c [H1 ->]].
    apply lookup_map in H2. destruct H2 as [d [H2 ->]].
    pose proof (ForallOrdPairs_lookup _ _ (first_discoveries_pairwise D) i j c d Hij H1 H2)
      as Hne.
    simpl in Hne.
    rewrite (same_ends_same_pair topology (length ps) c d) in Hne;
      [discriminate | | | exact Hsame].
    + apply HD. exact (in_lookup _ _ _ H1).
    + apply HD. exact (in_lookup _ _ _ H2).
  - intros b Hb. apply in_map_iff in Hb. destruct Hb as [c [<- Hin]].
    exists c. split; [| reflexivity].
    change (List.find (same_pair c) D = Some c).
    apply first_discoveries_find; [| exact Hin].
    intros d Hd. apply filter_In in Hd. destruct Hd as [_ Hd].
    destruct (in_range_Int _ _ Hd) as [z [Hz _]]. eauto.
  - reflexivity.
Qed.

(** Every bond starts at a merged particle and ends below the count. *)
Lemma combine_bonds_below_count topology configuration (h : heap) :
  exists g h',
    combine topology configuration h = Ok (g, h')
    /\ forall b,
         In b (bonds g) ->
         (from b < length (particles g))%nat
         /\ exists z, to b = Int z /\ z < Z.of_nat (length (particles g)).
Proof.
  destruct (combine_returns topology configuration h) as [ps [ext [Hc [_ Hall]]]].
  eexists _, _. split; [exact Hc |]. simpl.
  rewrite derive_bonds_first_discoveries.
  intros b Hb. apply in_map_iff in Hb. destruct Hb as [c [<- Hin]].
  apply first_discoveries_incl in Hin. apply filter_In in Hin. destruct Hin as [Hd Hr].
  split; [| exact (in_range_Int _ _ Hr)].
  unfold declared in Hd. apply in_flat_map in Hd. destruct Hd as [p [Hp Hd]].
  apply in_map_iff in Hd. destruct Hd as [conn [<- _]]. simpl.
  apply list_elem_of_In, list_elem_of_lookup in Hp. destruct Hp as [i Hi].
  destruct (Hall i p Hi) as [-> _].
  apply lookup_lt_Some in Hi. exact Hi.
Qed.

(** The files of the README: four particles, the short row left out, and
    the two bonds 0-1 and 1-2, each with the orientation and the spring of
    the connection that declares it first. *)
Example readme_files_combine :
  exists topology configuration g h' s0,
    TopologyParser.parse (B := Decimal.builtins) Examples.readme_topology = Ok topology
    /\ ConfigurationParser.parse (B := Decimal.builtins) Examples.four_row_configuration
       = Ok configuration
    /\ length (conf_nucleotides configuration) = 4%nat
    /\ combine topology configuration [] = Ok (g, h')
    /\ List.map index (particles g) = [0; 1; 2; 3]%nat
    /\ topo_springs topology !! 0%nat = Some s0
    /\ bonds g = [{| from := 0; to := Int 1; spring := Some s0 |};
                  {| from := 1; to := Int 2; spring := Some s0 |}].
Proof.
  eexists _, _, _, _, _.
  split; [vm_compute; reflexivity |].
  split; [vm_compute; reflexivity |].
  split; [reflexivity |].
  split; [vm_compute; reflexivity |].
  split; [reflexivity |]. split; reflexivity.
Qed.

(** C2. A connection to the blank neighbour -1 gives a bond: the one test
    on the peer is [peerIndex < particles.length], which -1 passes. Parsed
    with the decimal built-ins, the example topology and configuration
    merge into one particle and one bond from 0 to -1. *)
Theorem combine_keeps_negative_peer :
  exists topology configuration g h',
    TopologyParser.parse (B := Decimal.builtins) Examples.blank_neighbour_topology
    = Ok topology
    /\ ConfigurationParser.parse (B := Decimal.builtins) Examples.one_row_configuration
       = Ok configuration
    /\ combine topology configuration [] = Ok (g, h')
    /\ length (particles g) = 1%nat
    /\ bonds g = [{| from := 0; to := Int (-1); spring := None |}].
Proof.
  eexists _, _, _, _.
  split; [vm_compute; reflexivity |].
  split; [vm_compute; reflexivity |].
  split; [vm_compute; reflexivity |].
  split; reflexivity.
Qed.

End DiscoveryFacts.

(** ** DNARenderer *)

Section StoreFacts.
Local Open Scope nat_scope.
Import Renderer.

Lemma read_returns (l : loc) (h : heap) (v : V3.t) :
  h !! l = Some v -> read l h = Ok (v, h).
Proof. intros H. unfold read. rewrite H. reflexivity. Qed.

Lemma clone_returns (l : loc) (h : heap) (v : V3.t) :
  h !! l = Some v -> clone l h = Ok (length h, h ++ [v]).
Proof.
  intros H. unfold clone. rewrite (bind_returns _ _ _ _ _ (read_returns l h v H)).
  reflexivity.
Qed.

(** Copying the positions of a list of particles appends the copies to the
    store, in order. *)
Lemma clone_positions (ps : list Particle) :
  forall h : heap,
    (forall p, In p ps -> position p < length h) ->
    exists vs,
      mapM (fun p => clone (position p)) ps h = Ok (seq (length h) (length ps), h ++ vs)
      /\ length vs = length ps
      /\ forall j p, ps !! j = Some p -> vs !! j = h !! position p.
Proof.
  induction ps as [| p ps IH]; intros h Hin.
  - exists []. rewrite app_nil_r. split; [reflexivity |]. split; [reflexivity |].
    intros j p Hj. rewrite lookup_nil in Hj. discriminate.
  - destruct (lookup_lt_is_Some_2 h (position p) (Hin p (or_introl eq_refl))) as [v Hv].
    destruct (IH (h ++ [v])) as [vs [Hm [Hlen Hvs]]].
    { intros q Hq. rewrite length_app. specialize (Hin q (or_intror Hq)). lia. }
    exists (v :: vs). rewrite mapM_cons_M, (clone_returns _ _ _ Hv), Hm.
    rewrite length_app, <- app_assoc. simpl.
    replace (length h + 1) with (S (length h)) by lia.
    split; [reflexivity |]. split; [lia |].
    intros [| j] q Hq; simpl in Hq.
    + injection Hq as <-. simpl. symmetry. exact Hv.
    + simpl. rewrite (Hvs j q Hq). apply lookup_app_l.
      apply Hin. right. exact (in_lookup _ _ _ Hq).
Qed.

Lemma create_instances (ps : list Particle) :
  forall h : heap,
    (forall p, In p ps -> position p < length h) ->
    exists insts vs,
      mapM createInstance ps h = Ok (insts, h ++ vs)
      /\ List.map inst_position insts = seq (length h) (length ps)
      /\ List.map inst_particle insts = ps
      /\ length vs = length ps
      /\ forall j p, ps !! j = Some p -> vs !! j = h !! position p.
Proof.
  induction ps as [| p ps IH]; intros h Hin.
  - exists [], []. rewrite app_nil_r. repeat split.
    intros j p Hj. rewrite lookup_nil in Hj. discriminate.
  - destruct (lookup_lt_is_Some_2 h (position p) (Hin p (or_introl eq_refl))) as [v Hv].
    destruct (IH (h ++ [v])) as [insts [vs [Hm [Hpos [Hpart [Hlen Hvs]]]]]].
    { intros q Hq. rewrite length_app. specialize (Hin q (or_intror Hq)). lia. }
    exists ({| inst_position := length h; inst_particle := p |} :: insts), (v :: vs).
    rewrite mapM_cons_M. unfold createInstance at 1.
    rewrite (bind_returns _ _ _ _ _ (clone_returns _ _ _ Hv)).
    unfold mret at 1, M_ret at 1. rewrite Hm.
    rewrite length_app in Hpos. simpl in Hpos.
    replace (length h + 1) with (S (length h)) in Hpos by lia.
    rewrite <- app_assoc. simpl. rewrite Hpos, Hpart.
    split; [reflexivity |]. split; [reflexivity |]. split; [reflexivity |].
    split; [lia |].
    intros [| j] q Hq; simpl in Hq.
    + injection Hq as <-. simpl. symmetry. exact Hv.
    + simpl. rewrite (Hvs j q Hq). apply lookup_app_l.
      apply Hin. right. exact (in_lookup _ _ _ Hq).
Qed.

Lemma create_line_system (points : list (loc * loc)) (h : heap) :
  (forall p, In p points -> p.1 < length h /\ p.2 < length h) ->
  exists ls, CreateLineSystem points h = Ok (ls, h).
Proof.
  unfold CreateLineSystem. induction points as [| p points IH]; intros Hin.
  - exists []. reflexivity.
  - destruct (Hin p (or_introl eq_refl)) as [H1 H2].
    destruct (lookup_lt_is_Some_2 h p.1 H1) as [a Ha].
    destruct (lookup_lt_is_Some_2 h p.2 H2) as [b Hb].
    destruct IH as [ls Hls]; [intros q Hq; apply Hin; right; exact Hq |].
    exists ((a, b) :: ls). rewrite mapM_cons_M.
    rewrite (bind_returns _ _ _ _ _ (read_returns _ _ _ Ha)).
    rewrite (bind_returns _ _ _ _ _ (read_returns _ _ _ Hb)).
    unfold mret at 1, M_ret at 1. rewrite Hls. reflexivity.
Qed.

End StoreFacts.

Section GroupFacts.
Local Open Scope nat_scope.
Import Renderer.

Lemma group_push_flat (groups : list (jsint * list Particle)) (p : Particle) :
  flat_map snd (group_push groups p) ≡ₚ flat_map snd groups ++ [p].
Proof.
  induction groups as [| [k ps] rest IH]; simpl; [reflexivity |].
  destruct (bool_decide (k = strand p)); simpl.
  - rewrite <- !app_assoc. apply Permutation_app_head. apply Permutation_app_comm.
  - rewrite IH, app_assoc. reflexivity.
Qed.

Lemma fold_group_push_flat (ps : list Particle) :
  forall groups,
    flat_map snd (fold_left group_push ps groups) ≡ₚ flat_map snd groups ++ ps.
Proof.
  induction ps as [| p ps IH]; intros groups; simpl.
  - rewrite app_nil_r. reflexivity.
  - rewrite IH, group_push_flat, <- app_assoc. reflexivity.
Qed.

Lemma filter_split {A} (f : A -> bool) (l : list A) :
  List.filter f l ++ List.filter (fun x => negb (f x)) l ≡ₚ l.
Proof.
  induction l as [| a l IH]; simpl; [reflexivity |].
  destruct (f a); simpl.
  - constructor. exact IH.
  - rewrite <- Permutation_middle. constructor. exact IH.
Qed.

Lemma ordered_groups_perm (groups : list (jsint * list Particle)) :
  ordered_groups groups ≡ₚ groups.
Proof.
  unfold ordered_groups. rewrite merge_sort_Permutation.
  apply (filter_split (fun g => is_array_index g.1)).
Qed.

(** The instances are made from the particles, each once, in some order. *)
Lemma instance_order_perm (ps : list Particle) :
  concat (List.map snd (ordered_groups (strandGroups ps))) ≡ₚ ps.
Proof.
  rewrite <- flat_map_concat_map, ordered_groups_perm.
  unfold strandGroups. rewrite fold_group_push_flat. reflexivity.
Qed.

Lemma renderNucleotides_returns (ps : list Particle) (h : heap) :
  (forall p, In p ps -> position p < length h) ->
  exists insts vs,
    renderNucleotides ps h = Ok (insts, h ++ vs)
    /\ List.map inst_position insts = seq (length h) (length ps)
    /\ List.map inst_particle insts ≡ₚ ps
    /\ length vs = length ps
    /\ forall j inst, insts !! j = Some inst -> vs !! j = h !! position (inst_particle inst).
Proof.
  intros Hin. unfold renderNucleotides.
  destruct (length ps =? 0) eqn:E.
  - apply Nat.eqb_eq in E. destruct ps; [| discriminate].
    exists [], []. rewrite app_nil_r.
    split; [reflexivity |]. split; [reflexivity |]. split; [reflexivity |].
    split; [reflexivity |].
    intros j inst Hj. rewrite lookup_nil in Hj. discriminate.
  - pose proof (instance_order_perm ps) as Hperm.
    set (qs := concat (List.map snd (ordered_groups (strandGroups ps)))) in *.
    destruct (create_instances qs h) as [insts [vs [Hm [Hpos [Hpart [Hlen Hvs]]]]]].
    { intros q Hq. apply Hin. apply (Permutation_in _ Hperm). exact Hq. }
    exists insts, vs. rewrite (Permutation_length Hperm) in Hpos, Hlen.
    split; [exact Hm |]. split; [exact Hpos |]. split; [rewrite Hpart; exact Hperm |].
    split; [exact Hlen |].
    intros j inst Hj. apply Hvs. rewrite <- Hpart.
    clear - Hj. revert j Hj. induction insts as [| i0 insts IH]; intros j Hj.
    + rewrite lookup_nil in Hj. discriminate.
    + destruct j as [| j]; simpl in *; [congruence | apply IH; exact Hj].
Qed.

Lemma at_int_In {A} (l : list A) (i : jsint) (a : A) : at_int l i = Some a -> In a l.
Proof.
  unfold at_int. destruct i as [z |]; [| discriminate].
  destruct (0 <=? z)%Z; [| discriminate]. apply in_lookup.
Qed.

Lemma renderBonds_returns (bs : list Bond) (ps : list Particle) (h : heap) :
  (forall p, In p ps -> position p < length h) ->
  exists meshes, renderBonds bs ps h = Ok (meshes, h).
Proof.
  intros Hin. unfold renderBonds.
  destruct (length bs =? 0); [exists []; reflexivity |].
  destruct (0 <? length (omap (bond_points ps) bs)); [| exists []; reflexivity].
  destruct (create_line_system (omap (bond_points ps) bs) h) as [ls Hls].
  { intros pt Hpt. apply list_elem_of_In, list_elem_of_omap in Hpt.
    destruct Hpt as [b [_ Hb]]. unfold bond_points in Hb.
    destruct (ps !! from b) as [p1 |] eqn:E1; [| discriminate].
    destruct (at_int ps (to b)) as [p2 |] eqn:E2; [| discriminate].
    injection Hb as <-. simpl. split; apply Hin.
    - exact (in_lookup _ _ _ E1).
    - exact (at_int_In _ _ _ E2). }
  exists [ls; ls].
  rewrite (bind_returns _ _ _ _ _ Hls), (bind_returns _ _ _ _ _ Hls). reflexivity.
Qed.

End GroupFacts.

Section LoadFacts.
Context {E : Engine}.
Local Open Scope nat_scope.
Import Renderer.

Lemma graph_vectors_in_store (g : StructureGraph) (h : heap) :
  graph_in_store g h = true ->
  forall p l, In p (particles g) -> In l (vectors_of p) -> l < length h.
Proof.
  unfold graph_in_store. rewrite forallb_forall. intros Hg p l Hp Hl.
  specialize (Hg p Hp). rewrite forallb_forall in Hg.
  apply Nat.ltb_lt. apply Hg. exact Hl.
Qed.

Lemma graph_positions_in_store (g : StructureGraph) (h : heap) :
  graph_in_store g h = true -> forall p, In p (particles g) -> position p < length h.
Proof.
  intros Hg p Hp. apply (graph_vectors_in_store g h Hg p); [exact Hp | left; reflexivity].
Qed.

Lemma read_positions (ps : list Particle) (h : heap) :
  (forall p, In p ps -> position p < length h) ->
  exists vs,
    mapM (fun p => read (position p)) ps h = Ok (vs, h) /\ length vs = length ps.
Proof.
  induction ps as [| p ps IH]; intros Hin.
  - exists []. split; reflexivity.
  - destruct (lookup_lt_is_Some_2 h (position p) (Hin p (or_introl eq_refl))) as [v Hv].
    destruct IH as [vs [Hm Hlen]]; [intros q Hq; apply Hin; right; exact Hq |].
    exists (v :: vs). rewrite mapM_cons_M, (read_returns _ _ _ Hv), Hm.
    split; [reflexivity |]. simpl. lia.
Qed.

Lemma spread_fits {A B} (f : list A -> B) (args : list A) :
  (N.of_nat (length args) <= max_arguments)%N -> spread f args = Ok (f args).
Proof.
  intros H. unfold spread. apply N.leb_le in H. rewrite H. reflexivity.
Qed.

Lemma spread_throws {A B} (f : list A -> B) (args : list A) :
  (max_arguments < N.of_nat (length args))%N -> spread f args = Throw RangeError.
Proof.
  intros H. unfold spread. apply N.leb_gt in H. rewrite H. reflexivity.
Qed.

(** The bounding box of as many positions as a call takes arguments, and
    the RangeError of more positions. *)
Lemma calculateBoundingBox_cases (positions : list V3.t) :
  ((N.of_nat (length positions) <= max_arguments)%N ->
   exists box, VectorUtils.calculateBoundingBox positions = Ok box)
  /\ ((max_arguments < N.of_nat (length positions))%N ->
      VectorUtils.calculateBoundingBox positions = Throw RangeError).
Proof.
  unfold VectorUtils.calculateBoundingBox. split; intros H.
  - destruct (length positions =? 0); [eexists; reflexivity |].
    rewrite !spread_fits by (rewrite length_map; exact H).
    eexists. reflexivity.
  - destruct (length positions =? 0) eqn:Elen.
    + apply Nat.eqb_eq in Elen. rewrite Elen in H. lia.
    + rewrite (spread_throws Math_min (List.map V3.x positions))
        by (rewrite length_map; exact H).
      reflexivity.
Qed.

Lemma camera_of_cases (positions : list V3.t) :
  ((N.of_nat (length positions) <= max_arguments)%N ->
   exists camera, camera_of positions = Ok camera)
  /\ ((max_arguments < N.of_nat (length positions))%N ->
      camera_of positions = Throw RangeError).
Proof.
  unfold camera_of. cbv zeta.
  destruct (calculateBoundingBox_cases positions) as [Hfits Hthrows].
  split; intros H.
  - destruct (Hfits H) as [box ->]. eexists. reflexivity.
  - rewrite (Hthrows H). reflexivity.
Qed.

(** The first part of [loadData] returns; the store grows by the zero
    offset and the copies of the positions. *)
Lemma begin_load_returns (g : StructureGraph) (this : DNARenderer) (h0 : heap) :
  graph_in_store g h0 = true ->
  exists vs1,
    begin_load g this h0
    = Ok ({| data := Some g; nucleotideInstances := []; bondMeshes := [];
             selectionMeshes := ∅; boxOffset := length h0;
             originalParticlePositions := seq (S (length h0)) (length (particles g)) |},
          h0 ++ [zero_vector] ++ vs1)
    /\ length vs1 = length (particles g)
    /\ (forall j p, particles g !! j = Some p -> vs1 !! j = h0 !! position p).
Proof.
  intros Hg. pose proof (graph_positions_in_store g h0 Hg) as Hpos.
  set (h1 := h0 ++ [zero_vector]).
  assert (Hpos1 : forall p, In p (particles g) -> position p < length h1).
  { intros p Hp. unfold h1. rewrite length_app. specialize (Hpos p Hp). lia. }
  destruct (clone_positions (particles g) h1 Hpos1) as [vs1 [Hc [Hlen1 Hvs1]]].
  assert (Hl1 : length h1 = S (length h0)) by (unfold h1; rewrite length_app; simpl; lia).
  exists vs1. split; [| split].
  - unfold begin_load.
    assert (Hnew : new_Vector3 (V3.mk (Fin 0) (Fin 0) (Fin 0)) h0 = Ok (length h0, h1))
      by reflexivity.
    rewrite (bind_returns _ _ _ _ _ Hnew). cbv zeta.
    rewrite (bind_returns _ _ _ _ _ Hc), Hl1.
    unfold mret, M_ret, h1. rewrite <- !app_assoc. reflexivity.
  - exact Hlen1.
  - intros j p Hj. rewrite (Hvs1 j p Hj). unfold h1. apply lookup_app_l.
    apply Hpos. exact (in_lookup _ _ _ Hj).
Qed.

(** [loadData] returns when the graph fits a call; the store grows by the
    zero offset, the copies of the positions and the positions of the
    instances. *)
Lemma loadData_returns (g : StructureGraph) (this : DNARenderer) (h0 : heap) :
  graph_in_store g h0 = true ->
  fits_a_call g ->
  exists r1 vs1 vs2,
    loadData g this h0 = Ok (r1, h0 ++ [zero_vector] ++ vs1 ++ vs2)
    /\ loaded g (length h0) r1 (h0 ++ [zero_vector] ++ vs1 ++ vs2)
    /\ length vs1 = length (particles g)
    /\ length vs2 = length (particles g)
    /\ (forall j p, particles g !! j = Some p -> vs1 !! j = h0 !! position p)
    /\ (forall j inst, nucleotideInstances r1 !! j = Some inst ->
                       vs2 !! j = h0 !! position (inst_particle inst))
    /\ List.map inst_particle (nucleotideInstances r1) ≡ₚ particles g.
Proof.
  intros Hg Hfits. pose proof (graph_positions_in_store g h0 Hg) as Hpos.
  destruct (begin_load_returns g this h0 Hg) as [vs1 [Hbegin [Hlen1 Hvs1]]].
  set (h1 := h0 ++ [zero_vector]).
  assert (Hl1 : length h1 = S (length h0)) by (unfold h1; rewrite length_app; simpl; lia).
  assert (Hpos1 : forall p, In p (particles g) -> position p < length h1).
  { intros p Hp. unfold h1. rewrite length_app. specialize (Hpos p Hp). lia. }
  assert (Hpos2 : forall p, In p (particles g) -> position p < length (h1 ++ vs1)).
  { intros p Hp. rewrite length_app. specialize (Hpos1 p Hp). lia. }
  destruct (read_positions (particles g) (h1 ++ vs1) Hpos2) as [positions [Hread Hlenp]].
  destruct (camera_of_cases positions) as [Hcamera _].
  destruct Hcamera as [camera Hcamera]; [rewrite Hlenp; exact Hfits |].
  destruct (renderNucleotides_returns (particles g) (h1 ++ vs1) Hpos2)
    as [insts [vs2 [Hn [Hipos [Hperm [Hlen2 Hvs2]]]]]].
  assert (Hpos3 : forall p, In p (particles g) -> position p < length ((h1 ++ vs1) ++ vs2)).
  { intros p Hp. rewrite length_app. specialize (Hpos2 p Hp). lia. }
  destruct (renderBonds_returns (bonds g) (particles g) _ Hpos3) as [meshes Hb].
  exists {| data := Some g; nucleotideInstances := insts; bondMeshes := meshes;
            selectionMeshes := ∅; boxOffset := length h0;
            originalParticlePositions := seq (length h1) (length (particles g)) |}.
  exists vs1, vs2.
  split; [| split; [| split; [| split; [| split; [| split]]]]].
  - unfold loadData.
    replace (h0 ++ [zero_vector] ++ vs1) with (h1 ++ vs1) in Hbegin
      by (unfold h1; rewrite <- app_assoc; reflexivity).
    rewrite (bind_returns _ _ _ _ _ Hbegin), (bind_returns _ _ _ _ _ Hread).
    unfold lift at 1. rewrite Hcamera.
    unfold mbind at 1, M_bind at 1.
    rewrite (bind_returns _ _ _ _ _ Hn), (bind_returns _ _ _ _ _ Hb).
    rewrite Hl1. unfold mret, M_ret, h1.
    cbn [data boxOffset originalParticlePositions selectionMeshes].
    rewrite <- !app_assoc. reflexivity.
  - unfold loaded. simpl. rewrite Hipos, !length_app, Hl1. simpl.
    rewrite length_app, Hlen1, Hlen2.
    repeat split; try reflexivity; try lia.
  - exact Hlen1.
  - exact Hlen2.
  - exact Hvs1.
  - simpl. intros j inst Hj. rewrite (Hvs2 j inst Hj).
    assert (Hp : In (inst_particle inst) (particles g)).
    { apply (Permutation_in _ Hperm). apply in_map. exact (in_lookup _ _ _ Hj). }
    rewrite lookup_app_l by (apply Hpos1; exact Hp).
    unfold h1. apply lookup_app_l. apply Hpos. exact Hp.
  - exact Hperm.
Qed.

(** [loadData] throws a RangeError when the graph has more particles than
    a call takes arguments: the renderer is then as the first part left
    it. *)
Lemma loadData_throws (g : StructureGraph) (this : DNARenderer) (h0 : heap) :
  graph_in_store g h0 = true ->
  ~ fits_a_call g ->
  loadData g this h0 = Throw RangeError.
Proof.
  intros Hg Hbig. pose proof (graph_positions_in_store g h0 Hg) as Hpos.
  destruct (begin_load_returns g this h0 Hg) as [vs1 [Hbegin [Hlen1 Hvs1]]].
  assert (Hpos2 : forall p, In p (particles g) ->
                            position p < length (h0 ++ [zero_vector] ++ vs1)).
  { intros p Hp. rewrite length_app. specialize (Hpos p Hp). lia. }
  destruct (read_positions (particles g) _ Hpos2) as [positions [Hread Hlenp]].
  destruct (camera_of_cases positions) as [_ Hcamera].
  unfold loadData.
  rewrite (bind_returns _ _ _ _ _ Hbegin), (bind_returns _ _ _ _ _ Hread).
  unfold lift at 1. rewrite Hcamera; [reflexivity |].
  rewrite Hlenp. unfold fits_a_call in Hbig. lia.
Qed.

End LoadFacts.

Section ShiftFacts.
Context {R : Rounding}.
Local Open Scope nat_scope.
Import Renderer.

Lemma update_instance_returns (r : DNARenderer) (box : V3.t) (i : nat) (inst : Instance)
    (h : heap) (lo : loc) (o off : V3.t) :
  originalParticlePositions r !! i = Some lo ->
  h !! lo = Some o ->
  h !! boxOffset r = Some off ->
  selectionMeshes r !! index (inst_particle inst) = None ->
  update_instance r box i inst h
  = Ok (tt, <[inst_position inst := wrapped box off o]> h).
Proof.
  intros H1 H2 H3 H4.
  unfold update_instance, mbind, M_bind, lift, defined, read, write, mret, M_ret.
  rewrite H1. simpl. rewrite H2, H3, H4. reflexivity.
Qed.

Lemma forEach_from_cons {A} (f : nat -> A -> M unit) (i : nat) (a : A) (l : list A)
    (h h1 : heap) :
  f i a h = Ok (tt, h1) -> forEach_from f i (a :: l) h = forEach_from f (S i) l h1.
Proof. intros H. simpl. unfold mbind, M_bind. rewrite H. reflexivity. Qed.

(** The loop over the instances, from the rank [i] on: it rewrites the
    positions of these instances and nothing else. *)
Lemma update_loop (r : DNARenderer) (box off : V3.t) (n0 k : nat) :
  boxOffset r = n0 ->
  originalParticlePositions r = seq (S n0) k ->
  selectionMeshes r = ∅ ->
  forall (insts : list Instance) (i : nat) (h : heap),
    List.map inst_position insts = seq (S n0 + k + i) (length insts) ->
    i + length insts <= k ->
    length h = S n0 + k + k ->
    h !! n0 = Some off ->
    exists h',
      forEach_from (update_instance r box) i insts h = Ok (tt, h')
      /\ length h' = length h
      /\ (forall l, l < S n0 + k + i -> h' !! l = h !! l)
      /\ (forall j o, j < length insts -> h !! (S n0 + i + j) = Some o ->
                      h' !! (S n0 + k + i + j) = Some (wrapped box off o)).
Proof.
  intros Hoff Horig Hsel. induction insts as [| inst insts IH]; intros i h Hpos Hi Hlen Hn0.
  - exists h. split; [reflexivity |]. split; [reflexivity |]. split; [reflexivity |].
    intros j o Hj. simpl in Hj. lia.
  - simpl in Hi.
    change (List.map inst_position (inst :: insts))
      with (inst_position inst :: List.map inst_position insts) in Hpos.
    change (length (inst :: insts)) with (S (length insts)) in Hpos.
    rewrite <- cons_seq in Hpos. injection Hpos as Hp0 Hrest0.
    assert (Hp : inst_position inst = S n0 + k + i) by exact Hp0.
    assert (Hrest : List.map inst_position insts = seq (S (S n0 + k + i)) (length insts))
      by exact Hrest0.
    clear Hp0 Hrest0.
    destruct (lookup_lt_is_Some_2 h (S n0 + i) ltac:(lia)) as [o Ho].
    assert (Hstep : update_instance r box i inst h
                    = Ok (tt, <[S n0 + k + i := wrapped box off o]> h)).
    { rewrite <- Hp. apply (update_instance_returns r box i inst h (S n0 + i)).
      - rewrite Horig. apply lookup_seq_lt. lia.
      - exact Ho.
      - rewrite Hoff. exact Hn0.
      - rewrite Hsel. apply lookup_empty. }
    set (h1 := <[S n0 + k + i := wrapped box off o]> h) in *.
    destruct (IH (S i) h1) as [h' [Hrun [Hlen' [Hlow Hdisp]]]].
    + rewrite Hrest. f_equal. lia.
    + lia.
    + unfold h1. rewrite length_insert. exact Hlen.
    + unfold h1. rewrite list_lookup_insert_ne by lia. exact Hn0.
    + exists h'. rewrite (forEach_from_cons _ _ _ _ _ _ Hstep).
      split; [exact Hrun |].
      split; [rewrite Hlen'; unfold h1; apply length_insert |].
      split.
      * intros l Hl. rewrite Hlow by lia. unfold h1.
        apply list_lookup_insert_ne. lia.
      * intros [| j] o' Hj Ho'.
        -- replace (S n0 + k + i + 0) with (S n0 + k + i) by lia.
           replace (S n0 + i + 0) with (S n0 + i) in Ho' by lia.
           rewrite Hlow by lia. unfold h1.
           rewrite list_lookup_insert_eq by lia.
           rewrite Ho in Ho'. injection Ho' as ->. reflexivity.
        -- simpl in Hj.
           replace (S n0 + k + i + S j) with (S n0 + k + S i + j) by lia.
           apply Hdisp; [lia |].
           unfold h1. rewrite list_lookup_insert_ne by lia.
           replace (S n0 + S i + j) with (S n0 + i + S j) by lia. exact Ho'.
Qed.

Lemma find_instance_In (r : DNARenderer) (i : jsint) (inst : Instance) :
  find_instance r i = Some inst -> In inst (nucleotideInstances r).
Proof. unfold find_instance. intros H. apply find_some in H. tauto. Qed.

Lemma instance_points_in_store (r : DNARenderer) (n k : nat) (h : heap) (bs : list Bond) :
  List.map inst_position (nucleotideInstances r) = seq n k ->
  n + k <= length h ->
  forall p, In p (omap (instance_points r) bs) -> p.1 < length h /\ p.2 < length h.
Proof.
  intros Hpos Hlen p Hp. apply list_elem_of_In, list_elem_of_omap in Hp.
  destruct Hp as [b [_ Hb]]. unfold instance_points in Hb.
  destruct (find_instance r (idx (from b))) as [i1 |] eqn:E1; [| discriminate].
  destruct (find_instance r (to b)) as [i2 |] eqn:E2; [| discriminate].
  injection Hb as <-. simpl.
  assert (Hin : forall inst, In inst (nucleotideInstances r) -> inst_position inst < length h).
  { intros inst Hinst. apply (in_map inst_position) in Hinst. rewrite Hpos in Hinst.
    apply in_seq in Hinst. lia. }
  split; apply Hin; eapply find_instance_In; eassumption.
Qed.

End ShiftFacts.

Section ShiftSteps.
Context {R : Rounding}.
Local Open Scope nat_scope.
Import Renderer.

Lemma loaded_instances_length g n0 r h :
  loaded g n0 r h -> length (nucleotideInstances r) = length (particles g).
Proof.
  intros (_ & _ & _ & Hpos & _ & _).
  rewrite <- (length_map inst_position), Hpos. apply length_seq.
Qed.

Lemma updateParticlePositions_returns g n0 r h box off :
  loaded g n0 r h ->
  md_box (metadata g) = Some box ->
  h !! n0 = Some off ->
  exists r' h',
    updateParticlePositions r h = Ok (r', h')
    /\ loaded g n0 r' h'
    /\ nucleotideInstances r' = nucleotideInstances r
    /\ (forall l, l < S n0 + length (particles g) -> h' !! l = h !! l)
    /\ (forall j o, j < length (particles g) -> h !! (S n0 + j) = Some o ->
                    h' !! (S n0 + length (particles g) + j) = Some (wrapped box off o)).
Proof.
  intros Hl Hbox Hn0. pose proof (loaded_instances_length g n0 r h Hl) as Hk.
  pose proof Hl as (Hdata & Hoff & Horig & Hpos & Hsel & Hlen).
  set (k := length (particles g)) in *.
  destruct (update_loop r box off n0 k Hoff Horig Hsel (nucleotideInstances r) 0 h)
    as [h' [Hrun [Hlen' [Hlow Hdisp]]]].
  - rewrite Hpos, Hk. f_equal. lia.
  - lia.
  - exact Hlen.
  - exact Hn0.
  - assert (Hl' : loaded g n0 r h').
    { unfold loaded. fold k. rewrite Hlen'. repeat split; assumption. }
    assert (Hframe : forall l, l < S n0 + k -> h' !! l = h !! l).
    { intros l Hlt. apply Hlow. lia. }
    assert (Hshow : forall j o, j < k -> h !! (S n0 + j) = Some o ->
                                h' !! (S n0 + k + j) = Some (wrapped box off o)).
    { intros j o Hj Ho.
      replace (S n0 + k + j) with (S n0 + k + 0 + j) by lia.
      apply Hdisp; [lia |]. replace (S n0 + 0 + j) with (S n0 + j) by lia. exact Ho. }
    unfold updateParticlePositions. rewrite Hdata, Hbox.
    rewrite (bind_returns _ _ _ _ _ Hrun).
    destruct (0 <? length (bondMeshes r)).
    + destruct (0 <? length (omap (instance_points r) (bonds g))).
      * destruct (create_line_system (omap (instance_points r) (bonds g)) h') as [ls Hls].
        { apply (instance_points_in_store r (S n0 + k) k); [exact Hpos | lia]. }
        exists (set_bondMeshes r [ls]), h'.
        rewrite (bind_returns _ _ _ _ _ Hls).
        split; [reflexivity |]. split; [exact Hl' |]. split; [reflexivity |].
        split; assumption.
      * exists (set_bondMeshes r []), h'.
        split; [reflexivity |]. split; [exact Hl' |]. split; [reflexivity |].
        split; assumption.
    + exists r, h'.
      split; [reflexivity |]. split; [exact Hl' |]. split; [reflexivity |].
      split; assumption.
Qed.

(** One shift: it returns, it keeps the renderer loaded, and in the store
    it changes the offset and the positions of the instances only. *)
Lemma shiftParticles_returns g n0 r h axis amount :
  loaded g n0 r h ->
  exists r' h' off,
    shiftParticles axis amount r h = Ok (r', h')
    /\ loaded g n0 r' h'
    /\ nucleotideInstances r' = nucleotideInstances r
    /\ h !! n0 = Some off
    /\ (forall l, l < S n0 + length (particles g) -> l <> n0 -> h' !! l = h !! l)
    /\ (forall box,
          md_box (metadata g) = Some box ->
          h' !! n0 = Some (shift_offset axis amount off)
          /\ forall j o, j < length (particles g) -> h !! (S n0 + j) = Some o ->
               h' !! (S n0 + length (particles g) + j)
               = Some (wrapped box (shift_offset axis amount off) o))
    /\ (md_box (metadata g) = None -> h' = h).
Proof.
  intros Hl. pose proof Hl as (Hdata & Hoff & Horig & Hpos & Hsel & Hlen).
  destruct (lookup_lt_is_Some_2 h n0 ltac:(lia)) as [off Hn0].
  unfold shiftParticles. rewrite Hdata.
  destruct (md_box (metadata g)) as [box |] eqn:Hbox.
  - set (h1 := <[n0 := shift_offset axis amount off]> h).
    assert (Hl1 : loaded g n0 r h1).
    { unfold loaded, h1. rewrite length_insert. repeat split; assumption. }
    assert (Hn1 : h1 !! n0 = Some (shift_offset axis amount off)).
    { unfold h1. apply list_lookup_insert_eq. lia. }
    destruct (updateParticlePositions_returns g n0 r h1 box _ Hl1 Hbox Hn1)
      as [r' [h' [Hrun [Hl' [Hinst [Hframe Hshow]]]]]].
    exists r', h', off.
    split.
    { rewrite Hoff. rewrite (bind_returns _ _ _ _ _ (read_returns _ _ _ Hn0)).
      unfold write, mbind, M_bind. fold h1. exact Hrun. }
    split; [exact Hl' |]. split; [exact Hinst |]. split; [exact Hn0 |].
    split; [| split].
    + intros l Hlt Hne. rewrite Hframe by exact Hlt.
      unfold h1. apply list_lookup_insert_ne. lia.
    + intros box' [= <-]. split.
      * rewrite Hframe by lia. exact Hn1.
      * intros j o Hj Ho. apply Hshow; [exact Hj |].
        unfold h1. rewrite list_lookup_insert_ne by lia. exact Ho.
    + discriminate.
  - exists r, h, off. split; [reflexivity |]. split; [exact Hl |].
    split; [reflexivity |]. split; [exact Hn0 |].
    split; [reflexivity |]. split; [discriminate | reflexivity].
Qed.

(** A sequence of shifts. *)
Lemma shifts_returns g n0 (ops : list (jsstring * number)) :
  forall r h,
    loaded g n0 r h ->
    exists r' h',
      shifts ops r h = Ok (r', h')
      /\ loaded g n0 r' h'
      /\ nucleotideInstances r' = nucleotideInstances r
      /\ (forall l, l < S n0 + length (particles g) -> l <> n0 -> h' !! l = h !! l).
Proof.
  induction ops as [| [axis amount] ops IH]; intros r h Hl.
  - exists r, h. split; [reflexivity |]. split; [exact Hl |].
    split; [reflexivity |]. reflexivity.
  - destruct (shiftParticles_returns g n0 r h axis amount Hl)
      as [r1 [h1 [off [Hrun [Hl1 [Hinst [_ [Hframe _]]]]]]]].
    destruct (IH r1 h1 Hl1) as [r' [h' [Hrun' [Hl' [Hinst' Hframe']]]]].
    exists r', h'. simpl. rewrite (bind_returns _ _ _ _ _ Hrun).
    split; [exact Hrun' |]. split; [exact Hl' |].
    split; [congruence |].
    intros l Hlt Hne. rewrite Hframe' by assumption. apply Hframe; assumption.
Qed.

(** A shift along the axis [a] leaves the displayed coordinates along the
    other axes as they are. *)
Lemma shift_offset_other_axes (a a' : axis) (amount : number) (box off o : V3.t) :
  a' <> a ->
  side a' (wrapped box (shift_offset (axis_name a) amount off) o)
  = side a' (wrapped box off o).
Proof.
  intros Hne. destruct a, a'; try congruence; reflexivity.
Qed.

(** A shift by the box side [L] along the axis [a] leaves the displayed
    coordinate along [a] unchanged up to five rounding errors, or moves it
    by one side up to that. *)
Lemma shift_offset_side (a : axis) (M eps L x s : Q) (box off o : V3.t) :
  rounds_within M eps -> side a box = Fin L -> (0 < L)%Q -> (0 <= eps)%Q ->
  (3 * eps < L)%Q ->
  side a o = Fin x -> side a off = Fin s ->
  (Qabs x + Qabs s + L + eps <= M)%Q ->
  unchanged_up_to (5 * eps) L
    (side a (wrapped box off o))
    (side a (wrapped box (shift_offset (axis_name a) (Fin L) off) o)).
Proof.
  intros Hr Hside HL Heps Hsmall Hx Hs HM.
  destruct a; simpl in Hside, Hx, Hs;
    unfold wrapped, shift_offset, axis_name, side; cbn [V3.x V3.y V3.z];
    rewrite Hside, Hx, Hs;
    change (string_eqb (js "x") (js "x")) with true;
    change (string_eqb (js "y") (js "y")) with true;
    change (string_eqb (js "z") (js "z")) with true;
    cbv iota; apply (wrap_offset_add_side M eps x s L); assumption.
Qed.

End ShiftSteps.

(** ** Shifts *)

Section ShiftClaims.
Context {R : Rounding} {E : Engine}.
Local Open Scope nat_scope.
Import Renderer.

(** C8, as the code has it. Once a shift has been made after the load, a
    further shift by one full box side [L > 0] along that side's axis
    leaves the position of every instance unchanged up to the rounding
    of the sums. The renderer returns from each call; along the two other
    axes each instance keeps its coordinates; along the shifted axis its
    coordinate changes by five rounding errors at most, or, for a position
    within that tolerance of a face of the box, shows at the opposite
    face. The rounding errors are at most [eps] for the numbers of
    magnitude at most [M], and the positions, the offset and the side
    are below that magnitude. *)
Theorem shift_by_side_after_a_shift (g : StructureGraph) (this : DNARenderer) (h0 : heap)
    (ops : list (jsstring * number)) (axis0 : jsstring) (amount0 : number)
    (a : axis) (box : V3.t) (L P M eps : Q) :
  graph_in_store g h0 = true ->
  fits_a_call g ->
  md_box (metadata g) = Some box ->
  side a box = Fin L ->
  (0 < L)%Q ->
  rounds_within M eps ->
  (0 <= eps)%Q ->
  (3 * eps < L)%Q ->
  positions_within a P g h0 ->
  exists r1 h1 r2 h2 r3 h3 r4 h4 off,
    loadData g this h0 = Ok (r1, h1)
    /\ shifts ops r1 h1 = Ok (r2, h2)
    /\ shiftParticles axis0 amount0 r2 h2 = Ok (r3, h3)
    /\ shiftParticles (axis_name a) (Fin L) r3 h3 = Ok (r4, h4)
    /\ nucleotideInstances r4 = nucleotideInstances r3
    /\ length (nucleotideInstances r3) = length (particles g)
    /\ h3 !! boxOffset r3 = Some off
    /\ forall inst,
         In inst (nucleotideInstances r3) ->
         exists v w,
           h3 !! inst_position inst = Some v
           /\ h4 !! inst_position inst = Some w
           /\ (forall a', a' <> a -> side a' w = side a' v)
           /\ (forall s,
                 side a off = Fin s ->
                 (P + Qabs s + L + eps <= M)%Q ->
                 unchanged_up_to (5 * eps) L (side a v) (side a w)).
Proof.
  intros Hg Hfits Hbox Hside HL Hround Heps Hsmall Hwithin.
  destruct (loadData_returns g this h0 Hg Hfits)
    as [r1 [vs1 [vs2 [Hload [Hl1 [Hlen1 [_ [Hvs1 _]]]]]]]].
  set (h1 := h0 ++ [zero_vector] ++ vs1 ++ vs2) in *.
  destruct (shifts_returns g (length h0) ops r1 _ Hl1) as [r2 [h2 [Hops [Hl2 [_ Hframe2]]]]].
  destruct (shiftParticles_returns g (length h0) r2 h2 axis0 amount0 Hl2)
    as [r3 [h3 [off2 [Hs3 [Hl3 [_ [_ [Hframe3 [Hshow3 _]]]]]]]]].
  destruct (shiftParticles_returns g (length h0) r3 h3 (axis_name a) (Fin L) Hl3)
    as [r4 [h4 [off3 [Hs4 [Hl4 [Hinst4 [Hoff3 [_ [Hshow4 _]]]]]]]]].
  destruct (Hshow3 box Hbox) as [Hoff3' Hdisp3].
  destruct (Hshow4 box Hbox) as [_ Hdisp4].
  rewrite Hoff3' in Hoff3. injection Hoff3 as <-.
  exists r1, h1, r2, h2, r3, h3, r4, h4, (shift_offset axis0 amount0 off2).
  split; [exact Hload |]. split; [exact Hops |]. split; [exact Hs3 |].
  split; [exact Hs4 |]. split; [exact Hinst4 |].
  split; [exact (loaded_instances_length g _ r3 h3 Hl3) |].
  pose proof Hl3 as (_ & Hoffr3 & _ & Hpos & _ & Hlen3).
  pose proof Hl2 as (_ & _ & _ & _ & _ & Hlen2).
  split; [rewrite Hoffr3; exact Hoff3' |].
  intros inst Hinst.
  apply (in_map inst_position) in Hinst. rewrite Hpos in Hinst. apply in_seq in Hinst.
  set (k := length (particles g)) in *. set (n0 := length h0) in *.
  set (j := inst_position inst - (S n0 + k)).
  assert (Hj : j < k) by (unfold j; lia).
  replace (inst_position inst) with (S n0 + k + j) by (unfold j; lia).
  destruct (lookup_lt_is_Some_2 (particles g) j Hj) as [p Hp].
  destruct (Hwithin p (in_lookup _ _ _ Hp)) as (o & x & Ho0 & Hx & HxP).
  assert (Ho1 : h1 !! (S n0 + j) = Some o).
  { unfold h1. rewrite lookup_app_r by (fold n0; lia). fold n0.
    replace (S n0 + j - n0) with (S j) by lia. simpl.
    rewrite lookup_app_l by lia. rewrite (Hvs1 j p Hp). exact Ho0. }
  assert (Ho : h2 !! (S n0 + j) = Some o).
  { rewrite Hframe2 by lia. exact Ho1. }
  assert (Ho3 : h3 !! (S n0 + j) = Some o).
  { rewrite Hframe3 by lia. exact Ho. }
  exists (wrapped box (shift_offset axis0 amount0 off2) o).
  exists (wrapped box (shift_offset (axis_name a) (Fin L) (shift_offset axis0 amount0 off2)) o).
  split; [apply Hdisp3; assumption |].
  split; [apply Hdisp4; assumption |].
  split.
  - intros a' Ha'. apply shift_offset_other_axes. exact Ha'.
  - intros s Hs HM.
    apply (shift_offset_side a M eps L x s); try assumption.
    lra.
Qed.

End ShiftClaims.

Section ShiftExamples.
#[local] Existing Instance Binary64.rounding.
#[local] Existing Instance Examples.engine.
Local Open Scope nat_scope.
Import Renderer.

Lemma one_particle_positions_within :
  positions_within AxisX 12 Examples.one_particle_graph Examples.one_particle_store.
Proof.
  intros p [<- | []]. eexists _, _. split; [reflexivity |]. split; [reflexivity |].
  vm_compute. discriminate.
Qed.

Lemma shift_by_side_after_a_shift_witness :
  graph_in_store Examples.one_particle_graph Examples.one_particle_store = true
  /\ md_box (metadata Examples.one_particle_graph) = Some (V3.mk (Fin 10) (Fin 10) (Fin 10))
  /\ side AxisX (V3.mk (Fin 10) (Fin 10) (Fin 10)) = Fin 10
  /\ (0 < 10)%Q
  /\ (3 * 2 ^ (10 - 53) < 10)%Q
  /\ exists r3 h3 r4 h4,
       shiftParticles (js "x") (Fin 10) r3 h3 = Ok (r4, h4)
       /\ length (nucleotideInstances r3) = 1
       /\ forall inst,
            In inst (nucleotideInstances r3) ->
            exists v w,
              h3 !! inst_position inst = Some v
              /\ h4 !! inst_position inst = Some w
              /\ (forall a', a' <> AxisX -> side a' w = side a' v)
              /\ unchanged_up_to (5 * 2 ^ (10 - 53)) 10 (side AxisX v) (side AxisX w).
Proof.
  split; [reflexivity |]. split; [reflexivity |]. split; [reflexivity |].
  split; [reflexivity |]. split; [reflexivity |].
  destruct (shift_by_side_after_a_shift
              Examples.one_particle_graph Examples.new_renderer Examples.one_particle_store
              [(js "y", Fin 4)] (js "x") (Fin 3) AxisX (V3.mk (Fin 10) (Fin 10) (Fin 10))
              10 12 (2 ^ 10) (2 ^ (10 - 53))
              eq_refl ltac:(apply N.leb_le; reflexivity) eq_refl eq_refl eq_refl
              (binary64_rounds_within 10 ltac:(lia))
              ltac:(apply Qle_bool_iff; reflexivity) eq_refl
              one_particle_positions_within)
    as (r1 & h1 & r2 & h2 & r3 & h3 & r4 & h4 & off & H1 & H2 & H3 & H4 & _ & Hn & Hoff & Hall).
  vm_compute in H1. injection H1 as <- <-.
  vm_compute in H2. injection H2 as <- <-.
  vm_compute in H3. injection H3 as <- <-.
  vm_compute in Hoff. injection Hoff as <-.
  eexists _, _, r4, h4. split; [exact H4 |]. split; [exact Hn |].
  intros inst Hinst. destruct (Hall inst Hinst) as (v & w & Hv & Hw & Hother & Hshift).
  exists v, w. split; [exact Hv |]. split; [exact Hw |]. split; [exact Hother |].
  apply (Hshift 3%Q); [reflexivity | apply Qle_bool_iff; reflexivity].
Defined.

(** C8, as stated, fails in two ways. On a structure that has just been
    loaded the instances carry the positions of the file, not their
    wrapped images: one particle at [x = 12] in a box of side 10 is shown
    at 12 after the load and at 2 after a shift of 10 along x. And after a
    shift, a further shift by the side can move a coordinate from one face
    of the box to the other: in a box of side 1, a particle at [x = 0.5]
    is shown at [1 - 2 ^ -53] after a shift of [0.5 - 2 ^ -53] along x,
    and at 0 after a further shift of 1, the offset [1.5 - 2 ^ -53] being
    rounded to 1.5. *)
Lemma shift_by_side_moves_positions :
  (exists g r1 h1 r2 h2 inst v w,
     Examples.visualize Examples.one_particle_topology Examples.one_row_configuration []
     = Ok ((g, r1), h1)
     /\ md_box (metadata g) = Some (V3.mk (Fin 10) (Fin 10) (Fin 10))
     /\ nucleotideInstances r1 = [inst]
     /\ h1 !! inst_position inst = Some v
     /\ shiftParticles (js "x") (Fin 10) r1 h1 = Ok (r2, h2)
     /\ nucleotideInstances r2 = [inst]
     /\ h2 !! inst_position inst = Some w
     /\ same_value (V3.x v) (Fin 12)
     /\ same_value (V3.x w) (Fin 2)
     /\ ~ same_vector w v)
  /\ (exists g r1 h1 r2 h2 r3 h3 inst v w,
        Examples.visualize Examples.one_particle_topology Examples.unit_box_configuration []
        = Ok ((g, r1), h1)
        /\ md_box (metadata g) = Some (V3.mk (Fin 1) (Fin 1) (Fin 1))
        /\ Binary64.round ((1 # 2) - 2 ^ (-53)) = Fin (Qred ((1 # 2) - 2 ^ (-53)))
        /\ shiftParticles (js "x") (Fin (Qred ((1 # 2) - 2 ^ (-53)))) r1 h1 = Ok (r2, h2)
        /\ nucleotideInstances r2 = [inst]
        /\ h2 !! inst_position inst = Some v
        /\ shiftParticles (js "x") (Fin 1) r2 h2 = Ok (r3, h3)
        /\ nucleotideInstances r3 = [inst]
        /\ h3 !! inst_position inst = Some w
        /\ same_value (V3.x v) (Fin (1 - 2 ^ (-53)))
        /\ same_value (V3.x w) (Fin 0)
        /\ ~ same_vector w v).
Proof.
  split.
  - eexists _, _, _, _, _, _, _, _.
    split; [vm_compute; reflexivity |].
    split; [reflexivity |]. split; [reflexivity |].
    split; [vm_compute; reflexivity |].
    split; [vm_compute; reflexivity |].
    split; [reflexivity |].
    split; [vm_compute; reflexivity |].
    split; [reflexivity |]. split; [reflexivity |].
    intros [H _]. vm_compute in H. discriminate.
  - eexists _, _, _, _, _, _, _, _, _, _.
    split; [vm_compute; reflexivity |].
    split; [reflexivity |].
    split; [vm_compute; reflexivity |].
    split; [vm_compute; reflexivity |].
    split; [reflexivity |].
    split; [vm_compute; reflexivity |].
    split; [vm_compute; reflexivity |].
    split; [reflexivity |].
    split; [vm_compute; reflexivity |].
    split; [reflexivity |]. split; [reflexivity |].
    intros [H _]. vm_compute in H. discriminate.
Qed.

(** A particle read at [x = -1e-20] in a box of side 1 is shown at
    [x = 1], on the far face of the box, after any shift: here one along
    y. *)
Example shift_shows_particle_at_the_side :
  exists g r1 h1 r2 h2 inst w,
    Examples.visualize Examples.one_particle_topology Examples.tiny_negative_configuration []
    = Ok ((g, r1), h1)
    /\ md_box (metadata g) = Some (V3.mk (Fin 1) (Fin 1) (Fin 1))
    /\ shiftParticles (js "y") (Fin 1) r1 h1 = Ok (r2, h2)
    /\ nucleotideInstances r2 = [inst]
    /\ h2 !! inst_position inst = Some w
    /\ V3.x w = Fin 1.
Proof.
  eexists _, _, _, _, _, _, _.
  split; [vm_compute; reflexivity |].
  split; [reflexivity |].
  split; [vm_compute; reflexivity |].
  split; [reflexivity |].
  split; [vm_compute; reflexivity |].
  reflexivity.
Qed.

End ShiftExamples.

Section FrameClaims.
Context {R : Rounding} {E : Engine}.
Local Open Scope nat_scope.
Import Renderer.

(** C9. For a graph that fits a call, so that the camera step of
    [loadData] does not throw, [loadData] returns with the offset at the
    zero vector, whatever the renderer held before; any sequence of shifts
    after it returns and
    leaves [data] the loaded graph, every object the store held at load
    time (the vectors of the graph among them) as it was, and the list of
    original positions the same list of objects, each a new object that
    still holds the position of its particle at load time. An object of the
    store that the shifts changed is the offset or the position of an
    instance. *)
Theorem shifts_keep_graph_and_snapshot (g : StructureGraph) (this : DNARenderer)
    (h0 : heap) (ops : list (jsstring * number)) :
  graph_in_store g h0 = true ->
  fits_a_call g ->
  exists r1 h1 rn hn,
    loadData g this h0 = Ok (r1, h1)
    /\ h1 !! boxOffset r1 = Some zero_vector
    /\ shifts ops r1 h1 = Ok (rn, hn)
    /\ data rn = Some g
    /\ (forall l, l < length h0 -> hn !! l = h0 !! l)
    /\ (forall p l, In p (particles g) -> In l (vectors_of p) -> hn !! l = h0 !! l)
    /\ originalParticlePositions rn = originalParticlePositions r1
    /\ (forall i p,
          particles g !! i = Some p ->
          exists l,
            originalParticlePositions rn !! i = Some l
            /\ length h0 <= l
            /\ h1 !! l = h0 !! position p
            /\ hn !! l = h0 !! position p)
    /\ (forall l,
          hn !! l <> h1 !! l ->
          l = boxOffset rn
          \/ exists inst, In inst (nucleotideInstances rn) /\ inst_position inst = l).
Proof.
  intros Hg Hfits.
  destruct (loadData_returns g this h0 Hg Hfits)
    as [r1 [vs1 [vs2 [Hload [Hl1 [Hlen1 [Hlen2 [Hvs1 _]]]]]]]].
  set (h1 := h0 ++ [zero_vector] ++ vs1 ++ vs2) in *.
  destruct (shifts_returns g (length h0) ops r1 h1 Hl1) as [rn [hn [Hops [Hln [_ Hframe]]]]].
  pose proof Hl1 as (_ & Hoff1 & Horig1 & _ & _ & Hlenh1).
  pose proof Hln as (Hdatan & Hoffn & Horign & Hposn & _ & Hlenhn).
  set (k := length (particles g)) in *. set (n0 := length h0) in *.
  assert (Hold : forall l, l < n0 -> hn !! l = h0 !! l).
  { intros l Hl. rewrite Hframe by lia. unfold h1. apply lookup_app_l. exact Hl. }
  exists r1, h1, rn, hn.
  split; [exact Hload |].
  split.
  { rewrite Hoff1. unfold h1. rewrite lookup_app_r by (fold n0; lia).
    fold n0. rewrite Nat.sub_diag. reflexivity. }
  split; [exact Hops |]. split; [exact Hdatan |]. split; [exact Hold |].
  split.
  { intros p l Hp Hl. apply Hold. exact (graph_vectors_in_store g h0 Hg p l Hp Hl). }
  split; [congruence |].
  split.
  - intros i p Hi. exists (S n0 + i).
    assert (Hik : i < k) by (apply lookup_lt_Some in Hi; exact Hi).
    assert (Hh1 : h1 !! (S n0 + i) = h0 !! position p).
    { unfold h1. rewrite lookup_app_r by (fold n0; lia). fold n0.
      replace (S n0 + i - n0) with (S i) by lia. simpl.
      rewrite lookup_app_l by lia. apply Hvs1. exact Hi. }
    split; [rewrite Horign; apply lookup_seq_lt; exact Hik |].
    split; [lia |]. split; [exact Hh1 |].
    rewrite Hframe by lia. exact Hh1.
  - intros l Hne. destruct (decide (l = n0)) as [-> | Hn0]; [left; congruence |].
    right. destruct (le_lt_dec (S n0 + k) l) as [Hge | Hlt].
    + destruct (le_lt_dec (S n0 + k + k) l) as [Hout | Hin].
      * exfalso. apply Hne.
        rewrite (lookup_ge_None_2 hn l) by lia.
        rewrite (lookup_ge_None_2 h1 l) by lia. reflexivity.
      * assert (Hl : In l (List.map inst_position (nucleotideInstances rn))).
        { rewrite Hposn. apply in_seq. lia. }
        apply in_map_iff in Hl. destruct Hl as [inst [He Hi]]. eauto.
    + exfalso. apply Hne. apply Hframe; assumption.
Qed.

End FrameClaims.

Section FrameExamples.
#[local] Existing Instance Binary64.rounding.
#[local] Existing Instance Examples.engine.
Local Open Scope nat_scope.
Import Renderer.

Lemma shifts_keep_graph_and_snapshot_witness :
  graph_in_store Examples.one_particle_graph Examples.one_particle_store = true
  /\ exists r1 h1 rn hn,
       loadData Examples.one_particle_graph Examples.new_renderer
         Examples.one_particle_store = Ok (r1, h1)
       /\ h1 !! boxOffset r1 = Some zero_vector
       /\ shifts [(js "x", Fin 3); (js "z", Fin (-25))] r1 h1 = Ok (rn, hn)
       /\ data rn = Some Examples.one_particle_graph
       /\ (forall l, l < 6 -> hn !! l = Examples.one_particle_store !! l)
       /\ originalParticlePositions rn = originalParticlePositions r1.
Proof.
  split; [reflexivity |].
  destruct (shifts_keep_graph_and_snapshot
              Examples.one_particle_graph Examples.new_renderer Examples.one_particle_store
              [(js "x", Fin 3); (js "z", Fin (-25))] eq_refl
              ltac:(apply N.leb_le; reflexivity))
    as (r1 & h1 & rn & hn & H1 & H2 & H3 & H4 & H5 & _ & H7 & _).
  exists r1, h1, rn, hn. repeat split; assumption.
Defined.

(** With a configuration that has no [b =] line the box keeps its default
    sides 0, and the first shift puts NaN in every coordinate of every
    instance. *)
Example shift_in_default_box_loses_positions :
  exists g r1 h1 r2 h2 inst,
    Examples.visualize Examples.one_particle_topology Examples.no_box_configuration []
    = Ok ((g, r1), h1)
    /\ md_box (metadata g) = Some zero_vector
    /\ nucleotideInstances r1 = [inst]
    /\ h1 !! inst_position inst = Some (V3.mk (Fin 12) (Fin 0) (Fin 0))
    /\ shiftParticles (js "x") (Fin 1) r1 h1 = Ok (r2, h2)
    /\ h2 !! inst_position inst = Some (V3.mk NaN NaN NaN).
Proof.
  eexists _, _, _, _, _, _.
  split; [vm_compute; reflexivity |].
  split; [reflexivity |]. split; [reflexivity |].
  split; [vm_compute; reflexivity |].
  split; [vm_compute; reflexivity |].
  vm_compute. reflexivity.
Qed.

(** The loop of [updateParticlePositions] pairs the instance of rank [i]
    with the original position of rank [i], while the instances are created
    strand after strand. With the first particle on strand 1 and the second
    on strand 0, the instance of particle 1 comes first, and after a shift
    by 0 it shows the position of particle 0. *)
Example shift_pairs_instances_with_originals_by_rank :
  exists g r1 h1 r2 h2 inst0 inst1,
    Examples.visualize Examples.two_strand_topology Examples.two_row_configuration []
    = Ok ((g, r1), h1)
    /\ nucleotideInstances r1 = [inst0; inst1]
    /\ index (inst_particle inst0) = 1%nat
    /\ index (inst_particle inst1) = 0%nat
    /\ h1 !! inst_position inst0 = Some (V3.mk (Fin 2) (Fin 0) (Fin 0))
    /\ h1 !! inst_position inst1 = Some (V3.mk (Fin 1) (Fin 0) (Fin 0))
    /\ Renderer.shiftParticles (js "x") (Fin 0) r1 h1 = Ok (r2, h2)
    /\ (exists v, h2 !! inst_position inst0 = Some v /\ same_value (V3.x v) (Fin 1))
    /\ (exists v, h2 !! inst_position inst1 = Some v /\ same_value (V3.x v) (Fin 2)).
Proof.
  eexists _, _, _, _, _, _, _.
  split; [vm_compute; reflexivity |].
  split; [reflexivity |]. split; [reflexivity |]. split; [reflexivity |].
  split; [vm_compute; reflexivity |]. split; [vm_compute; reflexivity |].
  split; [vm_compute; reflexivity |].
  split; (eexists; split; [vm_compute; reflexivity | reflexivity]).
Qed.

End FrameExamples.

(** * Further properties *)

(** ** Rows of a topology *)

Section TopologyRows.
Context {B : Builtins}.
Import TopologyParser.
Local Open Scope nat_scope.

Lemma find_header_skips (skipped : list jsstring) (header_line : jsstring)
    (rest : list jsstring) :
  forallb (fun l => negb (significant l)) skipped = true ->
  significant header_line = true ->
  find_header (skipped ++ header_line :: rest) = Some (parse_header header_line, rest).
Proof.
  intros Hs Hh. induction skipped as [| l skipped IH]; simpl in *.
  - rewrite Hh. reflexivity.
  - apply andb_true_iff in Hs. destruct Hs as [Hl Hs].
    apply negb_true_iff in Hl. rewrite Hl. apply IH. exact Hs.
Qed.

(** X1. Whatever stands between them, the rows of a topology are read in
    order. When a particle row after the header line announces more patch
    ids than an array can hold, the parse throws a RangeError. Otherwise
    it returns: the header holds the tokens of the header line read by
    [Number], the document has one patch per [iP] line, one spring per
    [iS] line, and its particles are the remaining significant lines, the
    [i]-th of them parsed with index [i]. Blank lines and comments, before
    the header or between the rows, change nothing. *)
Theorem topology_parse_rows (content : jsstring) (skipped : list jsstring)
    (header_line : jsstring) (rest : list jsstring) :
  lines_of content = skipped ++ header_line :: rest ->
  forallb (fun l => negb (significant l)) skipped = true ->
  significant header_line = true ->
  (existsb overlong rest = true -> parse content = Throw RangeError)
  /\ (existsb overlong rest = false ->
      exists doc,
        parse content = Ok doc
        /\ (let numbers := List.map Number (split_spaces header_line) in
            numParticles (topo_header doc) = numbers !! 0
            /\ numStrands (topo_header doc) = numbers !! 1
            /\ maxSpringsPerParticle (topo_header doc) = numbers !! 2
            /\ repeatedPatchesPerParticle (topo_header doc) = numbers !! 3)
        /\ length (topo_patches doc) = length (List.filter (tagged "iP") rest)
        /\ length (topo_springs doc) = length (List.filter (tagged "iS") rest)
        /\ List.map Ok (topo_particles doc)
           = imap (fun i line => parse_particle i (split_spaces line))
               (List.filter particle_row rest)
        /\ forall i p, topo_particles doc !! i = Some p -> rec_index p = i).
Proof.
  intros Hl Hs Hh. unfold parse. rewrite Hl, (find_header_skips _ _ _ Hs Hh).
  pose proof (parse_lines_rows rest
                {| topo_header := parse_header header_line; topo_patches := [];
                   topo_springs := []; topo_particles := [] |}) as H.
  split; intros Hover; rewrite Hover in H; [exact H |].
  destruct H as (doc & Hrun & Hhead & Hp & Hsp & new & Hq & Hnew).
  cbn [topo_header topo_patches topo_springs topo_particles length Nat.add app] in *.
  subst new. exists doc. split; [exact Hrun |].
  split; [rewrite Hhead; simpl; repeat split; reflexivity |].
  split; [exact Hp |]. split; [exact Hsp |]. split; [exact Hnew |].
  intros i p Hi.
  assert (Hi' : List.map Ok (topo_particles doc) !! i = Some (Ok p))
    by (rewrite list_lookup_fmap, Hi; reflexivity).
  rewrite Hnew in Hi'. apply list_lookup_imap_Some in Hi'.
  destruct Hi' as (line & Hline & Hparse).
  assert (Hrow : particle_row line = true).
  { apply list_elem_of_lookup_2, list_elem_of_In, filter_In in Hline. tauto. }
  pose proof (parse_particle_cases i line Hrow) as Hcase.
  destruct (overlong line).
  - rewrite Hcase in Hparse. discriminate.
  - destruct Hcase as [q [Hq Hindex]]. congruence.
Qed.

End TopologyRows.

Lemma topology_parse_rows_witness :
  exists doc,
    TopologyParser.parse (B := Decimal.builtins) Examples.readme_topology = Ok doc
    /\ length (topo_patches doc) = 2%nat /\ length (topo_springs doc) = 2%nat
    /\ List.map rec_index (topo_particles doc) = [0; 1; 2; 3]%nat.
Proof.
  destruct (topology_parse_rows (B := Decimal.builtins) Examples.readme_topology []
              (js "4 2 1 1") (drop 1 (lines_of Examples.readme_topology))
              ltac:(vm_compute; reflexivity) eq_refl eq_refl)
    as (_ & Hparse).
  destruct (Hparse ltac:(vm_compute; reflexivity))
    as (doc & Hdoc & _ & Hp & Hs & Hq & Hindex).
  exists doc. split; [exact Hdoc |]. split; [exact Hp |]. split; [exact Hs |].
  assert (Hlen : length (topo_particles doc) = 4%nat).
  { rewrite <- (length_map Ok), Hq. vm_compute. reflexivity. }
  destruct (topo_particles doc) as [| p0 [| p1 [| p2 [| p3 [| p4 l]]]]];
    try discriminate Hlen.
  simpl. rewrite (Hindex 0%nat p0 eq_refl), (Hindex 1%nat p1 eq_refl),
    (Hindex 2%nat p2 eq_refl), (Hindex 3%nat p3 eq_refl). reflexivity.
Defined.

Section ParticleRow.
Context {B : Builtins}.
Import TopologyParser.
Local Open Scope nat_scope.

Lemma read_connections_length (rest : list jsstring) :
  length (read_connections rest) = length rest / 2.
Proof.
  assert (H : forall n (l : list jsstring), length l < n ->
                                            length (read_connections l) = length l / 2).
  { induction n as [| n IH]; intros l Hl; [lia |].
    destruct l as [| a [| b l]]; [reflexivity | reflexivity |].
    cbn [read_connections length]. rewrite IH by (simpl in Hl; lia).
    change (S (S (length l))) with (2 + length l).
    replace (2 + length l) with (length l + 1 * 2) by lia.
    rewrite Nat.div_add by lia. lia. }
  apply (H (S (length rest))). lia.
Qed.

Lemma read_connections_lookup (rest : list jsstring) :
  forall k a b,
    rest !! (2 * k) = Some a -> rest !! (2 * k + 1) = Some b ->
    read_connections rest !! k
    = Some {| particleIndex := parseInt a; springIndex := parseInt b |}.
Proof.
  assert (H : forall n (l : list jsstring) k a b,
             length l < n ->
             l !! (2 * k) = Some a -> l !! (2 * k + 1) = Some b ->
             read_connections l !! k
             = Some {| particleIndex := parseInt a; springIndex := parseInt b |}).
  { induction n as [| n IH]; intros l k a b Hl Ha Hb; [lia |].
    destruct l as [| x [| y l]].
    - rewrite lookup_nil in Ha. discriminate.
    - rewrite lookup_ge_None_2 in Hb by (simpl; lia). discriminate.
    - cbn [read_connections]. destruct k as [| k].
      + simpl in Ha, Hb. injection Ha as <-. injection Hb as <-. reflexivity.
      + replace (2 * S k) with (S (S (2 * k))) in Ha by lia.
        replace (2 * S k + 1) with (S (S (2 * k + 1))) in Hb by lia.
        simpl in Ha, Hb. simpl. apply IH; [simpl in Hl; lia | assumption | assumption]. }
  intros k a b. apply (H (S (length rest))). lia.
Qed.

Lemma map_lookup_Some {A C} (f : A -> C) (l : list A) (j : nat) (x : A) :
  l !! j = Some x -> List.map f l !! j = Some (f x).
Proof.
  revert j. induction l as [| y l IH]; intros j Hj.
  - rewrite lookup_nil in Hj. discriminate.
  - destruct j; simpl in *; [congruence | apply IH; exact Hj].
Qed.

(** The record of a row whose patch loop makes [n] turns. *)
Lemma parse_particle_shape (index : nat) (parts : list jsstring) (n : nat) :
  read_patches parts (parseInt_at parts 4)
  = Ok (List.map (fun i => parseInt_at parts (5 + i)) (seq 0 n)) ->
  exists p,
    parse_particle index parts = Ok p
    /\ length (rec_patches p) = n
    /\ (forall i, i < n -> length parts <= 5 + i -> rec_patches p !! i = Some IntNaN)
    /\ (forall i s, i < n -> parts !! (5 + i) = Some s ->
                    rec_patches p !! i = Some (parseInt s))
    /\ length (rec_connections p) = (length parts - (5 + n)) / 2
    /\ (forall k a b,
          parts !! (5 + n + 2 * k) = Some a -> parts !! (5 + n + 2 * k + 1) = Some b ->
          rec_connections p !! k
          = Some {| particleIndex := parseInt a; springIndex := parseInt b |}).
Proof.
  intros Hread. unfold parse_particle. cbv zeta. rewrite Hread.
  cbn [mbind result_bind bind mret result_ret].
  eexists. split; [reflexivity |]. cbn [rec_patches rec_connections].
  rewrite length_map, length_seq.
  split; [reflexivity |]. split; [| split; [| split]].
  - intros i Hi Hlen.
    assert (Hs : seq 0 n !! i = Some i) by (apply lookup_seq_lt; exact Hi).
    rewrite (map_lookup_Some _ _ _ _ Hs). unfold parseInt_at.
    rewrite (lookup_ge_None_2 parts (5 + i)) by lia. reflexivity.
  - intros i s Hi Hp.
    assert (Hs : seq 0 n !! i = Some i) by (apply lookup_seq_lt; exact Hi).
    rewrite (map_lookup_Some _ _ _ _ Hs). unfold parseInt_at. rewrite Hp. reflexivity.
  - rewrite read_connections_length, length_drop. reflexivity.
  - intros k a b Ha Hb. apply read_connections_lookup.
    + rewrite lookup_drop. exact Ha.
    + rewrite lookup_drop. rewrite Nat.add_assoc. exact Hb.
Qed.

(** X2. The shape of a particle row, by what its fifth token announces.
    When [parseInt] reads it as an integer above [2 ^ 32 - 1], the row
    throws a RangeError. Otherwise the row gives a record: with [n] the
    integer read when it is not negative, and 0 when the token is
    missing, NaN or negative, the record has exactly [n] patch ids, the
    [i]-th of them read from the token of rank [5 + i] and NaN past the
    end of the row, and the tokens from rank [5 + n] on are taken two by
    two as connections: there are half as many connections as such tokens,
    rounded down, so a last token without a partner is dropped. *)
Theorem particle_row_shape (index : nat) (parts : list jsstring) :
  let numPatches := match parts !! 4 with
                    | Some token => parseInt token
                    | None => IntNaN
                    end in
  (forall z, numPatches = Int z -> (2 ^ 32 - 1 < z)%Z ->
             parse_particle index parts = Throw RangeError)
  /\ (forall n,
        (numPatches = Int (Z.of_nat n) /\ (Z.of_nat n <= 2 ^ 32 - 1)%Z)
        \/ (n = 0 /\ (numPatches = IntNaN \/ exists z, numPatches = Int z /\ (z < 0)%Z)) ->
        exists p,
          parse_particle index parts = Ok p
          /\ length (rec_patches p) = n
          /\ (forall i, i < n -> length parts <= 5 + i -> rec_patches p !! i = Some IntNaN)
          /\ (forall i s, i < n -> parts !! (5 + i) = Some s ->
                          rec_patches p !! i = Some (parseInt s))
          /\ length (rec_connections p) = (length parts - (5 + n)) / 2
          /\ (forall k a b,
                parts !! (5 + n + 2 * k) = Some a ->
                parts !! (5 + n + 2 * k + 1) = Some b ->
                rec_connections p !! k
                = Some {| particleIndex := parseInt a; springIndex := parseInt b |})).
Proof.
  intros numPatches.
  assert (Enum : parseInt_at parts 4 = numPatches) by reflexivity.
  split.
  - intros z Hz Hbig. unfold parse_particle. cbv zeta. rewrite Enum, Hz.
    rewrite read_patches_overlong by exact Hbig. reflexivity.
  - intros n Hn. apply parse_particle_shape. rewrite Enum.
    destruct Hn as [[-> Hfits] | [-> [-> | [z [-> Hneg]]]]].
    + rewrite read_patches_fits by exact Hfits. rewrite Nat2Z.id. reflexivity.
    + reflexivity.
    + rewrite read_patches_fits by (unfold max_array_length; lia).
      replace (Z.to_nat z) with 0 by lia. reflexivity.
Qed.

End ParticleRow.

(** ** Rows of a configuration *)

Section ConfigurationRows.
Context {B : Builtins}.
Import ConfigurationParser.
Local Open Scope nat_scope.

Lemma parse_line_data_row (acc : list NucleotideState) (line : jsstring) :
  if data_row line
  then exists n, parse_line acc line = acc ++ [n] /\ nuc_index n = length acc
  else parse_line acc line = acc.
Proof.
  unfold data_row, parse_line. rewrite length_map.
  destruct (significant line); [| reflexivity].
  destruct (Nat.leb 15 (length (split_spaces line))); [| reflexivity].
  eexists. split; reflexivity.
Qed.

Lemma fold_parse_line_data (ls : list jsstring) :
  forall acc : list NucleotideState,
    (forall i n, acc !! i = Some n -> nuc_index n = i) ->
    length (fold_left parse_line ls acc) = length acc + length (List.filter data_row ls)
    /\ forall i n, fold_left parse_line ls acc !! i = Some n -> nuc_index n = i.
Proof.
  induction ls as [| line ls IH]; intros acc Hacc; cbn [fold_left List.filter].
  - split; [simpl; lia | exact Hacc].
  - pose proof (parse_line_data_row acc line) as Hrow.
    destruct (data_row line).
    + destruct Hrow as (n & -> & Hn).
      destruct (IH (acc ++ [n])) as [Hlen Hidx].
      * intros i m Hi. apply lookup_app_Some in Hi.
        destruct Hi as [Hi | [Hge Hi]]; [apply Hacc; exact Hi |].
        destruct (i - length acc) eqn:E; simpl in Hi;
          [| rewrite lookup_nil in Hi; discriminate].
        injection Hi as <-. lia.
      * rewrite length_app in Hlen. simpl in Hlen. split; [simpl; lia | exact Hidx].
    + rewrite Hrow. apply IH. exact Hacc.
Qed.

Ltac header_step l tag code :=
  destruct (startsWith l (js tag)) eqn:?;
  [ let s := fresh "s" in
    let Hs := fresh "Hs" in
    destruct (after_equals_returns code l ltac:(discriminate) ltac:(eassumption)) as [s Hs];
    unfold floats_after_equals, mbind, result_bind, bind; rewrite Hs; simpl
  | simpl ].

Ltac data_from k :=
  intros [= <-]; exists k; split; [lia | reflexivity].

Ltac next_line lines k l E :=
  destruct (lines !! k) as [l |] eqn:E; simpl; [| discriminate].

Lemma parse_data_lines (content : jsstring) (doc : ConfigurationDocument) :
  parse content = Ok doc ->
  exists k, k <= 3
            /\ conf_nucleotides doc = fold_left parse_line (drop k (lines_of content)) [].
Proof.
  unfold parse. generalize (lines_of content). intros lines.
  next_line lines 0 l0 E0.
  header_step l0 "t ="%string 116%N.
  - next_line lines 1 l1 E1. header_step l1 "b ="%string 98%N.
    + next_line lines 2 l2 E2. header_step l2 "E ="%string 69%N; [data_from 3 | data_from 2].
    + rewrite E1. simpl. header_step l1 "E ="%string 69%N; [data_from 2 | data_from 1].
  - rewrite E0. simpl. header_step l0 "b ="%string 98%N.
    + next_line lines 1 l1 E1. header_step l1 "E ="%string 69%N; [data_from 2 | data_from 1].
    + rewrite E0. simpl. header_step l0 "E ="%string 69%N; [data_from 1 | data_from 0].
Qed.

(** X3. When [ConfigurationParser.parse] returns, at most three lines were
    taken as header; among the lines after them each significant line with
    at least 15 fields gives one nucleotide and every other line gives
    none; and the index of each nucleotide is its rank in the list. *)
Theorem configuration_parse_rows (content : jsstring) (doc : ConfigurationDocument) :
  parse content = Ok doc ->
  (exists k, k <= 3
             /\ length (conf_nucleotides doc)
                = length (List.filter data_row (drop k (lines_of content))))
  /\ forall i n, conf_nucleotides doc !! i = Some n -> nuc_index n = i.
Proof.
  intros H. destruct (parse_data_lines content doc H) as (k & Hk & ->).
  destruct (fold_parse_line_data (drop k (lines_of content)) []) as [Hlen Hidx].
  { intros i n Hi. rewrite lookup_nil in Hi. discriminate. }
  split; [exists k; split; [exact Hk | exact Hlen] | exact Hidx].
Qed.

(** X4. [ConfigurationParser.parse] throws nothing but a [TypeError], and
    it throws exactly on the texts whose lines stop right after the [t =]
    line or right after the [b =] line; on every other text, the empty one
    included, it returns a document. *)
Theorem configuration_parse_throws_exactly (content : jsstring) :
  (forall e, parse content = Throw e ->
             e = TypeError /\ ends_in_header (lines_of content) = true)
  /\ (ends_in_header (lines_of content) = true -> parse content = Throw TypeError)
  /\ (ends_in_header (lines_of content) = false -> exists doc, parse content = Ok doc)
  /\ exists doc, parse [] = Ok doc /\ conf_nucleotides doc = [].
Proof.
  destruct (configuration_parse_throws_iff content) as [Hiff Hok].
  split; [| split; [| split]].
  - intros e He. destruct (ends_in_header (lines_of content)) eqn:E.
    + rewrite (proj2 Hiff eq_refl) in He. injection He as <-. split; reflexivity.
    + destruct (Hok eq_refl) as [doc Hdoc]. congruence.
  - apply Hiff.
  - exact Hok.
  - eexists. split; reflexivity.
Qed.

End ConfigurationRows.

Lemma configuration_parse_rows_witness :
  ConfigurationParser.parse (B := Decimal.builtins) Examples.four_row_configuration
  = Ok Examples.four_row_document
  /\ forall i n, conf_nucleotides Examples.four_row_document !! i = Some n ->
                 nuc_index n = i.
Proof.
  assert (H : ConfigurationParser.parse (B := Decimal.builtins)
                Examples.four_row_configuration = Ok Examples.four_row_document)
    by (vm_compute; reflexivity).
  split; [exact H |].
  exact (proj2 (configuration_parse_rows (B := Decimal.builtins) _ _ H)).
Defined.

(** ** What [combine] builds *)

Section CombineFacts.
Import DataCombiner.
Local Open Scope nat_scope.

(** Where a bond comes from. *)
Lemma combine_bond_origin topology configuration (h : heap) :
  exists g h',
    combine topology configuration h = Ok (g, h')
    /\ length (particles g) = Nat.min (length (topo_particles topology))
                                      (length (conf_nucleotides configuration))
    /\ (forall i p, particles g !! i = Some p -> merged_from topology configuration h' i p)
    /\ forall b,
         In b (bonds g) ->
         exists p conn,
           particles g !! from b = Some p
           /\ In conn (connections p)
           /\ to b = particleIndex conn
           /\ spring b = find_spring topology (springIndex conn)
           /\ in_range (length (particles g)) (from b, conn) = true.
Proof.
  destruct (combine_returns topology configuration h) as [ps [ext [Hc [Hlen Hall]]]].
  eexists _, _. split; [exact Hc |]. simpl. split; [exact Hlen |]. split; [exact Hall |].
  rewrite derive_bonds_first_discoveries.
  intros b Hb. apply in_map_iff in Hb. destruct Hb as [c [<- Hin]].
  apply first_discoveries_incl in Hin. apply filter_In in Hin. destruct Hin as [Hd Hr].
  unfold declared in Hd. apply in_flat_map in Hd. destruct Hd as [p [Hp Hd]].
  apply in_map_iff in Hd. destruct Hd as [conn [<- Hconn]].
  apply list_elem_of_In, list_elem_of_lookup in Hp. destruct Hp as [i Hi].
  destruct (Hall i p Hi) as [Hidx _]. simpl.
  exists p, conn. split; [rewrite Hidx; exact Hi |].
  split; [exact Hconn |]. split; [reflexivity |]. split; [reflexivity | exact Hr].
Qed.

(** X5. Every bond of [combine] starts at a merged particle that declares
    it, and ends at an integer below the particle count: a connection whose
    peer is NaN or not below the count never gives a bond. *)
Theorem combine_bonds_declared_and_below_count topology configuration (h : heap) :
  exists g h',
    combine topology configuration h = Ok (g, h')
    /\ forall b,
         In b (bonds g) ->
         exists p conn z,
           particles g !! from b = Some p
           /\ index p = from b
           /\ In conn (connections p)
           /\ particleIndex conn = Int z
           /\ to b = Int z
           /\ (z < Z.of_nat (length (particles g)))%Z.
Proof.
  destruct (combine_bond_origin topology configuration h) as (g & h' & Hc & _ & Hall & Hb).
  exists g, h'. split; [exact Hc |].
  intros b Hin. destruct (Hb b Hin) as (p & conn & Hp & Hconn & Hto & _ & Hr).
  destruct (in_range_Int _ _ Hr) as [z [Hz Hlt]]. simpl in Hz.
  exists p, conn, z. repeat split; try assumption.
  - exact (proj1 (Hall _ _ Hp)).
  - congruence.
Qed.

(** X6. When no connection of the topology names a negative peer, both
    ends of every bond are merged particles. *)
Theorem combine_bonds_reference_particles topology configuration (h : heap) :
  peers_not_negative topology = true ->
  exists g h',
    combine topology configuration h = Ok (g, h')
    /\ forall b,
         In b (bonds g) ->
         exists pf pt z,
           particles g !! from b = Some pf
           /\ to b = Int z /\ (0 <= z)%Z
           /\ particles g !! Z.to_nat z = Some pt
           /\ index pf = from b /\ Z.of_nat (index pt) = z.
Proof.
  intros Hpeers.
  destruct (combine_bond_origin topology configuration h) as (g & h' & Hc & _ & Hall & Hb).
  exists g, h'. split; [exact Hc |].
  intros b Hin. destruct (Hb b Hin) as (p & conn & Hp & Hconn & Hto & _ & Hr).
  destruct (in_range_Int _ _ Hr) as [z [Hz Hlt]]. simpl in Hz.
  destruct (Hall _ _ Hp) as [Hidx (tp & nu & Htp & _ & _ & _ & _ & _ & _ & Hcs & _)].
  assert (Hz0 : (0 <= z)%Z).
  { unfold peers_not_negative in Hpeers. rewrite forallb_forall in Hpeers.
    specialize (Hpeers tp (in_lookup _ _ _ Htp)). rewrite forallb_forall in Hpeers.
    rewrite Hcs in Hconn. specialize (Hpeers conn Hconn). rewrite Hz in Hpeers.
    apply Z.leb_le. exact Hpeers. }
  destruct (lookup_lt_is_Some_2 (particles g) (Z.to_nat z) ltac:(lia)) as [pt Hpt].
  exists p, pt, z. repeat split; try assumption.
  - congruence.
  - rewrite (proj1 (Hall _ _ Hpt)). lia.
Qed.

End CombineFacts.

Lemma combine_bonds_reference_particles_witness :
  peers_not_negative Examples.readme_document = true
  /\ exists g h',
       DataCombiner.combine Examples.readme_document Examples.four_row_document []
       = Ok (g, h')
       /\ forall b,
            In b (bonds g) ->
            exists pf pt z,
              particles g !! from b = Some pf
              /\ to b = Int z /\ (0 <= z)%Z
              /\ particles g !! Z.to_nat z = Some pt
              /\ index pf = from b /\ Z.of_nat (index pt) = z.
Proof.
  split; [reflexivity |].
  exact (combine_bonds_reference_particles Examples.readme_document
           Examples.four_row_document [] eq_refl).
Defined.

Section CombineReferences.
Import DataCombiner.
Local Open Scope nat_scope.

Lemma find_resolves {A} (id : A -> jsint) (l : list A) (k : jsint) :
  resolves_to id l k (List.find (fun t => int_eqb (id t) k) l).
Proof.
  induction l as [| u l IH]; simpl.
  - intros z _. constructor.
  - destruct (int_eqb (id u) k) eqn:Eu.
    + apply int_eqb_true in Eu. destruct Eu as (z & Hu & Hk).
      exists z, [], l. repeat split; try assumption. constructor.
    + assert (Hne : forall z, k = Int z -> id u <> Int z).
      { intros z -> Hu. rewrite Hu in Eu. simpl in Eu. rewrite Z.eqb_refl in Eu.
        discriminate. }
      destruct (List.find (fun t => int_eqb (id t) k) l) as [t |]; simpl in *.
      * destruct IH as (z & before & after & Hk & -> & Ht & Hb).
        exists z, (u :: before), after. repeat split; try assumption.
        constructor; [apply Hne; exact Hk | exact Hb].
      * intros z Hk. constructor; [apply Hne; exact Hk | apply IH; exact Hk].
Qed.

Lemma omap_resolved {A C} (f : C -> option A) (l : list C) :
  omap f l = omap id (List.map f l).
Proof.
  induction l as [| c l IH]; [reflexivity |].
  change (omap f (c :: l))
    with (match f c with Some y => y :: omap f l | None => omap f l end).
  change (omap id (List.map f (c :: l)))
    with (match f c with Some y => y :: omap id (List.map f l)
          | None => omap id (List.map f l) end).
  rewrite IH. reflexivity.
Qed.

(** X7. References to templates are resolved by identical id and only
    inside the topology. The patches of a merged particle are what the ids
    on its row resolve to, one after the other in the order of the row and
    once for each occurrence of an id: an id that some patch template has
    gives the first such template, an id that no template has, NaN
    included, gives nothing and leaves no gap. The spring of a bond is what
    the spring index of its declaring connection, the first declared
    connection that joins its end points, resolves to among the spring
    templates: the first template with that id, or no spring. *)
Theorem combine_resolves_templates topology configuration (h : heap) :
  exists g h',
    combine topology configuration h = Ok (g, h')
    /\ (forall i p tp,
          particles g !! i = Some p -> topo_particles topology !! i = Some tp ->
          exists found : list (option PatchTemplate),
            Forall2 (resolves_to patch_id (topo_patches topology)) (rec_patches tp) found
            /\ patches p = omap id found)
    /\ (forall b,
          In b (bonds g) ->
          exists c,
            List.find (fun d => joins d.1 (particleIndex d.2) b)
              (List.filter (in_range (length (particles g))) (declared (particles g)))
            = Some c
            /\ from b = c.1 /\ to b = particleIndex c.2
            /\ resolves_to spring_id (topo_springs topology) (springIndex c.2) (spring b)).
Proof.
  destruct (combine_returns topology configuration h) as [ps [ext [Hc [_ Hall]]]].
  eexists _, _. split; [exact Hc |]. simpl. split.
  - intros i p tp Hp Htp.
    destruct (Hall _ _ Hp) as [_ (tp' & nu & Htp' & _ & _ & _ & _ & _ & Hpatches & _)].
    rewrite Htp in Htp'. injection Htp' as <-.
    exists (List.map (find_patch topology) (rec_patches tp)). split.
    + clear. induction (rec_patches tp) as [| k ks IH]; simpl; constructor.
      * apply find_resolves.
      * exact IH.
    + rewrite Hpatches. apply omap_resolved.
  - rewrite derive_bonds_first_discoveries.
    intros b Hb. apply in_map_iff in Hb. destruct Hb as [c [<- Hin]].
    exists c. split; [| split; [reflexivity | split; [reflexivity |]]].
    + change (List.find (same_pair c)
                (List.filter (in_range (length ps)) (declared ps)) = Some c).
      apply first_discoveries_find; [| exact Hin].
      intros d Hd. apply filter_In in Hd. destruct Hd as [_ Hd].
      destruct (in_range_Int _ _ Hd) as [z [Hz _]]. eauto.
    + apply find_resolves.
Qed.

Lemma merge_vectors topology configuration i (h : heap) tp nu :
  topo_particles topology !! i = Some tp ->
  conf_nucleotides configuration !! i = Some nu ->
  exists p vs,
    merge topology configuration i h = Ok (p, h ++ vs)
    /\ length vs = 5
    /\ vectors_of p = seq (length h) 5.
Proof.
  intros Htp Hnu. unfold merge, mbind, M_bind, lift, defined, new_Vector3, mret, M_ret.
  rewrite Htp, Hnu. simpl. rewrite <- !app_assoc. simpl.
  eexists _, _. split; [reflexivity |]. split; [reflexivity |].
  unfold vectors_of. simpl. rewrite !length_app. simpl.
  repeat (f_equal; try lia).
Qed.

Lemma merge_loop_vectors topology configuration (len : nat) :
  forall (start : nat) (h : heap),
    start + len <= length (topo_particles topology) ->
    start + len <= length (conf_nucleotides configuration) ->
    exists ps ext,
      mapM (merge topology configuration) (seq start len) h = Ok (ps, h ++ ext)
      /\ length ext = 5 * len
      /\ flat_map vectors_of ps = seq (length h) (5 * len).
Proof.
  induction len as [| len IH]; intros start h Ht Hc.
  - exists [], []. rewrite app_nil_r. repeat split.
  - destruct (lookup_lt_is_Some_2 (topo_particles topology) start ltac:(lia)) as [tp Htp].
    destruct (lookup_lt_is_Some_2 (conf_nucleotides configuration) start ltac:(lia))
      as [nu Hnu].
    destruct (merge_vectors topology configuration start h tp nu Htp Hnu)
      as (p & vs & Hp & Hvs & Hlocs).
    destruct (IH (S start) (h ++ vs) ltac:(lia) ltac:(lia)) as (ps & ext & Hps & Hext & Hall).
    exists (p :: ps), (vs ++ ext).
    change (seq start (S len)) with (start :: seq (S start) len).
    rewrite mapM_cons_M, Hp, Hps, <- app_assoc.
    split; [reflexivity |]. split; [rewrite length_app; lia |].
    cbn [flat_map]. rewrite Hlocs, Hall, length_app, Hvs.
    replace (5 * S len) with (5 + 5 * len) by lia.
    rewrite seq_app. reflexivity.
Qed.

(** X8. [combine] touches no object of the store it starts from; it makes
    five new vectors for each merged particle, in particle order, so no two
    fields and no two particles share a vector, and each vector holds the
    coordinates read from the configuration. The graph it returns lies in
    the store it returns. *)
Theorem combine_allocates_fresh_vectors topology configuration (h : heap) :
  exists g ext,
    combine topology configuration h = Ok (g, h ++ ext)
    /\ length ext = 5 * length (particles g)
    /\ flat_map vectors_of (particles g) = seq (length h) (5 * length (particles g))
    /\ NoDup (flat_map vectors_of (particles g))
    /\ (forall i p nu,
          particles g !! i = Some p -> conf_nucleotides configuration !! i = Some nu ->
          List.map (fun l => (h ++ ext) !! l) (vectors_of p)
          = [Some (nuc_position nu); Some (nuc_baseVector nu); Some (nuc_normalVector nu);
             Some (nuc_velocity nu); Some (nuc_angularVelocity nu)])
    /\ graph_in_store g (h ++ ext) = true.
Proof.
  destruct (combine_returns topology configuration h) as [ps [ext [Hc [Hlen Hall]]]].
  destruct (merge_loop_vectors topology configuration
              (Nat.min (length (topo_particles topology))
                       (length (conf_nucleotides configuration)))
              0 h ltac:(lia) ltac:(lia)) as (ps' & ext' & Hps' & Hext' & Hlocs).
  assert (Hsame : ps' = ps /\ ext' = ext).
  { unfold combine in Hc. cbv zeta in Hc. rewrite (bind_returns _ _ _ _ _ Hps') in Hc.
    unfold mret, M_ret in Hc. injection Hc as Hps _ Hh.
    apply app_inv_head in Hh. split; assumption. }
  destruct Hsame as [-> ->]. rewrite <- Hlen in Hext', Hlocs.
  eexists _, ext. split; [exact Hc |]. simpl.
  split; [exact Hext' |]. split; [exact Hlocs |].
  split; [rewrite Hlocs; apply NoDup_seq |].
  split.
  - intros i p nu Hp Hnu.
    destruct (Hall i p Hp) as [_ (tp & nu' & _ & Hnu' & _ & _ & _ & _ & _ & _ & H1 & H2 & H3 & H4 & H5)].
    rewrite Hnu in Hnu'. injection Hnu' as <-.
    unfold vectors_of. simpl. rewrite H1, H2, H3, H4, H5. reflexivity.
  - unfold graph_in_store. cbn [particles]. rewrite forallb_forall. intros p Hp.
    rewrite forallb_forall. intros l Hl. apply Nat.ltb_lt.
    assert (Hin : In l (flat_map vectors_of ps)) by (apply in_flat_map; eauto).
    rewrite Hlocs in Hin. apply in_seq in Hin. rewrite length_app. lia.
Qed.

End CombineReferences.

(** ** From the documents to the shifted view *)

Section Pipeline.
Context {R : Rounding} {E : Engine}.
Import DataCombiner Renderer.
Local Open Scope nat_scope.

Lemma combine_in_store topology configuration (h : heap) :
  exists g ext,
    combine topology configuration h = Ok (g, h ++ ext)
    /\ length (particles g) = Nat.min (length (topo_particles topology))
                                      (length (conf_nucleotides configuration))
    /\ graph_in_store g (h ++ ext) = true.
Proof.
  destruct (combine_returns topology configuration h) as [ps [ext [Hc [Hlen Hall]]]].
  eexists _, ext. split; [exact Hc |]. split; [exact Hlen |].
  unfold graph_in_store. cbn [particles]. rewrite forallb_forall. intros p Hp.
  rewrite forallb_forall. intros l Hl. apply Nat.ltb_lt.
  apply list_elem_of_In, list_elem_of_lookup in Hp. destruct Hp as [i Hi].
  destruct (Hall i p Hi) as [_ (tp & nu & _ & _ & _ & _ & _ & _ & _ & _ & H1 & H2 & H3 & H4 & H5)].
  unfold vectors_of in Hl. simpl in Hl.
  destruct Hl as [<- | [<- | [<- | [<- | [<- | []]]]]];
    eapply lookup_lt_Some; eassumption.
Qed.

(** X9. Combining two documents never throws, whatever the documents.
    Loading the combined graph into a renderer throws exactly when it has
    more particles than a call takes arguments, and then it throws a
    RangeError. When it returns, shifting any number of times returns,
    whatever the shifts are; there is then one instance for each merged
    particle, and no object that was in the store before [combine] has
    changed. *)
Theorem combine_load_shift_throws_exactly topology configuration (this : DNARenderer)
    (h : heap) (ops : list (jsstring * number)) :
  let count := Nat.min (length (topo_particles topology))
                       (length (conf_nucleotides configuration)) in
  exists g h1,
    combine topology configuration h = Ok (g, h1)
    /\ ((max_arguments < N.of_nat count)%N -> loadData g this h1 = Throw RangeError)
    /\ ((N.of_nat count <= max_arguments)%N ->
        exists r1 h2 rn hn,
          loadData g this h1 = Ok (r1, h2)
          /\ shifts ops r1 h2 = Ok (rn, hn)
          /\ length (nucleotideInstances rn) = count
          /\ List.map inst_particle (nucleotideInstances rn) ≡ₚ particles g
          /\ forall l, l < length h -> hn !! l = h !! l).
Proof.
  intros count.
  destruct (combine_in_store topology configuration h) as (g & ext & Hc & Hlen & Hg).
  fold count in Hlen.
  exists g, (h ++ ext). split; [exact Hc |]. split.
  - intros Hbig. apply loadData_throws; [exact Hg |].
    unfold fits_a_call. rewrite Hlen. lia.
  - intros Hfits.
    assert (Hfits' : fits_a_call g) by (unfold fits_a_call; rewrite Hlen; exact Hfits).
    destruct (loadData_returns g this (h ++ ext) Hg Hfits')
      as (r1 & vs1 & vs2 & Hload & Hl1 & _ & _ & _ & _ & Hperm).
    destruct (shifts_returns g (length (h ++ ext)) ops r1 _ Hl1)
      as (rn & hn & Hops & Hln & Hinst & Hframe).
    exists r1, ((h ++ ext) ++ [zero_vector] ++ vs1 ++ vs2), rn, hn.
    split; [exact Hload |]. split; [exact Hops |].
    split; [rewrite (loaded_instances_length _ _ _ _ Hln); exact Hlen |].
    split; [rewrite Hinst; exact Hperm |].
    intros l Hl. rewrite length_app in Hframe. rewrite Hframe by lia.
    rewrite <- app_assoc. apply lookup_app_l. exact Hl.
Qed.

End Pipeline.

(** ** The range of [wrap] *)

Section WrapRange.
Context {R : Rounding}.
Import Renderer.
Local Open Scope Q_scope.

(** X10. [wrap] in a box of side [L > 0], for a rounding that keeps the
    numbers from 0 to [L] there, as the rounding of doubles does when [L]
    is a double. Let [x] be the number of [[0, L)] that is [v] less a
    whole number of sides. For [v >= 0] no sum is made and the result is
    [x], exactly; it is [v] itself when [v < L]. For [v < 0] the result is
    [x] or, when a sum is made, [x] rounded. In both cases the result is
    in the box, faces included: [0 <= wrap v L <= L]. An argument that is
    not finite gives NaN. *)
Theorem wrap_stays_in_the_box (v L : Q) :
  0 < L ->
  rounds_inside L ->
  (exists x c,
     wrap (Fin v) (Fin L) = Fin c
     /\ 0 <= x /\ x < L /\ (exists k : Z, v == x + inject_Z k * L)
     /\ 0 <= c /\ c <= L
     /\ (0 <= v -> c == x)
     /\ (v < 0 -> c == x \/ round x = Fin c)
     /\ (0 <= v -> v < L -> c == v))
  /\ wrap PInf (Fin L) = NaN /\ wrap NInf (Fin L) = NaN /\ wrap NaN (Fin L) = NaN.
Proof.
  intros HL HR. split; [| repeat split].
  destruct (Qrem_decompose v L HL) as [k [Hk [Hlo Hhi]]].
  assert (Hsame : forall x j, 0 <= x -> x < L -> v == x + inject_Z j * L ->
                              0 <= v -> v < L -> x == v).
  { intros x j Hx0 HxL Hj Hv HvL.
    destruct (Z.eq_dec j 0%Z) as [-> | Hne].
    - change (inject_Z 0) with 0 in Hj. lra.
    - exfalso. destruct (Z_lt_le_dec j 0) as [Hneg | Hpos].
      + assert (Hj1 : inject_Z j <= -1)
          by (change (-1) with (inject_Z (-1)); rewrite <- Zle_Qle; lia).
        nra.
      + assert (Hj1 : 1 <= inject_Z j)
          by (change 1 with (inject_Z 1); rewrite <- Zle_Qle; lia).
        nra. }
  destruct (wrap_cases v L HL) as [[Hneg Hw] | [Hpos Hw]].
  - destruct (HR (Qrem v L + L) ltac:(lra) ltac:(lra)) as (c & Hc & Hc0 & HcL).
    assert (Hv : v < 0).
    { destruct (Qlt_le_dec v 0) as [H | H]; [exact H |].
      pose proof (Qrem_nonneg v L H HL). lra. }
    exists (Qrem v L + L), c. rewrite Hw, Hc.
    split; [reflexivity |]. split; [lra |]. split; [lra |].
    split.
    { exists (k - 1)%Z. unfold Zminus. rewrite inject_Z_plus, inject_Z_opp.
      change (inject_Z 1) with 1. lra. }
    split; [exact Hc0 |]. split; [exact HcL |].
    split; [intros H; lra |]. split; [intros _; right; reflexivity |].
    intros H; lra.
  - exists (Qrem v L), (Qrem v L). rewrite Hw.
    split; [reflexivity |]. split; [exact Hpos |]. split; [exact Hhi |].
    split; [exists k; exact Hk |].
    split; [exact Hpos |]. split; [lra |].
    split; [reflexivity |]. split; [intros _; left; reflexivity |].
    intros Hv HvL. exact (Hsame (Qrem v L) k Hpos Hhi Hk Hv HvL).
Qed.

End WrapRange.

Section WrapRangeExamples.
#[local] Existing Instance Binary64.rounding.
Import Renderer.
Local Open Scope Q_scope.

Lemma one_is_a_double : same_value (Binary64.round 1) (Fin 1).
Proof. vm_compute. reflexivity. Qed.

Lemma wrap_stays_in_the_box_witness :
  0 < 1
  /\ exists c, wrap (Fin (- (1 # 100000000000000000000))) (Fin 1) = Fin c
               /\ 0 <= c /\ c <= 1.
Proof.
  split; [reflexivity |].
  destruct (wrap_stays_in_the_box (- (1 # 100000000000000000000)) 1 eq_refl
              (binary64_rounds_inside 1 eq_refl one_is_a_double))
    as [(x & c & Hc & _ & _ & _ & H0 & H1 & _) _].
  exists c. split; [exact Hc |]. split; assumption.
Defined.

End WrapRangeExamples.

(** ** Sequences of shifts *)

Section ShiftSequences.
Context {R : Rounding} {E : Engine}.
Import Renderer.
Local Open Scope nat_scope.

(** After a sequence of at least one shift the offset is the accumulated
    one and the instance of rank [j] shows the wrapped image of the
    original position of rank [j]. *)
Lemma shifts_displayed g n0 box (ops : list (jsstring * number)) :
  md_box (metadata g) = Some box ->
  forall op r h off,
    loaded g n0 r h ->
    h !! n0 = Some off ->
    exists r' h',
      shifts (op :: ops) r h = Ok (r', h')
      /\ loaded g n0 r' h'
      /\ nucleotideInstances r' = nucleotideInstances r
      /\ h' !! n0 = Some (total_offset (op :: ops) off)
      /\ forall j o, j < length (particles g) -> h !! (S n0 + j) = Some o ->
           h' !! (S n0 + j) = Some o
           /\ h' !! (S n0 + length (particles g) + j)
              = Some (wrapped box (total_offset (op :: ops) off) o).
Proof.
  intros Hbox. induction ops as [| op' ops IH]; intros [axis amount] r h off Hl Hoff.
  - destruct (shiftParticles_returns g n0 r h axis amount Hl)
      as (r1 & h1 & off1 & Hrun & Hl1 & Hinst & Hoff1 & Hframe & Hshow & _).
    rewrite Hoff in Hoff1. injection Hoff1 as <-.
    destruct (Hshow box Hbox) as [Hoff' Hdisp].
    exists r1, h1. simpl. rewrite (bind_returns _ _ _ _ _ Hrun).
    split; [reflexivity |]. split; [exact Hl1 |]. split; [exact Hinst |].
    split; [exact Hoff' |].
    intros j o Hj Ho. split; [rewrite Hframe by lia; exact Ho | apply Hdisp; assumption].
  - destruct (shiftParticles_returns g n0 r h axis amount Hl)
      as (r1 & h1 & off1 & Hrun & Hl1 & Hinst & Hoff1 & Hframe & Hshow & _).
    rewrite Hoff in Hoff1. injection Hoff1 as <-.
    destruct (Hshow box Hbox) as [Hoff' _].
    destruct (IH op' r1 h1 _ Hl1 Hoff') as (r' & h' & Hrun' & Hl' & Hinst' & Hoffn & Hdisp).
    exists r', h'.
    change (shifts ((axis, amount) :: op' :: ops) r h)
      with ((shiftParticles axis amount r ≫= shifts (op' :: ops)) h).
    rewrite (bind_returns _ _ _ _ _ Hrun).
    split; [exact Hrun' |]. split; [exact Hl' |]. split; [congruence |].
    split; [exact Hoffn |].
    intros j o Hj Ho. apply Hdisp; [exact Hj |]. rewrite Hframe by lia. exact Ho.
Qed.

(** A load followed by at least one shift. *)
Lemma load_and_shifts g (this : DNARenderer) (h0 : heap) box op
    (ops : list (jsstring * number)) :
  graph_in_store g h0 = true ->
  fits_a_call g ->
  md_box (metadata g) = Some box ->
  exists r1 h1 rn hn,
    loadData g this h0 = Ok (r1, h1)
    /\ shifts (op :: ops) r1 h1 = Ok (rn, hn)
    /\ nucleotideInstances rn = nucleotideInstances r1
    /\ List.map inst_position (nucleotideInstances rn)
       = seq (S (length h0) + length (particles g)) (length (particles g))
    /\ List.map inst_particle (nucleotideInstances rn) ≡ₚ particles g
    /\ hn !! boxOffset rn = Some (total_offset (op :: ops) zero_vector)
    /\ forall j p, particles g !! j = Some p ->
         exists o,
           h0 !! position p = Some o
           /\ hn !! (S (length h0) + length (particles g) + j)
              = Some (wrapped box (total_offset (op :: ops) zero_vector) o).
Proof.
  intros Hg Hfits Hbox.
  destruct (loadData_returns g this h0 Hg Hfits)
    as (r1 & vs1 & vs2 & Hload & Hl1 & Hlen1 & Hlen2 & Hvs1 & _ & Hperm).
  set (h1 := h0 ++ [zero_vector] ++ vs1 ++ vs2) in *.
  assert (Hoff : h1 !! length h0 = Some zero_vector).
  { unfold h1. rewrite lookup_app_r by lia. rewrite Nat.sub_diag. reflexivity. }
  destruct (shifts_displayed g (length h0) box ops Hbox op r1 h1 zero_vector Hl1 Hoff)
    as (rn & hn & Hrun & Hln & Hinst & Hoffn & Hdisp).
  pose proof Hln as (_ & Hboff & _ & Hpos & _ & _).
  exists r1, h1, rn, hn.
  split; [exact Hload |]. split; [exact Hrun |]. split; [exact Hinst |].
  split; [exact Hpos |]. split; [rewrite Hinst; exact Hperm |].
  split; [rewrite Hboff; exact Hoffn |].
  intros j p Hj.
  assert (Hjk : j < length (particles g)) by (apply lookup_lt_Some in Hj; exact Hj).
  pose proof (graph_positions_in_store g h0 Hg p (in_lookup _ _ _ Hj)) as Hp.
  destruct (lookup_lt_is_Some_2 h0 (position p) Hp) as [o Ho].
  exists o. split; [exact Ho |].
  assert (Horig : h1 !! (S (length h0) + j) = Some o).
  { unfold h1. rewrite lookup_app_r by lia.
    replace (S (length h0) + j - length h0) with (S j) by lia. simpl.
    rewrite lookup_app_l by lia. rewrite (Hvs1 j p Hj). exact Ho. }
  exact (proj2 (Hdisp j o Hjk Horig)).
Qed.

End ShiftSequences.

Section ShiftViews.
Context {R : Rounding} {E : Engine}.
Import Renderer.
Local Open Scope nat_scope.

Lemma V3_eta (v : V3.t) : v = V3.mk (V3.x v) (V3.y v) (V3.z v).
Proof. destruct v. reflexivity. Qed.

(** Each coordinate of the offset accumulates the amounts shifted along its
    own axis, in the order of the shifts. *)
Lemma total_offset_coordinates (ops : list (jsstring * number)) :
  forall off,
    V3.x (total_offset ops off)
    = fold_left fadd (List.map snd (List.filter (fun op => string_eqb op.1 (js "x")) ops))
                (V3.x off)
    /\ V3.y (total_offset ops off)
       = fold_left fadd (List.map snd (List.filter (fun op => string_eqb op.1 (js "y")) ops))
                   (V3.y off)
    /\ V3.z (total_offset ops off)
       = fold_left fadd (List.map snd (List.filter (fun op => string_eqb op.1 (js "z")) ops))
                   (V3.z off).
Proof.
  induction ops as [| [a amount] ops IH]; intros off.
  - repeat split.
  - change (total_offset ((a, amount) :: ops) off)
      with (total_offset ops (shift_offset a amount off)).
    destruct (IH (shift_offset a amount off)) as (Hx & Hy & Hz).
    rewrite Hx, Hy, Hz. cbn [List.filter fst snd].
    unfold shift_offset. cbn [V3.x V3.y V3.z].
    repeat split.
    + destruct (string_eqb a (js "x")); reflexivity.
    + destruct (string_eqb a (js "y")); reflexivity.
    + destruct (string_eqb a (js "z")); reflexivity.
Qed.

Lemma total_offset_sums (ops : list (jsstring * number)) :
  total_offset ops zero_vector
  = V3.mk (axis_sum "x" ops) (axis_sum "y" ops) (axis_sum "z" ops).
Proof.
  rewrite (V3_eta (total_offset ops zero_vector)).
  destruct (total_offset_coordinates ops zero_vector) as (-> & -> & ->).
  reflexivity.
Qed.

(** The instance of rank [j] stands at the rank [j] of the positions made
    by [loadData]. *)
Lemma instance_rank (insts : list Instance) (n k : nat) (inst : Instance) :
  List.map inst_position insts = seq n k ->
  In inst insts ->
  exists j, j < k /\ insts !! j = Some inst /\ inst_position inst = n + j.
Proof.
  intros Hpos Hin. apply list_elem_of_In, list_elem_of_lookup in Hin.
  destruct Hin as [j Hj]. exists j.
  assert (Hm : List.map inst_position insts !! j = Some (inst_position inst)).
  { change (List.map inst_position insts) with (inst_position <$> insts).
    rewrite list_lookup_fmap, Hj. reflexivity. }
  rewrite Hpos in Hm. apply lookup_seq in Hm. destruct Hm as [Hm Hlt].
  split; [exact Hlt |]. split; [exact Hj | exact Hm].
Qed.

Lemma instance_at_rank (insts : list Instance) (n k j : nat) (inst : Instance) :
  List.map inst_position insts = seq n k ->
  insts !! j = Some inst ->
  inst_position inst = n + j.
Proof.
  intros Hpos Hj.
  assert (Hm : List.map inst_position insts !! j = Some (inst_position inst)).
  { change (List.map inst_position insts) with (inst_position <$> insts).
    rewrite list_lookup_fmap, Hj. reflexivity. }
  rewrite Hpos in Hm. apply lookup_seq in Hm. destruct Hm as [Hm _]. exact Hm.
Qed.

(** X11. After the load of a graph that fits a call and at least one
    shift, the offset of the renderer holds, axis by axis, the sum of the
    amounts shifted along that axis, added one after the other in the
    order of the shifts and rounded each time (a shift along another axis
    name adds nothing), and the instance of rank [j] shows the position
    that the particle of rank [j] had at the load, moved by that offset
    and wrapped into the box. *)
Theorem shifts_show_accumulated_offset (g : StructureGraph) (this : DNARenderer)
    (h0 : heap) (box : V3.t) (op : jsstring * number) (ops : list (jsstring * number)) :
  graph_in_store g h0 = true ->
  fits_a_call g ->
  md_box (metadata g) = Some box ->
  let offset := V3.mk (axis_sum "x" (op :: ops)) (axis_sum "y" (op :: ops))
                      (axis_sum "z" (op :: ops)) in
  exists r1 h1 rn hn,
    loadData g this h0 = Ok (r1, h1)
    /\ shifts (op :: ops) r1 h1 = Ok (rn, hn)
    /\ hn !! boxOffset rn = Some offset
    /\ length (nucleotideInstances rn) = length (particles g)
    /\ forall j p inst,
         particles g !! j = Some p ->
         nucleotideInstances rn !! j = Some inst ->
         exists o,
           h0 !! position p = Some o
           /\ hn !! inst_position inst = Some (wrapped box offset o).
Proof.
  intros Hg Hfits Hbox offset.
  destruct (load_and_shifts g this h0 box op ops Hg Hfits Hbox)
    as (r1 & h1 & rn & hn & Hload & Hrun & _ & Hpos & _ & Hoff & Hshow).
  rewrite total_offset_sums in Hoff, Hshow. fold offset in Hoff, Hshow.
  exists r1, h1, rn, hn.
  split; [exact Hload |]. split; [exact Hrun |]. split; [exact Hoff |].
  split.
  { rewrite <- (length_map inst_position), Hpos. apply length_seq. }
  intros j p inst Hj Hi. destruct (Hshow j p Hj) as (o & Ho & Hd).
  exists o. split; [exact Ho |].
  rewrite (instance_at_rank _ _ _ j inst Hpos Hi). exact Hd.
Qed.

End ShiftViews.

Section ShiftViewExamples.
#[local] Existing Instance Binary64.rounding.
#[local] Existing Instance Examples.engine.

Lemma shifts_show_accumulated_offset_witness :
  exists r1 h1 rn hn offset,
    Renderer.loadData Examples.one_particle_graph Examples.new_renderer
      Examples.one_particle_store = Ok (r1, h1)
    /\ Renderer.shifts [(js "x", Fin 3); (js "z", Fin (-25)); (js "x", Fin 4); (js "w", Fin 1)]
         r1 h1 = Ok (rn, hn)
    /\ hn !! boxOffset rn = Some offset
    /\ same_vector offset (V3.mk (Fin 7) (Fin 0) (Fin (-25)))
    /\ length (nucleotideInstances rn) = 1%nat.
Proof.
  destruct (shifts_show_accumulated_offset
              Examples.one_particle_graph Examples.new_renderer Examples.one_particle_store
              (V3.mk (Fin 10) (Fin 10) (Fin 10))
              (js "x", Fin 3) [(js "z", Fin (-25)); (js "x", Fin 4); (js "w", Fin 1)]
              eq_refl ltac:(apply N.leb_le; reflexivity) eq_refl)
    as (r1 & h1 & rn & hn & H1 & H2 & H3 & H4 & _).
  exists r1, h1, rn, hn. eexists.
  split; [exact H1 |]. split; [exact H2 |]. split; [exact H3 |].
  split; [| exact H4].
  vm_compute. repeat split; reflexivity.
Defined.

End ShiftViewExamples.

Section ShiftedInside.
Context {R : Rounding} {E : Engine}.
Import Renderer.
Local Open Scope nat_scope.

(** X12. After the load of a graph that fits a call and at least one
    shift, the instances stand in the box, faces included, along every
    axis whose side [L] is positive and such that the rounding keeps the
    numbers from 0 to [L] there, as it does when [L] is a double: the
    coordinate of the instance of rank [j] is in [[0, L]] when the
    position that the particle of rank [j] had at the load, plus the
    offset, is a finite number, and it is NaN when that sum is not. *)
Theorem shifted_instances_inside_box (g : StructureGraph) (this : DNARenderer)
    (h0 : heap) (box : V3.t) (op : jsstring * number) (ops : list (jsstring * number)) :
  graph_in_store g h0 = true ->
  fits_a_call g ->
  md_box (metadata g) = Some box ->
  exists r1 h1 rn hn off,
    loadData g this h0 = Ok (r1, h1)
    /\ shifts (op :: ops) r1 h1 = Ok (rn, hn)
    /\ hn !! boxOffset rn = Some off
    /\ length (nucleotideInstances rn) = length (particles g)
    /\ forall j p inst,
         particles g !! j = Some p ->
         nucleotideInstances rn !! j = Some inst ->
         exists o v,
           h0 !! position p = Some o
           /\ hn !! inst_position inst = Some v
           /\ forall a L,
                side a box = Fin L -> (0 < L)%Q -> rounds_inside L ->
                match fadd (side a o) (side a off) with
                | Fin _ => inside (Fin L) (side a v)
                | _ => side a v = NaN
                end.
Proof.
  intros Hg Hfits Hbox.
  destruct (load_and_shifts g this h0 box op ops Hg Hfits Hbox)
    as (r1 & h1 & rn & hn & Hload & Hrun & _ & Hpos & _ & Hoff & Hshow).
  exists r1, h1, rn, hn, (total_offset (op :: ops) zero_vector).
  split; [exact Hload |]. split; [exact Hrun |]. split; [exact Hoff |].
  split.
  { rewrite <- (length_map inst_position), Hpos. apply length_seq. }
  intros j p inst Hj Hi. destruct (Hshow j p Hj) as (o & Ho & Hd).
  exists o, (wrapped box (total_offset (op :: ops) zero_vector) o).
  split; [exact Ho |].
  split; [rewrite (instance_at_rank _ _ _ j inst Hpos Hi); exact Hd |].
  intros a L HL Hpos' HR.
  assert (Hside : side a (wrapped box (total_offset (op :: ops) zero_vector) o)
                  = wrap (fadd (side a o) (side a (total_offset (op :: ops) zero_vector)))
                         (side a box))
    by (destruct a; reflexivity).
  rewrite Hside, HL.
  destruct (fadd (side a o) (side a (total_offset (op :: ops) zero_vector))) as [y | | |];
    [apply wrap_inside; assumption | reflexivity | reflexivity | reflexivity].
Qed.

End ShiftedInside.

Section ShiftedInsideExamples.
#[local] Existing Instance Binary64.rounding.
#[local] Existing Instance Examples.engine.
Import Renderer.

Lemma ten_is_a_double : same_value (Binary64.round 10) (Fin 10).
Proof. vm_compute. reflexivity. Qed.

Lemma shifted_instances_inside_box_witness :
  exists r1 h1 rn hn,
    loadData Examples.one_particle_graph Examples.new_renderer
      Examples.one_particle_store = Ok (r1, h1)
    /\ shifts [(js "x", Fin 3); (js "z", Fin (-25))] r1 h1 = Ok (rn, hn)
    /\ forall inst, In inst (nucleotideInstances rn) ->
         exists v,
           hn !! inst_position inst = Some v
           /\ inside (Fin 10) (V3.x v)
           /\ inside (Fin 10) (V3.y v)
           /\ inside (Fin 10) (V3.z v).
Proof.
  destruct (shifted_instances_inside_box
              Examples.one_particle_graph Examples.new_renderer Examples.one_particle_store
              (V3.mk (Fin 10) (Fin 10) (Fin 10))
              (js "x", Fin 3) [(js "z", Fin (-25))]
              eq_refl ltac:(apply N.leb_le; reflexivity) eq_refl)
    as (r1 & h1 & rn & hn & off & H1 & H2 & Hoff & Hn & Hall).
  exists r1, h1, rn, hn. split; [exact H1 |]. split; [exact H2 |].
  vm_compute in H1. injection H1 as <- <-.
  vm_compute in H2. injection H2 as <- <-.
  vm_compute in Hoff. injection Hoff as <-.
  intros inst [<- | []].
  destruct (Hall 0%nat Examples.the_particle _ eq_refl eq_refl) as (o & v & Ho & Hv & Hin).
  vm_compute in Ho. injection Ho as <-.
  pose proof (binary64_rounds_inside 10 eq_refl ten_is_a_double) as HR.
  exists v. split; [exact Hv |].
  split; [exact (Hin AxisX 10%Q eq_refl eq_refl HR) |].
  split; [exact (Hin AxisY 10%Q eq_refl eq_refl HR) | exact (Hin AxisZ 10%Q eq_refl eq_refl HR)].
Defined.

End ShiftedInsideExamples.

(** ** The order of the instances *)

Section InstanceOrder.
Context {R : Rounding} {engine : Engine}.
Import Renderer.
Local Open Scope nat_scope.

#[local] Instance key_le_transitive : Transitive key_le.
Proof. intros a b c. unfold key_le. lia. Qed.

#[local] Instance key_le_total : Total key_le.
Proof. intros a b. unfold key_le. lia. Qed.








Lemma bind_inv {A C} (c : M A) (k : A -> M C) (h : heap) (r : C * heap) :
  (c ≫= k) h = Ok r -> exists a h1, c h = Ok (a, h1) /\ k a h1 = Ok r.
Proof.
  unfold mbind, M_bind. destruct (c h) as [[a h1] | e]; [| discriminate].
  intros H. exists a, h1. split; [reflexivity | exact H].
Qed.




End InstanceOrder.

Section InstanceOrderExamples.
#[local] Existing Instance Binary64.rounding.
#[local] Existing Instance Examples.engine.


End InstanceOrderExamples.

(** ** The selection *)

Section SelectionFacts.
Import Renderer Interaction.
Local Open Scope nat_scope.

Lemma Set_add_elem (i j : nat) (s : list nat) : j ∈ Set_add i s <-> j = i \/ j ∈ s.
Proof.
  unfold Set_add. destruct (bool_decide (i ∈ s)) eqn:E.
  - apply bool_decide_eq_true in E. split; [auto |]. intros [-> | H]; assumption.
  - rewrite elem_of_app, list_elem_of_singleton. tauto.
Qed.

Lemma Set_add_NoDup (i : nat) (s : list nat) : NoDup s -> NoDup (Set_add i s).
Proof.
  intros H. unfold Set_add. destruct (bool_decide (i ∈ s)) eqn:E; [exact H |].
  apply bool_decide_eq_false in E. apply NoDup_app. split; [exact H |].
  split; [| apply NoDup_singleton].
  intros x Hx Hx'. apply list_elem_of_singleton in Hx'. subst x. exact (E Hx).
Qed.

Lemma Set_delete_elem (i j : nat) (s : list nat) : j ∈ Set_delete i s <-> j <> i /\ j ∈ s.
Proof.
  unfold Set_delete. rewrite !list_elem_of_In, filter_In, negb_true_iff, Nat.eqb_neq.
  tauto.
Qed.

Lemma Set_delete_NoDup (i : nat) (s : list nat) : NoDup s -> NoDup (Set_delete i s).
Proof.
  induction 1 as [| a s Ha Hs IH]; [constructor |].
  unfold Set_delete in *. simpl. destruct (negb (a =? i)); [| exact IH].
  constructor; [| exact IH].
  intros Hin. apply Ha. apply list_elem_of_In in Hin. apply filter_In in Hin.
  apply list_elem_of_In. tauto.
Qed.

Lemma Set_delete_absent (i : nat) (s : list nat) : i ∉ s -> Set_delete i s = s.
Proof.
  induction s as [| a s IH]; intros Hi; [reflexivity |].
  unfold Set_delete in *. simpl.
  destruct (Nat.eqb_spec a i) as [-> | Hne].
  - exfalso. apply Hi. left.
  - simpl. f_equal. apply IH. intros H. apply Hi. right. exact H.
Qed.

Lemma extends_refl (h : heap) : extends h h.
Proof. exists []. symmetry. apply app_nil_r. Qed.

Lemma extends_trans (h1 h2 h3 : heap) : extends h1 h2 -> extends h2 h3 -> extends h1 h3.
Proof. intros [v1 ->] [v2 ->]. exists (v1 ++ v2). symmetry. apply app_assoc. Qed.

Lemma extends_length (h h' : heap) : extends h h' -> length h <= length h'.
Proof. intros [vs ->]. rewrite length_app. lia. Qed.

Lemma instances_in_store_extends (r r' : DNARenderer) (h h' : heap) :
  nucleotideInstances r' = nucleotideInstances r ->
  extends h h' -> instances_in_store r h -> instances_in_store r' h'.
Proof.
  intros Hi He H inst Hin. rewrite Hi in Hin. specialize (H inst Hin).
  apply extends_length in He. lia.
Qed.

Lemma has_instance_ext (r r' : DNARenderer) (i : nat) :
  nucleotideInstances r' = nucleotideInstances r -> has_instance r' i <-> has_instance r i.
Proof. intros H. unfold has_instance. rewrite H. reflexivity. Qed.

(** Removing a highlight. *)
Lemma highlight_off (r : DNARenderer) (i : nat) (h : heap) :
  highlightNucleotide i false r h
  = Ok (set_selectionMeshes r (delete i (selectionMeshes r)), h).
Proof. reflexivity. Qed.

(** Making a highlight: a copy of the position of the first instance that
    shows the particle, when there is one and no highlight stands yet. *)
Lemma highlight_on (r : DNARenderer) (i : nat) (h : heap) :
  instances_in_store r h ->
  exists s' h',
    highlightNucleotide i true r h = Ok (set_selectionMeshes r s', h')
    /\ extends h h'
    /\ (forall j, is_Some (s' !! j)
                  <-> is_Some (selectionMeshes r !! j) \/ (j = i /\ has_instance r i))
    /\ forall floor, floor <= length h -> meshes_above floor r h ->
                     meshes_above floor (set_selectionMeshes r s') h'.
Proof.
  intros Hin. unfold highlightNucleotide. cbn [negb].
  assert (Hsame : forall floor, floor <= length h -> meshes_above floor r h ->
                                meshes_above floor (set_selectionMeshes r (selectionMeshes r)) h).
  { intros floor _ H. exact H. }
  destruct (bool_decide (is_Some (selectionMeshes r !! i))) eqn:E.
  - apply bool_decide_eq_true in E.
    exists (selectionMeshes r), h. split; [destruct r; reflexivity |].
    split; [apply extends_refl |]. split; [| exact Hsame].
    intros j. split; [auto |]. intros [H | [-> _]]; assumption.
  - apply bool_decide_eq_false in E.
    destruct (List.find _ (nucleotideInstances r)) as [inst |] eqn:F.
    + apply find_some in F. destruct F as [Hi Hx].
      apply int_eqb_true in Hx. destruct Hx as [z [Hz1 Hz2]].
      assert (Hidx : index (inst_particle inst) = i).
      { unfold idx in Hz1, Hz2. injection Hz1 as Hz1. injection Hz2 as Hz2.
        apply Nat2Z.inj. congruence. }
      destruct (lookup_lt_is_Some_2 h (inst_position inst) (Hin inst Hi)) as [v Hv].
      exists (<[i := length h]> (selectionMeshes r)), (h ++ [v]).
      split; [rewrite (bind_returns _ _ _ _ _ (clone_returns _ _ _ Hv)); reflexivity |].
      split; [exists [v]; reflexivity |].
      split.
      { intros j. destruct (decide (j = i)) as [-> | Hne].
        * rewrite lookup_insert_eq. split; [| eauto].
          intros _. right. split; [reflexivity |]. exists inst. auto.
        * rewrite lookup_insert_ne by congruence. split; [auto |].
          intros [H | [H _]]; [exact H | contradiction]. }
      intros floor Hfloor [Hin_store Hinj]. cbn [meshes_above selectionMeshes set_selectionMeshes].
      unfold meshes_above. cbn [selectionMeshes set_selectionMeshes].
      rewrite length_app. cbn [length]. split.
      * intros j l Hj. destruct (decide (j = i)) as [-> | Hne].
        -- rewrite lookup_insert_eq in Hj. injection Hj as <-. lia.
        -- rewrite lookup_insert_ne in Hj by congruence. specialize (Hin_store j l Hj). lia.
      * intros j1 j2 l H1 H2.
        destruct (decide (j1 = i)) as [-> | Hne1], (decide (j2 = i)) as [-> | Hne2].
        -- reflexivity.
        -- rewrite lookup_insert_eq in H1. injection H1 as <-.
           rewrite lookup_insert_ne in H2 by congruence. specialize (Hin_store j2 _ H2). lia.
        -- rewrite lookup_insert_eq in H2. injection H2 as <-.
           rewrite lookup_insert_ne in H1 by congruence. specialize (Hin_store j1 _ H1). lia.
        -- rewrite lookup_insert_ne in H1, H2 by congruence. exact (Hinj j1 j2 l H1 H2).
    + exists (selectionMeshes r), h. split; [destruct r; reflexivity |].
      split; [apply extends_refl |]. split; [| exact Hsame].
      intros j. split; [auto |]. intros [H | [-> [inst [Hi Hx]]]]; [exact H |].
      exfalso. pose proof (find_none _ _ F inst Hi) as Hn. simpl in Hn.
      rewrite Hx in Hn. unfold int_eqb, idx in Hn. rewrite Z.eqb_refl in Hn. discriminate.
Qed.


Lemma accepts_extends (valid : nat -> Prop) (h h' : heap)
    (callback : option (list nat -> M unit)) :
  extends h h' -> accepts valid h callback -> accepts valid h' callback.
Proof.
  intros He Ha f Hf l h2 Hl He2. apply (Ha f Hf l h2 Hl).
  exact (extends_trans _ _ _ He He2).
Qed.

Lemma selection_changed_accepted (valid : nat -> Prop) (m : InteractionManager)
    (l : list nat) (h : heap) :
  accepts valid h (onSelectionChanged m) ->
  (forall i, i ∈ l -> valid i) ->
  selection_changed m l h = Ok (tt, h).
Proof.
  intros Ha Hl. unfold selection_changed.
  destruct (onSelectionChanged m) as [f |] eqn:E; [| reflexivity].
  apply (Ha f eq_refl l h Hl). apply extends_refl.
Qed.

Lemma hover_changed_quiet (m : InteractionManager) (p : option Particle) (h : heap) :
  quiet (onHoverChanged m) -> hover_changed m p h = Ok (tt, h).
Proof.
  intros Hq. unfold hover_changed.
  destruct (onHoverChanged m) as [f |] eqn:E; [| reflexivity].
  apply (Hq f eq_refl).
Qed.

Lemma same_scene_refl (st : state) : same_scene st st.
Proof. repeat split. Qed.

Lemma same_scene_trans (st1 st2 st3 : state) :
  same_scene st1 st2 -> same_scene st2 st3 -> same_scene st1 st3.
Proof.
  intros (A1 & A2 & A3 & A4 & A5 & A6 & A7) (B1 & B2 & B3 & B4 & B5 & B6 & B7).
  repeat split; congruence.
Qed.

Variable valid : nat -> Prop.

(** What [selectParticle] does to a ready state. *)
Lemma selectParticle_returns (i : nat) (st : state) (h : heap) :
  ready valid st h ->
  valid i ->
  exists st' h',
    selectParticle i st h = Ok (st', h')
    /\ ready valid st' h'
    /\ same_scene st st'
    /\ extends h h'
    /\ selectedParticles st'.1 = Set_add i (selectedParticles st.1)
    /\ multiSelectEnabled st'.1 = multiSelectEnabled st.1
    /\ hoveredParticle st'.1 = hoveredParticle st.1
    /\ forall floor, floor <= length h -> meshes_above floor st.2 h ->
                     meshes_above floor st'.2 h'.
Proof.
  destruct st as [m r]. intros (Hq1 & Hq2 & Hin & Hnd & Hval & Hhl) Hi.
  cbn [fst snd] in *.
  destruct (highlight_on r i h Hin) as (s' & h' & Hrun & Hext & Hdom & Hms).
  assert (Hval' : forall j, j ∈ Set_add i (selectedParticles m) -> valid j).
  { intros j Hj. apply Set_add_elem in Hj. destruct Hj as [-> | Hj]; [exact Hi | exact (Hval j Hj)]. }
  exists (set_selectedParticles m (Set_add i (selectedParticles m)), set_selectionMeshes r s'), h'.
  split.
  { unfold selectParticle. cbn [fst snd].
    rewrite (bind_returns _ _ _ _ _ Hrun).
    rewrite (bind_returns _ _ _ _ _
               (selection_changed_accepted valid (set_selectedParticles m _) _ h'
                  (accepts_extends valid h h' _ Hext Hq1) Hval')).
    reflexivity. }
  split.
  { split; [exact (accepts_extends valid h h' _ Hext Hq1) |]. split; [exact Hq2 |].
    split; [apply (instances_in_store_extends r _ h h'); [reflexivity | exact Hext | exact Hin] |].
    split; [apply Set_add_NoDup; exact Hnd |].
    split; [exact Hval' |].
    intros j. cbn [fst snd set_selectedParticles selectedParticles selectionMeshes
                   set_selectionMeshes].
    rewrite (Hdom j), Set_add_elem. unfold highlights_selected in Hhl. cbn [fst snd] in Hhl.
    rewrite (Hhl j). unfold has_instance. cbn [nucleotideInstances set_selectionMeshes].
    split.
    - intros [[H1 H2] | [-> H]]; [split; [right; exact H1 | exact H2] |].
      split; [left; reflexivity | exact H].
    - intros [[-> | H1] H2]; [right; split; [reflexivity | exact H2] | left; split; assumption]. }
  split; [repeat split |]. split; [exact Hext |].
  split; [reflexivity |]. split; [reflexivity |]. split; [reflexivity |]. exact Hms.
Qed.

Lemma deselectParticle_returns (i : nat) (st : state) (h : heap) :
  ready valid st h ->
  exists st',
    deselectParticle i st h = Ok (st', h)
    /\ ready valid st' h
    /\ same_scene st st'
    /\ selectedParticles st'.1 = Set_delete i (selectedParticles st.1)
    /\ multiSelectEnabled st'.1 = multiSelectEnabled st.1
    /\ hoveredParticle st'.1 = hoveredParticle st.1
    /\ forall floor, floor <= length h -> meshes_above floor st.2 h ->
                     meshes_above floor st'.2 h.
Proof.
  destruct st as [m r]. intros (Hq1 & Hq2 & Hin & Hnd & Hval & Hhl). cbn [fst snd] in *.
  assert (Hval' : forall j, j ∈ Set_delete i (selectedParticles m) -> valid j).
  { intros j Hj. apply Set_delete_elem in Hj. apply Hval. tauto. }
  exists (set_selectedParticles m (Set_delete i (selectedParticles m)),
          set_selectionMeshes r (delete i (selectionMeshes r))).
  split.
  { unfold deselectParticle. cbn [fst snd].
    rewrite (bind_returns _ _ _ _ _ (highlight_off r i h)).
    rewrite (bind_returns _ _ _ _ _
               (selection_changed_accepted valid (set_selectedParticles m _) _ h Hq1 Hval')).
    reflexivity. }
  split.
  { split; [exact Hq1 |]. split; [exact Hq2 |]. split; [exact Hin |].
    split; [apply Set_delete_NoDup; exact Hnd |]. split; [exact Hval' |].
    intros j. cbn [fst snd set_selectedParticles selectedParticles selectionMeshes
                   set_selectionMeshes].
    rewrite lookup_delete_is_Some, Set_delete_elem.
    unfold highlights_selected in Hhl. cbn [fst snd] in Hhl. rewrite (Hhl j).
    unfold has_instance. cbn [nucleotideInstances set_selectionMeshes].
    split; intros H; [destruct H as (H1 & H2 & H3) | destruct H as ((H1 & H2) & H3)];
      repeat split; auto. }
  split; [repeat split |]. split; [reflexivity |]. split; [reflexivity |].
  split; [reflexivity |].
  intros floor _ [Hst Hinj]. unfold meshes_above. cbn [snd selectionMeshes set_selectionMeshes].
  split.
  - intros j l Hj. apply lookup_delete_Some in Hj. destruct Hj as [_ Hj]. exact (Hst j l Hj).
  - intros j1 j2 l H1 H2. apply lookup_delete_Some in H1, H2.
    exact (Hinj j1 j2 l (proj2 H1) (proj2 H2)).
Qed.

Lemma forEach_off (l : list nat) :
  forall (r : DNARenderer) (h : heap),
    forEach (fun index => highlightNucleotide index false) l r h
    = Ok (set_selectionMeshes r (fold_left (fun s i => delete i s) l (selectionMeshes r)), h).
Proof.
  induction l as [| i l IH]; intros r h.
  - destruct r. reflexivity.
  - cbn [forEach]. rewrite (bind_returns _ _ _ _ _ (highlight_off r i h)).
    rewrite IH. reflexivity.
Qed.

Lemma fold_delete_is_Some (l : list nat) :
  forall (s : gmap nat nat) (j : nat),
    is_Some (fold_left (fun s i => delete i s) l s !! j) <-> is_Some (s !! j) /\ j ∉ l.
Proof.
  induction l as [| i l IH]; intros s j.
  - simpl. split; [intros H; split; [exact H | apply not_elem_of_nil] | tauto].
  - simpl. rewrite IH, lookup_delete_is_Some, not_elem_of_cons. split.
    + intros ((H1 & H2) & H3). repeat split; auto.
    + intros (H1 & H2 & H3). repeat split; auto.
Qed.

Lemma clearSelection_returns (st : state) (h : heap) :
  ready valid st h ->
  exists st',
    clearSelection st h = Ok (st', h)
    /\ ready valid st' h
    /\ same_scene st st'
    /\ selectedParticles st'.1 = []
    /\ (forall j, selectionMeshes st'.2 !! j = None)
    /\ multiSelectEnabled st'.1 = multiSelectEnabled st.1
    /\ hoveredParticle st'.1 = hoveredParticle st.1
    /\ forall floor, floor <= length h -> meshes_above floor st.2 h ->
                     meshes_above floor st'.2 h.
Proof.
  destruct st as [m r]. intros (Hq1 & Hq2 & Hin & Hnd & Hval & Hhl). cbn [fst snd] in *.
  set (s' := fold_left (fun s i => delete i s) (selectedParticles m) (selectionMeshes r)).
  assert (Hnone : forall j, s' !! j = None).
  { intros j. apply eq_None_not_Some. unfold s'. rewrite fold_delete_is_Some.
    intros [H1 H2]. apply H2. apply (Hhl j). exact H1. }
  assert (Hval' : forall j : nat, j ∈ @nil nat -> valid j).
  { intros j Hj. apply elem_of_nil in Hj. destruct Hj. }
  exists (set_selectedParticles m [], set_selectionMeshes r s').
  split.
  { unfold clearSelection. cbn [fst snd].
    rewrite (bind_returns _ _ _ _ _ (forEach_off (selectedParticles m) r h)).
    rewrite (bind_returns _ _ _ _ _
               (selection_changed_accepted valid (set_selectedParticles m _) _ h Hq1 Hval')).
    reflexivity. }
  split.
  { split; [exact Hq1 |]. split; [exact Hq2 |]. split; [exact Hin |].
    split; [constructor |]. split; [exact Hval' |].
    intros j. cbn [fst snd set_selectedParticles selectedParticles selectionMeshes
                   set_selectionMeshes].
    rewrite (Hnone j). split.
    - intros [x Hx]. discriminate.
    - intros [H _]. apply elem_of_nil in H. destruct H. }
  split; [repeat split |]. split; [reflexivity |]. split; [exact Hnone |].
  split; [reflexivity |]. split; [reflexivity |].
  intros floor _ _. unfold meshes_above. cbn [snd selectionMeshes set_selectionMeshes].
  split.
  - intros j l Hj. rewrite (Hnone j) in Hj. discriminate.
  - intros j1 j2 l Hj. rewrite (Hnone j1) in Hj. discriminate.
Qed.

Lemma handleClick_returns (picked : option Particle) (st : state) (h : heap) :
  ready valid st h ->
  clicks_valid valid (Click picked) ->
  exists st' h',
    handleClick picked st h = Ok (st', h')
    /\ ready valid st' h'
    /\ same_scene st st'
    /\ extends h h'
    /\ multiSelectEnabled st'.1 = multiSelectEnabled st.1
    /\ hoveredParticle st'.1 = hoveredParticle st.1
    /\ selectedParticles st'.1
       = match picked with
         | Some p =>
             if multiSelectEnabled st.1 then
               if bool_decide (index p ∈ selectedParticles st.1)
               then Set_delete (index p) (selectedParticles st.1)
               else Set_add (index p) (selectedParticles st.1)
             else Set_add (index p) []
         | None => if multiSelectEnabled st.1 then selectedParticles st.1 else []
         end
    /\ forall floor, floor <= length h -> meshes_above floor st.2 h ->
                     meshes_above floor st'.2 h'.
Proof.
  intros Hr Hv. unfold handleClick. destruct picked as [p |].
  - cbn [clicks_valid] in Hv. destruct (multiSelectEnabled st.1) eqn:Em.
    + destruct (bool_decide (index p ∈ selectedParticles st.1)) eqn:Es.
      * destruct (deselectParticle_returns (index p) st h Hr)
          as (st' & Hrun & Hr' & Hsc & Hsel & Hm & Hh & Hms).
        exists st', h. rewrite Hm, Em.
        split; [exact Hrun |]. split; [exact Hr' |]. split; [exact Hsc |].
        split; [apply extends_refl |]. split; [reflexivity |]. split; [exact Hh |].
        split; [exact Hsel | exact Hms].
      * destruct (selectParticle_returns (index p) st h Hr Hv)
          as (st' & h' & Hrun & Hr' & Hsc & Hext & Hsel & Hm & Hh & Hms).
        exists st', h'. rewrite Hm, Em.
        split; [exact Hrun |]. split; [exact Hr' |]. split; [exact Hsc |].
        split; [exact Hext |]. split; [reflexivity |]. split; [exact Hh |].
        split; [exact Hsel | exact Hms].
    + destruct (clearSelection_returns st h Hr)
        as (st1 & Hrun1 & Hr1 & Hsc1 & Hsel1 & _ & Hm1 & Hh1 & Hms1).
      destruct (selectParticle_returns (index p) st1 h Hr1 Hv)
        as (st' & h' & Hrun & Hr' & Hsc & Hext & Hsel & Hm & Hh & Hms).
      exists st', h'. rewrite (bind_returns _ _ _ _ _ Hrun1).
      split; [exact Hrun |]. split; [exact Hr' |].
      split; [exact (same_scene_trans _ _ _ Hsc1 Hsc) |]. split; [exact Hext |].
      split; [congruence |]. split; [congruence |].
      split; [rewrite Hsel, Hsel1; reflexivity |].
      intros floor Hf H. apply (Hms floor Hf). exact (Hms1 floor Hf H).
  - destruct (multiSelectEnabled st.1) eqn:Em; cbn [negb].
    + exists st, h. split; [reflexivity |]. split; [exact Hr |].
      split; [apply same_scene_refl |]. split; [apply extends_refl |]. auto.
    + destruct (clearSelection_returns st h Hr)
        as (st1 & Hrun1 & Hr1 & Hsc1 & Hsel1 & _ & Hm1 & Hh1 & Hms1).
      exists st1, h. split; [exact Hrun1 |]. split; [exact Hr1 |].
      split; [exact Hsc1 |]. split; [apply extends_refl |].
      split; [congruence |]. split; [congruence |]. split; [exact Hsel1 | exact Hms1].
Qed.

Lemma ready_flags (m m' : InteractionManager) (r : DNARenderer) (h : heap) :
  selectedParticles m' = selectedParticles m ->
  onSelectionChanged m' = onSelectionChanged m ->
  onHoverChanged m' = onHoverChanged m ->
  ready valid (m, r) h -> ready valid (m', r) h.
Proof.
  intros H1 H2 H3 (Hq1 & Hq2 & Hin & Hnd & Hval & Hhl).
  unfold ready, highlights_selected in *.
  cbn [fst snd] in *. rewrite H1, H2, H3.
  split; [exact Hq1 |]. split; [exact Hq2 |]. split; [exact Hin |].
  split; [exact Hnd |]. split; [exact Hval | exact Hhl].
Qed.

Lemma handleMouseMove_returns (picked : option Particle) (st : state) (h : heap) :
  ready valid st h ->
  exists st',
    handleMouseMove picked st h = Ok (st', h)
    /\ ready valid st' h
    /\ same_scene st st'
    /\ selectedParticles st'.1 = selectedParticles st.1
    /\ selectionMeshes st'.2 = selectionMeshes st.2
    /\ multiSelectEnabled st'.1 = multiSelectEnabled st.1
    /\ hoveredParticle st'.1 = option_map index picked.
Proof.
  destruct st as [m r]. intros Hr. pose proof Hr as (_ & Hq2 & _).
  cbn [fst snd] in *. unfold handleMouseMove. cbn [fst snd].
  destruct picked as [p |].
  - destruct (bool_decide (hoveredParticle m = Some (index p))) eqn:E.
    + apply bool_decide_eq_true in E. exists (m, r).
      split; [reflexivity |]. split; [exact Hr |]. split; [apply same_scene_refl |].
      split; [reflexivity |]. split; [reflexivity |]. split; [reflexivity | exact E].
    + exists (set_hoveredParticle m (Some (index p)), r).
      rewrite (bind_returns _ _ _ _ _
                 (hover_changed_quiet (set_hoveredParticle m _) _ h Hq2)).
      split; [reflexivity |].
      split; [apply (ready_flags m); [reflexivity | reflexivity | reflexivity | exact Hr] |].
      repeat split.
  - destruct (hoveredParticle m) as [i |] eqn:E.
    + exists (set_hoveredParticle m None, r).
      rewrite (bind_returns _ _ _ _ _
                 (hover_changed_quiet (set_hoveredParticle m _) _ h Hq2)).
      split; [reflexivity |].
      split; [apply (ready_flags m); [reflexivity | reflexivity | reflexivity | exact Hr] |].
      repeat split.
    + exists (m, r).
      split; [reflexivity |]. split; [exact Hr |]. split; [apply same_scene_refl |].
      split; [reflexivity |]. split; [reflexivity |]. split; [reflexivity | exact E].
Qed.

(** Every listener returns in a ready state, and selects nothing but the
    particle under the pointer. *)
Lemma dispatch_returns (e : event) (st : state) (h : heap) :
  ready valid st h ->
  clicks_valid valid e ->
  exists st' h',
    dispatch e st h = Ok (st', h')
    /\ ready valid st' h'
    /\ same_scene st st'
    /\ extends h h'
    /\ (forall i, i ∈ selectedParticles st'.1 ->
                  i ∈ selectedParticles st.1
                  \/ exists p, picked_of e = Some p /\ i = index p)
    /\ forall floor, floor <= length h -> meshes_above floor st.2 h ->
                     meshes_above floor st'.2 h'.
Proof.
  intros Hr Hv. destruct e as [picked | picked | ctrlKey metaKey key | ctrlKey metaKey];
    cbn [dispatch picked_of].
  - destruct (handleClick_returns picked st h Hr Hv)
      as (st' & h' & Hrun & Hr' & Hsc & Hext & _ & _ & Hsel & Hms).
    exists st', h'. split; [exact Hrun |]. split; [exact Hr' |]. split; [exact Hsc |].
    split; [exact Hext |]. split; [| exact Hms].
    intros i Hi. rewrite Hsel in Hi. destruct picked as [p |].
    + destruct (multiSelectEnabled st.1).
      * destruct (bool_decide (index p ∈ selectedParticles st.1)).
        -- apply Set_delete_elem in Hi. left. tauto.
        -- apply Set_add_elem in Hi. destruct Hi as [-> | Hi]; [right; eauto | left; exact Hi].
      * apply Set_add_elem in Hi. destruct Hi as [-> | Hi]; [right; eauto |].
        apply elem_of_nil in Hi. destruct Hi.
    + destruct (multiSelectEnabled st.1); [left; exact Hi |].
      apply elem_of_nil in Hi. destruct Hi.
  - destruct (handleMouseMove_returns picked st h Hr)
      as (st' & Hrun & Hr' & Hsc & Hsel & Hmesh & _).
    exists st', h. split; [exact Hrun |]. split; [exact Hr' |]. split; [exact Hsc |].
    split; [apply extends_refl |].
    split; [intros i Hi; left; rewrite <- Hsel; exact Hi |].
    intros floor _ H. unfold meshes_above in *. rewrite Hmesh. exact H.
  - set (st1 := if ctrlKey || metaKey then (set_multiSelectEnabled st.1 true, st.2) else st).
    assert (Hr1 : ready valid st1 h).
    { unfold st1. destruct (ctrlKey || metaKey); [| exact Hr].
      destruct st as [m r]. apply (ready_flags m); [reflexivity .. | exact Hr]. }
    assert (Hsc1 : same_scene st st1).
    { unfold st1. destruct (ctrlKey || metaKey); repeat split. }
    assert (Hsel1 : selectedParticles st1.1 = selectedParticles st.1).
    { unfold st1. destruct (ctrlKey || metaKey); reflexivity. }
    assert (Hmesh1 : selectionMeshes st1.2 = selectionMeshes st.2).
    { unfold st1. destruct (ctrlKey || metaKey); reflexivity. }
    destruct (string_eqb key (js "Escape")).
    + destruct (clearSelection_returns st1 h Hr1)
        as (st' & Hrun & Hr' & Hsc & Hsel & _ & _ & _ & Hms).
      exists st', h. split; [exact Hrun |]. split; [exact Hr' |].
      split; [exact (same_scene_trans _ _ _ Hsc1 Hsc) |]. split; [apply extends_refl |].
      split; [intros i Hi; rewrite Hsel in Hi; apply elem_of_nil in Hi; destruct Hi |].
      intros floor Hf H. apply (Hms floor Hf). unfold meshes_above in *.
      rewrite Hmesh1. exact H.
    + exists st1, h. split; [reflexivity |]. split; [exact Hr1 |].
      split; [exact Hsc1 |]. split; [apply extends_refl |].
      split; [intros i Hi; left; rewrite <- Hsel1; exact Hi |].
      intros floor _ H. unfold meshes_above in *. rewrite Hmesh1. exact H.
  - set (st1 := if negb ctrlKey && negb metaKey
                then (set_multiSelectEnabled st.1 false, st.2) else st).
    assert (Hr1 : ready valid st1 h).
    { unfold st1. destruct (negb ctrlKey && negb metaKey); [| exact Hr].
      destruct st as [m r]. apply (ready_flags m); [reflexivity .. | exact Hr]. }
    exists st1, h. split; [reflexivity |]. split; [exact Hr1 |].
    split; [unfold st1; destruct (negb ctrlKey && negb metaKey); repeat split |].
    split; [apply extends_refl |].
    split.
    + intros i Hi. left. unfold st1 in Hi.
      destruct (negb ctrlKey && negb metaKey); exact Hi.
    + intros floor _ H. unfold st1. destruct (negb ctrlKey && negb metaKey); exact H.
Qed.

Lemma events_return (es : list event) :
  forall (st : state) (h : heap),
    ready valid st h ->
    Forall (clicks_valid valid) es ->
    exists st' h',
      forEach dispatch es st h = Ok (st', h')
      /\ ready valid st' h'
      /\ same_scene st st'
      /\ extends h h'
      /\ ((forall i, i ∈ selectedParticles st.1 -> has_instance st.2 i) ->
          Forall (picks_instance st.2) es ->
          forall i, i ∈ selectedParticles st'.1 -> has_instance st'.2 i)
      /\ forall floor, floor <= length h -> meshes_above floor st.2 h ->
                       meshes_above floor st'.2 h'.
Proof.
  induction es as [| e es IH]; intros st h Hr Hvs.
  - exists st, h. split; [reflexivity |]. split; [exact Hr |].
    split; [apply same_scene_refl |]. split; [apply extends_refl |]. auto.
  - apply Forall_cons in Hvs. destruct Hvs as [Hv Hvs].
    destruct (dispatch_returns e st h Hr Hv)
      as (st1 & h1 & Hrun1 & Hr1 & Hsc1 & Hext1 & Hsel1 & Hms1).
    destruct (IH st1 h1 Hr1 Hvs) as (st' & h' & Hrun & Hr' & Hsc & Hext & Hshown & Hms).
    exists st', h'. cbn [forEach]. rewrite (bind_returns _ _ _ _ _ Hrun1).
    split; [exact Hrun |]. split; [exact Hr' |].
    split; [exact (same_scene_trans _ _ _ Hsc1 Hsc) |].
    split; [exact (extends_trans _ _ _ Hext1 Hext) |].
    split; [| intros floor Hf H; apply (Hms floor);
              [apply extends_length in Hext1; lia | exact (Hms1 floor Hf H)]].
    intros Hall Hpicks. apply Forall_cons in Hpicks. destruct Hpicks as [Hp Hpicks].
    pose proof Hsc1 as (_ & Hinst1 & _).
    apply Hshown.
    + intros i Hi. apply (has_instance_ext st.2 st1.2 i Hinst1).
      destruct (Hsel1 i Hi) as [H | (p & Hpk & ->)]; [apply Hall; exact H | apply Hp; exact Hpk].
    + apply (Forall_impl _ _ _ Hpicks). intros e' He' p Hp'.
      apply (has_instance_ext st.2 st1.2 _ Hinst1). apply He'. exact Hp'.
Qed.

(** X14. From a ready state (a selection callback that returns on valid
    indices, instances in the store, a valid selection, and as highlights
    exactly the selected particles that have an instance) every sequence of
    clicks on valid particles, pointer moves and key events returns in a
    ready state: no listener throws, the selection keeps no duplicate and
    the highlights stay the selected particles that have an instance. The
    scene and the objects of the store are left as they were. When the
    pointer only picks particles shown by instances, the highlighted
    particles are exactly the selected ones. *)
Theorem events_keep_selection_highlighted (es : list event) (st : state) (h : heap) :
  ready valid st h ->
  Forall (clicks_valid valid) es ->
  exists st' h',
    forEach dispatch es st h = Ok (st', h')
    /\ ready valid st' h'
    /\ same_scene st st'
    /\ extends h h'
    /\ ((forall i, i ∈ selectedParticles st.1 -> has_instance st.2 i) ->
        Forall (picks_instance st.2) es ->
        forall i, is_Some (selectionMeshes st'.2 !! i) <-> i ∈ selectedParticles st'.1).
Proof.
  intros Hr Hvs.
  destruct (events_return es st h Hr Hvs)
    as (st' & h' & Hrun & Hr' & Hsc & Hext & Hshown & _).
  exists st', h'. split; [exact Hrun |]. split; [exact Hr' |]. split; [exact Hsc |].
  split; [exact Hext |].
  intros Hall Hpicks i. pose proof Hr' as (_ & _ & _ & _ & _ & Hhl).
  rewrite (Hhl i). split; [tauto |]. intros Hi. split; [exact Hi |].
  apply Hshown; assumption.
Qed.

(** X15. A click without the control key leaves exactly the particle under
    the pointer selected and highlighted, whatever was selected before; a
    click on nothing leaves no particle selected and no highlight. *)
Theorem plain_click_selects_one (picked : option Particle) (st : state) (h : heap) :
  ready valid st h ->
  clicks_valid valid (Click picked) ->
  multiSelectEnabled st.1 = false ->
  picks_instance st.2 (Click picked) ->
  exists st' h',
    handleClick picked st h = Ok (st', h')
    /\ selectedParticles st'.1 = match picked with
                                 | Some p => [index p]
                                 | None => []
                                 end
    /\ forall i, is_Some (selectionMeshes st'.2 !! i) <-> i ∈ selectedParticles st'.1.
Proof.
  intros Hr Hv Hm Hpick.
  destruct (handleClick_returns picked st h Hr Hv)
    as (st' & h' & Hrun & Hr' & Hsc & _ & _ & _ & Hsel & _).
  rewrite Hm in Hsel.
  assert (Hsel' : selectedParticles st'.1 = match picked with
                                            | Some p => [index p]
                                            | None => []
                                            end).
  { rewrite Hsel. destruct picked; reflexivity. }
  exists st', h'. split; [exact Hrun |]. split; [exact Hsel' |].
  intros i. pose proof Hr' as (_ & _ & _ & _ & _ & Hhl). rewrite (Hhl i).
  split; [tauto |]. intros Hi. split; [exact Hi |].
  pose proof Hsc as (_ & Hinst & _). apply (has_instance_ext st.2 st'.2 i Hinst).
  rewrite Hsel' in Hi. destruct picked as [p |].
  - apply list_elem_of_singleton in Hi. subst i. apply Hpick. reflexivity.
  - apply elem_of_nil in Hi. destruct Hi.
Qed.

Lemma Set_delete_added (i : nat) (s : list nat) : i ∉ s -> Set_delete i (s ++ [i]) = s.
Proof.
  intros Hi. unfold Set_delete. rewrite List.filter_app. simpl.
  rewrite Nat.eqb_refl. simpl. rewrite app_nil_r. apply (Set_delete_absent i s Hi).
Qed.

(** X16. A click with the control key toggles the particle under the
    pointer and nothing else; a second such click on the same particle
    gives back the selection (up to the order of the set) and the
    highlights. *)
Theorem ctrl_click_toggles (p : Particle) (st : state) (h : heap) :
  ready valid st h ->
  valid (index p) ->
  multiSelectEnabled st.1 = true ->
  exists st1 h1 st2 h2,
    handleClick (Some p) st h = Ok (st1, h1)
    /\ handleClick (Some p) st1 h1 = Ok (st2, h2)
    /\ (index p ∈ selectedParticles st1.1 <-> index p ∉ selectedParticles st.1)
    /\ (forall i, i <> index p ->
                  (i ∈ selectedParticles st1.1 <-> i ∈ selectedParticles st.1))
    /\ selectedParticles st2.1 ≡ₚ selectedParticles st.1
    /\ forall i, is_Some (selectionMeshes st2.2 !! i) <-> is_Some (selectionMeshes st.2 !! i).
Proof.
  intros Hr Hv Hm.
  destruct (handleClick_returns (Some p) st h Hr Hv)
    as (st1 & h1 & Hrun1 & Hr1 & Hsc1 & _ & Hm1 & _ & Hsel1 & _).
  destruct (handleClick_returns (Some p) st1 h1 Hr1 Hv)
    as (st2 & h2 & Hrun2 & Hr2 & Hsc2 & _ & _ & _ & Hsel2 & _).
  rewrite Hm1, Hm in Hsel2. rewrite Hm in Hsel1.
  exists st1, h1, st2, h2. split; [exact Hrun1 |]. split; [exact Hrun2 |].
  pose proof Hr as (_ & _ & _ & Hnd & _ & Hhl).
  pose proof Hr2 as (_ & _ & _ & Hnd2 & _ & Hhl2).
  assert (Hmem : forall i, i ∈ selectedParticles st2.1 <-> i ∈ selectedParticles st.1).
  { intros i. rewrite Hsel2, Hsel1.
    destruct (bool_decide (index p ∈ selectedParticles st.1)) eqn:E.
    - apply bool_decide_eq_true in E.
      rewrite bool_decide_eq_false_2 by (rewrite Set_delete_elem; tauto).
      rewrite Set_add_elem, Set_delete_elem.
      destruct (decide (i = index p)) as [-> | Hne]; tauto.
    - apply bool_decide_eq_false in E.
      rewrite bool_decide_eq_true_2 by (rewrite Set_add_elem; tauto).
      rewrite Set_delete_elem, Set_add_elem.
      destruct (decide (i = index p)) as [-> | Hne]; tauto. }
  split; [| split; [| split]].
  - rewrite Hsel1. destruct (bool_decide (index p ∈ selectedParticles st.1)) eqn:E.
    + apply bool_decide_eq_true in E. rewrite Set_delete_elem. tauto.
    + apply bool_decide_eq_false in E. rewrite Set_add_elem. tauto.
  - intros i Hne. rewrite Hsel1.
    destruct (bool_decide (index p ∈ selectedParticles st.1)).
    + rewrite Set_delete_elem. tauto.
    + rewrite Set_add_elem. tauto.
  - apply NoDup_Permutation; assumption.
  - intros i. rewrite (Hhl2 i), (Hhl i), (Hmem i).
    pose proof (same_scene_trans _ _ _ Hsc1 Hsc2) as (_ & Hinst & _).
    rewrite (has_instance_ext st.2 st2.2 i Hinst). reflexivity.
Qed.

Lemma forEach_select (s : jsint) (ps : list Particle) :
  forall (st : state) (h : heap),
    ready valid st h ->
    (forall p, In p ps -> valid (index p)) ->
    exists st' h',
      forEach (fun particle st =>
                 if int_eqb (strand particle) s
                 then selectParticle (index particle) st
                 else mret st) ps st h = Ok (st', h')
      /\ ready valid st' h'
      /\ same_scene st st'
      /\ extends h h'
      /\ forall i, i ∈ selectedParticles st'.1
                   <-> i ∈ selectedParticles st.1
                       \/ exists p, In p ps /\ index p = i /\ int_eqb (strand p) s = true.
Proof.
  induction ps as [| p ps IH]; intros st h Hr Hv.
  - exists st, h. split; [reflexivity |]. split; [exact Hr |].
    split; [apply same_scene_refl |]. split; [apply extends_refl |].
    intros i. split; [auto |]. intros [H | (p & [] & _)]. exact H.
  - assert (Hv' : forall q, In q ps -> valid (index q)) by (intros q Hq; apply Hv; right; exact Hq).
    cbn [forEach]. destruct (int_eqb (strand p) s) eqn:E.
    + destruct (selectParticle_returns (index p) st h Hr (Hv p (or_introl eq_refl)))
        as (st1 & h1 & Hrun1 & Hr1 & Hsc1 & Hext1 & Hsel1 & _).
      destruct (IH st1 h1 Hr1 Hv') as (st' & h' & Hrun & Hr' & Hsc & Hext & Hmem).
      exists st', h'. rewrite (bind_returns _ _ _ _ _ Hrun1).
      split; [exact Hrun |]. split; [exact Hr' |].
      split; [exact (same_scene_trans _ _ _ Hsc1 Hsc) |].
      split; [exact (extends_trans _ _ _ Hext1 Hext) |].
      intros i. rewrite (Hmem i), Hsel1, Set_add_elem. split.
      * intros [[-> | H] | (q & Hq & Hi & Hs)]; [right; exists p; simpl; auto | auto |].
        right. exists q. simpl. auto.
      * intros [H | (q & [<- | Hq] & Hi & Hs)]; [auto | auto |].
        right. exists q. auto.
    + destruct (IH st h Hr Hv') as (st' & h' & Hrun & Hr' & Hsc & Hext & Hmem).
      exists st', h'. split; [exact Hrun |]. split; [exact Hr' |].
      split; [exact Hsc |]. split; [exact Hext |].
      intros i. rewrite (Hmem i). split.
      * intros [H | (q & Hq & Hi & Hs)]; [auto |]. right. exists q. simpl. auto.
      * intros [H | (q & [<- | Hq] & Hi & Hs)]; [auto | congruence |].
        right. exists q. auto.
Qed.

(** X17. [selectByStrand] replaces the selection by the particles of the
    graph whose strand is the given integer, and highlights those that have
    an instance. A strand that is NaN selects nothing, and with no data
    loaded nothing changes: the old selection stays. *)
Theorem selectByStrand_selects_the_strand (strandId : jsint) (st : state) (h : heap) :
  ready valid st h ->
  (forall d p, data st.2 = Some d -> In p (particles d) -> valid (index p)) ->
  exists st' h',
    selectByStrand strandId st h = Ok (st', h')
    /\ ready valid st' h'
    /\ (data st.2 = None -> st' = st /\ h' = h)
    /\ (forall d, data st.2 = Some d ->
          forall i, i ∈ selectedParticles st'.1
                    <-> exists p z, In p (particles d) /\ index p = i
                                    /\ strand p = Int z /\ strandId = Int z)
    /\ (strandId = IntNaN -> is_Some (data st.2) -> selectedParticles st'.1 = []).
Proof.
  intros Hr Hv. unfold selectByStrand. destruct (data st.2) as [d |] eqn:Hd.
  - destruct (clearSelection_returns st h Hr) as (st1 & Hrun1 & Hr1 & Hsc1 & Hsel1 & _).
    destruct (forEach_select strandId (particles d) st1 h Hr1 (fun p => Hv d p eq_refl))
      as (st' & h' & Hrun & Hr' & Hsc & Hext & Hmem).
    assert (Hsel : forall i, i ∈ selectedParticles st'.1
                             <-> exists p z, In p (particles d) /\ index p = i
                                             /\ strand p = Int z /\ strandId = Int z).
    { intros i. rewrite (Hmem i), Hsel1. split.
      - intros [H | (p & Hp & Hi & Hs)]; [apply elem_of_nil in H; destruct H |].
        apply int_eqb_true in Hs. destruct Hs as (z & Hz1 & Hz2). exists p, z. auto.
      - intros (p & z & Hp & Hi & Hz1 & Hz2). right. exists p.
        split; [exact Hp |]. split; [exact Hi |]. apply int_eqb_true. exists z. auto. }
    exists st', h'. rewrite (bind_returns _ _ _ _ _ Hrun1).
    split; [exact Hrun |]. split; [exact Hr' |]. split; [discriminate |].
    split; [intros d' [= <-]; exact Hsel |].
    intros -> _. destruct (selectedParticles st'.1) as [| i l] eqn:El; [reflexivity |].
    exfalso. destruct (proj1 (Hsel i)) as (p & z & _ & _ & _ & Hz); [| discriminate].
    left.
  - exists st, h. split; [reflexivity |]. split; [exact Hr |]. split; [auto |].
    split; [discriminate |]. intros _ [d Hd']. discriminate.
Qed.

End SelectionFacts.

Section SelectionExamples.
Import Renderer Interaction.
Local Open Scope nat_scope.

(** A new manager, with or without the control key held, over a renderer
    that shows no highlight is ready. *)
Lemma new_manager_ready (r : DNARenderer) (h : heap) (multi : bool) :
  instances_in_store r h ->
  selectionMeshes r = ∅ ->
  ready (fun _ => True) (set_multiSelectEnabled constructor multi, r) h.
Proof.
  intros Hin Hsel.
  split; [intros f Hf; discriminate |]. split; [intros f Hf; discriminate |].
  split; [exact Hin |]. split; [constructor |]. split; [auto |].
  intros i. cbn [fst snd selectedParticles set_multiSelectEnabled constructor].
  rewrite Hsel, lookup_empty. split.
  - intros [x Hx]. discriminate.
  - intros [H _]. apply elem_of_nil in H. destruct H.
Qed.

Lemma one_particle_scene_ready (multi : bool) :
  ready (fun _ => True)
        (set_multiSelectEnabled constructor multi, Examples.one_particle_scene.1)
        Examples.one_particle_scene.2.
Proof.
  apply new_manager_ready; [| reflexivity].
  intros inst [<- | []]. vm_compute. lia.
Qed.

Lemma the_particle_has_instance :
  has_instance Examples.one_particle_scene.1 (index Examples.the_particle).
Proof. eexists. split; [left; reflexivity | reflexivity]. Qed.

End SelectionExamples.

Lemma events_keep_selection_highlighted_witness :
  exists st' h',
    Interaction.forEach Interaction.dispatch
      [Interaction.Click (Some Examples.the_particle);
       Interaction.KeyDown true false (js "Control");
       Interaction.Click (Some Examples.the_particle);
       Interaction.MouseMove None;
       Interaction.KeyDown false false (js "Escape")]
      (Interaction.set_multiSelectEnabled Interaction.constructor false,
       Examples.one_particle_scene.1)
      Examples.one_particle_scene.2 = Ok (st', h')
    /\ ready (fun _ => True) st' h'.
Proof.
  destruct (events_keep_selection_highlighted (fun _ => True)
              [Interaction.Click (Some Examples.the_particle);
               Interaction.KeyDown true false (js "Control");
               Interaction.Click (Some Examples.the_particle);
               Interaction.MouseMove None;
               Interaction.KeyDown false false (js "Escape")]
              _ _ (one_particle_scene_ready false))
    as (st' & h' & Hrun & Hr & _).
  - repeat constructor.
  - exists st', h'. split; [exact Hrun | exact Hr].
Defined.

Lemma plain_click_selects_one_witness :
  exists st' h',
    Interaction.handleClick (Some Examples.the_particle)
      (Interaction.set_multiSelectEnabled Interaction.constructor false,
       Examples.one_particle_scene.1)
      Examples.one_particle_scene.2 = Ok (st', h')
    /\ selectedParticles st'.1 = [0%nat]
    /\ forall i, is_Some (selectionMeshes st'.2 !! i) <-> i ∈ selectedParticles st'.1.
Proof.
  apply (plain_click_selects_one (fun _ => True) (Some Examples.the_particle) _ _
           (one_particle_scene_ready false) I eq_refl).
  intros p [= <-]. exact the_particle_has_instance.
Defined.

Lemma ctrl_click_toggles_witness :
  exists st1 h1 st2 h2,
    Interaction.handleClick (Some Examples.the_particle)
      (Interaction.set_multiSelectEnabled Interaction.constructor true,
       Examples.one_particle_scene.1)
      Examples.one_particle_scene.2 = Ok (st1, h1)
    /\ Interaction.handleClick (Some Examples.the_particle) st1 h1 = Ok (st2, h2)
    /\ selectedParticles st2.1 ≡ₚ [].
Proof.
  destruct (ctrl_click_toggles (fun _ => True) Examples.the_particle _ _
              (one_particle_scene_ready true) I eq_refl)
    as (st1 & h1 & st2 & h2 & H1 & H2 & _ & _ & H3 & _).
  exists st1, h1, st2, h2. split; [exact H1 |]. split; [exact H2 | exact H3].
Defined.

Lemma selectByStrand_selects_the_strand_witness :
  exists st' h',
    Interaction.selectByStrand (Int 0)
      (Interaction.set_multiSelectEnabled Interaction.constructor false,
       Examples.one_particle_scene.1)
      Examples.one_particle_scene.2 = Ok (st', h')
    /\ ready (fun _ => True) st' h'.
Proof.
  destruct (selectByStrand_selects_the_strand (fun _ => True) (Int 0) _ _
              (one_particle_scene_ready false))
    as (st' & h' & Hrun & Hr & _).
  - auto.
  - exists st', h'. split; [exact Hrun | exact Hr].
Defined.

(** ** Level of detail *)

Section LevelOfDetail.
Import LODCalculator.

Lemma lt_below (d1 d2 t : number) :
  not_above d1 d2 = true -> lt d2 t = true -> lt d1 t = true.
Proof.
  destruct d1 as [a | | |], d2 as [b | | |], t as [c | | |]; simpl; try discriminate;
    try reflexivity.
  destruct (Qlt_le_dec b a); [discriminate |].
  destruct (Qlt_le_dec b c); [| discriminate].
  destruct (Qlt_le_dec a c); [reflexivity | lra].
Qed.

Lemma subdivisions_of_level (t : Thresholds) (d : number) :
  getSubdivisions (getLODLevel t d)
  = if lt d (high t) then 16
    else if lt d (medium t) then 8
    else if lt d (low t) then 4
    else 2.
Proof.
  unfold getLODLevel.
  destruct (lt d (high t)); [reflexivity |].
  destruct (lt d (medium t)); [reflexivity |].
  destruct (lt d (low t)); reflexivity.
Qed.

(** X18. Whatever the thresholds are (ordered or not, NaN included), a
    particle that is not nearer never gets more subdivisions: for
    distances [d1 <= d2], neither of them NaN, the subdivisions at [d2] are
    at most those at [d1]. A distance that is NaN is [hidden], with 2
    subdivisions, and every distance gets 16, 8, 4 or 2. *)
Theorem lod_never_finer_when_farther (t : Thresholds) (d1 d2 : number) :
  not_above d1 d2 = true ->
  getSubdivisions (getLODLevel t d2) <= getSubdivisions (getLODLevel t d1)
  /\ getLODLevel t NaN = js "hidden"
  /\ In (getSubdivisions (getLODLevel t d1)) [16; 8; 4; 2].
Proof.
  intros Hle. split; [| split].
  - rewrite !subdivisions_of_level.
    pose proof (lt_below d1 d2 (high t) Hle) as Hh.
    pose proof (lt_below d1 d2 (medium t) Hle) as Hm.
    pose proof (lt_below d1 d2 (low t) Hle) as Hl.
    destruct (lt d2 (high t)); [rewrite (Hh eq_refl); lia |].
    destruct (lt d1 (high t)).
    { destruct (lt d2 (medium t)); [lia |]. destruct (lt d2 (low t)); lia. }
    destruct (lt d2 (medium t)); [rewrite (Hm eq_refl); lia |].
    destruct (lt d1 (medium t)).
    { destruct (lt d2 (low t)); lia. }
    destruct (lt d2 (low t)); [rewrite (Hl eq_refl); lia |].
    destruct (lt d1 (low t)); lia.
  - reflexivity.
  - rewrite subdivisions_of_level.
    destruct (lt d1 (high t)); [simpl; auto |].
    destruct (lt d1 (medium t)); [simpl; auto |].
    destruct (lt d1 (low t)); simpl; auto.
Qed.

End LevelOfDetail.

Lemma lod_never_finer_when_farther_witness :
  (LODCalculator.getSubdivisions
     (LODCalculator.getLODLevel LODCalculator.default_thresholds (Fin 60))
   <= LODCalculator.getSubdivisions
        (LODCalculator.getLODLevel LODCalculator.default_thresholds (Fin 30)))
  /\ LODCalculator.getLODLevel LODCalculator.default_thresholds NaN = js "hidden"
  /\ In (LODCalculator.getSubdivisions
           (LODCalculator.getLODLevel LODCalculator.default_thresholds (Fin 30)))
        [16; 8; 4; 2].
Proof.
  exact (lod_never_finer_when_farther LODCalculator.default_thresholds (Fin 30) (Fin 60)
           eq_refl).
Defined.

(** ** Bounding box and centre of mass *)

Section BoundingBoxFacts.
Context {engine : Engine}.
Import VectorUtils.
Local Open Scope nat_scope.

Lemma fold_min2 (values : list number) :
  forallb is_finite values = true ->
  forall a : Q,
    exists m : Q,
      fold_left min2 values (Fin a) = Fin m
      /\ (m = a \/ In (Fin m) values)
      /\ (m <= a)%Q
      /\ forall q, In (Fin q) values -> (m <= q)%Q.
Proof.
  induction values as [| v values IH]; intros Hf a.
  - exists a. split; [reflexivity |]. split; [left; reflexivity |].
    split; [lra |]. intros q [].
  - simpl in Hf. apply andb_true_iff in Hf. destruct Hf as [Hv Hf].
    destruct v as [b | | |]; try discriminate.
    cbn [fold_left]. unfold min2 at 2. unfold lt.
    destruct (Qlt_le_dec b a) as [Hlt | Hge].
    + destruct (IH Hf b) as (m & Hm & Hin & Hle & Hall).
      exists m. split; [exact Hm |].
      split; [right; destruct Hin as [-> | Hin]; [left; reflexivity | right; exact Hin] |].
      split; [lra |].
      intros q [[= <-] | Hq]; [exact Hle | exact (Hall q Hq)].
    + destruct (IH Hf a) as (m & Hm & Hin & Hle & Hall).
      exists m. split; [exact Hm |].
      split; [destruct Hin as [-> | Hin]; [left; reflexivity | right; right; exact Hin] |].
      split; [exact Hle |].
      intros q [[= <-] | Hq]; [lra | exact (Hall q Hq)].
Qed.

Lemma fold_max2 (values : list number) :
  forallb is_finite values = true ->
  forall a : Q,
    exists m : Q,
      fold_left max2 values (Fin a) = Fin m
      /\ (m = a \/ In (Fin m) values)
      /\ (a <= m)%Q
      /\ forall q, In (Fin q) values -> (q <= m)%Q.
Proof.
  induction values as [| v values IH]; intros Hf a.
  - exists a. split; [reflexivity |]. split; [left; reflexivity |].
    split; [lra |]. intros q [].
  - simpl in Hf. apply andb_true_iff in Hf. destruct Hf as [Hv Hf].
    destruct v as [b | | |]; try discriminate.
    cbn [fold_left]. unfold max2 at 2. unfold lt.
    destruct (Qlt_le_dec a b) as [Hlt | Hge].
    + destruct (IH Hf b) as (m & Hm & Hin & Hle & Hall).
      exists m. split; [exact Hm |].
      split; [right; destruct Hin as [-> | Hin]; [left; reflexivity | right; exact Hin] |].
      split; [lra |].
      intros q [[= <-] | Hq]; [exact Hle | exact (Hall q Hq)].
    + destruct (IH Hf a) as (m & Hm & Hin & Hle & Hall).
      exists m. split; [exact Hm |].
      split; [destruct Hin as [-> | Hin]; [left; reflexivity | right; right; exact Hin] |].
      split; [exact Hle |].
      intros q [[= <-] | Hq]; [lra | exact (Hall q Hq)].
Qed.

(** The least of finitely many rationals is one of them. *)
Lemma Math_min_finite (values : list number) :
  values <> [] ->
  forallb is_finite values = true ->
  exists m : Q,
    Math_min values = Fin m /\ In (Fin m) values
    /\ forall q, In (Fin q) values -> (m <= q)%Q.
Proof.
  destruct values as [| v values]; [congruence |]. intros _ Hf.
  simpl in Hf. apply andb_true_iff in Hf. destruct Hf as [Hv Hf].
  destruct v as [b | | |]; try discriminate.
  destruct (fold_min2 values Hf b) as (m & Hm & Hin & Hle & Hall).
  exists m. split; [exact Hm |].
  split; [destruct Hin as [-> | Hin]; [left; reflexivity | right; exact Hin] |].
  intros q [[= <-] | Hq]; [exact Hle | exact (Hall q Hq)].
Qed.

Lemma Math_max_finite (values : list number) :
  values <> [] ->
  forallb is_finite values = true ->
  exists m : Q,
    Math_max values = Fin m /\ In (Fin m) values
    /\ forall q, In (Fin q) values -> (q <= m)%Q.
Proof.
  destruct values as [| v values]; [congruence |]. intros _ Hf.
  simpl in Hf. apply andb_true_iff in Hf. destruct Hf as [Hv Hf].
  destruct v as [b | | |]; try discriminate.
  destruct (fold_max2 values Hf b) as (m & Hm & Hin & Hle & Hall).
  exists m. split; [exact Hm |].
  split; [destruct Hin as [-> | Hin]; [left; reflexivity | right; exact Hin] |].
  intros q [[= <-] | Hq]; [exact Hle | exact (Hall q Hq)].
Qed.

Lemma coordinates_finite (f : V3.t -> number) (positions : list V3.t) :
  (forall v, finite_vector v = true -> is_finite (f v) = true) ->
  all_finite positions = true ->
  forallb is_finite (List.map f positions) = true.
Proof.
  intros Hf Hall. rewrite forallb_forall. intros n Hn.
  apply in_map_iff in Hn. destruct Hn as (v & <- & Hv). apply Hf.
  unfold all_finite in Hall. rewrite forallb_forall in Hall. exact (Hall v Hv).
Qed.

Lemma finite_x (v : V3.t) : finite_vector v = true -> is_finite (V3.x v) = true.
Proof. unfold finite_vector. intros H. repeat (apply andb_true_iff in H; destruct H as [H ?]). exact H. Qed.

Lemma finite_y (v : V3.t) : finite_vector v = true -> is_finite (V3.y v) = true.
Proof. unfold finite_vector. intros H. apply andb_true_iff in H. destruct H as [H _].
  apply andb_true_iff in H. destruct H as [_ H]. exact H. Qed.

Lemma finite_z (v : V3.t) : finite_vector v = true -> is_finite (V3.z v) = true.
Proof. unfold finite_vector. intros H. apply andb_true_iff in H. destruct H as [_ H]. exact H. Qed.

(** The bounds along one coordinate. *)
Lemma coordinate_bounds (f : V3.t -> number) (positions : list V3.t) :
  (forall v, finite_vector v = true -> is_finite (f v) = true) ->
  positions <> [] ->
  all_finite positions = true ->
  exists lo hi : Q,
    Math_min (List.map f positions) = Fin lo
    /\ Math_max (List.map f positions) = Fin hi
    /\ (exists p, In p positions /\ f p = Fin lo)
    /\ (exists p, In p positions /\ f p = Fin hi)
    /\ forall p, In p positions -> between (Fin lo) (Fin hi) (f p).
Proof.
  intros Hf Hne Hall.
  pose proof (coordinates_finite f positions Hf Hall) as Hfin.
  assert (Hne' : List.map f positions <> []) by (destruct positions; [congruence | discriminate]).
  destruct (Math_min_finite _ Hne' Hfin) as (lo & Hlo & Hlo_in & Hlo_all).
  destruct (Math_max_finite _ Hne' Hfin) as (hi & Hhi & Hhi_in & Hhi_all).
  exists lo, hi. split; [exact Hlo |]. split; [exact Hhi |].
  apply in_map_iff in Hlo_in. apply in_map_iff in Hhi_in.
  split; [destruct Hlo_in as (p & Hp & Hin); exists p; auto |].
  split; [destruct Hhi_in as (p & Hp & Hin); exists p; auto |].
  intros p Hp.
  unfold all_finite in Hall. rewrite forallb_forall in Hall.
  pose proof (Hf p (Hall p Hp)) as Hfp.
  destruct (f p) as [c | | |] eqn:E; try discriminate.
  assert (Hc : In (Fin c) (List.map f positions)).
  { apply in_map_iff. exists p. auto. }
  simpl. split; [apply Hlo_all | apply Hhi_all]; exact Hc.
Qed.

(** X19. [calculateBoundingBox] throws a RangeError when there are more
    positions than a call takes arguments. For fewer positions, all of
    them finite, it returns the least box that holds them: every position
    lies in it, and each of its six bounds is the coordinate of one of the
    positions. Without any position the box is the origin. *)
Theorem bounding_box_is_tight (positions : list V3.t) :
  positions <> [] ->
  all_finite positions = true ->
  ((max_arguments < N.of_nat (length positions))%N ->
   calculateBoundingBox positions = Throw RangeError)
  /\ ((N.of_nat (length positions) <= max_arguments)%N ->
      exists b,
        calculateBoundingBox positions = Ok b
        /\ (forall p, In p positions -> in_bounding_box b p)
        /\ (exists p, In p positions /\ V3.x p = V3.x (min b))
        /\ (exists p, In p positions /\ V3.y p = V3.y (min b))
        /\ (exists p, In p positions /\ V3.z p = V3.z (min b))
        /\ (exists p, In p positions /\ V3.x p = V3.x (max b))
        /\ (exists p, In p positions /\ V3.y p = V3.y (max b))
        /\ (exists p, In p positions /\ V3.z p = V3.z (max b)))
  /\ calculateBoundingBox [] = Ok {| min := zero_vector; max := zero_vector |}.
Proof.
  intros Hne Hall.
  split; [exact (proj2 (calculateBoundingBox_cases positions)) |].
  split; [| reflexivity].
  intros Hfits.
  destruct (coordinate_bounds V3.x positions finite_x Hne Hall)
    as (xl & xh & Hxl & Hxh & Hxl_in & Hxh_in & Hx).
  destruct (coordinate_bounds V3.y positions finite_y Hne Hall)
    as (yl & yh & Hyl & Hyh & Hyl_in & Hyh_in & Hy).
  destruct (coordinate_bounds V3.z positions finite_z Hne Hall)
    as (zl & zh & Hzl & Hzh & Hzl_in & Hzh_in & Hz).
  exists {| min := V3.mk (Fin xl) (Fin yl) (Fin zl);
            max := V3.mk (Fin xh) (Fin yh) (Fin zh) |}.
  split.
  { unfold calculateBoundingBox. destruct positions as [| p0 positions]; [congruence |].
    cbn [length Nat.eqb].
    rewrite !spread_fits by (rewrite length_map; exact Hfits).
    rewrite Hxl, Hyl, Hzl, Hxh, Hyh, Hzh. reflexivity. }
  cbn [min max V3.x V3.y V3.z].
  split; [intros p Hp; split; [apply Hx | split; [apply Hy | apply Hz]]; exact Hp |].
  repeat split; assumption.
Qed.

End BoundingBoxFacts.

Section BoundingBoxExamples.
#[local] Existing Instance Examples.engine.

Lemma bounding_box_is_tight_witness :
  exists b,
    VectorUtils.calculateBoundingBox
      [V3.mk (Fin 1) (Fin 5) (Fin 0); V3.mk (Fin 3) (Fin (-2)) (Fin 0)] = Ok b
    /\ forall p, In p [V3.mk (Fin 1) (Fin 5) (Fin 0); V3.mk (Fin 3) (Fin (-2)) (Fin 0)] ->
                 in_bounding_box b p.
Proof.
  destruct (bounding_box_is_tight
              [V3.mk (Fin 1) (Fin 5) (Fin 0); V3.mk (Fin 3) (Fin (-2)) (Fin 0)]
              ltac:(discriminate) eq_refl)
    as (_ & Hfits & _).
  destruct (Hfits ltac:(apply N.leb_le; reflexivity)) as (b & Hb & Hin & _).
  exists b. split; [exact Hb | exact Hin].
Defined.

End BoundingBoxExamples.

Section CentreOfMassFacts.
Import VectorUtils.
Local Open Scope nat_scope.

(** X21. The reset-camera button and [loadData] aim the camera at the same
    point as long as there is a particle; with no particle [loadData] aims
    at the origin and the button at NaN, NaN, NaN. *)
Theorem reset_camera_target_without_particles :
  (forall positions, positions <> [] ->
                     resetCamera_target positions = calculateCenterOfMass positions)
  /\ calculateCenterOfMass [] = zero_vector
  /\ resetCamera_target [] = V3.mk NaN NaN NaN.
Proof.
  split; [| split; reflexivity].
  intros positions Hne. unfold resetCamera_target, calculateCenterOfMass.
  destruct positions; [congruence | reflexivity].
Qed.

End CentreOfMassFacts.

(** ** The selection panel of the application *)

Section SelectionPanelFacts.
Import Renderer Interaction App.
Local Open Scope nat_scope.

Lemma bind_throws {A C} (c : M A) (k : A -> M C) (h : heap) (e : exn) :
  c h = Throw e -> (c ≫= k) h = Throw e.
Proof. intros H. unfold mbind, M_bind. rewrite H. reflexivity. Qed.

Lemma show_particles_returns (l : list (option Particle)) (h : heap) :
  (forall op, In op l -> exists p, op = Some p /\ position p < length h) ->
  exists shown,
    mapM show_particle l h = Ok (shown, h)
    /\ length shown = length l
    /\ forall k p, l !! k = Some (Some p) ->
         exists v, h !! position p = Some v
                   /\ shown !! k = Some (index p, strand p, type p, v).
Proof.
  induction l as [| op l IH]; intros Hl.
  - exists []. split; [reflexivity |]. split; [reflexivity |].
    intros k p Hk. rewrite lookup_nil in Hk. discriminate.
  - destruct (Hl op (or_introl eq_refl)) as (p & -> & Hp).
    destruct (lookup_lt_is_Some_2 h (position p) Hp) as [v Hv].
    destruct (IH (fun op' H => Hl op' (or_intror H))) as (shown & Hrun & Hlen & Hshown).
    exists ((index p, strand p, type p, v) :: shown).
    split.
    { rewrite mapM_cons_M. unfold show_particle at 1. cbn [defined].
      rewrite (bind_returns (lift (Ok p)) _ h h p eq_refl).
      rewrite (bind_returns _ _ _ _ _ (read_returns _ _ _ Hv)).
      unfold mret at 1, M_ret at 1. rewrite Hrun. reflexivity. }
    split; [simpl; rewrite Hlen; reflexivity |].
    intros k q Hk. destruct k as [| k].
    + injection Hk as <-. exists v. split; [exact Hv | reflexivity].
    + exact (Hshown k q Hk).
Qed.

Lemma show_particles_throws (l : list (option Particle)) (h : heap) :
  (forall p, In (Some p) l -> position p < length h) ->
  In None l ->
  mapM show_particle l h = Throw TypeError.
Proof.
  induction l as [| op l IH]; intros Hl Hn; [destruct Hn |].
  rewrite mapM_cons_M. destruct op as [p |].
  - destruct (lookup_lt_is_Some_2 h (position p) (Hl p (or_introl eq_refl))) as [v Hv].
    unfold show_particle at 1. cbn [defined].
    rewrite (bind_returns (lift (Ok p)) _ h h p eq_refl).
    rewrite (bind_returns _ _ _ _ _ (read_returns _ _ _ Hv)).
    unfold mret at 1, M_ret at 1.
    rewrite IH; [reflexivity | intros q Hq; apply Hl; right; exact Hq |].
    destruct Hn as [Hn | Hn]; [discriminate | exact Hn].
  - reflexivity.
Qed.

Lemma stale_false (g : StructureGraph) (sel : list nat) :
  stale g sel = false ->
  forall i, In i (take 5 sel) -> i < length (particles g).
Proof.
  unfold stale. intros H i Hi.
  destruct (Nat.leb_spec (length (particles g)) i) as [Hle | Hlt]; [| exact Hlt].
  exfalso. assert (Ht : existsb (fun i => length (particles g) <=? i) (take 5 sel) = true).
  { apply existsb_exists. exists i. split; [exact Hi | apply Nat.leb_le; exact Hle]. }
  congruence.
Qed.

Lemma panel_particles (g : StructureGraph) (sel : list nat) :
  take 5 (List.map (fun idx => particles g !! idx) sel)
  = List.map (fun idx => particles g !! idx) (take 5 sel).
Proof.
  change (take 5 ((fun idx => particles g !! idx) <$> sel)
          = (fun idx => particles g !! idx) <$> take 5 sel).
  symmetry. apply fmap_take.
Qed.

(** What [updateSelectionInfo] does in a store that holds the graph. *)
Lemma updateSelectionInfo_returns (g : StructureGraph) (h : heap) (sel : list nat) :
  (forall p, In p (particles g) -> position p < length h) ->
  sel <> [] ->
  (stale g sel = true -> updateSelectionInfo (Some g) sel h = Throw TypeError)
  /\ (stale g sel = false ->
      exists shown,
        updateSelectionInfo (Some g) sel h
        = Ok (Selected (length sel) shown
                (if 5 <? length sel then Some (length sel - 5) else None), h)
        /\ length shown = Nat.min 5 (length sel)
        /\ forall k i, k < 5 -> sel !! k = Some i ->
             exists p v, particles g !! i = Some p
                         /\ h !! position p = Some v
                         /\ shown !! k = Some (index p, strand p, type p, v)).
Proof.
  intros Hg Hne.
  assert (Hlen : (length sel =? 0) = false).
  { apply Nat.eqb_neq. destruct sel; [congruence | discriminate]. }
  assert (Hsome : forall p, In (Some p) (take 5 (List.map (fun idx => particles g !! idx) sel))
                            -> position p < length h).
  { intros p Hp. rewrite panel_particles in Hp. apply in_map_iff in Hp.
    destruct Hp as (i & Hi & _). apply Hg. exact (in_lookup _ _ _ Hi). }
  split.
  - intros Hst. unfold updateSelectionInfo. rewrite Hlen. cbn [defined].
    rewrite (bind_returns (lift (Ok g)) _ h h g eq_refl). cbv zeta.
    apply bind_throws. apply (show_particles_throws _ h Hsome).
    rewrite panel_particles. apply in_map_iff.
    unfold stale in Hst. apply existsb_exists in Hst. destruct Hst as (i & Hi & Hle).
    exists i. split; [| exact Hi]. apply lookup_ge_None_2. apply Nat.leb_le. exact Hle.
  - intros Hst. pose proof (stale_false g sel Hst) as Hin.
    destruct (show_particles_returns (take 5 (List.map (fun idx => particles g !! idx) sel)) h)
      as (shown & Hrun & Hshown_len & Hshown).
    { intros op Hop. rewrite panel_particles in Hop. apply in_map_iff in Hop.
      destruct Hop as (i & <- & Hi).
      destruct (lookup_lt_is_Some_2 (particles g) i (Hin i Hi)) as [p Hp].
      exists p. split; [exact Hp |]. apply Hg. exact (in_lookup _ _ _ Hp). }
    exists shown. split.
    { unfold updateSelectionInfo. rewrite Hlen. cbn [defined].
      rewrite (bind_returns (lift (Ok g)) _ h h g eq_refl). cbv zeta.
      rewrite (bind_returns _ _ _ _ _ Hrun). rewrite length_map. reflexivity. }
    split; [rewrite Hshown_len, length_take, length_map; reflexivity |].
    intros k i Hk Hi.
    assert (Hi5 : In i (take 5 sel)).
    { apply list_elem_of_In, list_elem_of_lookup. exists k.
      rewrite lookup_take_lt by exact Hk. exact Hi. }
    destruct (lookup_lt_is_Some_2 (particles g) i (Hin i Hi5)) as [p Hp].
    destruct (Hshown k p) as (v & Hv & Hs).
    { rewrite panel_particles.
      change (((fun idx => particles g !! idx) <$> take 5 sel) !! k = Some (Some p)).
      rewrite list_lookup_fmap, lookup_take_lt by exact Hk. rewrite Hi. simpl.
      rewrite Hp. reflexivity. }
    exists p, v. auto.
Qed.

(** X22. The selection panel: with nothing selected the panel says so, even
    before any data is loaded; with a selection and no data the update
    throws a [TypeError]; otherwise it throws exactly when one of the first
    five selected indices names no particle of the graph, an index that
    names none further down the selection going unnoticed. When it returns,
    the heading counts the whole selection, the first five particles are
    shown in the order of the selection with the position they have in the
    store, and the last line counts the others. *)
Theorem selection_panel_throws_exactly (g : StructureGraph) (h : heap) (sel : list nat) :
  graph_in_store g h = true ->
  sel <> [] ->
  (stale g sel = true -> updateSelectionInfo (Some g) sel h = Throw TypeError)
  /\ (stale g sel = false ->
      exists shown,
        updateSelectionInfo (Some g) sel h
        = Ok (Selected (length sel) shown
                (if 5 <? length sel then Some (length sel - 5) else None), h)
        /\ length shown = Nat.min 5 (length sel)
        /\ forall k i, k < 5 -> sel !! k = Some i ->
             exists p v, particles g !! i = Some p
                         /\ h !! position p = Some v
                         /\ shown !! k = Some (index p, strand p, type p, v))
  /\ updateSelectionInfo None sel h = Throw TypeError
  /\ forall combinedData, updateSelectionInfo combinedData [] h = Ok (NoSelection, h).
Proof.
  intros Hg Hne.
  destruct (updateSelectionInfo_returns g h sel (graph_positions_in_store g h Hg) Hne)
    as [Hthrow Hok].
  split; [exact Hthrow |]. split; [exact Hok |]. split; [| reflexivity].
  unfold updateSelectionInfo.
  destruct sel; [congruence | reflexivity].
Qed.

End SelectionPanelFacts.

Lemma selection_panel_throws_exactly_witness :
  App.updateSelectionInfo (Some Examples.one_particle_graph) [0%nat; 3%nat]
    Examples.one_particle_store = Throw TypeError
  /\ exists shown,
       App.updateSelectionInfo (Some Examples.one_particle_graph) [0%nat]
         Examples.one_particle_store
       = Ok (App.Selected 1 shown None, Examples.one_particle_store).
Proof.
  split.
  - destruct (selection_panel_throws_exactly Examples.one_particle_graph
                Examples.one_particle_store [0%nat; 3%nat] eq_refl)
      as (Hthrow & _); [discriminate |].
    exact (Hthrow eq_refl).
  - destruct (selection_panel_throws_exactly Examples.one_particle_graph
                Examples.one_particle_store [0%nat] eq_refl)
      as (_ & Hok & _); [discriminate |].
    destruct (Hok eq_refl) as (shown & Hrun & _). exists shown. exact Hrun.
Defined.

(** ** The application and its interaction manager *)

Section ApplicationFacts.
Context {engine : Engine}.
Import Renderer Interaction App.
Local Open Scope nat_scope.

Lemma not_stale (g : StructureGraph) (l : list nat) :
  (forall i, i ∈ l -> i < length (particles g)) -> stale g l = false.
Proof.
  intros Hl. unfold stale. destruct (existsb _ (take 5 l)) eqn:E; [| reflexivity].
  apply existsb_exists in E. destruct E as (i & Hi & Hle). apply Nat.leb_le in Hle.
  assert (i ∈ l).
  { apply list_elem_of_In in Hi. apply elem_of_take in Hi.
    destruct Hi as (k & Hk & _). apply list_elem_of_lookup. exists k. exact Hk. }
  specialize (Hl i H). lia.
Qed.

(** The selection callback of the application returns on indices of
    particles of its graph. *)
Lemma selection_listener_accepts (g : StructureGraph) (h : heap) :
  (forall p, In p (particles g) -> position p < length h) ->
  accepts (fun i => i < length (particles g)) h (Some (selection_listener (Some g))).
Proof.
  intros Hg f [= <-] l h' Hl Hext. unfold selection_listener.
  destruct l as [| i l].
  - reflexivity.
  - destruct (updateSelectionInfo_returns g h' (i :: l)) as [_ Hok].
    { intros p Hp. specialize (Hg p Hp). apply extends_length in Hext. lia. }
    { discriminate. }
    destruct (Hok (not_stale g (i :: l) Hl)) as (shown & Hrun & _).
    rewrite (bind_returns _ _ _ _ _ Hrun). reflexivity.
Qed.

Lemma rank_of_index (g : StructureGraph) (p : Particle) :
  indices_are_ranks g = true -> In p (particles g) -> index p < length (particles g).
Proof.
  intros Hr Hp. apply list_elem_of_In, list_elem_of_lookup in Hp. destruct Hp as [j Hj].
  unfold indices_are_ranks in Hr. rewrite forallb_forall in Hr.
  assert (Hin : In (j, p) (imap pair (particles g))).
  { apply list_elem_of_In, list_elem_of_lookup. exists j.
    rewrite list_lookup_imap, Hj. reflexivity. }
  specialize (Hr (j, p) Hin). simpl in Hr. apply Nat.eqb_eq in Hr.
  apply lookup_lt_Some in Hj. lia.
Qed.

Lemma loaded_instances_in_store g n0 r h : loaded g n0 r h -> instances_in_store r h.
Proof.
  intros (_ & _ & _ & Hpos & _ & Hlen) inst Hin.
  destruct (instance_rank _ _ _ inst Hpos Hin) as (j & Hj & _ & ->). lia.
Qed.

Lemma ranks_NoDup (g : StructureGraph) :
  indices_are_ranks g = true -> NoDup (List.map index (particles g)).
Proof.
  intros Hr. apply NoDup_alt. intros i j x Hi Hj.
  change (List.map index (particles g)) with (index <$> particles g) in Hi, Hj.
  rewrite list_lookup_fmap in Hi, Hj.
  destruct (particles g !! i) as [p |] eqn:Ei; [| discriminate].
  destruct (particles g !! j) as [q |] eqn:Ej; [| discriminate].
  injection Hi as Hi. injection Hj as Hj.
  unfold indices_are_ranks in Hr. rewrite forallb_forall in Hr.
  assert (Hp : In (i, p) (imap pair (particles g))).
  { apply list_elem_of_In, list_elem_of_lookup. exists i.
    rewrite list_lookup_imap, Ei. reflexivity. }
  assert (Hq : In (j, q) (imap pair (particles g))).
  { apply list_elem_of_In, list_elem_of_lookup. exists j.
    rewrite list_lookup_imap, Ej. reflexivity. }
  pose proof (Hr _ Hp) as H1. pose proof (Hr _ Hq) as H2. simpl in H1, H2.
  apply Nat.eqb_eq in H1, H2. congruence.
Qed.

(** The application after the load of a graph whose indices are ranks. *)
Lemma application_events_on_graph (g : StructureGraph) (this : DNARenderer)
    (h0 : heap) (es : list event) :
  graph_in_store g h0 = true ->
  fits_a_call g ->
  indices_are_ranks g = true ->
  Forall (picks_particle g) es ->
  exists r1 h1 st' h',
    loadData g this h0 = Ok (r1, h1)
    /\ forEach dispatch es (interactionManager (Some g), r1) h1 = Ok (st', h')
    /\ (forall i, is_Some (selectionMeshes st'.2 !! i) <-> i ∈ selectedParticles st'.1)
    /\ (forall i, i ∈ selectedParticles st'.1 -> i < length (particles g))
    /\ NoDup (selectedParticles st'.1)
    /\ displayed g (length h0) st'.2 h'
    /\ (forall i, i ∈ selectedParticles st'.1 -> has_instance st'.2 i).
Proof.
  intros Hg Hfits Hranks Hpicks.
  destruct (loadData_returns g this h0 Hg Hfits)
    as (r1 & vs1 & vs2 & Hload & Hl1 & _ & _ & _ & _ & Hperm).
  set (h1 := h0 ++ [zero_vector] ++ vs1 ++ vs2) in *.
  set (valid := fun i => i < length (particles g)).
  pose proof Hl1 as (Hdata & Hoff & Horig & Hpos & Hempty & Hlen).
  assert (Hr : ready valid (interactionManager (Some g), r1) h1).
  { split.
    { apply selection_listener_accepts. intros p Hp.
      pose proof (graph_positions_in_store g h0 Hg p Hp). unfold h1.
      rewrite length_app. lia. }
    split; [intros f [= <-] a h; reflexivity |].
    split; [exact (loaded_instances_in_store g _ r1 h1 Hl1) |].
    split; [constructor |].
    split; [intros i Hi; apply elem_of_nil in Hi; destruct Hi |].
    intros i. cbn [fst snd interactionManager selectedParticles].
    rewrite Hempty, lookup_empty. split.
    - intros [x Hx]. discriminate.
    - intros [H _]. apply elem_of_nil in H. destruct H. }
  assert (Hinst : forall p, In p (particles g) -> has_instance r1 (index p)).
  { intros p Hp. apply (Permutation_in _ (Permutation_sym Hperm)) in Hp.
    apply in_map_iff in Hp. destruct Hp as (inst & <- & Hi). exists inst. auto. }
  destruct (events_return valid es _ h1 Hr)
    as (st' & h' & Hrun & Hr' & Hsc & Hext & Hshown & Hms).
  { apply (Forall_impl _ _ _ Hpicks). intros e He. destruct e as [[p |] | | |]; try exact I.
    apply (rank_of_index g p Hranks). apply He. reflexivity. }
  exists r1, h1, st', h'. split; [exact Hload |]. split; [exact Hrun |].
  pose proof Hr' as (_ & _ & _ & Hnd & Hval & Hhl).
  pose proof Hsc as (Hdata' & Hinst' & _ & Hoff' & Horig' & _).
  cbn [fst snd] in Hdata', Hinst', Hoff', Horig'.
  assert (Hhas : forall i, i ∈ selectedParticles st'.1 -> has_instance st'.2 i).
  { apply Hshown.
    - intros j Hj. apply elem_of_nil in Hj. destruct Hj.
    - apply (Forall_impl _ _ _ Hpicks). intros e He p Hp. apply Hinst. apply He. exact Hp. }
  split.
  { intros i. rewrite (Hhl i). split; [tauto |]. intros Hi. split; [exact Hi |].
    exact (Hhas i Hi). }
  split; [exact Hval |]. split; [exact Hnd |]. split; [| exact Hhas].
  unfold displayed. rewrite Hdata', Hinst', Hoff', Horig'.
  split; [exact Hdata |]. split; [exact Hoff |]. split; [exact Horig |].
  split; [exact Hpos |].
  split; [apply extends_length in Hext; lia |].
  split.
  - rewrite <- Hlen. apply (Hms (length h1)); [lia |].
    split.
    + intros i l Hl. cbn [snd] in Hl. rewrite Hempty, lookup_empty in Hl. discriminate.
    + intros i j l Hl. cbn [snd] in Hl. rewrite Hempty, lookup_empty in Hl. discriminate.
  - assert (E : List.map (fun inst => index (inst_particle inst)) (nucleotideInstances r1)
                = List.map index (List.map inst_particle (nucleotideInstances r1))).
    { rewrite List.map_map. reflexivity. }
    rewrite E, Hperm. exact (ranks_NoDup g Hranks).
Qed.

Lemma combine_indices_are_ranks topology configuration (h : heap) :
  exists g ext,
    DataCombiner.combine topology configuration h = Ok (g, h ++ ext)
    /\ length (particles g) = Nat.min (length (topo_particles topology))
                                      (length (conf_nucleotides configuration))
    /\ graph_in_store g (h ++ ext) = true
    /\ indices_are_ranks g = true.
Proof.
  destruct (combine_in_store topology configuration h) as (g & ext & Hc & Hcount & Hg).
  exists g, ext. split; [exact Hc |]. split; [exact Hcount |]. split; [exact Hg |].
  destruct (combine_returns topology configuration h) as (ps & ext' & Hc' & _ & Hall).
  rewrite Hc in Hc'. injection Hc' as -> _.
  unfold indices_are_ranks. rewrite forallb_forall. intros [j p] Hin.
  apply list_elem_of_In, list_elem_of_lookup in Hin. destruct Hin as [k Hk].
  rewrite list_lookup_imap in Hk. cbn [particles] in Hk.
  destruct (ps !! k) as [q |] eqn:E; [| discriminate].
  injection Hk as <- <-. simpl. apply Nat.eqb_eq.
  destruct (Hall k q E) as [Hi _]. exact Hi.
Qed.

(** X23. The application after a load: the documents combined and the
    graph loaded, which returns when the graph fits a call, with the
    callbacks that [init] installs, every sequence of clicks on particles
    of the graph, pointer moves and key events returns; the highlighted
    particles are then exactly the selected ones, each of them a particle
    of the graph and none selected twice. *)
Theorem application_events_never_throw topology configuration (this : DNARenderer)
    (h : heap) (es : list event) :
  let count := Nat.min (length (topo_particles topology))
                       (length (conf_nucleotides configuration)) in
  exists g h1,
    DataCombiner.combine topology configuration h = Ok (g, h1)
    /\ ((N.of_nat count <= max_arguments)%N ->
        exists r1 h2,
          loadData g this h1 = Ok (r1, h2)
          /\ (Forall (picks_particle g) es ->
              exists st' h',
                forEach dispatch es (interactionManager (Some g), r1) h2 = Ok (st', h')
                /\ (forall i, is_Some (selectionMeshes st'.2 !! i)
                              <-> i ∈ selectedParticles st'.1)
                /\ (forall i, i ∈ selectedParticles st'.1 -> i < length (particles g))
                /\ NoDup (selectedParticles st'.1))).
Proof.
  intros count.
  destruct (combine_indices_are_ranks topology configuration h)
    as (g & ext & Hc & Hcount & Hg & Hr).
  exists g, (h ++ ext). split; [exact Hc |].
  intros Hfits.
  assert (Hfits' : fits_a_call g) by (unfold fits_a_call; rewrite Hcount; exact Hfits).
  destruct (loadData_returns g this (h ++ ext) Hg Hfits') as (r1 & vs1 & vs2 & Hload & _).
  exists r1, ((h ++ ext) ++ [zero_vector] ++ vs1 ++ vs2).
  split; [exact Hload |].
  intros Hpicks.
  destruct (application_events_on_graph g this (h ++ ext) es Hg Hfits' Hr Hpicks)
    as (r1' & h1' & st' & h' & Hload' & Hrun & Hhl & Hval & Hnd & _).
  rewrite Hload in Hload'. injection Hload' as <- <-.
  exists st', h'. split; [exact Hrun |]. split; [exact Hhl |]. split; [exact Hval | exact Hnd].
Qed.

(** X24. A selection that outlives its graph: when one of the first five
    indices of the selection names no particle of the graph that the
    application holds, a click with the control key on a particle that is
    not selected throws a [TypeError] from the selection callback. *)
Theorem stale_selection_breaks_ctrl_click (g : StructureGraph) (st : state) (h : heap)
    (p : Particle) :
  graph_in_store g h = true ->
  instances_in_store st.2 h ->
  onSelectionChanged st.1 = Some (selection_listener (Some g)) ->
  multiSelectEnabled st.1 = true ->
  index p ∉ selectedParticles st.1 ->
  stale g (selectedParticles st.1) = true ->
  handleClick (Some p) st h = Throw TypeError.
Proof.
  intros Hg Hin Hcb Hm Hsel Hstale. destruct st as [m r]. cbn [fst snd] in *.
  unfold handleClick. cbn [fst snd]. rewrite Hm.
  rewrite bool_decide_eq_false_2 by exact Hsel.
  destruct (highlight_on r (index p) h Hin) as (s' & h' & Hrun & Hext & _).
  unfold selectParticle. cbn [fst snd]. rewrite (bind_returns _ _ _ _ _ Hrun).
  apply bind_throws. unfold selection_changed.
  cbn [onSelectionChanged set_selectedParticles selectedParticles]. rewrite Hcb.
  unfold selection_listener. apply bind_throws.
  unfold Set_add. rewrite bool_decide_eq_false_2 by exact Hsel.
  destruct (updateSelectionInfo_returns g h' (selectedParticles m ++ [index p]))
    as [Hthrow _].
  - intros q Hq. pose proof (graph_positions_in_store g h Hg q Hq).
    apply extends_length in Hext. lia.
  - destruct (selectedParticles m); discriminate.
  - apply Hthrow. unfold stale in *. apply existsb_exists in Hstale.
    destruct Hstale as (i & Hi & Hle). apply existsb_exists. exists i.
    split; [| exact Hle].
    apply list_elem_of_In in Hi. apply list_elem_of_In.
    apply elem_of_take in Hi. destruct Hi as (k & Hk & Hk5).
    apply elem_of_take. exists k. split; [| exact Hk5].
    apply lookup_app_l_Some. exact Hk.
Qed.

End ApplicationFacts.

Lemma stale_selection_breaks_ctrl_click_witness :
  Interaction.handleClick (Some Examples.the_particle)
    ({| selectedParticles := [7%nat]; hoveredParticle := None; multiSelectEnabled := true;
        onSelectionChanged := Some (App.selection_listener (Some Examples.one_particle_graph));
        onHoverChanged := None |},
     Examples.one_particle_scene.1)
    Examples.one_particle_scene.2 = Throw TypeError.
Proof.
  apply (stale_selection_breaks_ctrl_click Examples.one_particle_graph).
  - reflexivity.
  - intros inst [<- | []]. vm_compute. lia.
  - reflexivity.
  - reflexivity.
  - intros H. apply list_elem_of_singleton in H. discriminate.
  - reflexivity.
Defined.

(** ** Highlights under shifts *)

Section HighlightShift.
Context {R : Rounding} {engine : Engine}.
Import Renderer Interaction.
Local Open Scope nat_scope.

(** One turn of the loop of [updateParticlePositions]: the instance gets
    its wrapped position, and so does the highlight of its particle when
    there is one; nothing else changes. *)
Lemma update_instance_step (r : DNARenderer) (box : V3.t) (i : nat) (inst : Instance)
    (h : heap) (lo : loc) (o off : V3.t) :
  originalParticlePositions r !! i = Some lo ->
  h !! lo = Some o ->
  h !! boxOffset r = Some off ->
  inst_position inst < length h ->
  (forall l, selectionMeshes r !! index (inst_particle inst) = Some l ->
             l < length h /\ l <> inst_position inst) ->
  exists h1,
    update_instance r box i inst h = Ok (tt, h1)
    /\ length h1 = length h
    /\ h1 !! inst_position inst = Some (wrapped box off o)
    /\ (forall l, selectionMeshes r !! index (inst_particle inst) = Some l ->
                  h1 !! l = Some (wrapped box off o))
    /\ (forall c, c <> inst_position inst ->
                  selectionMeshes r !! index (inst_particle inst) <> Some c ->
                  h1 !! c = h !! c).
Proof.
  intros H1 H2 H3 Hpos Hmesh.
  destruct (selectionMeshes r !! index (inst_particle inst)) as [l |] eqn:Hsel.
  - destruct (Hmesh l eq_refl) as [Hl Hne].
    exists (<[l := wrapped box off o]> (<[inst_position inst := wrapped box off o]> h)).
    split.
    { unfold update_instance, mbind, M_bind, lift, defined, read, write, mret, M_ret.
      rewrite H1. simpl. rewrite H2, H3, Hsel.
      rewrite list_lookup_insert_eq by exact Hpos. reflexivity. }
    split; [rewrite !length_insert; reflexivity |].
    split; [rewrite list_lookup_insert_ne by exact Hne;
            apply list_lookup_insert_eq; exact Hpos |].
    split.
    { intros l' [= <-]. apply list_lookup_insert_eq. rewrite length_insert. exact Hl. }
    intros c Hc Hc'. rewrite list_lookup_insert_ne by congruence.
    apply list_lookup_insert_ne. congruence.
  - exists (<[inst_position inst := wrapped box off o]> h).
    split; [apply (update_instance_returns r box i inst h lo o off H1 H2 H3 Hsel) |].
    split; [apply length_insert |].
    split; [apply list_lookup_insert_eq; exact Hpos |].
    split; [discriminate |].
    intros c Hc _. apply list_lookup_insert_ne. congruence.
Qed.

Lemma update_loop_highlighted (r : DNARenderer) (box off : V3.t) (n0 k : nat) :
  boxOffset r = n0 ->
  originalParticlePositions r = seq (S n0) k ->
  (forall i j l, selectionMeshes r !! i = Some l -> selectionMeshes r !! j = Some l -> i = j) ->
  forall (insts : list Instance) (i : nat) (h : heap),
    List.map inst_position insts = seq (S n0 + k + i) (length insts) ->
    i + length insts <= k ->
    S n0 + k + k <= length h ->
    (forall idx l, selectionMeshes r !! idx = Some l -> S n0 + k + k <= l < length h) ->
    h !! n0 = Some off ->
    NoDup (List.map (fun inst => index (inst_particle inst)) insts) ->
    exists h',
      forEach_from (update_instance r box) i insts h = Ok (tt, h')
      /\ length h' = length h
      /\ (forall l, l < S n0 + k + i -> h' !! l = h !! l)
      /\ (forall j o, j < length insts -> h !! (S n0 + i + j) = Some o ->
                      h' !! (S n0 + k + i + j) = Some (wrapped box off o))
      /\ (forall idx l, selectionMeshes r !! idx = Some l ->
            (forall inst, In inst insts -> index (inst_particle inst) = idx ->
                          h' !! l = h' !! inst_position inst)
            /\ ((forall inst, In inst insts -> index (inst_particle inst) <> idx) ->
                h' !! l = h !! l)).
Proof.
  intros Hoff Horig Hinj.
  induction insts as [| inst insts IH]; intros i h Hpos Hi Hlen Hmesh Hn0 Hnd.
  - exists h. split; [reflexivity |]. split; [reflexivity |]. split; [reflexivity |].
    split; [intros j o Hj; simpl in Hj; lia |].
    intros idx l _. split; [intros inst [] | reflexivity].
  - simpl in Hi.
    change (List.map inst_position (inst :: insts))
      with (inst_position inst :: List.map inst_position insts) in Hpos.
    change (length (inst :: insts)) with (S (length insts)) in Hpos.
    rewrite <- cons_seq in Hpos. injection Hpos as Hp0 Hrest0.
    assert (Hp : inst_position inst = S n0 + k + i) by exact Hp0.
    assert (Hrest : List.map inst_position insts = seq (S (S n0 + k + i)) (length insts))
      by exact Hrest0.
    clear Hp0 Hrest0.
    change (List.map (fun inst => index (inst_particle inst)) (inst :: insts))
      with (index (inst_particle inst)
            :: List.map (fun inst => index (inst_particle inst)) insts) in Hnd.
    apply NoDup_cons in Hnd. destruct Hnd as [Hfresh Hnd].
    destruct (lookup_lt_is_Some_2 h (S n0 + i) ltac:(lia)) as [o Ho].
    destruct (update_instance_step r box i inst h (S n0 + i) o off)
      as (h1 & Hstep & Hlen1 & Hshow1 & Hmesh1 & Hframe1).
    { rewrite Horig. apply lookup_seq_lt. lia. }
    { exact Ho. }
    { rewrite Hoff. exact Hn0. }
    { rewrite Hp. lia. }
    { intros l Hl. specialize (Hmesh _ l Hl). rewrite Hp. lia. }
    destruct (IH (S i) h1) as (h' & Hrun & Hlen' & Hlow & Hdisp & Hfollow).
    + rewrite Hrest. f_equal. lia.
    + lia.
    + lia.
    + intros idx l Hl. rewrite Hlen1. exact (Hmesh idx l Hl).
    + rewrite Hframe1; [exact Hn0 | rewrite Hp; lia |].
      intros Hc. specialize (Hmesh _ n0 Hc). lia.
    + exact Hnd.
    + assert (Hkeep : forall c, c < S n0 + k + i -> h1 !! c = h !! c).
      { intros c Hc. apply Hframe1; [rewrite Hp; lia |].
        intros Hc'. specialize (Hmesh _ c Hc'). lia. }
      exists h'. rewrite (forEach_from_cons _ _ _ _ _ _ Hstep).
      split; [exact Hrun |]. split; [lia |].
      split; [intros l Hl; rewrite Hlow by lia; apply Hkeep; exact Hl |].
      split.
      * intros [| j] o' Hj Ho'.
        -- replace (S n0 + k + i + 0) with (S n0 + k + i) by lia.
           replace (S n0 + i + 0) with (S n0 + i) in Ho' by lia.
           rewrite Hlow by lia. rewrite <- Hp, Hshow1.
           rewrite Ho in Ho'. injection Ho' as ->. reflexivity.
        -- simpl in Hj.
           replace (S n0 + k + i + S j) with (S n0 + k + S i + j) by lia.
           apply Hdisp; [lia |].
           rewrite Hkeep by lia.
           replace (S n0 + S i + j) with (S n0 + i + S j) by lia. exact Ho'.
      * intros idx l Hl. destruct (Hfollow idx l Hl) as [Hin Hout]. split.
        -- intros inst' [<- | Hin'] Hidx.
           ++ rewrite Hout.
              ** rewrite Hidx in Hmesh1. rewrite (Hmesh1 l Hl).
                 rewrite Hlow by (rewrite Hp; lia). symmetry. exact Hshow1.
              ** intros inst2 Hin2 Heq. apply Hfresh.
                 rewrite Hidx, <- Heq. apply list_elem_of_In.
                 apply (in_map (fun inst => index (inst_particle inst))). exact Hin2.
           ++ apply Hin; assumption.
        -- intros Hnone. rewrite Hout by (intros inst2 Hin2; apply Hnone; right; exact Hin2).
           apply Hframe1.
           ++ specialize (Hmesh idx l Hl). rewrite Hp. lia.
           ++ intros Hl'. apply (Hnone inst (or_introl eq_refl)).
              exact (Hinj _ _ l Hl' Hl).
Qed.

Lemma displayed_instances_length g n0 r h :
  displayed g n0 r h -> length (nucleotideInstances r) = length (particles g).
Proof.
  intros (_ & _ & _ & Hpos & _).
  rewrite <- (length_map inst_position), Hpos. apply length_seq.
Qed.

Lemma updateParticlePositions_highlighted g n0 r h box off :
  displayed g n0 r h ->
  md_box (metadata g) = Some box ->
  h !! n0 = Some off ->
  exists r' h',
    updateParticlePositions r h = Ok (r', h')
    /\ displayed g n0 r' h'
    /\ nucleotideInstances r' = nucleotideInstances r
    /\ selectionMeshes r' = selectionMeshes r
    /\ (forall l, l < S n0 + length (particles g) -> h' !! l = h !! l)
    /\ (forall j o, j < length (particles g) -> h !! (S n0 + j) = Some o ->
                    h' !! (S n0 + length (particles g) + j) = Some (wrapped box off o))
    /\ (forall idx l inst,
          selectionMeshes r !! idx = Some l ->
          In inst (nucleotideInstances r) -> index (inst_particle inst) = idx ->
          h' !! l = h' !! inst_position inst).
Proof.
  intros Hd Hbox Hn0. pose proof (displayed_instances_length g n0 r h Hd) as Hk.
  pose proof Hd as (Hdata & Hoff & Horig & Hpos & Hlen & [Hmesh Hinj] & Hnd).
  set (k := length (particles g)) in *.
  destruct (update_loop_highlighted r box off n0 k Hoff Horig Hinj (nucleotideInstances r) 0 h)
    as (h' & Hrun & Hlen' & Hlow & Hdisp & Hfollow).
  - rewrite Hpos, Hk. f_equal. lia.
  - lia.
  - exact Hlen.
  - exact Hmesh.
  - exact Hn0.
  - exact Hnd.
  - assert (Hframe : forall l, l < S n0 + k -> h' !! l = h !! l).
    { intros l Hlt. apply Hlow. lia. }
    assert (Hshow : forall j o, j < k -> h !! (S n0 + j) = Some o ->
                                h' !! (S n0 + k + j) = Some (wrapped box off o)).
    { intros j o Hj Ho.
      replace (S n0 + k + j) with (S n0 + k + 0 + j) by lia.
      apply Hdisp; [lia |]. replace (S n0 + 0 + j) with (S n0 + j) by lia. exact Ho. }
    assert (Hfol : forall idx l inst,
               selectionMeshes r !! idx = Some l ->
               In inst (nucleotideInstances r) -> index (inst_particle inst) = idx ->
               h' !! l = h' !! inst_position inst).
    { intros idx l inst Hl Hin Hidx. exact (proj1 (Hfollow idx l Hl) inst Hin Hidx). }
    assert (Hd' : forall m, displayed g n0 (set_bondMeshes r m) h').
    { intros m. unfold displayed. cbn [data boxOffset originalParticlePositions
                                       nucleotideInstances set_bondMeshes].
      fold k. rewrite Hlen'.
      split; [exact Hdata |]. split; [exact Hoff |]. split; [exact Horig |].
      split; [exact Hpos |]. split; [exact Hlen |].
      split; [split; [rewrite Hlen'; exact Hmesh | exact Hinj] | exact Hnd]. }
    assert (Hd0 : displayed g n0 r h').
    { specialize (Hd' (bondMeshes r)). destruct r. exact Hd'. }
    unfold updateParticlePositions. rewrite Hdata, Hbox.
    rewrite (bind_returns _ _ _ _ _ Hrun).
    destruct (0 <? length (bondMeshes r)).
    + destruct (0 <? length (omap (instance_points r) (bonds g))).
      * destruct (create_line_system (omap (instance_points r) (bonds g)) h') as [ls Hls].
        { apply (instance_points_in_store r (S n0 + k) k); [exact Hpos | lia]. }
        exists (set_bondMeshes r [ls]), h'.
        rewrite (bind_returns _ _ _ _ _ Hls).
        split; [reflexivity |]. split; [apply Hd' |]. split; [reflexivity |].
        split; [reflexivity |]. split; [exact Hframe |]. split; [exact Hshow | exact Hfol].
      * exists (set_bondMeshes r []), h'.
        split; [reflexivity |]. split; [apply Hd' |]. split; [reflexivity |].
        split; [reflexivity |]. split; [exact Hframe |]. split; [exact Hshow | exact Hfol].
    + exists r, h'.
      split; [reflexivity |]. split; [exact Hd0 |]. split; [reflexivity |].
      split; [reflexivity |]. split; [exact Hframe |]. split; [exact Hshow | exact Hfol].
Qed.

Lemma shiftParticles_highlighted g n0 r h box axis amount :
  displayed g n0 r h ->
  md_box (metadata g) = Some box ->
  exists r' h' off,
    shiftParticles axis amount r h = Ok (r', h')
    /\ displayed g n0 r' h'
    /\ nucleotideInstances r' = nucleotideInstances r
    /\ selectionMeshes r' = selectionMeshes r
    /\ h !! n0 = Some off
    /\ h' !! n0 = Some (shift_offset axis amount off)
    /\ (forall j, j < length (particles g) -> h' !! (S n0 + j) = h !! (S n0 + j))
    /\ (forall j o, j < length (particles g) -> h !! (S n0 + j) = Some o ->
                    h' !! (S n0 + length (particles g) + j)
                    = Some (wrapped box (shift_offset axis amount off) o))
    /\ (forall idx l inst,
          selectionMeshes r !! idx = Some l ->
          In inst (nucleotideInstances r) -> index (inst_particle inst) = idx ->
          h' !! l = h' !! inst_position inst).
Proof.
  intros Hd Hbox. pose proof Hd as (Hdata & Hoff & Horig & Hpos & Hlen & [Hmesh Hinj] & Hnd).
  destruct (lookup_lt_is_Some_2 h n0 ltac:(lia)) as [off Hn0].
  set (h1 := <[n0 := shift_offset axis amount off]> h).
  assert (Hd1 : displayed g n0 r h1).
  { unfold displayed, meshes_above, h1. rewrite length_insert.
    split; [exact Hdata |]. split; [exact Hoff |]. split; [exact Horig |].
    split; [exact Hpos |]. split; [exact Hlen |].
    split; [split; [exact Hmesh | exact Hinj] | exact Hnd]. }
  assert (Hn1 : h1 !! n0 = Some (shift_offset axis amount off)).
  { unfold h1. apply list_lookup_insert_eq. lia. }
  destruct (updateParticlePositions_highlighted g n0 r h1 box _ Hd1 Hbox Hn1)
    as (r' & h' & Hrun & Hd' & Hinst & Hsel & Hframe & Hshow & Hfol).
  exists r', h', off.
  split.
  { unfold shiftParticles. rewrite Hdata, Hbox, Hoff.
    rewrite (bind_returns _ _ _ _ _ (read_returns _ _ _ Hn0)).
    unfold write, mbind, M_bind. fold h1. exact Hrun. }
  split; [exact Hd' |]. split; [exact Hinst |]. split; [exact Hsel |].
  split; [exact Hn0 |].
  split; [rewrite Hframe by lia; exact Hn1 |].
  split.
  { intros j Hj. rewrite Hframe by lia. unfold h1. apply list_lookup_insert_ne. lia. }
  split; [| exact Hfol].
  intros j o Hj Ho. apply Hshow; [exact Hj |].
  unfold h1. rewrite list_lookup_insert_ne by lia. exact Ho.
Qed.

(** After at least one shift every highlight stands where the instance of
    its particle stands, and the instances stand at the wrapped images of
    the original positions. *)
Lemma shifts_highlighted g n0 box (ops : list (jsstring * number)) :
  md_box (metadata g) = Some box ->
  forall op r h,
    displayed g n0 r h ->
    exists r' h',
      shifts (op :: ops) r h = Ok (r', h')
      /\ displayed g n0 r' h'
      /\ nucleotideInstances r' = nucleotideInstances r
      /\ selectionMeshes r' = selectionMeshes r
      /\ (forall idx l inst,
            selectionMeshes r !! idx = Some l ->
            In inst (nucleotideInstances r) -> index (inst_particle inst) = idx ->
            h' !! l = h' !! inst_position inst).
Proof.
  intros Hbox. induction ops as [| op' ops IH]; intros [axis amount] r h Hd.
  - destruct (shiftParticles_highlighted g n0 r h box axis amount Hd Hbox)
      as (r1 & h1 & off & Hrun & Hd1 & Hinst & Hsel & _ & _ & _ & _ & Hfol).
    exists r1, h1. simpl. rewrite (bind_returns _ _ _ _ _ Hrun).
    split; [reflexivity |]. split; [exact Hd1 |]. split; [exact Hinst |].
    split; [exact Hsel | exact Hfol].
  - destruct (shiftParticles_highlighted g n0 r h box axis amount Hd Hbox)
      as (r1 & h1 & off & Hrun & Hd1 & Hinst & Hsel & _).
    destruct (IH op' r1 h1 Hd1) as (r' & h' & Hrun' & Hd' & Hinst' & Hsel' & Hfol).
    exists r', h'.
    change (shifts ((axis, amount) :: op' :: ops) r h)
      with ((shiftParticles axis amount r ≫= shifts (op' :: ops)) h).
    rewrite (bind_returns _ _ _ _ _ Hrun).
    split; [exact Hrun' |]. split; [exact Hd' |]. split; [congruence |].
    split; [congruence |].
    intros idx l inst Hl Hin Hidx. apply (Hfol idx l inst).
    + rewrite Hsel. exact Hl.
    + rewrite Hinst. exact Hin.
    + exact Hidx.
Qed.

End HighlightShift.

Section HighlightsFollow.
Context {R : Rounding} {engine : Engine}.
Import Renderer Interaction.
Local Open Scope nat_scope.

(** X25. Highlights follow their instances: the documents combined, the
    graph loaded, which returns when the graph fits a call, after any
    sequence of clicks on particles of the graph, pointer moves and key
    events and then at least one shift, every selected particle has a
    highlight of its own and an instance of its own, and the highlight
    stands exactly where the instance stands. *)
Theorem highlights_follow_shifts topology configuration (this : DNARenderer) (h : heap)
    (es : list event) (op : jsstring * number) (ops : list (jsstring * number)) :
  let count := Nat.min (length (topo_particles topology))
                       (length (conf_nucleotides configuration)) in
  exists g h1,
    DataCombiner.combine topology configuration h = Ok (g, h1)
    /\ ((N.of_nat count <= max_arguments)%N ->
        exists r1 h2,
          loadData g this h1 = Ok (r1, h2)
          /\ (Forall (picks_particle g) es ->
              exists st h3 rn hn,
                forEach dispatch es (App.interactionManager (Some g), r1) h2 = Ok (st, h3)
                /\ shifts (op :: ops) st.2 h3 = Ok (rn, hn)
                /\ forall i, i ∈ selectedParticles st.1 ->
                     exists l inst v,
                       selectionMeshes rn !! i = Some l
                       /\ In inst (nucleotideInstances rn)
                       /\ index (inst_particle inst) = i
                       /\ hn !! l = Some v
                       /\ hn !! inst_position inst = Some v
                       /\ l <> inst_position inst)).
Proof.
  intros count.
  destruct (combine_indices_are_ranks topology configuration h)
    as (g & ext & Hc & Hcount & Hg & Hr).
  exists g, (h ++ ext). split; [exact Hc |].
  intros Hfits.
  assert (Hfits' : fits_a_call g) by (unfold fits_a_call; rewrite Hcount; exact Hfits).
  destruct (loadData_returns g this (h ++ ext) Hg Hfits') as (r1 & vs1 & vs2 & Hload & _).
  exists r1, ((h ++ ext) ++ [zero_vector] ++ vs1 ++ vs2).
  split; [exact Hload |].
  intros Hpicks.
  destruct (application_events_on_graph g this (h ++ ext) es Hg Hfits' Hr Hpicks)
    as (r1' & h1' & st & h3 & Hload' & Hrun & Hhl & Hval & Hnd & Hd & Hhas).
  rewrite Hload in Hload'. injection Hload' as <- <-.
  assert (Hbox : exists box, md_box (metadata g) = Some box).
  { destruct (combine_returns topology configuration h) as (ps & ext' & Hc' & _).
    rewrite Hc in Hc'. injection Hc' as -> _. eexists. reflexivity. }
  destruct Hbox as [box Hbox].
  destruct (shifts_highlighted g (length (h ++ ext)) box ops Hbox op st.2 h3 Hd)
    as (rn & hn & Hshift & Hdn & Hinst & Hsel & Hfol).
  exists st, h3, rn, hn. split; [exact Hrun |]. split; [exact Hshift |].
  intros i Hi. destruct (proj2 (Hhl i) Hi) as [l Hl].
  destruct (Hhas i Hi) as (inst & Hin & Hidx).
  pose proof Hd as (_ & _ & _ & Hpos & _ & [Hmesh _] & _).
  pose proof Hdn as (_ & _ & _ & _ & Hlen & _).
  destruct (instance_rank _ _ _ inst Hpos Hin) as (j & Hj & _ & Hp).
  destruct (lookup_lt_is_Some_2 hn (inst_position inst) ltac:(lia)) as [v Hv].
  exists l, inst, v.
  split; [rewrite Hsel; exact Hl |]. split; [rewrite Hinst; exact Hin |].
  split; [exact Hidx |].
  split; [rewrite (Hfol i l inst Hl Hin Hidx); exact Hv |].
  split; [exact Hv |].
  specialize (Hmesh i l Hl). lia.
Qed.

End HighlightsFollow.

(** ** Files dropped on the application *)

Section FilesFacts.
Import Renderer Controller.
Context {B : Builtins} {engine : Engine} (toLowerCase : jsstring -> jsstring).
Local Open Scope nat_scope.

(** A file replaces at most the document of its kind, and only by a
    document that its parser returns. *)
Lemma handleFile_keeps (this : DNAVisualizerApp) (name content : jsstring) :
  renderer (handleFile toLowerCase this name content) = renderer this
  /\ combinedData (handleFile toLowerCase this name content) = combinedData this
  /\ (topologyData (handleFile toLowerCase this name content) = topologyData this
      \/ exists document,
           extension toLowerCase name = js "psp"
           /\ TopologyParser.parse content = Ok document
           /\ topologyData (handleFile toLowerCase this name content) = Some document)
  /\ (configurationData (handleFile toLowerCase this name content) = configurationData this
      \/ exists document,
           extension toLowerCase name = js "dat"
           /\ ConfigurationParser.parse content = Ok document
           /\ configurationData (handleFile toLowerCase this name content) = Some document).
Proof.
  unfold handleFile. cbv zeta. unfold string_eqb.
  destruct (bool_decide (extension toLowerCase name = js "psp")) eqn:E1.
  - apply bool_decide_eq_true in E1.
    destruct (TopologyParser.parse content) as [document |] eqn:P.
    + cbn. split; [reflexivity |]. split; [reflexivity |].
      split; [right; exists document; auto | left; reflexivity].
    + auto.
  - destruct (bool_decide (extension toLowerCase name = js "dat")) eqn:E2.
    + apply bool_decide_eq_true in E2.
      destruct (ConfigurationParser.parse content) as [document |] eqn:P.
      * cbn. split; [reflexivity |]. split; [reflexivity |].
        split; [left; reflexivity | right; exists document; auto].
      * auto.
    + auto.
Qed.

Lemma read_files_keep (files : list File) :
  forall this : DNAVisualizerApp,
    let documents := (read_files toLowerCase files this).1 in
    renderer documents = renderer this
    /\ combinedData documents = combinedData this
    /\ (is_Some (topologyData this) -> is_Some (topologyData documents))
    /\ (is_Some (configurationData this) -> is_Some (configurationData documents))
    /\ (topologyData documents = topologyData this
        \/ exists file content document,
             In file files
             /\ file_text file = Some content
             /\ extension toLowerCase (file_name file) = js "psp"
             /\ TopologyParser.parse content = Ok document
             /\ topologyData documents = Some document)
    /\ (configurationData documents = configurationData this
        \/ exists file content document,
             In file files
             /\ file_text file = Some content
             /\ extension toLowerCase (file_name file) = js "dat"
             /\ ConfigurationParser.parse content = Ok document
             /\ configurationData documents = Some document)
    /\ ((read_files toLowerCase files this).2 = Rejected
        <-> exists file, In file files /\ file_text file = None).
Proof.
  induction files as [| file files IH]; intros this.
  - simpl. repeat split; auto; try discriminate. intros (f & [] & _).
  - cbn [read_files].
    destruct (file_text file) as [content |] eqn:Etext.
    + destruct (handleFile_keeps this (file_name file) content) as (Hr & Hc & Ht & Hcf).
      destruct (IH (handleFile toLowerCase this (file_name file) content))
        as (Hr' & Hc' & Hts & Hcs & Ht' & Hcf' & Hout).
      cbv zeta.
      split; [congruence |]. split; [congruence |].
      split.
      { intros Hs. apply Hts. destruct Ht as [-> | (d & _ & _ & ->)]; [exact Hs | eauto]. }
      split.
      { intros Hs. apply Hcs. destruct Hcf as [-> | (d & _ & _ & ->)]; [exact Hs | eauto]. }
      split.
      { destruct Ht' as [Ht' | (f & c & d & Hin & Hf & He & Hp & Hd)].
        - rewrite Ht'. destruct Ht as [Ht | (d & He & Hp & Hd)]; [left; exact Ht |].
          right. exists file, content, d. split; [left; reflexivity | auto].
        - right. exists f, c, d. split; [right; exact Hin | auto]. }
      split.
      { destruct Hcf' as [Hcf' | (f & c & d & Hin & Hf & He & Hp & Hd)].
        - rewrite Hcf'. destruct Hcf as [Hcf | (d & He & Hp & Hd)]; [left; exact Hcf |].
          right. exists file, content, d. split; [left; reflexivity | auto].
        - right. exists f, c, d. split; [right; exact Hin | auto]. }
      rewrite Hout. split.
      * intros (f & Hin & Hf). exists f. split; [right; exact Hin | exact Hf].
      * intros (f & [<- | Hin] & Hf); [congruence |]. exists f. auto.
    + cbn [fst snd]. repeat split; auto.
      intros _. exists file. split; [left; reflexivity | exact Etext].
Qed.

(** [visualize] on two documents: the graph is combined and registered,
    and loaded when it fits a call; when it does not, the renderer is
    left with the new graph, the new offset and the new original
    positions, and without any mesh. *)
Lemma visualize_cases (this : DNAVisualizerApp) (h : heap) topology configuration :
  topologyData this = Some topology ->
  configurationData this = Some configuration ->
  exists g h1 this' h',
    DataCombiner.combine topology configuration h = Ok (g, h1)
    /\ visualize this h = Ok (this', h')
    /\ topologyData this' = topologyData this
    /\ configurationData this' = configurationData this
    /\ combinedData this' = Some g
    /\ extends h h'
    /\ h' !! boxOffset (renderer this') = Some zero_vector
    /\ (fits_a_call g -> loaded g (length h1) (renderer this') h')
    /\ (~ fits_a_call g ->
        renderer this'
        = {| data := Some g; nucleotideInstances := []; bondMeshes := [];
             selectionMeshes := ∅; boxOffset := length h1;
             originalParticlePositions := seq (S (length h1)) (length (particles g)) |}).
Proof.
  intros Et Ec.
  destruct (combine_in_store topology configuration h) as (g & ext & Hcomb & _ & Hg).
  unfold visualize. rewrite Et, Ec, Hcomb. cbv zeta.
  cbn [renderer set_combinedData].
  destruct (N.le_gt_cases (N.of_nat (length (particles g))) max_arguments) as [Hfits | Hbig].
  - destruct (loadData_returns g (renderer this) (h ++ ext) Hg Hfits)
      as (r1 & vs1 & vs2 & Hload & Hl1 & _).
    rewrite Hload.
    exists g, (h ++ ext). eexists _, _. split; [reflexivity |]. split; [reflexivity |].
    cbn [topologyData configurationData combinedData renderer set_renderer set_combinedData].
    split; [exact Et |]. split; [exact Ec |]. split; [reflexivity |].
    split.
    { exists (ext ++ [zero_vector] ++ vs1 ++ vs2). rewrite <- !app_assoc. reflexivity. }
    split.
    { destruct Hl1 as (_ & -> & _).
      rewrite lookup_app_r by lia. rewrite Nat.sub_diag. reflexivity. }
    split; [intros _; exact Hl1 |].
    intros Hno. exfalso. apply Hno. exact Hfits.
  - assert (Hno : ~ fits_a_call g) by (unfold fits_a_call; lia).
    rewrite (loadData_throws g (renderer this) (h ++ ext) Hg Hno).
    destruct (begin_load_returns g (renderer this) (h ++ ext) Hg) as (vs1 & Hbegin & _).
    rewrite Hbegin.
    exists g, (h ++ ext). eexists _, _. split; [reflexivity |]. split; [reflexivity |].
    cbn [topologyData configurationData combinedData renderer set_renderer set_combinedData
         boxOffset].
    split; [exact Et |]. split; [exact Ec |]. split; [reflexivity |].
    split.
    { exists (ext ++ [zero_vector] ++ vs1). rewrite <- !app_assoc. reflexivity. }
    split.
    { rewrite lookup_app_r by lia. rewrite Nat.sub_diag. reflexivity. }
    split; [intros Hfits; exfalso; exact (Hno Hfits) |].
    intros _. reflexivity.
Qed.

(** X26. Files dropped on the application. The promise of [handleFiles]
    is rejected exactly when one of the files cannot be read, and nothing
    is loaded then. A file that is read replaces at most the document of
    its kind, by extension, and only when its parser returns: a document
    once read is never lost. When every file is read and both documents
    are there after the batch, be it from this batch or from before, the
    structure is combined and registered anew, whatever the files were;
    the offset of the renderer is zero again, no highlight is left and no
    object that was in the store has changed. The new structure is loaded
    when it fits a call; when it does not, [loadData] throws, and the
    renderer is left without any mesh for the structure that the
    application now holds. *)
Theorem handleFiles_reloads (files : list File) (this : DNAVisualizerApp) (h : heap) :
  let documents := (read_files toLowerCase files this).1 in
  exists this' h' out,
    handleFiles toLowerCase files this h = Ok ((this', out), h')
    /\ (out = Rejected <-> exists file, In file files /\ file_text file = None)
    /\ topologyData this' = topologyData documents
    /\ configurationData this' = configurationData documents
    /\ (is_Some (topologyData this) -> is_Some (topologyData this'))
    /\ (is_Some (configurationData this) -> is_Some (configurationData this'))
    /\ (topologyData this' = topologyData this
        \/ exists file content document,
             In file files
             /\ file_text file = Some content
             /\ extension toLowerCase (file_name file) = js "psp"
             /\ TopologyParser.parse content = Ok document
             /\ topologyData this' = Some document)
    /\ (configurationData this' = configurationData this
        \/ exists file content document,
             In file files
             /\ file_text file = Some content
             /\ extension toLowerCase (file_name file) = js "dat"
             /\ ConfigurationParser.parse content = Ok document
             /\ configurationData this' = Some document)
    /\ (out = Rejected \/ topologyData documents = None \/ configurationData documents = None ->
        this' = documents /\ h' = h
        /\ renderer this' = renderer this /\ combinedData this' = combinedData this)
    /\ (out = Resolved ->
        forall topology configuration,
          topologyData documents = Some topology ->
          configurationData documents = Some configuration ->
          exists g h1,
            DataCombiner.combine topology configuration h = Ok (g, h1)
            /\ combinedData this' = Some g
            /\ extends h h'
            /\ h' !! boxOffset (renderer this') = Some zero_vector
            /\ selectionMeshes (renderer this') = ∅
            /\ data (renderer this') = Some g
            /\ (fits_a_call g -> loaded g (length h1) (renderer this') h')
            /\ (~ fits_a_call g ->
                nucleotideInstances (renderer this') = []
                /\ bondMeshes (renderer this') = [])).
Proof.
  intros documents.
  destruct (read_files_keep files this) as (Hr & Hc & Hts & Hcs & Htp & Hcp & Hout).
  fold documents in Hr, Hc, Hts, Hcs, Htp, Hcp.
  unfold handleFiles.
  destruct (read_files toLowerCase files this) as [docs out] eqn:Eread.
  cbn [fst snd] in *. subst documents.
  destruct out.
  - destruct (topologyData docs) as [topology |] eqn:Et.
    + destruct (configurationData docs) as [configuration |] eqn:Ec.
      * destruct (visualize_cases docs h topology configuration Et Ec)
          as (g & h1 & this' & h' & Hcomb & Hvis & Ht' & Hc' & Hcd & Hext & Hoff & Hfit & Hbig).
        exists this', h', Resolved.
        split; [rewrite (bind_returns _ _ _ _ _ Hvis); reflexivity |].
        split; [exact Hout |].
        rewrite Ht', Hc', Et, Ec.
        split; [reflexivity |]. split; [reflexivity |].
        split; [eauto |]. split; [eauto |].
        split.
        { destruct Htp as [Htp | (f & c & d & H1 & H2 & H3 & H4 & H5)]; [left; exact Htp |].
          right. exists f, c, d. auto. }
        split.
        { destruct Hcp as [Hcp | (f & c & d & H1 & H2 & H3 & H4 & H5)]; [left; exact Hcp |].
          right. exists f, c, d. auto. }
        split; [intros [H | [H | H]]; discriminate |].
        intros _ t c [= <-] [= <-]. exists g, h1.
        split; [exact Hcomb |]. split; [exact Hcd |]. split; [exact Hext |].
        split; [exact Hoff |].
        destruct (N.le_gt_cases (N.of_nat (length (particles g))) max_arguments)
          as [Hle | Hgt].
        -- pose proof (Hfit Hle) as Hl. pose proof Hl as (Hdata & _ & _ & _ & Hsel & _).
           split; [exact Hsel |]. split; [exact Hdata |].
           split; [intros _; exact Hl |]. intros Hno. exfalso. exact (Hno Hle).
        -- assert (Hno : ~ fits_a_call g) by (unfold fits_a_call; lia).
           rewrite (Hbig Hno). cbn.
           split; [reflexivity |]. split; [reflexivity |].
           split; [intros Hle; exfalso; exact (Hno Hle) |]. intros _. split; reflexivity.
      * exists docs, h, Resolved. rewrite ?Et, ?Ec.
        split; [reflexivity |]. split; [exact Hout |].
        split; [reflexivity |]. split; [reflexivity |].
        split; [exact Hts |]. split; [exact Hcs |].
        split; [exact Htp |]. split; [exact Hcp |].
        split; [intros _; auto |]. intros _ t c _ H. discriminate.
    + exists docs, h, Resolved. rewrite ?Et.
      split; [reflexivity |]. split; [exact Hout |].
      split; [reflexivity |]. split; [reflexivity |].
      split; [exact Hts |]. split; [exact Hcs |].
      split; [exact Htp |]. split; [exact Hcp |].
      split; [intros _; auto |]. intros _ t c H. discriminate.
  - exists docs, h, Rejected. split; [reflexivity |]. split; [exact Hout |].
    split; [reflexivity |]. split; [reflexivity |].
    split; [exact Hts |]. split; [exact Hcs |].
    split; [exact Htp |]. split; [exact Hcp |].
    split; [intros _; auto |]. intros H. discriminate.
Qed.

End FilesFacts.

(** ** Bond lines *)

Section BondLines.
Context {R : Rounding} {engine : Engine}.
Import Renderer.
Local Open Scope nat_scope.

Lemma CreateLineSystem_inv (points : list (loc * loc)) :
  forall (h h' : heap) (ls : LineSystem),
    CreateLineSystem points h = Ok (ls, h') -> h' = h /\ ls = lines_in h points.
Proof.
  unfold CreateLineSystem.
  induction points as [| p points IH]; intros h h' ls H.
  - injection H as <- <-. auto.
  - rewrite mapM_cons_M in H.
    unfold mbind at 1, M_bind at 1, read at 1 in H.
    destruct (h !! p.1) as [a |] eqn:Ea; [| discriminate].
    unfold mbind at 1, M_bind at 1, read at 1 in H.
    destruct (h !! p.2) as [b |] eqn:Eb; [| discriminate].
    unfold mret at 1, M_ret at 1 in H.
    match type of H with
    | match ?c with _ => _ end = _ => destruct c as [[ls' h2] |] eqn:E; [| discriminate]
    end.
    injection H as <- <-. destruct (IH h h2 ls' E) as [-> ->].
    split; [reflexivity |]. unfold lines_in. cbn [omap list_omap]. rewrite Ea, Eb. reflexivity.
Qed.

Lemma lines_in_extends (h ext : heap) (points : list (loc * loc)) :
  (forall p, In p points -> p.1 < length h /\ p.2 < length h) ->
  lines_in (h ++ ext) points = lines_in h points.
Proof.
  intros Hin. unfold lines_in. induction points as [| p points IH]; [reflexivity |].
  cbn [omap list_omap]. destruct (Hin p (or_introl eq_refl)) as [H1 H2].
  rewrite !lookup_app_l by assumption.
  rewrite <- (IH (fun q Hq => Hin q (or_intror Hq))). reflexivity.
Qed.

Lemma lines_in_length (h : heap) (points : list (loc * loc)) :
  (forall p, In p points -> p.1 < length h /\ p.2 < length h) ->
  length (lines_in h points) = length points.
Proof.
  intros Hin. unfold lines_in. induction points as [| p points IH]; [reflexivity |].
  cbn [omap list_omap]. destruct (Hin p (or_introl eq_refl)) as [H1 H2].
  destruct (lookup_lt_is_Some_2 h p.1 H1) as [a ->].
  destruct (lookup_lt_is_Some_2 h p.2 H2) as [b ->].
  simpl. f_equal. apply IH. intros q Hq. apply Hin. right. exact Hq.
Qed.

Lemma bond_points_in_store (ps : list Particle) (bs : list Bond) (h : heap) :
  (forall p, In p ps -> position p < length h) ->
  forall pt, In pt (omap (bond_points ps) bs) -> pt.1 < length h /\ pt.2 < length h.
Proof.
  intros Hin pt Hpt. apply list_elem_of_In, list_elem_of_omap in Hpt.
  destruct Hpt as [b [_ Hb]]. unfold bond_points in Hb.
  destruct (ps !! from b) as [p1 |] eqn:E1; [| discriminate].
  destruct (at_int ps (to b)) as [p2 |] eqn:E2; [| discriminate].
  injection Hb as <-. simpl. split; apply Hin.
  - exact (in_lookup _ _ _ E1).
  - exact (at_int_In _ _ _ E2).
Qed.

(** The line systems that [renderBonds] makes: none, or the same one
    twice. *)
Lemma renderBonds_lines (bs : list Bond) (ps : list Particle) (h h' : heap)
    (meshes : list LineSystem) :
  renderBonds bs ps h = Ok (meshes, h') ->
  h' = h
  /\ meshes = if 0 <? length (omap (bond_points ps) bs)
              then [lines_in h (omap (bond_points ps) bs);
                    lines_in h (omap (bond_points ps) bs)]
              else [].
Proof.
  unfold renderBonds. intros H.
  destruct (length bs =? 0) eqn:E.
  - apply Nat.eqb_eq in E. destruct bs; [| discriminate].
    injection H as <- <-. auto.
  - cbv zeta in H. destruct (0 <? length (omap (bond_points ps) bs)).
    + apply bind_inv in H. destruct H as (l1 & h1 & H1 & H).
      apply bind_inv in H. destruct H as (l2 & h2 & H2 & H).
      injection H as <- <-.
      apply CreateLineSystem_inv in H1. destruct H1 as [-> ->].
      apply CreateLineSystem_inv in H2. destruct H2 as [-> ->]. auto.
    + injection H as <- <-. auto.
Qed.

Lemma loadData_bondMeshes (g : StructureGraph) (this r1 : DNARenderer) (h0 h1 : heap) :
  graph_in_store g h0 = true ->
  loadData g this h0 = Ok (r1, h1) ->
  bondMeshes r1
  = if 0 <? length (omap (bond_points (particles g)) (bonds g))
    then [lines_in h0 (omap (bond_points (particles g)) (bonds g));
          lines_in h0 (omap (bond_points (particles g)) (bonds g))]
    else [].
Proof.
  intros Hg H.
  unfold loadData in H.
  apply bind_inv in H. destruct H as (this1 & ha & Ha & H).
  apply bind_inv in H. destruct H as (positions & hb & Hb & H).
  apply bind_inv in H. destruct H as (camera & hb' & Hcam & H).
  apply bind_inv in H. destruct H as (insts & hc & Hn & H).
  apply bind_inv in H. destruct H as (meshes & hd & Hm & H).
  injection H as <- Hd. cbn [bondMeshes].
  apply renderBonds_lines in Hm. destruct Hm as [-> ->].
  assert (Hext : exists ext, hc = h0 ++ ext).
  { destruct (begin_load_returns g this h0 Hg) as (vs & Hbegin & Hlen & _).
    rewrite Hbegin in Ha. injection Ha as _ <-.
    assert (Hpos : forall p, In p (particles g) ->
                             position p < length (h0 ++ [zero_vector] ++ vs)).
    { intros p Hp. pose proof (graph_positions_in_store g h0 Hg p Hp).
      rewrite length_app. lia. }
    destruct (read_positions (particles g) _ Hpos) as (positions' & Hread & _).
    change (h0 ++ zero_vector :: vs) with (h0 ++ [zero_vector] ++ vs) in Hb.
    rewrite Hread in Hb. injection Hb as _ <-.
    assert (hb' = h0 ++ [zero_vector] ++ vs).
    { unfold lift in Hcam. destruct (camera_of positions); [| discriminate].
      injection Hcam as _ <-. reflexivity. }
    subst hb'.
    destruct (renderNucleotides_returns (particles g) _ Hpos)
      as (insts' & vs' & Hn' & _).
    rewrite Hn' in Hn. injection Hn as _ <-.
    exists (([zero_vector] ++ vs) ++ vs'). rewrite <- !app_assoc. reflexivity. }
  destruct Hext as [ext ->].
  rewrite (lines_in_extends h0 ext).
  - reflexivity.
  - apply bond_points_in_store. exact (graph_positions_in_store g h0 Hg).
Qed.

Lemma instance_points_ext (r r' : DNARenderer) (b : Bond) :
  nucleotideInstances r' = nucleotideInstances r -> instance_points r' b = instance_points r b.
Proof. intros H. unfold instance_points, find_instance. rewrite H. reflexivity. Qed.

Lemma instance_lines_ext (r r' : DNARenderer) (bs : list Bond) :
  nucleotideInstances r' = nucleotideInstances r ->
  omap (instance_points r') bs = omap (instance_points r) bs.
Proof.
  intros H. induction bs as [| b bs IH]; [reflexivity |].
  cbn [omap list_omap]. rewrite (instance_points_ext r r' b H).
  destruct (instance_points r b); [f_equal |]; exact IH.
Qed.

(** The line systems after [updateParticlePositions]: the old ones are
    replaced by one system that joins the instances where they now stand. *)
Lemma updateParticlePositions_bondMeshes (g : StructureGraph) (box : V3.t)
    (r r' : DNARenderer) (h h' : heap) :
  data r = Some g ->
  md_box (metadata g) = Some box ->
  updateParticlePositions r h = Ok (r', h') ->
  bondMeshes r'
  = (if 0 <? length (bondMeshes r)
     then if 0 <? length (omap (instance_points r) (bonds g))
          then [lines_in h' (omap (instance_points r) (bonds g))]
          else []
     else bondMeshes r)
  /\ nucleotideInstances r' = nucleotideInstances r
  /\ data r' = data r.
Proof.
  intros Hdata Hbox H. unfold updateParticlePositions in H. rewrite Hdata, Hbox in H.
  apply bind_inv in H. destruct H as (u & h1 & _ & H).
  destruct (0 <? length (bondMeshes r)).
  - cbv zeta in H. destruct (0 <? length (omap (instance_points r) (bonds g))).
    + apply bind_inv in H. destruct H as (ls & h2 & Hls & H).
      injection H as <- <-. apply CreateLineSystem_inv in Hls. destruct Hls as [-> ->].
      auto.
    + injection H as <- <-. auto.
  - injection H as <- <-. auto.
Qed.

Lemma shiftParticles_bondMeshes (g : StructureGraph) (box : V3.t) (axis : jsstring)
    (amount : number) (r r' : DNARenderer) (h h' : heap) :
  data r = Some g ->
  md_box (metadata g) = Some box ->
  shiftParticles axis amount r h = Ok (r', h') ->
  bondMeshes r'
  = (if 0 <? length (bondMeshes r)
     then if 0 <? length (omap (instance_points r) (bonds g))
          then [lines_in h' (omap (instance_points r) (bonds g))]
          else []
     else bondMeshes r)
  /\ nucleotideInstances r' = nucleotideInstances r
  /\ data r' = data r.
Proof.
  intros Hdata Hbox H. unfold shiftParticles in H. rewrite Hdata, Hbox in H.
  apply bind_inv in H. destruct H as (off & h1 & _ & H).
  apply bind_inv in H. destruct H as (u & h2 & _ & H).
  exact (updateParticlePositions_bondMeshes g box r r' h2 h' Hdata Hbox H).
Qed.

Lemma shifts_bondMeshes (g : StructureGraph) (box : V3.t) (ops : list (jsstring * number)) :
  md_box (metadata g) = Some box ->
  forall op (r rn : DNARenderer) (h hn : heap),
    data r = Some g ->
    shifts (op :: ops) r h = Ok (rn, hn) ->
    bondMeshes rn
    = (if (0 <? length (bondMeshes r)) && (0 <? length (omap (instance_points r) (bonds g)))
       then [lines_in hn (omap (instance_points r) (bonds g))]
       else [])
    /\ nucleotideInstances rn = nucleotideInstances r.
Proof.
  intros Hbox. induction ops as [| op' ops IH]; intros [axis amount] r rn h hn Hdata H.
  - cbn [shifts] in H. apply bind_inv in H. destruct H as (r1 & h1 & H1 & H).
    injection H as <- <-.
    destruct (shiftParticles_bondMeshes g box axis amount r r1 h h1 Hdata Hbox H1)
      as (Hb & Hi & _).
    split; [| exact Hi]. rewrite Hb.
    destruct (bondMeshes r) as [| m ms]; [reflexivity |].
    change (0 <? length (m :: ms)) with true. reflexivity.
  - change (shifts ((axis, amount) :: op' :: ops) r h)
      with ((shiftParticles axis amount r ≫= shifts (op' :: ops)) h) in H.
    apply bind_inv in H. destruct H as (r1 & h1 & H1 & H).
    destruct (shiftParticles_bondMeshes g box axis amount r r1 h h1 Hdata Hbox H1)
      as (Hb & Hi & Hd).
    destruct (IH op' r1 rn h1 hn (eq_trans Hd Hdata) H) as (Hbn & Hin).
    split; [| congruence].
    rewrite Hbn, (instance_lines_ext r r1 (bonds g) Hi), Hb.
    destruct (bondMeshes r) as [| m ms]; [reflexivity |].
    change (0 <? length (m :: ms)) with true.
    destruct (0 <? length (omap (instance_points r) (bonds g))); reflexivity.
Qed.

(** In a graph whose indices are ranks, an array access to the particles
    and the search of an instance by index find the same particle. *)
Lemma find_instance_rank (g : StructureGraph) (r : DNARenderer) (z : jsint) :
  List.map inst_particle (nucleotideInstances r) ≡ₚ particles g ->
  indices_are_ranks g = true ->
  match at_int (particles g) z, find_instance r z with
  | Some p, Some inst => In inst (nucleotideInstances r) /\ inst_particle inst = p
  | None, None => True
  | _, _ => False
  end.
Proof.
  intros Hperm Hranks.
  assert (Hrank : forall j p, particles g !! j = Some p -> index p = j).
  { intros j p Hj. unfold indices_are_ranks in Hranks. rewrite forallb_forall in Hranks.
    assert (Hin : In (j, p) (imap pair (particles g))).
    { apply list_elem_of_In, list_elem_of_lookup. exists j.
      rewrite list_lookup_imap, Hj. reflexivity. }
    specialize (Hranks _ Hin). simpl in Hranks. apply Nat.eqb_eq. exact Hranks. }
  destruct (find_instance r z) as [inst |] eqn:F.
  - unfold find_instance in F. apply find_some in F. destruct F as [Hin Hz].
    apply int_eqb_true in Hz. destruct Hz as (w & Hw & ->).
    unfold idx in Hw. injection Hw as <-.
    assert (Hp : In (inst_particle inst) (particles g)).
    { apply (Permutation_in _ Hperm). apply in_map. exact Hin. }
    apply list_elem_of_In, list_elem_of_lookup in Hp. destruct Hp as [j Hj].
    pose proof (Hrank j _ Hj) as Hidx.
    unfold at_int. rewrite (proj2 (Z.leb_le 0 _) (Nat2Z.is_nonneg _)).
    rewrite Nat2Z.id, Hidx, Hj. auto.
  - unfold at_int. destruct z as [w |]; [| exact I].
    destruct (0 <=? w)%Z eqn:E; [| exact I].
    destruct (particles g !! Z.to_nat w) as [p |] eqn:Ep; [| exact I].
    apply Z.leb_le in E.
    assert (Hp : In p (List.map inst_particle (nucleotideInstances r))).
    { apply (Permutation_in _ (Permutation_sym Hperm)). exact (in_lookup _ _ _ Ep). }
    apply in_map_iff in Hp. destruct Hp as (inst & Hi & Hin).
    unfold find_instance in F. pose proof (find_none _ _ F inst Hin) as Hn. simpl in Hn.
    rewrite Hi, (Hrank _ _ Ep) in Hn. unfold idx, int_eqb in Hn.
    rewrite Z2Nat.id in Hn by exact E. rewrite Z.eqb_refl in Hn. discriminate.
Qed.

Lemma at_int_idx {A} (l : list A) (n : nat) : at_int l (idx n) = l !! n.
Proof.
  unfold at_int, idx. rewrite (proj2 (Z.leb_le 0 _) (Nat2Z.is_nonneg _)).
  rewrite Nat2Z.id. reflexivity.
Qed.

(** Bond by bond, the lines after a shift join the instances of the
    particles whose positions the lines joined at the load. *)
Lemma instance_lines_join (g : StructureGraph) (r : DNARenderer) (bs : list Bond) :
  List.map inst_particle (nucleotideInstances r) ≡ₚ particles g ->
  indices_are_ranks g = true ->
  Forall2 (joins_instances r) (omap (bond_points (particles g)) bs)
          (omap (instance_points r) bs).
Proof.
  intros Hperm Hranks. induction bs as [| b bs IH]; [constructor |].
  cbn [omap list_omap]. unfold bond_points at 1, instance_points at 1.
  pose proof (find_instance_rank g r (idx (from b)) Hperm Hranks) as H1.
  pose proof (find_instance_rank g r (to b) Hperm Hranks) as H2.
  rewrite at_int_idx in H1.
  destruct (particles g !! from b) as [pf |], (find_instance r (idx (from b))) as [i1 |];
    try contradiction; [| exact IH].
  destruct (at_int (particles g) (to b)) as [pt |], (find_instance r (to b)) as [i2 |];
    try contradiction; [| exact IH].
  destruct H1 as [Hi1 <-], H2 as [Hi2 <-].
  constructor; [| exact IH]. exists i1, i2. auto.
Qed.

(** X27. Bond lines. The documents combined and the graph loaded, which
    returns when the graph fits a call, the renderer holds no line system
    when no bond has both ends among the particles, and otherwise the same
    system twice: one line per such bond, between the positions its two
    particles have in the configuration. After at least one shift it holds
    one system with as many lines, the line of each bond joining the two
    instances of its particles where they stand after the last shift. *)
Theorem bond_lines_follow_instances topology configuration (this : DNARenderer)
    (h : heap) (op : jsstring * number) (ops : list (jsstring * number)) :
  let count := Nat.min (length (topo_particles topology))
                       (length (conf_nucleotides configuration)) in
  exists g h1,
    DataCombiner.combine topology configuration h = Ok (g, h1)
    /\ ((N.of_nat count <= max_arguments)%N ->
        exists r1 h2 rn hn lines,
          loadData g this h1 = Ok (r1, h2)
          /\ shifts (op :: ops) r1 h2 = Ok (rn, hn)
          /\ let raw := omap (bond_points (particles g)) (bonds g) in
             bondMeshes r1
             = (if 0 <? length raw then [lines_in h1 raw; lines_in h1 raw] else [])
             /\ bondMeshes rn = (if 0 <? length raw then [lines_in hn lines] else [])
             /\ Forall2 (joins_instances rn) raw lines
             /\ length (lines_in h1 raw) = length raw
             /\ length (lines_in hn lines) = length raw).
Proof.
  intros count.
  destruct (combine_indices_are_ranks topology configuration h)
    as (g & ext & Hc & Hcount & Hg & Hr).
  exists g, (h ++ ext). split; [exact Hc |].
  intros Hfits.
  assert (Hfits' : fits_a_call g) by (unfold fits_a_call; rewrite Hcount; exact Hfits).
  destruct (loadData_returns g this (h ++ ext) Hg Hfits')
    as (r1 & vs1 & vs2 & Hload & Hl1 & _ & _ & _ & _ & Hperm).
  set (h2 := (h ++ ext) ++ [zero_vector] ++ vs1 ++ vs2) in *.
  destruct (shifts_returns g (length (h ++ ext)) (op :: ops) r1 h2 Hl1)
    as (rn & hn & Hshift & Hln & Hinst & _).
  assert (Hbox : exists box, md_box (metadata g) = Some box).
  { destruct (combine_returns topology configuration h) as (ps & ext' & Hc' & _).
    rewrite Hc in Hc'. injection Hc' as -> _. eexists. reflexivity. }
  destruct Hbox as [box Hbox].
  pose proof Hl1 as (Hdata & _).
  destruct (shifts_bondMeshes g box ops Hbox op r1 rn h2 hn Hdata Hshift) as (Hbn & _).
  pose proof (loadData_bondMeshes g this r1 (h ++ ext) h2 Hg Hload) as Hb1.
  pose proof (instance_lines_join g r1 (bonds g) Hperm Hr) as Hjoin.
  pose proof (Forall2_length _ _ _ Hjoin) as Hlen.
  exists r1, h2, rn, hn, (omap (instance_points r1) (bonds g)).
  split; [exact Hload |]. split; [exact Hshift |].
  cbv zeta. split; [exact Hb1 |].
  split.
  { rewrite Hbn, Hb1, <- Hlen.
    destruct (0 <? length (omap (bond_points (particles g)) (bonds g))); reflexivity. }
  split.
  { apply (Forall2_impl _ _ _ _ Hjoin). intros raw line (i1 & i2 & H1 & H2 & H3 & H4).
    exists i1, i2. rewrite Hinst. auto. }
  split.
  - apply lines_in_length. apply bond_points_in_store.
    exact (graph_positions_in_store g (h ++ ext) Hg).
  - rewrite Hlen. apply lines_in_length.
    pose proof Hln as (_ & _ & _ & Hpos & _ & Hlenn).
    rewrite <- (instance_lines_ext r1 rn (bonds g) Hinst).
    apply (instance_points_in_store rn _ _ hn (bonds g) Hpos). lia.
Qed.

End BondLines.

(** ** Colours *)

Section ColourFacts.
Import ColorMapper.

Lemma scale_between (d x : Q) :
  (0 <= d)%Q -> (0 <= x)%Q -> (x <= 1)%Q -> (0 <= d * x)%Q /\ (d * x <= d)%Q.
Proof.
  intros Hd H0 H1. split.
  - apply Qmult_le_0_compat; assumption.
  - assert (H : (0 <= d * (1 - x))%Q) by (apply Qmult_le_0_compat; lra).
    assert (E : (d * (1 - x) == d - d * x)%Q) by ring.
    rewrite E in H. lra.
Qed.

(** For a hue in [[-1, 2]] the helper returns a value between [p] and
    [q]. *)
Lemma hue2rgb_between (p q t : Q) :
  (p <= q)%Q -> (-1 <= t)%Q -> (t <= 2)%Q ->
  exists v : Q, hue2rgb (Fin p) (Fin q) (Fin t) = Fin v /\ (p <= v)%Q /\ (v <= q)%Q.
Proof.
  intros Hpq Ht1 Ht2. unfold hue2rgb.
  change (div (Fin 1) (Fin 6)) with (Fin (1 # 6)).
  change (div (Fin 1) (Fin 2)) with (Fin (1 # 2)).
  change (div (Fin 2) (Fin 3)) with (Fin (2 # 3)).
  assert (Hadj : exists t' : Q,
             (if lt (if lt (Fin t) (Fin 0) then add (Fin t) (Fin 1) else Fin t) (Fin 1)
              then Fin 0 else Fin 0) = Fin 0
             /\ (let u := if lt (Fin t) (Fin 0) then add (Fin t) (Fin 1) else Fin t in
                 if lt (Fin 1) u then sub u (Fin 1) else u) = Fin t'
             /\ (0 <= t')%Q /\ (t' <= 1)%Q).
  { unfold lt, add, sub, neg. destruct (Qlt_le_dec t 0) as [Hn | Hp].
    - destruct (Qlt_le_dec 1 (t + 1)) as [H | H]; [lra |].
      exists (t + 1)%Q. split; [destruct (Qlt_le_dec (t + 1) 1); reflexivity |].
      cbv zeta. destruct (Qlt_le_dec 1 (t + 1)); [lra |]. split; [reflexivity | lra].
    - destruct (Qlt_le_dec 1 t) as [H | H].
      + exists (t + - 1)%Q. split; [destruct (Qlt_le_dec t 1); reflexivity |].
        cbv zeta. destruct (Qlt_le_dec 1 t); [| lra]. split; [reflexivity | lra].
      + exists t. split; [destruct (Qlt_le_dec t 1); reflexivity |].
        cbv zeta. destruct (Qlt_le_dec 1 t); [lra |]. split; [reflexivity | lra]. }
  destruct Hadj as (t' & _ & Ht' & H0 & H1). cbv zeta in Ht' |- *. rewrite Ht'.
  unfold lt, add, sub, neg, mul.
  destruct (Qlt_le_dec t' (1 # 6)) as [Ha | Ha].
  - eexists. split; [reflexivity |].
    destruct (scale_between (q - p) (6 * t')) as [L U]; [lra | lra | lra |].
    assert (E : ((q + - p) * 6 * t' == (q - p) * (6 * t'))%Q) by ring.
    rewrite E. lra.
  - destruct (Qlt_le_dec t' (1 # 2)) as [Hb | Hb].
    + exists q. split; [reflexivity | lra].
    + destruct (Qlt_le_dec t' (2 # 3)) as [Hc | Hc].
      * eexists. split; [reflexivity |].
        destruct (scale_between (q - p) (6 * ((2 # 3) - t'))) as [L U]; [lra | lra | lra |].
        assert (E : ((q + - p) * ((2 # 3) + - t') * 6 == (q - p) * (6 * ((2 # 3) - t')))%Q)
          by ring.
        rewrite E. lra.
      * exists p. split; [reflexivity | lra].
Qed.

(** The colour of a hue, a saturation and a lightness of [[0, 1]] has its
    channels in [[0, 1]]. *)
Lemma hslToRgb_displayable (h s l : Q) :
  (0 <= h)%Q -> (h <= 1)%Q -> (0 <= s)%Q -> (s <= 1)%Q -> (0 <= l)%Q -> (l <= 1)%Q ->
  displayable (hslToRgb (Fin h) (Fin s) (Fin l)).
Proof.
  intros Hh0 Hh1 Hs0 Hs1 Hl0 Hl1. unfold hslToRgb.
  destruct (strict_eq (Fin s) (Fin 0)).
  - unfold displayable. simpl. auto.
  - change (div (Fin 1) (Fin 3)) with (Fin (1 # 3)).
    assert (Hpq : exists p q : Q,
               (if lt (Fin l) (Fin (1 # 2)) then mul (Fin l) (add (Fin 1) (Fin s))
                else sub (add (Fin l) (Fin s)) (mul (Fin l) (Fin s))) = Fin q
               /\ sub (mul (Fin 2) (Fin l)) (Fin q) = Fin p
               /\ (0 <= p)%Q /\ (p <= q)%Q /\ (q <= 1)%Q).
    { destruct (scale_between l s Hl0 Hs0 Hs1) as [A1 A2].
      destruct (scale_between s (1 - l) Hs0) as [B1 B2]; [lra | lra |].
      assert (E : (s * (1 - l) == s - l * s)%Q) by ring. rewrite E in B1, B2.
      destruct (scale_between (1 - l) s) as [C1 C2]; [lra | lra | lra |].
      assert (E' : ((1 - l) * s == s - l * s)%Q) by ring. rewrite E' in C1, C2.
      unfold lt, add, sub, neg, mul. destruct (Qlt_le_dec l (1 # 2)) as [Hl | Hl].
      - exists (2 * l + - (l * (1 + s)))%Q, (l * (1 + s))%Q.
        split; [reflexivity |]. split; [reflexivity |].
        assert (E2 : (l * (1 + s) == l + l * s)%Q) by ring. rewrite E2.
        split; [lra |]. split; lra.
      - exists (2 * l + - (l + s + - (l * s)))%Q, (l + s + - (l * s))%Q.
        split; [reflexivity |]. split; [reflexivity |].
        split; [lra |]. split; lra. }
    destruct Hpq as (p & q & Hq & Hp & Hp0 & Hpq & Hq1).
    cbv zeta. rewrite Hq, Hp.
    change (add (Fin h) (Fin (1 # 3))) with (Fin (h + (1 # 3))).
    change (sub (Fin h) (Fin (1 # 3))) with (Fin (h + - (1 # 3))).
    destruct (hue2rgb_between p q (h + (1 # 3)) Hpq) as (v1 & -> & L1 & U1); [lra | lra |].
    destruct (hue2rgb_between p q h Hpq) as (v2 & -> & L2 & U2); [lra | lra |].
    destruct (hue2rgb_between p q (h + - (1 # 3)) Hpq) as (v3 & -> & L3 & U3); [lra | lra |].
    unfold displayable, unit_interval. cbn [r g b].
    repeat split; lra.
Qed.

(** X28. In exact arithmetic, [hslToRgb] maps every hue, saturation and
    lightness of [[0, 1]] to a colour whose three channels are in
    [[0, 1]]; without saturation the three channels are the lightness. *)
Theorem hslToRgb_in_gamut (h s l : Q) :
  (0 <= h)%Q -> (h <= 1)%Q -> (0 <= s)%Q -> (s <= 1)%Q -> (0 <= l)%Q -> (l <= 1)%Q ->
  displayable (hslToRgb (Fin h) (Fin s) (Fin l))
  /\ hslToRgb (Fin h) (Fin 0) (Fin l) = {| r := Fin l; g := Fin l; b := Fin l |}.
Proof.
  intros Hh0 Hh1 Hs0 Hs1 Hl0 Hl1.
  split; [apply hslToRgb_displayable; assumption | reflexivity].
Qed.

End ColourFacts.

Lemma hslToRgb_in_gamut_witness :
  displayable (ColorMapper.hslToRgb (Fin (1 # 2)) (Fin (7 # 10)) (Fin (6 # 10)))
  /\ ColorMapper.hslToRgb (Fin (1 # 2)) (Fin 0) (Fin (6 # 10))
     = {| ColorMapper.r := Fin (6 # 10); ColorMapper.g := Fin (6 # 10);
          ColorMapper.b := Fin (6 # 10) |}.
Proof.
  apply hslToRgb_in_gamut; lra.
Defined.

Section PaletteFacts.
Import ColorMapper.

Lemma gradient_fold (keys : list Z) :
  forall (palette : gmap Z Color) (z : Z),
    fold_left (fun palette i =>
                 match palette !! i with
                 | Some _ => palette
                 | None => <[i := gradient i]> palette
                 end) keys palette !! z
    = match palette !! z with
      | Some c => Some c
      | None => if bool_decide (z ∈ keys) then Some (gradient z) else None
      end.
Proof.
  induction keys as [| i keys IH]; intros palette z.
  - simpl. destruct (palette !! z); reflexivity.
  - cbn [fold_left]. rewrite IH. destruct (palette !! i) as [c |] eqn:Ei.
    + destruct (palette !! z) as [c' |] eqn:Ez; [reflexivity |].
      assert (z <> i) by congruence.
      destruct (bool_decide (z ∈ keys)) eqn:E.
      * apply bool_decide_eq_true in E.
        rewrite bool_decide_eq_true_2 by (right; exact E). reflexivity.
      * apply bool_decide_eq_false in E.
        rewrite bool_decide_eq_false_2; [reflexivity |].
        intros Hin. apply elem_of_cons in Hin. destruct Hin; [contradiction | auto].
    + destruct (decide (z = i)) as [-> | Hne].
      * rewrite lookup_insert_eq, Ei.
        rewrite bool_decide_eq_true_2 by left. reflexivity.
      * rewrite lookup_insert_ne by congruence.
        destruct (palette !! z) as [c' |]; [reflexivity |].
        destruct (bool_decide (z ∈ keys)) eqn:E.
        -- apply bool_decide_eq_true in E.
           rewrite bool_decide_eq_true_2 by (right; exact E). reflexivity.
        -- apply bool_decide_eq_false in E.
           rewrite bool_decide_eq_false_2; [reflexivity |].
           intros Hin. apply elem_of_cons in Hin. destruct Hin; [contradiction | auto].
Qed.

(** The palette of a new [ColorMapper]: the three colours of the
    constructor, and the gradient for the other values from -100 to 100. *)
Lemma colorPalette_lookup (z : Z) :
  colorPalette !! z
  = match fixed_palette !! z with
    | Some c => Some c
    | None => if bool_decide (-100 <= z <= 100)%Z then Some (gradient z) else None
    end.
Proof.
  unfold colorPalette, generateGradient. rewrite gradient_fold.
  destruct (fixed_palette !! z); [reflexivity |].
  destruct (bool_decide (z ∈ seqZ (-100) 201)) eqn:E.
  - apply bool_decide_eq_true in E. apply elem_of_seqZ in E.
    rewrite bool_decide_eq_true_2 by lia. reflexivity.
  - apply bool_decide_eq_false in E.
    rewrite bool_decide_eq_false_2; [reflexivity |].
    intros H. apply E. apply elem_of_seqZ. lia.
Qed.

Lemma fixed_palette_lookup (z : Z) :
  fixed_palette !! z
  = if (z =? -21)%Z then Some {| r := Fin (2 # 10); g := Fin (6 # 10); b := Fin 1 |}
    else if (z =? 21)%Z then Some {| r := Fin 1; g := Fin (3 # 10); b := Fin (3 # 10) |}
    else if (z =? 100)%Z
         then Some {| r := Fin (7 # 10); g := Fin (7 # 10); b := Fin (7 # 10) |}
    else None.
Proof.
  unfold fixed_palette.
  destruct (Z.eqb_spec z (-21)) as [-> | H1]; [apply lookup_insert_eq |].
  rewrite lookup_insert_ne by congruence.
  destruct (Z.eqb_spec z 21) as [-> | H2]; [apply lookup_insert_eq |].
  rewrite lookup_insert_ne by congruence.
  destruct (Z.eqb_spec z 100) as [-> | H3]; [apply lookup_insert_eq |].
  rewrite lookup_insert_ne by congruence. apply lookup_empty.
Qed.

Lemma gradient_displayable (z : Z) :
  (-100 <= z <= 100)%Z -> displayable (gradient z).
Proof.
  intros [Hlo Hhi]. unfold gradient. cbv zeta. unfold of_int.
  change (add (Fin (inject_Z z)) (Fin 100)) with (Fin (inject_Z z + 100)).
  change (div (Fin (inject_Z z + 100)) (Fin 200))
    with (Fin ((inject_Z z + 100) * (1 # 200))).
  change (mul (Fin ((inject_Z z + 100) * (1 # 200))) (Fin (8 # 10)))
    with (Fin ((inject_Z z + 100) * (1 # 200) * (8 # 10))).
  assert (H1 : (inject_Z (-100) <= inject_Z z)%Q) by (rewrite <- Zle_Qle; exact Hlo).
  assert (H2 : (inject_Z z <= inject_Z 100)%Q) by (rewrite <- Zle_Qle; exact Hhi).
  change (inject_Z (-100)) with (-100)%Q in H1. change (inject_Z 100) with 100%Q in H2.
  apply hslToRgb_displayable; lra.
Qed.

(** X29. The colour of a colour code. A new [ColorMapper] has a colour for
    every code: the three colours of the constructor for -21, 21 and 100,
    which the gradient does not overwrite, the colour of the gradient for
    every other integer from -100 to 100, and the grey of 100 for every
    other code, NaN included. In exact arithmetic the three channels of
    each of these colours are in [[0, 1]]. *)
Theorem getColor_palette (colorCode : jsint) :
  exists color,
    getColor colorPalette colorCode = Some color
    /\ displayable color
    /\ (colorCode = Int (-21) ->
        color = {| r := Fin (2 # 10); g := Fin (6 # 10); b := Fin 1 |})
    /\ (colorCode = Int 21 ->
        color = {| r := Fin 1; g := Fin (3 # 10); b := Fin (3 # 10) |})
    /\ (forall z, colorCode = Int z -> (-100 <= z <= 100)%Z ->
                  z <> (-21)%Z -> z <> 21%Z -> z <> 100%Z -> color = gradient z)
    /\ (colorCode = Int 100 \/ colorCode = IntNaN
        \/ (exists z, colorCode = Int z /\ (z < -100 \/ 100 < z)%Z) ->
        color = {| r := Fin (7 # 10); g := Fin (7 # 10); b := Fin (7 # 10) |}).
Proof.
  set (blue := {| r := Fin (2 # 10); g := Fin (6 # 10); b := Fin 1 |}).
  set (red := {| r := Fin 1; g := Fin (3 # 10); b := Fin (3 # 10) |}).
  set (grey := {| r := Fin (7 # 10); g := Fin (7 # 10); b := Fin (7 # 10) |}).
  assert (Hblue : displayable blue) by (unfold displayable, unit_interval; simpl; lra).
  assert (Hred : displayable red) by (unfold displayable, unit_interval; simpl; lra).
  assert (Hgrey : displayable grey) by (unfold displayable, unit_interval; simpl; lra).
  assert (H100 : colorPalette !! 100%Z = Some grey).
  { rewrite colorPalette_lookup, fixed_palette_lookup. reflexivity. }
  unfold getColor. destruct colorCode as [z |].
  - cbv zeta. rewrite colorPalette_lookup, fixed_palette_lookup.
    destruct (Z.eqb_spec z (-21)) as [-> | H1].
    { exists blue. split; [reflexivity |]. split; [exact Hblue |].
      split; [reflexivity |]. split; [discriminate |].
      split; [intros z [= <-] _ H; contradiction |].
      intros [H | [H | (z & [= <-] & Hz)]]; [discriminate | discriminate | lia]. }
    destruct (Z.eqb_spec z 21) as [-> | H2].
    { exists red. split; [reflexivity |]. split; [exact Hred |].
      split; [discriminate |]. split; [reflexivity |].
      split; [intros z [= <-] _ _ H; contradiction |].
      intros [H | [H | (z & [= <-] & Hz)]]; [discriminate | discriminate | lia]. }
    destruct (Z.eqb_spec z 100) as [-> | H3].
    { exists grey. split; [reflexivity |]. split; [exact Hgrey |].
      split; [discriminate |]. split; [discriminate |].
      split; [intros z [= <-] _ _ _ H; contradiction |]. reflexivity. }
    destruct (bool_decide (-100 <= z <= 100)%Z) eqn:E.
    + apply bool_decide_eq_true in E.
      exists (gradient z). split; [reflexivity |].
      split; [exact (gradient_displayable z E) |].
      split; [intros [= ->]; contradiction |]. split; [intros [= ->]; contradiction |].
      split; [intros z' [= <-] _ _ _ _; reflexivity |].
      intros [[= ->] | [H | (z' & [= <-] & Hz)]]; [contradiction | discriminate | lia].
    + apply bool_decide_eq_false in E. rewrite H100.
      exists grey. split; [reflexivity |]. split; [exact Hgrey |].
      split; [intros [= ->]; contradiction |]. split; [intros [= ->]; contradiction |].
      split; [intros z' [= <-] Hz; contradiction |]. reflexivity.
  - cbv zeta. rewrite H100. exists grey.
    split; [reflexivity |]. split; [exact Hgrey |].
    split; [discriminate |]. split; [discriminate |].
    split; [discriminate |]. reflexivity.
Qed.

End PaletteFacts.
